(* ===== verification/_CoqProject ===== *)
-Q . S2P
Prelude.v
GoStrings.v
Sha256.v
ApiTypes.v
Model.v
Hostnames.v
Helpers.v
Ingestion.v
Envoy.v
VirtualHost.v
Listeners.v
Translator.v
TranslatorFacts.v
FrontTranslators.v
Annotations.v
IngressIngestion.v
IngressTranslator.v
ApiServer.v
EnvoyConfig.v
IngressReconcile.v
Status.v
RouteChecker.v
RouteCheckerFacts.v
RouteInputs.v
RouteControllers.v
RouteReconcile.v
GatewayListeners.v
GatewayListenersFacts.v
ListenerStatus.v
ListenerStatusFacts.v
RouteStatus.v
RouteStatusFacts.v
PolicyStatus.v
PolicyStatusFacts.v
GatewayReconcile.v
GatewayReconcileFacts.v
GatewayTotal.v
Discovery.v
SchemeTypes.v
GatewayClass.v
IngressCell.v
IngressWatches.v
Watches.v
WatchesFacts.v
GatewaySetup.v
IngressSettled.v
GatewaySample.v
Operator.v
EndpointGC.v
Spire.v
LogController.v
Upload.v
Serving.v
OperatorOption.v
IdentityWatcher.v
Diagnostics.v
OperatorParts.v
