(* ===== verification/Prelude.v ===== *)
(** * The dolphin gateway controller: verification library

    The program (src/) is a Kubernetes operator.  Its core, under src/pkg, turns
    Gateway API objects and Ingresses into a configuration for the Envoy proxy
    in three stages:

    - ingestion (pkg/model/ingestion) reads the API objects and builds the
      internal model (pkg/model/model.go): HTTP, TLS, TCP and UDP listeners with
      their routes and backends;
    - translation (pkg/model/translation) turns a model into a
      DolphinEnvoyConfig: Envoy listeners, route configurations, virtual hosts,
      clusters and the services they use;
    - two wrappers (translation/gateway-api and translation/ingress) add the
      Service and the Endpoints that expose the proxy.

    The reconcilers (pkg/gateway_api, pkg/ingress) read the objects from the API
    server, call the stages and write the result back.

    ** Files

    - [Prelude]: the [go] monad (a Go function returns or panics with a nil
      dereference, an index out of range or a call of [panic]), loops ([go_map], [go_flat_map],
      [go_foldl]) with total-correctness lemmas ([yields]), machine integers
      ([u16], [u32], [i32]), stable sorting, and [MapRange], the order in which
      Go ranges over a map.
    - [GoStrings], [Sha256]: strings as byte sequences with the functions of the
      Go standard library the code uses, the byte order on strings, SHA-256.
    - [ApiTypes]: the Kubernetes and Gateway API objects as the code reads them.
      A pointer is an [option]; a slice is a list, or an [option] of one where the
      code tells nil from empty.
    - [Model] (Module model): pkg/model/model.go.
    - [Hostnames] (Modules helper, gateway): pkg/model/helper.go and the hostname
      functions of pkg/gateway_api/helpers/gateway.go.
    - [Helpers] (Modules types, namespaces, referencegrants, conditions, equal,
      listenerset, backendtlspolicy): the files of those names under
      pkg/gateway_api/helpers.
    - [Ingestion] (Module ingestion): pkg/model/ingestion/gateway.go.
    - [Envoy] (Modules envoy_api, envoy): the Envoy messages that are built,
      pkg/envoy/xds.go, and the classes for code of other repositories.
    - [VirtualHost] (Module virtual_host): translation/envoy_virtual_host.go.
    - [Listeners] (Module listeners): translation/envoy_listener.go,
      envoy_http_connection_manager.go, envoy_route_configuration.go and
      envoy_cluster.go.
    - [Translator], [TranslatorFacts] (Modules translation, translation_facts):
      translation/translator.go and its theorems.
    - [FrontTranslators] (Module gateway_api): translation/gateway-api.
    - [Annotations] (Modules strconv, time, annotations):
      pkg/ingress/annotations/annotations.go with the parsers it calls.
    - [IngressIngestion] (Modules networkingv1, ingress_ingestion):
      pkg/model/ingestion/ingress.go.
    - [IngressTranslator] (Module ingress): translation/ingress, and how
      pkg/ingress/ingress_reconcile.go builds the model of a dedicated Ingress.
    - [ApiServer] (Module api): the Kubernetes API server as an abstract world
      behind the client calls the reconcilers make, and their monad.
    - [EnvoyConfig] (Module dolphinenvoyconfig): the controller of
      pkg/dolphinenvoyconfig, which gives Services a configuration of their own.
    - [IngressReconcile] (Module ingress_reconcile): the reconcile loop of
      pkg/ingress/ingress_reconcile.go with pkg/ingress/helpers.go;
      [IngressWatches] (Module ingress_watches): which changes make it run
      (pkg/ingress/ingress.go); [IngressCell] (Module ingress_cell): its
      configuration and registration (pkg/ingress/cell.go); [IngressSettled]
      (Module ingress_settled): that the loop settles.
    - [Status] (Modules status, certs, cmp): the conditions of
      pkg/gateway_api/status.go and gateway_status.go, PEM checks.
    - [RouteChecker], [RouteCheckerFacts], [RouteInputs] (Modules routechecker,
      routechecker_facts, routeinputs): pkg/gateway_api/routechecker, the checks
      as a table over an interface [Input], which the kinds of routes implement.
    - [RouteControllers], [RouteReconcile] (Modules route_controllers,
      route_reconcile): the TLSRoute and GRPCRoute reconcilers.
    - [GatewayListeners], [ListenerStatus], [RouteStatus], [PolicyStatus] with
      their [Facts] files: the listeners of a Gateway and its ListenerSets, their
      conflicts and statuses, the statuses of routes (status_route.go) and of
      BackendTLSPolicies (policychecks), as gateway_reconcile.go uses them.
    - [GatewayReconcile], [GatewayReconcileFacts], [GatewayTotal]: the Gateway
      reconciler (gateway_reconcile.go), what a run leaves, and that it returns.
    - [GatewayClass]: the GatewayClass reconciler and its predicates.
    - [Discovery] (Module discovery): pkg/gateway_api/cell.go, the search for the
      definitions of the Gateway API and the registration that depends on it.
    - [SchemeTypes] (Module gateway_scheme): the concrete types of the kinds
      (helpers/types.go) and their registration (scheme/scheme.go).
    - [Watches], [WatchesFacts]: the indexes, event handlers and predicates of the
      Gateway API controllers and of Secret synchronisation; [GatewaySetup]
      (Module gateway_setup): SetupWithManager of gateway.go, which registers them,
      against what discovery finds and the scheme knows.
    - [Diagnostics] (Modules phases, cache_sync, class_monitor): what the Gateway
      API controllers log about themselves.
    - [GatewaySample]: a concrete world in which the theorems are put to use.
    - [Operator] (Module operator): the start and stop hooks of src/cmd/root.go
      with leader election, as a step relation.
    - [OperatorOption] (Module option): src/option/config.go.
    - [Serving] (Module operator_api): the HTTP server and health check of src/api.
    - [EndpointGC], [Spire], [IdentityWatcher]: src/endpointgc/gc.go,
      src/auth/spire/client.go and src/auth/watcher.go, which uses the client
      through an interface.
    - [LogController] (Modules filepath, microsvclog): the log controller of
      src/scalable, its uploads and their semaphore as a step relation; [Upload]
      (Module awss3): the upload of a directory, a goroutine and a loop over a
      channel, likewise.
    - [OperatorParts] (Modules identitygc, legacy, resources): the hooks of the
      identity collector and of the leader, the index of endpoints.

    Definitions keep the names of the Go functions; loop bodies and branches of
    long functions are definitions of their own.  Functions that can panic return
    in [go]; an error result is a sum.  A mutated map is threaded through the
    loop that mutates it.  Log lines are left out, except in [Diagnostics].

    ** Code of other repositories

    It enters as classes: [Infra] (the slice and integer helpers of
    github.com/ccfish2/infra) with [InfraLaws], [Proto] (protobuf encoding) with
    [ProtoLaws], [LabelSelectors], [Annotation] (annotation lookup) with
    [AnnotationLaws], [Client] (controller-runtime) with [ClientLaws],
    [ApiErrorText] and [K8sErrors] (the errors of the API server), [Scheme],
    [Clock], [Regexp], [Pem], [EnvoyConfigJson] (JSON texts),
    [GatewayClassConfigNames] and [EnvoyConfigNames], [GatewayFeatures],
    [EnvoyConfigLib], [Owners] (requests for the owners of an object), [Viper]
    (the options), [EntryServer] (the SPIRE server), [SchemeLib] (the scheme of
    apimachinery) with [SchemeLaws], and [Modes] (constants).  Those with laws have a concrete instance,
    used by the witnesses, that satisfies them.  The number of trusted hops and the label of original
    source addresses are arguments of the definitions that use them.  Go leaves
    the iteration order of maps open: [MapRange] is any order that lists every
    key once, and the theorems hold for all of them.

    ** What is proved

    - No panics: [ingestion.GatewayAPI_well_formed] (ingestion returns on inputs that
      satisfy the API schema, and its listeners are the effective listeners of the
      Gateway; when request mirrors name their ports, the model satisfies
      [model_ok]), [virtual_host.NewVirtualHost_total],
      [translation_facts.pipeline_total] (ingestion followed by translation, under
      the same condition on mirrors), [ingress.dedicated_pipeline] (the same for
      Ingresses whose backends are Services, with the names and node ports of the
      result).  What the conditions exclude does panic:
      [translation_facts.portless_mirror_panics],
      [ingress_ingestion.resource_backend_panics],
      [gateway_total.unnamespaced_config_panics].  They are stated apart from the
      schemas ([valid_input], [admitted_ingress], [gateway_total.admitted]), which
      do not demand them.
    - The configuration is closed and deterministic:
      [translation_facts.Translate_clusters], [Translate_deterministic],
      [route_configurations_hosts], [getBackendServices_spec],
      [getServices_ports].
    - Loops against references: [virtual_host.envoyHTTPRoutes_reference] and
      [NewVirtualHost_order], [ingress_ingestion.Ingress_listeners] and
      [IngressPassthrough_listeners], [ingestion.GatewayAPI_listeners].
    - Access control and hosts: [ingestion.toHTTPRoutes_safe] (request mirrors are
      not controlled: [mirrors_unchecked]),
      [referencegrants.IsBackendReferenceAllowed_granted],
      [helper.ComputeHosts_intersection], [gateway.SNIHostnamesIntersect_spec].
    - Conflict resolution and status: the precedence of BackendTLSPolicies,
      [conditions.MergeConditions_spec].
    - The Ingress reconciler as steps over a world in which every call may fail:
      [ingress_reconcile.Reconcile_total] (no panic when all Ingresses name a
      class and have only Services for backends), [Reconcile_frame] (what a run may change), [Reconcile_dedicated] and
      [Reconcile_unmanaged] (what a successful run leaves),
      [ingress_settled.Reconcile_settles] (a second run changes nothing).
    - The Gateway reconciler, in the same way: [gateway_total.Gateway_Reconcile_total]
      (a run returns when the stored objects satisfy their schemas, classes name the
      namespaces of their configurations and mirrors their ports),
      [gateway_reconcile_facts.Gateway_Reconcile_success] (what a successful run
      leaves), [Gateway_Reconcile_frame], [failed_program_reports_accepted]; its
      parts: [gateway_listeners_facts.unreported_compatible] (the loops of the search
      for conflicts, whose comparison of two listeners is commented out:
      [conflicts_never_reported]) and [sortListenerSets_precedence], [listener_status_facts.validateListener_sound]
      and [setListenerStatus_complete], [route_status_facts.http_status_spec],
      [policy_status_facts.ValidateSpec_spec].
    - Route checks refine a specification: [routechecker_facts.gateway_checks_refine],
      and the reconcilers write what it says: [route_reconcile.TLSRoute_Reconcile_settles],
      [GRPCRoute_Reconcile_settles]; [gatewayclass.GatewayClass_Reconcile_accepts].
    - A change reaches the objects that depend on it:
      [watches_facts.service_watch_complete], [secret_watch_inverse],
      [node_watch_spec], [ingress_watches.shared_service_watch]; the indexes
      and types are there: [gateway_setup.SetupWithManager_spec],
      [allIndexes_exact], [gateway_scheme.AddToScheme_complete].
    - The controller of Services: [dolphinenvoyconfig.l7_Reconcile_converges].
    - Start and stop: [discovery.discovery_terminates], [controllers_and_secrets],
      [operator.operator_stops], [option.Populate_spec],
      [operator_api.server_serves], [microsvclog.uploads_bounded],
      [awss3.uploads_in_order], [auth.run_done], [identitygc.gc_lifecycle].
    - Diagnostics: [phases.phases_cover], [count_active],
      [cache_sync.warnings_spaced], [states_alternate],
      [class_monitor.monitor_complete].
    - Behaviours that differ from what the code means to do, as theorems:
      [ingestion.toTLSRoutes_repeats], [toHTTPRoutes_HTTPRoute_grants],
      [ingress_ingestion.Ingress_default_shadows],
      [ingress_reconcile.classless_Ingress_panics], [propagate_reversed],
      [ingress_watches.owned_service_ignored], [default_class_watch_panics],
      [watches_facts.dead_watches], [discovery.missing_hides_unavailable],
      [operator.disabled_never_stops], [leading_after_stop],
      [endpointgc.gc_deletes_all_or_panics], [spire.provider_never_connected],
      [auth.watcher_never_registers], [microsvclog.loaded_never_starts],
      [ingress_cell.default_certificate_synchronised],
      [gateway_setup.TLSRoutes_unwatched], [ServiceImport_unknown],
      [awss3.PutDirectory_spec], [missing_directory_panics],
      [resources.identityIndexFunc_spec].

    ** Bounds and fuel

    Integers are [Z], cut to their width where the code converts them.
    [gateway.labels_loop] runs for the longer of two label lists, as the code
    does.  [time.parse_terms] has one unit of fuel per byte, which is enough since
    every turn consumes a byte ([time.parse_terms_fuel]), and so has
    [certs.isValidPemFormat_loop] ([isValidPemFormat_terminates]).
    [discovery.discover_loop] takes its number of turns as an argument;
    [discovery_terminates] says how many are enough.  Everything else is
    structural.

    ** What is not modelled

    Log lines, but for those in [Diagnostics]; the builder of controller-runtime,
    whose effect (which handler sees which change) is in [Watches],
    [GatewaySetup] and [IngressWatches]; the wiring of the hive cells, the command
    line, metrics and the generated HTTP API of the operator (input and output);
    the TLS connection to the SPIRE server; the methods of the S3 client that
    are empty or not implemented; test helpers; protobuf encoding, the infra
    library and the Kubernetes client (parameters, above). *)

From Stdlib Require Export ZArith Lia.
From stdpp Require Export base list gmap strings sorting pretty.

#[global] Set Default Goal Selector "!".
#[global] Set Warnings "-clear-no-such-hyp".

(** ** Go results

    A Go function either returns or panics at run time; the panics the modelled
    code can raise are a nil dereference, an out of range index and a call of
    [panic]. *)

Inductive go_panic :=
| NilDeref
| IndexOutOfRange
(** A call of [panic]. *)
| Explicit (msg : string).

Inductive go (A : Type) :=
| Ok (a : A)
| Panic (p : go_panic).
Arguments Ok {A} a.
Arguments Panic {A} p.

#[export] Instance go_panic_eq_dec : EqDecision go_panic.
Proof. solve_decision. Defined.

#[export] Instance go_mret : MRet go := @Ok.
#[export] Instance go_mbind : MBind go := fun A B f m =>
  match m with Ok a => f a | Panic p => Panic p end.
#[export] Instance go_fmap : FMap go := fun A B f m =>
  match m with Ok a => Ok (f a) | Panic p => Panic p end.

(** [*p] for a Go pointer. *)
Definition deref {A} (p : option A) : go A :=
  match p with Some a => Ok a | None => Panic NilDeref end.

(** [s[i]] for a Go slice. *)
Definition index {A} (l : list A) (i : nat) : go A :=
  match l !! i with Some a => Ok a | None => Panic IndexOutOfRange end.

(** A loop whose body computes one value per element. *)
Fixpoint go_map {A B} (f : A → go B) (l : list A) : go (list B) :=
  match l with
  | [] => Ok []
  | x :: l' => y ← f x; ys ← go_map f l'; Ok (y :: ys)
  end.

(** A loop whose body appends any number of values per element. *)
Fixpoint go_flat_map {A B} (f : A → go (list B)) (l : list A) : go (list B) :=
  match l with
  | [] => Ok []
  | x :: l' => ys ← f x; zs ← go_flat_map f l'; Ok (ys ++ zs)
  end.

(** A loop that threads an accumulator. *)
Fixpoint go_foldl {A S} (f : S → A → go S) (s : S) (l : list A) : go S :=
  match l with
  | [] => Ok s
  | x :: l' => s' ← f s x; go_foldl f s' l'
  end.

(** The computation returns (it does not panic). *)
Definition returns {A} (m : go A) : Prop := ∃ a, m = Ok a.

(** ** Machine integers *)

Definition u16 (z : Z) : Z := (z mod 2 ^ 16)%Z.
Definition u32 (z : Z) : Z := (z mod 2 ^ 32)%Z.
Definition i32 (z : Z) : Z :=
  let r := (z mod 2 ^ 32)%Z in if bool_decide (r < 2 ^ 31)%Z then r else (r - 2 ^ 32)%Z.

(** A nilable Go slice, for the places where the code tells nil from empty. *)
Abbreviation slice A := (option (list A)).
Definition elems {A} (s : slice A) : list A := default [] s.

(** ** Tactics *)

(** Inverts a hypothesis that a bind returned. *)
Ltac go_inv :=
  repeat match goal with
  | H : (?m ≫= _) = Ok _ |- _ =>
      let E := fresh "E" in destruct m eqn:E; cbn [mbind go_mbind] in H; [|discriminate H]
  | H : Ok _ = Ok _ |- _ => injection H as H; try subst
  | H : Panic _ = Ok _ |- _ => discriminate H
  | H : Ok _ = Panic _ |- _ => discriminate H
  | H : mret _ = Ok _ |- _ => unfold mret, go_mret in H
  end.

(** Splits the boolean conditionals and matches of the goal. *)
Ltac go_cases :=
  repeat (case_match || case_decide || case_bool_decide); simplify_eq/=.

Create HintDb go.

(** ** Lemmas on results *)

Lemma returns_Ok {A} (a : A) : returns (Ok a).
Proof. by exists a. Qed.
#[export] Hint Resolve returns_Ok : go.

Lemma returns_bind {A B} (m : go A) (f : A → go B) :
  returns m → (∀ a, m = Ok a → returns (f a)) → returns (m ≫= f).
Proof. intros [a ->] H. cbn. by apply H. Qed.

Lemma returns_deref {A} (p : option A) : is_Some p → returns (deref p).
Proof. intros [a ->]. by exists a. Qed.
#[export] Hint Resolve returns_deref : go.

Lemma bind_Ok {A B} (m : go A) (f : A → go B) b :
  m ≫= f = Ok b ↔ ∃ a, m = Ok a ∧ f a = Ok b.
Proof. destruct m; cbn; naive_solver. Qed.

Lemma go_map_Ok {A B} (f : A → go B) l l' :
  go_map f l = Ok l' ↔ Forall2 (λ x y, f x = Ok y) l l'.
Proof.
  revert l'. induction l as [|x l IH]; intros l'; cbn.
  - split; [intros; simplify_eq; constructor|]. inversion 1; done.
  - rewrite bind_Ok. setoid_rewrite bind_Ok. split.
    + intros (y & Hy & ys & Hys & ?). simplify_eq. constructor; [done|]. by apply IH.
    + inversion 1; subst. eexists; split; [done|]. eexists; split; [by apply IH|done].
Qed.

Lemma go_map_returns {A B} (f : A → go B) l :
  Forall (λ x, returns (f x)) l → returns (go_map f l).
Proof.
  induction 1 as [|x l [y Hy] _ [ys Hys]]; cbn; [by exists []|].
  rewrite Hy; cbn. rewrite Hys; cbn. by eexists.
Qed.

Lemma go_flat_map_returns {A B} (f : A → go (list B)) l :
  Forall (λ x, returns (f x)) l → returns (go_flat_map f l).
Proof.
  induction 1 as [|x l [y Hy] _ [ys Hys]]; cbn; [by exists []|].
  rewrite Hy; cbn. rewrite Hys; cbn. by eexists.
Qed.

Lemma elem_of_go_flat_map {A B} (f : A → go (list B)) l ys y :
  go_flat_map f l = Ok ys → y ∈ ys ↔ ∃ x zs, x ∈ l ∧ f x = Ok zs ∧ y ∈ zs.
Proof.
  revert ys. induction l as [|x l IH]; intros ys H; cbn in H; go_inv.
  - split; [by intros ?%elem_of_nil|]. by intros (? & ? & ?%elem_of_nil & ?).
  - rewrite elem_of_app, (IH _ eq_refl). clear IH. setoid_rewrite elem_of_cons. split.
    + intros [?|(x' & zs & ? & ? & ?)]; eauto 8.
    + intros (x' & zs & [->|?] & ? & ?); [left; congruence|right; eauto].
Qed.

Lemma elem_of_go_map {A B} (f : A → go B) l ys y :
  go_map f l = Ok ys → y ∈ ys ↔ ∃ x, x ∈ l ∧ f x = Ok y.
Proof.
  revert ys. induction l as [|x l IH]; intros ys H; cbn in H; go_inv.
  - split; [by intros ?%elem_of_nil|]. by intros (? & ?%elem_of_nil & ?).
  - setoid_rewrite elem_of_cons. rewrite (IH _ eq_refl). clear IH. split.
    + intros [->|(x' & ? & ?)]; eauto.
    + intros (x' & [->|?] & ?); [left; congruence|right; eauto].
Qed.

Lemma go_map_pure {A B} (f : A → go B) (g : A → B) l :
  (∀ x, x ∈ l → f x = Ok (g x)) → go_map f l = Ok (g <$> l).
Proof.
  induction l as [|x l IH]; intros H; cbn; [done|].
  rewrite H by set_solver; cbn. rewrite IH by set_solver. done.
Qed.

Lemma go_flat_map_pure {A B} (f : A → go (list B)) (g : A → list B) l :
  (∀ x, x ∈ l → f x = Ok (g x)) → go_flat_map f l = Ok (l ≫= g).
Proof.
  induction l as [|x l IH]; intros H; cbn; [done|].
  rewrite H by set_solver; cbn. rewrite IH by set_solver. done.
Qed.

(** ** Total correctness

    [yields m P]: the computation returns, and what it returns satisfies [P]. *)
Definition yields {A} (m : go A) (P : A → Prop) : Prop := ∃ a, m = Ok a ∧ P a.

Lemma yields_Ok {A} (a : A) (P : A → Prop) : P a → yields (Ok a) P.
Proof. exists a. done. Qed.

Lemma yields_bind {A B} (m : go A) (f : A → go B) (Q : A → Prop) (P : B → Prop) :
  yields m Q → (∀ a, Q a → yields (f a) P) → yields (m ≫= f) P.
Proof. intros (a & -> & Ha) Hf. by apply Hf. Qed.

Lemma yields_deref {A} (p : option A) (P : A → Prop) :
  is_Some p → (∀ a, p = Some a → P a) → yields (deref p) P.
Proof. intros [a ->] H. exists a. eauto. Qed.

Lemma yields_mono {A} (m : go A) (P Q : A → Prop) :
  (∀ a, P a → Q a) → yields m P → yields m Q.
Proof. intros H (a & ? & ?). exists a. eauto. Qed.

Lemma yields_map {A B} (f : A → go B) (P : B → Prop) l :
  Forall (λ x, yields (f x) P) l → yields (go_map f l) (Forall P).
Proof.
  induction 1 as [|x l Hx _ IH]; cbn; [by apply yields_Ok|].
  eapply yields_bind; [exact Hx|]. intros y Hy. eapply yields_bind; [exact IH|].
  intros ys Hys. apply yields_Ok. by constructor.
Qed.

Lemma yields_flat_map {A B} (f : A → go (list B)) (P : B → Prop) l :
  Forall (λ x, yields (f x) (Forall P)) l → yields (go_flat_map f l) (Forall P).
Proof.
  induction 1 as [|x l Hx _ IH]; cbn; [by apply yields_Ok|].
  eapply yields_bind; [exact Hx|]. intros y Hy. eapply yields_bind; [exact IH|].
  intros ys Hys. apply yields_Ok. by apply Forall_app.
Qed.

Lemma yields_foldl {A S} (f : S → A → go S) (I : S → Prop) s l :
  I s → Forall (λ x, ∀ s, I s → yields (f s x) I) l → yields (go_foldl f s l) I.
Proof.
  intros Hs Hl. revert s Hs. induction Hl as [|x l Hx _ IH]; intros s Hs; cbn; [by apply yields_Ok|].
  eapply yields_bind; [by apply Hx|]. apply IH.
Qed.

(** Partial correctness of a loop with an accumulator. *)
Lemma go_foldl_inv {A S} (I : S → Prop) (f : S → A → go S) s l s' :
  I s → (∀ s x s', x ∈ l → I s → f s x = Ok s' → I s') → go_foldl f s l = Ok s' → I s'.
Proof.
  intros Hs Hf. revert s Hs. induction l as [|x l IH]; intros s Hs H; cbn in H; go_inv; [done|].
  eapply IH; [|eapply Hf; [left|exact Hs|exact E]|exact H].
  intros s1 y s2 Hy. apply Hf. by right.
Qed.

(** ** Lemmas on boolean predicates over lists *)

Lemma forallb_eq {A} (f g : A → bool) l : (∀ x, f x = g x) → forallb f l = forallb g l.
Proof. intros H. induction l as [|x l IH]; [done|]. cbn. by rewrite H, IH. Qed.

Lemma existsb_eq {A} (f g : A → bool) l : (∀ x, f x = g x) → existsb f l = existsb g l.
Proof. intros H. induction l as [|x l IH]; [done|]. cbn. by rewrite H, IH. Qed.

(** ** Lemmas on machine integers *)

Lemma u32_range z : (0 ≤ u32 z < 2 ^ 32)%Z.
Proof. apply Z.mod_pos_bound. lia. Qed.

Lemma u32_small z : (0 ≤ z < 2 ^ 32)%Z → u32 z = z.
Proof. apply Z.mod_small. Qed.

Lemma u16_range z : (0 ≤ u16 z < 2 ^ 16)%Z.
Proof. apply Z.mod_pos_bound. lia. Qed.

Lemma u16_small z : (0 ≤ z < 2 ^ 16)%Z → u16 z = z.
Proof. apply Z.mod_small. Qed.

(** ** Sorting

    [sort.Stable], [slices.SortStableFunc] and, on keys that are pairwise
    different, [sort.Slice] and [sort.Strings]: the stable sort by a "less"
    function. *)

Lemma StronglySorted_mono {A} (R R' : relation A) l :
  (∀ x y, R x y → R' x y) → StronglySorted R l → StronglySorted R' l.
Proof.
  intros HR. induction 1 as [|x l _ IH Hx]; constructor; [done|].
  eapply Forall_impl; eauto.
Qed.

Lemma StronglySorted_lookup {A} (R : relation A) l i j x y :
  StronglySorted R l → i < j → l !! i = Some x → l !! j = Some y → R x y.
Proof.
  intros Hl. revert i j. induction Hl as [|z l _ IH Hz]; intros i j Hij Hi Hj; [done|].
  destruct j as [|j]; [lia|]. destruct i as [|i]; cbn in *.
  - injection Hi as ->. eapply Forall_forall; [exact Hz|]. by eapply list_elem_of_lookup_2.
  - eapply (IH i j); [lia|done..].
Qed.

Section StableSort.
Context {A : Type} (less : A → A → bool).

Fixpoint insert_stable (x : A) (l : list A) : list A :=
  match l with
  | [] => [x]
  | y :: l' => if less y x then y :: insert_stable x l' else x :: y :: l'
  end.

Definition sort_stable (l : list A) : list A := foldr insert_stable [] l.

(** The non-strict order behind [less]. *)
Definition sorted_le (x y : A) : Prop := less y x = false.

Lemma insert_stable_Permutation x l : insert_stable x l ≡ₚ x :: l.
Proof.
  induction l as [|y l IH]; cbn; [done|]. case_match; [|done].
  rewrite IH. constructor.
Qed.

Lemma sort_stable_Permutation l : sort_stable l ≡ₚ l.
Proof.
  induction l as [|x l IH]; cbn; [done|]. by rewrite insert_stable_Permutation, IH.
Qed.

Lemma elem_of_sort_stable x l : x ∈ sort_stable l ↔ x ∈ l.
Proof. by rewrite sort_stable_Permutation. Qed.

(** Stability: a class of elements that [less] does not tell apart keeps its
    order. *)
Lemma sort_stable_filter (P : A → Prop) `{!∀ x, Decision (P x)} l :
  (∀ x y, P x → P y → less x y = false) →
  filter P (sort_stable l) = filter P l.
Proof.
  intros HP.
  assert (Hins : ∀ x k, filter P (insert_stable x k) = filter P (x :: k)).
  { intros x k. induction k as [|y k IH]; [done|]. cbn [insert_stable].
    destruct (less y x) eqn:Hless; [|done].
    rewrite !filter_cons, IH, filter_cons.
    destruct (decide (P y)), (decide (P x)); try done.
    by rewrite (HP y x) in Hless. }
  induction l as [|x l IH]; [done|]. cbn [sort_stable foldr].
  rewrite Hins, !filter_cons. unfold sort_stable in IH. by rewrite IH.
Qed.

Section Ordered.
Context (less_asym : ∀ x y, less x y = true → less y x = false).
Context (le_trans : ∀ x y z, sorted_le x y → sorted_le y z → sorted_le x z).

Lemma insert_stable_sorted x l :
  StronglySorted sorted_le l → StronglySorted sorted_le (insert_stable x l).
Proof using less_asym le_trans.
  induction 1 as [|y l Hl IH Hy]; cbn; [by repeat constructor|].
  destruct (less y x) eqn:E.
  - constructor; [done|]. rewrite insert_stable_Permutation. constructor; [|done].
    by apply less_asym.
  - constructor; [by constructor|]. constructor; [done|].
    eapply Forall_impl; [exact Hy|]. intros z Hz. by eapply le_trans.
Qed.

Lemma sort_stable_sorted l : StronglySorted sorted_le (sort_stable l).
Proof using less_asym le_trans.
  induction l as [|x l IH]; cbn; [constructor|]. by apply insert_stable_sorted.
Qed.

Lemma sort_stable_fixed l : StronglySorted sorted_le l → sort_stable l = l.
Proof using Type.
  induction 1 as [|x l Hl IH Hx]; [done|].
  change (sort_stable (x :: l)) with (insert_stable x (sort_stable l)). rewrite IH.
  destruct l as [|y l]; [done|]. cbn. inversion Hx as [|? ? Hxy]; subst.
  by rewrite Hxy.
Qed.

Lemma sort_stable_idemp l : sort_stable (sort_stable l) = sort_stable l.
Proof using less_asym le_trans. apply sort_stable_fixed, sort_stable_sorted. Qed.

(** On elements that [less] tells apart, the result only depends on the
    multiset of the input. *)
Lemma sort_stable_unique l1 l2 :
  l1 ≡ₚ l2 →
  (∀ x y, x ∈ l1 → y ∈ l1 → sorted_le x y → sorted_le y x → x = y) →
  sort_stable l1 = sort_stable l2.
Proof using less_asym le_trans.
  intros Hperm Hanti.
  apply (StronglySorted_unique_strong sorted_le).
  - intros x y Hx Hy. rewrite !elem_of_sort_stable, <-Hperm in *. by apply Hanti.
  - apply sort_stable_sorted.
  - apply sort_stable_sorted.
  - by rewrite !sort_stable_Permutation.
Qed.
End Ordered.
End StableSort.

Arguments sorted_le {A} less x y /.

(** ** Iteration over Go maps

    [range m] visits the keys of a map in an unspecified order.  The model is
    parameterised by that order. *)

Class MapRange := {
  map_keys : ∀ {K A : Type} `{Countable K}, gmap K A → list K;
  map_keys_perm : ∀ {K A : Type} `{Countable K} (m : gmap K A),
    map_keys m ≡ₚ (map_to_list m).*1
}.

(** Two concrete orders. *)
Definition forward_range : MapRange :=
  {| map_keys := λ K A _ _ m, (map_to_list m).*1;
     map_keys_perm := λ K A _ _ m, reflexivity _ |}.

Definition backward_range : MapRange :=
  {| map_keys := λ K A _ _ m, reverse (map_to_list m).*1;
     map_keys_perm := λ K A _ _ m, reverse_Permutation _ |}.

Section MapRangeLemmas.
Context `{!MapRange} {K A : Type} `{Countable K}.

Lemma elem_of_map_keys (m : gmap K A) k : k ∈ map_keys m ↔ is_Some (m !! k).
Proof.
  rewrite map_keys_perm, list_elem_of_fmap. split.
  - intros ([k' v] & -> & Hkv%elem_of_map_to_list). cbn. eauto.
  - intros [v Hv]. exists (k, v). by rewrite elem_of_map_to_list.
Qed.

Lemma NoDup_map_keys (m : gmap K A) : NoDup (map_keys m).
Proof. rewrite map_keys_perm. apply NoDup_fst_map_to_list. Qed.
End MapRangeLemmas.

Lemma map_keys_ranges (r1 r2 : MapRange) {K A} `{Countable K} (m : gmap K A) :
  @map_keys r1 K A _ _ m ≡ₚ @map_keys r2 K A _ _ m.
Proof. by rewrite !map_keys_perm. Qed.
