(* ===== verification/GoStrings.v ===== *)
(** * Go strings

    A Go string is a sequence of bytes, modelled by [string] (a sequence of
    8-bit [ascii]).  This file holds the parts of the Go standard library the
    controller uses on strings: [strings.HasPrefix], [HasSuffix], [TrimPrefix],
    [TrimSuffix], [CutPrefix], [Contains], [Split], [Join], [ReplaceAll],
    [ToUpper], [strconv.Itoa], [regexp.QuoteMeta], [net.JoinHostPort] and the
    byte-wise order of [sort.Strings], with the lemmas the components share. *)

From S2P Require Import Prelude.
From Stdlib Require Import Ascii.

(** ** Slicing *)

(** [s[:n]] and [s[n:]] for [n <= len(s)]. *)
Fixpoint str_take (n : nat) (s : string) : string :=
  match n, s with
  | S n', String c s' => String c (str_take n' s')
  | _, _ => ""
  end.

Fixpoint str_drop (n : nat) (s : string) : string :=
  match n, s with
  | S n', String c s' => str_drop n' s'
  | 0, _ => s
  | _, "" => ""
  end.

Definition len (s : string) : nat := String.length s.

(** ** Prefixes and suffixes *)

Definition HasPrefix (s p : string) : bool := String.prefix p s.

Definition HasSuffix (s t : string) : bool :=
  (len t <=? len s) && String.eqb (str_drop (len s - len t) s) t.

Definition TrimPrefix (s p : string) : string :=
  if HasPrefix s p then str_drop (len p) s else s.

Definition TrimSuffix (s t : string) : string :=
  if HasSuffix s t then str_take (len s - len t) s else s.

Definition CutPrefix (s p : string) : string * bool :=
  if HasPrefix s p then (str_drop (len p) s, true) else (s, false).

(** ** Character-wise operations *)

Fixpoint str_map (f : ascii → string) (s : string) : string :=
  match s with
  | "" => ""
  | String c s' => f c +:+ str_map f s'
  end.

Fixpoint str_existsb (f : ascii → bool) (s : string) : bool :=
  match s with
  | "" => false
  | String c s' => f c || str_existsb f s'
  end.

(** [strings.Contains(s, c)] for a one-character [c]. *)
Definition ContainsChar (s : string) (c : ascii) : bool := str_existsb (Ascii.eqb c) s.

(** [strings.ReplaceAll(s, c, new)] for a one-character [c]. *)
Definition ReplaceAllChar (s : string) (c : ascii) (new : string) : string :=
  str_map (λ d, if Ascii.eqb c d then new else String d "") s.

(** [strings.ToUpper] on ASCII text. *)
Definition to_upper_ascii (c : ascii) : ascii :=
  let n := N_of_ascii c in
  if (97 <=? n)%N && (n <=? 122)%N then ascii_of_N (n - 32) else c.
Definition ToUpper (s : string) : string := str_map (λ c, String (to_upper_ascii c) "") s.

(** [regexp.QuoteMeta]. *)
Definition is_meta (c : ascii) : bool := ContainsChar "\.+*?()|[]{}^$" c.
Definition QuoteMeta (s : string) : string :=
  str_map (λ c, if is_meta c then String "\" (String c "") else String c "") s.

(** [strings.Split(s, c)] for a one-character [c]. *)
Fixpoint SplitChar (c : ascii) (s : string) : list string :=
  match s with
  | "" => [""]
  | String d s' =>
      if Ascii.eqb c d then "" :: SplitChar c s'
      else match SplitChar c s' with
           | h :: t => String d h :: t
           | [] => [String d ""]
           end
  end.

(** [strings.SplitN(s, c, 2)]: the parts before and after the first [c]. *)
Fixpoint CutChar (c : ascii) (s : string) : option (string * string) :=
  match s with
  | "" => None
  | String d s' =>
      if Ascii.eqb c d then Some ("", s')
      else match CutChar c s' with
           | Some (h, t) => Some (String d h, t)
           | None => None
           end
  end.
Definition SplitN2 (s : string) (c : ascii) : list string :=
  match CutChar c s with
  | Some (h, t) => [h; t]
  | None => [s]
  end.

(** [strings.Join]. *)
Fixpoint Join (l : list string) (sep : string) : string :=
  match l with
  | [] => ""
  | [s] => s
  | s :: l' => s +:+ sep +:+ Join l' sep
  end.

(** [net.JoinHostPort]: a host with a colon is an IPv6 literal. *)
Definition JoinHostPort (host port : string) : string :=
  if ContainsChar host ":" then "[" +:+ host +:+ "]:" +:+ port else host +:+ ":" +:+ port.

(** [strconv.Itoa] (and the [%d] verb). *)
Definition Itoa (z : Z) : string := pretty z.

(** [sort.Strings]: strings are compared byte by byte. *)
Definition str_ltb (s t : string) : bool := String.ltb s t.
Definition sort_strings (l : list string) : list string := sort_stable str_ltb l.

(** ** Append *)

Lemma str_app_nil_l s : "" +:+ s = s.
Proof. done. Qed.

Lemma str_app_cons c s t : String c s +:+ t = String c (s +:+ t).
Proof. done. Qed.

Lemma str_app_nil_r s : s +:+ "" = s.
Proof. induction s as [|c s IH]; [done|]. rewrite str_app_cons. by f_equal. Qed.

Lemma str_app_assoc s t u : (s +:+ t) +:+ u = s +:+ (t +:+ u).
Proof. induction s as [|c s IH]; [done|]. rewrite !str_app_cons. by f_equal. Qed.

Lemma len_app s t : len (s +:+ t) = len s + len t.
Proof. induction s as [|c s IH]; [done|]. rewrite str_app_cons. unfold len in *. cbn. by f_equal. Qed.

Lemma len_nil_inv s : len s = 0 → s = "".
Proof. by destruct s. Qed.

Lemma str_app_inj_l s t u : s +:+ t = s +:+ u → t = u.
Proof. by intros ?%(inj (String.app s)). Qed.

Lemma str_app_inj_len s1 s2 t1 t2 :
  len s1 = len s2 → s1 +:+ t1 = s2 +:+ t2 → s1 = s2 ∧ t1 = t2.
Proof.
  revert s2. induction s1 as [|c s1 IH]; intros [|d s2] Hlen H; try done.
  rewrite !str_app_cons in H. injection H as -> H. injection Hlen as Hlen.
  by destruct (IH s2 Hlen H) as [-> ->].
Qed.

Lemma str_app_inj_r s t u : s +:+ u = t +:+ u → s = t.
Proof.
  intros H. assert (Hlen : len s = len t).
  { apply (f_equal len) in H. rewrite !len_app in H. lia. }
  by destruct (str_app_inj_len _ _ _ _ Hlen H).
Qed.

Lemma str_take_drop n s : str_take n s +:+ str_drop n s = s.
Proof.
  revert s. induction n as [|n IH]; intros [|c s]; cbn; try done.
  rewrite str_app_cons. by f_equal.
Qed.

Lemma str_drop_app s t : str_drop (len s) (s +:+ t) = t.
Proof. induction s as [|c s IH]; [by destruct t|]. rewrite str_app_cons. done. Qed.

Lemma str_take_app s t : str_take (len s) (s +:+ t) = s.
Proof.
  induction s as [|c s IH]; [by destruct t|]. rewrite str_app_cons.
  unfold len in *. cbn. by f_equal.
Qed.

Lemma len_str_take n s : len (str_take n s) = n `min` len s.
Proof.
  revert s. induction n as [|n IH]; intros [|c s]; cbn; try done.
  unfold len in *. cbn. by f_equal.
Qed.

(** ** Prefix and suffix characterisations *)

Lemma HasPrefix_spec s p : HasPrefix s p = true ↔ ∃ u, s = p +:+ u.
Proof.
  unfold HasPrefix. revert s. induction p as [|c p IH]; intros s.
  - setoid_rewrite str_app_nil_l. destruct s; cbn; split; eauto.
  - destruct s as [|d s]; cbn [String.prefix].
    + split; [done|]. intros [u Hu]. by rewrite str_app_cons in Hu.
    + destruct (ascii_dec c d) as [->|Hne].
      * rewrite IH. split; intros [u Hu]; exists u; rewrite str_app_cons in *; congruence.
      * split; [done|]. intros [u Hu]. rewrite str_app_cons in Hu. congruence.
Qed.

Lemma HasSuffix_spec s t : HasSuffix s t = true ↔ ∃ u, s = u +:+ t.
Proof.
  unfold HasSuffix. rewrite andb_true_iff, Nat.leb_le, String.eqb_eq. split.
  - intros [Hlen Heq]. exists (str_take (len s - len t) s).
    pose proof (str_take_drop (len s - len t) s) as E. by rewrite Heq in E.
  - intros [u ->]. rewrite len_app. split; [lia|].
    replace (len u + len t - len t) with (len u) by lia. apply str_drop_app.
Qed.

Lemma TrimPrefix_app p u : TrimPrefix (p +:+ u) p = u.
Proof.
  unfold TrimPrefix. assert (HasPrefix (p +:+ u) p = true) as -> by (apply HasPrefix_spec; eauto).
  apply str_drop_app.
Qed.

Lemma TrimSuffix_app u t : TrimSuffix (u +:+ t) t = u.
Proof.
  unfold TrimSuffix. assert (HasSuffix (u +:+ t) t = true) as -> by (apply HasSuffix_spec; eauto).
  rewrite len_app. replace (len u + len t - len t) with (len u) by lia. apply str_take_app.
Qed.

Lemma TrimPrefix_false s p : HasPrefix s p = false → TrimPrefix s p = s.
Proof. unfold TrimPrefix. by intros ->. Qed.

Lemma TrimSuffix_false s p : HasSuffix s p = false → TrimSuffix s p = s.
Proof. unfold TrimSuffix. by intros ->. Qed.

(** Two suffixes of one string are comparable. *)
Lemma suffix_comparable s t u1 u2 :
  u1 +:+ s = u2 +:+ t → len s ≤ len t → ∃ v, t = v +:+ s.
Proof.
  intros H Hlen.
  assert (Hl : len u1 = len u2 + (len t - len s)).
  { apply (f_equal len) in H. rewrite !len_app in H. lia. }
  exists (str_take (len t - len s) t).
  rewrite <-(str_take_drop (len t - len s) t) in H at 1.
  rewrite <-str_app_assoc in H.
  apply str_app_inj_len in H as [_ H].
  - pose proof (str_take_drop (len t - len s) t) as E. by rewrite <-H in E.
  - rewrite len_app, len_str_take. lia.
Qed.

(** ** Order *)

Lemma str_leb_ltb s t : String.leb s t = negb (str_ltb t s).
Proof.
  unfold str_ltb, String.ltb, String.leb.
  rewrite (String.compare_antisym t s). by destruct (s ?= t)%string.
Qed.

Lemma str_sorted_le s t : sorted_le str_ltb s t ↔ String.le s t.
Proof.
  unfold sorted_le, String.le. rewrite str_leb_ltb. by destruct (str_ltb t s).
Qed.

Lemma str_ltb_asym s t : str_ltb s t = true → str_ltb t s = false.
Proof.
  unfold str_ltb, String.ltb. rewrite (String.compare_antisym s t).
  by destruct (t ?= s)%string.
Qed.

Lemma str_ltb_irrefl s : str_ltb s s = false.
Proof. destruct (str_ltb s s) eqn:E; [|done]. pose proof (str_ltb_asym s s E). congruence. Qed.

Lemma str_le_trans s t u :
  sorted_le str_ltb s t → sorted_le str_ltb t u → sorted_le str_ltb s u.
Proof. rewrite !str_sorted_le. apply transitivity. Qed.

Lemma str_le_antisym s t : sorted_le str_ltb s t → sorted_le str_ltb t s → s = t.
Proof. rewrite !str_sorted_le. apply (anti_symm String.le). Qed.

#[export] Hint Resolve str_ltb_asym str_le_trans str_le_antisym : go.

Lemma str_ltb_total s t : s ≠ t → str_ltb s t = false → str_ltb t s = true.
Proof.
  intros Hne H. destruct (str_ltb t s) eqn:E; [done|].
  destruct Hne. by apply str_le_antisym.
Qed.

Lemma str_ltb_trans s t u : str_ltb s t = true → str_ltb t u = true → str_ltb s u = true.
Proof.
  intros H1 H2. destruct (str_ltb s u) eqn:E; [done|].
  assert (str_ltb t s = false) by (by apply str_ltb_asym).
  assert (sorted_le str_ltb u t) by (eapply str_le_trans; [exact E|done]).
  cbn in *. congruence.
Qed.

(** A sorted list whose keys do not repeat is strictly sorted. *)
Lemma sorted_strict {A} (f : A → string) l :
  StronglySorted (λ a b, str_ltb (f b) (f a) = false) l → NoDup (f <$> l) →
  StronglySorted (λ a b, str_ltb (f a) (f b) = true) l.
Proof.
  induction 1 as [|x l _ IH Hx]; [constructor|]. rewrite fmap_cons. intros [Hnin Hnd]%NoDup_cons.
  constructor; [by apply IH|]. apply Forall_forall. intros y Hy.
  eapply Forall_forall in Hx; [|exact Hy]. apply str_ltb_total; [|done].
  intros E. apply Hnin. rewrite <-E. by apply list_elem_of_fmap_2.
Qed.

Lemma sort_strings_Permutation l : sort_strings l ≡ₚ l.
Proof. apply sort_stable_Permutation. Qed.

Lemma elem_of_sort_strings x l : x ∈ sort_strings l ↔ x ∈ l.
Proof. apply elem_of_sort_stable. Qed.

Lemma sort_strings_sorted l : StronglySorted String.le (sort_strings l).
Proof.
  eapply StronglySorted_mono; [|apply sort_stable_sorted; eauto with go].
  intros s t. apply str_sorted_le.
Qed.

Lemma sort_strings_perm l1 l2 : l1 ≡ₚ l2 → sort_strings l1 = sort_strings l2.
Proof. intros H. apply sort_stable_unique; eauto with go. Qed.

(** ** Characters *)

Lemma str_existsb_app f s t : str_existsb f (s +:+ t) = str_existsb f s || str_existsb f t.
Proof.
  induction s as [|c s IH]; [done|]. rewrite str_app_cons. cbn.
  by rewrite IH, orb_assoc.
Qed.

Lemma ContainsChar_app s t c : ContainsChar (s +:+ t) c = ContainsChar s c || ContainsChar t c.
Proof. apply str_existsb_app. Qed.

(** A separator that does not occur on the left determines the split. *)
Lemma str_sep_inj c s1 s2 t1 t2 :
  ContainsChar s1 c = false → ContainsChar s2 c = false →
  s1 +:+ String c t1 = s2 +:+ String c t2 → s1 = s2 ∧ t1 = t2.
Proof.
  unfold ContainsChar.
  revert s2. induction s1 as [|a s1 IH]; intros [|b s2]; cbn; intros H1 H2 H.
  - rewrite !str_app_nil_l in H. by injection H as ->.
  - rewrite str_app_nil_l, str_app_cons in H. injection H as <- _.
    rewrite Ascii.eqb_refl in H2. done.
  - rewrite str_app_nil_l, str_app_cons in H. injection H as -> _.
    rewrite Ascii.eqb_refl in H1. done.
  - rewrite !str_app_cons in H. injection H as -> H.
    apply orb_false_iff in H1 as [_ H1], H2 as [_ H2].
    by destruct (IH s2 H1 H2 H) as [-> ->].
Qed.

(** ** Labels *)

(** Splitting at a separator cuts the list of labels. *)
Lemma SplitChar_app c s t : SplitChar c (s +:+ String c t) = SplitChar c s ++ SplitChar c t.
Proof.
  induction s as [|d s IH].
  - rewrite str_app_nil_l. cbn. by rewrite Ascii.eqb_refl.
  - rewrite str_app_cons. cbn. rewrite IH. destruct (Ascii.eqb c d); [done|].
    destruct (SplitChar c s) eqn:E; [|done].
    destruct s; cbn in E; repeat case_match; discriminate.
Qed.

Lemma SplitChar_nonempty c s : SplitChar c s ≠ [].
Proof. destruct s; cbn; repeat case_match; discriminate. Qed.

(** The labels determine the string. *)
Lemma SplitChar_inj c s t : SplitChar c s = SplitChar c t → s = t.
Proof.
  revert t. induction s as [|d s IH]; intros [|e t]; cbn.
  - done.
  - destruct (Ascii.eqb c e).
    + intros H. injection H as H. by destruct (SplitChar_nonempty c t).
    + pose proof (SplitChar_nonempty c t). destruct (SplitChar c t); naive_solver.
  - destruct (Ascii.eqb c d).
    + intros H. injection H as H. by destruct (SplitChar_nonempty c s).
    + pose proof (SplitChar_nonempty c s). destruct (SplitChar c s); naive_solver.
  - pose proof (SplitChar_nonempty c s). pose proof (SplitChar_nonempty c t).
    destruct (Ascii.eqb_spec c d) as [Hd|Hd], (Ascii.eqb_spec c e) as [He|He].
    + intros H'. injection H' as H'. f_equal; [congruence|by apply IH].
    + destruct (SplitChar c t); naive_solver.
    + destruct (SplitChar c s); naive_solver.
    + specialize (IH t). destruct (SplitChar c s), (SplitChar c t); try done.
      intros H'. injection H' as -> -> ->. f_equal. by apply IH.
Qed.

Lemma SplitChar_surj_app c l1 l2 s :
  l1 ≠ [] → l2 ≠ [] → SplitChar c s = l1 ++ l2 →
  ∃ u v, s = u +:+ String c v ∧ SplitChar c u = l1 ∧ SplitChar c v = l2.
Proof.
  intros H1 H2. revert l1 H1. induction s as [|d s IH]; intros [|x l1] H1; cbn; try done.
  - intros H. injection H as <- H. by destruct l1, l2.
  - destruct (Ascii.eqb_spec c d) as [->|Hne].
    + intros H. injection H as <- H. destruct l1 as [|y l1].
      * exists "", s. by rewrite str_app_nil_l.
      * destruct (IH (y :: l1)) as (u & v & -> & Hu & Hv); [done..|].
        exists (String d u), v. rewrite str_app_cons. cbn. rewrite Ascii.eqb_refl, Hu. done.
    + pose proof (SplitChar_nonempty c s). destruct (SplitChar c s) as [|y k] eqn:E; [done|].
      intros H'. injection H' as <- H'.
      destruct (IH (y :: l1)) as (u & v & -> & Hu & Hv); [done|by rewrite H'|].
      exists (String d u), v. rewrite str_app_cons. cbn. rewrite Hu.
      destruct (Ascii.eqb_spec c d); done.
Qed.

(** A character that is not in the string is in none of its labels. *)
Lemma ContainsChar_label c d s x :
  ContainsChar s d = false → x ∈ SplitChar c s → ContainsChar x d = false.
Proof.
  unfold ContainsChar. revert x. induction s as [|e s IH]; intros x; cbn.
  - intros _ ->%list_elem_of_singleton. done.
  - intros [He Hs]%orb_false_iff. destruct (Ascii.eqb c e).
    + intros [->|Hx]%elem_of_cons; [done|by apply IH].
    + destruct (SplitChar c s) as [|y k].
      * intros ->%list_elem_of_singleton. cbn. by rewrite He.
      * intros [->|Hx]%elem_of_cons; [|apply IH; set_solver].
        cbn. rewrite He. apply IH; set_solver.
Qed.

(** The labels of one string end with those of another exactly when the
    strings do, at a separator. *)
Lemma SplitChar_suffix c s t :
  SplitChar c s `suffix_of` SplitChar c t ↔ ∃ u, String c t = u +:+ String c s.
Proof.
  split.
  - intros [[|x k] Hk].
    + apply SplitChar_inj in Hk as ->. by exists "".
    + destruct (SplitChar_surj_app c (x :: k) (SplitChar c s) t) as (u & v & -> & _ & Hv);
        [done|apply SplitChar_nonempty|done|].
      apply SplitChar_inj in Hv as ->. exists (String c u). by rewrite str_app_cons.
  - intros [[|d u] Hu].
    + rewrite str_app_nil_l in Hu. injection Hu as ->. done.
    + rewrite str_app_cons in Hu. injection Hu as _ ->. rewrite SplitChar_app. by exists (SplitChar c u).
Qed.
