(* ===== verification/Sha256.v ===== *)
(** * SHA-256

    [crypto/sha256.Sum256] of the Go standard library (FIPS 180-4), which
    [model.hash] (src/pkg/model/helper.go) prints with the [%x] verb.  The
    definitions run: the examples at the end are the standard test vectors. *)

From S2P Require Import Prelude GoStrings.
From Stdlib Require Import Ascii.

Local Open Scope Z_scope.

(** ** Words *)

Definition rotr (n x : Z) : Z := u32 (Z.lor (Z.shiftr x n) (Z.shiftl x (32 - n))).
Definition Ch (x y z : Z) : Z := Z.lxor (Z.land x y) (Z.land (2 ^ 32 - 1 - x) z).
Definition Maj (x y z : Z) : Z := Z.lxor (Z.lxor (Z.land x y) (Z.land x z)) (Z.land y z).
Definition Sigma0 (x : Z) : Z := Z.lxor (Z.lxor (rotr 2 x) (rotr 13 x)) (rotr 22 x).
Definition Sigma1 (x : Z) : Z := Z.lxor (Z.lxor (rotr 6 x) (rotr 11 x)) (rotr 25 x).
Definition sigma0 (x : Z) : Z := Z.lxor (Z.lxor (rotr 7 x) (rotr 18 x)) (Z.shiftr x 3).
Definition sigma1 (x : Z) : Z := Z.lxor (Z.lxor (rotr 17 x) (rotr 19 x)) (Z.shiftr x 10).

(** The constants of the standard: the first 32 bits of the fractional parts of
    the cube roots of the first 64 primes, computed bit by bit. *)
Definition prime (n : Z) : bool :=
  forallb (λ d, negb (n mod Z.of_nat d =? 0)) (seq 2 (Z.to_nat n - 2)).

Definition first_primes : list Z := Eval vm_compute in
  take 64 (filter (λ n, Is_true (prime n)) (Z.of_nat <$> seq 2 320)).

(** The integer cube root of [n], of at most [bits] bits. *)
Fixpoint cube_root (bits : nat) (r n : Z) : Z :=
  match bits with
  | O => r
  | S k => let r' := r + 2 ^ Z.of_nat k in
           cube_root k (if r' * r' * r' <=? n then r' else r) n
  end.

Definition round_constants : list Z := Eval vm_compute in
  (λ p, u32 (cube_root 36 0 (p * 2 ^ 96))) <$> first_primes.

(** ** Message blocks *)

Fixpoint bytes_of (s : string) : list Z :=
  match s with
  | "" => []
  | String c s' => Z.of_N (N_of_ascii c) :: bytes_of s'
  end.

(** The message, a 1 bit, zeros up to 56 modulo 64 bytes, the length in bits. *)
Definition pad (msg : list Z) : list Z :=
  let n := Z.of_nat (length msg) in
  let zeros := Z.to_nat ((55 - n) mod 64) in
  msg ++ [128] ++ replicate zeros 0 ++
  ((λ k : nat, Z.shiftr (8 * n) (8 * (7 - Z.of_nat k)) mod 256) <$> seq 0 8).

Fixpoint words_of (bytes : list Z) : list Z :=
  match bytes with
  | a :: b :: c :: d :: rest =>
      (((a * 256 + b) * 256 + c) * 256 + d) :: words_of rest
  | _ => []
  end.

(** The message schedule, most recent word first. *)
Fixpoint extend (n : nat) (w : list Z) : list Z :=
  match n with
  | O => w
  | S n' =>
      let at_ k := default 0 (w !! k) in
      extend n' (u32 (sigma1 (at_ 1%nat) + at_ 6%nat + sigma0 (at_ 14%nat) + at_ 15%nat) :: w)
  end.

Definition schedule (block : list Z) : list Z := reverse (extend 48 (reverse block)).

(** ** Compression *)

Record state := mkState {
  st_a : Z; st_b : Z; st_c : Z; st_d : Z; st_e : Z; st_f : Z; st_g : Z; st_h : Z }.

(** The first 32 bits of the fractional parts of the square roots of the first
    eight primes. *)
Definition initial_words : list Z := Eval vm_compute in
  (λ p, u32 (Z.sqrt (p * 2 ^ 64))) <$> take 8 first_primes.

Definition initial_state : state :=
  let h := initial_words in
  let at_ k := default 0 (h !! k) in
  mkState (at_ 0%nat) (at_ 1%nat) (at_ 2%nat) (at_ 3%nat)
          (at_ 4%nat) (at_ 5%nat) (at_ 6%nat) (at_ 7%nat).

Definition sha_round (s : state) (kw : Z * Z) : state :=
  let '(mkState a b c d e f g h) := s in
  let t1 := u32 (h + Sigma1 e + Ch e f g + kw.1 + kw.2) in
  let t2 := u32 (Sigma0 a + Maj a b c) in
  mkState (u32 (t1 + t2)) a b c (u32 (d + t1)) e f g.

Definition compress (s : state) (block : list Z) : state :=
  let r := foldl sha_round s (zip round_constants (schedule block)) in
  mkState (u32 (st_a s + st_a r)) (u32 (st_b s + st_b r)) (u32 (st_c s + st_c r))
          (u32 (st_d s + st_d r)) (u32 (st_e s + st_e r)) (u32 (st_f s + st_f r))
          (u32 (st_g s + st_g r)) (u32 (st_h s + st_h r)).

(** Blocks of 16 words; [fuel] bounds their number. *)
Fixpoint sha_blocks (fuel : nat) (ws : list Z) (s : state) : state :=
  match fuel, ws with
  | S fuel', _ :: _ => sha_blocks fuel' (drop 16 ws) (compress s (take 16 ws))
  | _, _ => s
  end.

Definition Sum256 (s : string) : state :=
  let ws := words_of (pad (bytes_of s)) in sha_blocks (length ws) ws initial_state.

(** ** Printing with [%x] *)

Definition hex_digit (z : Z) : ascii :=
  let d := z mod 16 in
  ascii_of_N (Z.to_N (if bool_decide (d < 10) then 48 + d else 87 + d)).

Definition hex_word (w : Z) : string :=
  let at_ k := hex_digit (Z.shiftr w (4 * k)) in
  String (at_ 7) (String (at_ 6) (String (at_ 5) (String (at_ 4)
    (String (at_ 3) (String (at_ 2) (String (at_ 1) (String (at_ 0) ""))))))).

Definition hex_state (s : state) : string :=
  hex_word (st_a s) +:+ hex_word (st_b s) +:+ hex_word (st_c s) +:+ hex_word (st_d s) +:+
  hex_word (st_e s) +:+ hex_word (st_f s) +:+ hex_word (st_g s) +:+ hex_word (st_h s).

Lemma len_hex_state s : len (hex_state s) = 64%nat.
Proof. unfold hex_state. by rewrite !len_app. Qed.

(** Test vectors. *)
Example sha256_empty :
  hex_state (Sum256 "") = "e3b0c44298fc1c149afbf4c8996fb92427ae41e4649b934ca495991b7852b855".
Proof. vm_compute. reflexivity. Qed.

Example sha256_abc :
  hex_state (Sum256 "abc") = "ba7816bf8f01cfea414140de5dae2223b00361a396177a9cb410ff61f20015ad".
Proof. vm_compute. reflexivity. Qed.

Example sha256_two_blocks :
  hex_state (Sum256 "abcdbcdecdefdefgefghfghighijhijkijkljklmklmnlmnomnopnopq") =
  "248d6a61d20638b8e5c026930c3e6039a33ce45964ff2167f6ecedd419db06c1".
Proof. vm_compute. reflexivity. Qed.
