(* ===== verification/ApiTypes.v ===== *)
(** * Kubernetes and Gateway API objects

    The data of the Kubernetes API the controller reads, with the fields its
    code uses: [metav1] and [corev1] in [Module k8s], the Gateway API types
    ([sigs.k8s.io/gateway-api/apis/v1]) in [Module gatewayv1].  Go pointers are
    [option]s, Go string types are [string]s, and slices are lists, except where
    the code tells a nil slice from an empty one ([slice]).  These types are
    defined outside the repository: the file has data and constants only. *)

From S2P Require Import Prelude.

Module k8s.

Record ObjectMeta := mkObjectMeta {
  om_Name : string;
  om_Namespace : string;
  om_UID : string;
  om_Generation : Z;
  om_Labels : gmap string string;
  om_Annotations : gmap string string;
  om_CreationTimestamp : Z;
  om_DeletionTimestamp : option Z
}.

Record NamespacedName := mkNamespacedName { nn_Namespace : string; nn_Name : string }.

#[export] Instance NamespacedName_eq_dec : EqDecision NamespacedName.
Proof. solve_decision. Defined.

#[export] Instance NamespacedName_countable : Countable NamespacedName.
Proof.
  refine (inj_countable' (λ n, (nn_Namespace n, nn_Name n)) (λ p, mkNamespacedName p.1 p.2) _).
  by intros [].
Defined.

(** [NamespacedName.String]. *)
Definition nn_String (n : NamespacedName) : string := nn_Namespace n +:+ "/" +:+ nn_Name n.

(** [client.ObjectKeyFromObject]. *)
Definition ObjectKey (m : ObjectMeta) : NamespacedName :=
  mkNamespacedName (om_Namespace m) (om_Name m).

Record GroupVersionKind := mkGVK { gvk_Group : string; gvk_Version : string; gvk_Kind : string }.

#[export] Instance GroupVersionKind_eq_dec : EqDecision GroupVersionKind.
Proof. solve_decision. Defined.

(** A corev1.Service or corev1.Namespace, as far as the code looks at it. *)
Record Service := mkService { svc_meta : ObjectMeta; svc_Ports : list Z }.
Record Namespace := mkNamespace { ns_meta : ObjectMeta }.

(** A corev1.Secret and a corev1.ConfigMap; their values are byte strings. *)
Record Secret := mkSecret { sec_meta : ObjectMeta; sec_Data : gmap string string }.
Record ConfigMap := mkConfigMap { cm_meta : ObjectMeta; cm_Data : gmap string string }.
Definition TLSCertKey : string := "tls.crt".
Definition TLSPrivateKeyKey : string := "tls.key".

(** metav1.Condition; the status is the string "True", "False" or "Unknown". *)
Record Condition := mkCondition {
  cond_Type : string;
  cond_Status : string;
  cond_Reason : string;
  cond_Message : string;
  cond_ObservedGeneration : Z;
  cond_LastTransitionTime : Z
}.

#[export] Instance Condition_eq_dec : EqDecision Condition.
Proof. solve_decision. Defined.

Definition ConditionTrue : string := "True".
Definition ConditionFalse : string := "False".
Definition ConditionUnknown : string := "Unknown".

(** The core API group is the empty string. *)
Definition corev1_GroupName : string := "".
Definition ServiceTypeNodePort : string := "NodePort".
Definition ServiceTypeLoadBalancer : string := "LoadBalancer".

(** A label selector; what it selects is a parameter of the model. *)
Record LabelSelector := mkLabelSelector {
  sel_MatchLabels : gmap string string;
  sel_MatchExpressions : list (string * string * list string)
}.

End k8s.

Module gatewayv1.
Import k8s.

Definition GroupName : string := "gateway.networking.k8s.io".
Definition GroupVersion_Version : string := "v1".

Definition HTTPProtocolType : string := "HTTP".
Definition HTTPSProtocolType : string := "HTTPS".
Definition TLSProtocolType : string := "TLS".
Definition TCPProtocolType : string := "TCP".
Definition UDPProtocolType : string := "UDP".

Definition TLSModeTerminate : string := "Terminate".
Definition TLSModePassthrough : string := "Passthrough".

Definition NamespacesFromAll : string := "All".
Definition NamespacesFromSame : string := "Same".
Definition NamespacesFromSelector : string := "Selector".
Definition NamespacesFromNone : string := "None".

(** Match types of paths, headers, query parameters and gRPC methods. *)
Definition MatchExact : string := "Exact".
Definition MatchRegularExpression : string := "RegularExpression".
Definition PathMatchPathPrefix : string := "PathPrefix".

Definition FullPathHTTPPathModifier : string := "ReplaceFullPath".
Definition PrefixMatchHTTPPathModifier : string := "ReplacePrefixMatch".

(** HTTPRouteFilter and GRPCRouteFilter types. *)
Definition FilterRequestHeaderModifier : string := "RequestHeaderModifier".
Definition FilterResponseHeaderModifier : string := "ResponseHeaderModifier".
Definition FilterRequestRedirect : string := "RequestRedirect".
Definition FilterURLRewrite : string := "URLRewrite".
Definition FilterRequestMirror : string := "RequestMirror".
Definition FilterExternalAuth : string := "ExternalAuth".

(** *** References *)

Record ParentReference := mkParentReference {
  pr_Group : option string;
  pr_Kind : option string;
  pr_Namespace : option string;
  pr_Name : string;
  pr_SectionName : option string;
  pr_Port : option Z
}.

#[export] Instance ParentReference_eq_dec : EqDecision ParentReference.
Proof. solve_decision. Defined.

Record BackendObjectReference := mkBackendObjectReference {
  bor_Group : option string;
  bor_Kind : option string;
  bor_Name : string;
  bor_Namespace : option string;
  bor_Port : option Z
}.

Record BackendRef := mkBackendRef {
  br_ref : BackendObjectReference;
  br_Weight : option Z
}.

Record SecretObjectReference := mkSecretObjectReference {
  sor_Group : option string;
  sor_Kind : option string;
  sor_Name : string;
  sor_Namespace : option string
}.

Record ReferenceGrantFrom := mkReferenceGrantFrom {
  rgf_Group : string; rgf_Kind : string; rgf_Namespace : string }.
Record ReferenceGrantTo := mkReferenceGrantTo {
  rgt_Group : string; rgt_Kind : string; rgt_Name : option string }.
Record ReferenceGrant := mkReferenceGrant {
  rg_Name : string;
  rg_Namespace : string;
  rg_From : list ReferenceGrantFrom;
  rg_To : list ReferenceGrantTo
}.

(** *** Gateways *)

Record RouteGroupKind := mkRouteGroupKind { rgk_Group : option string; rgk_Kind : string }.

#[export] Instance RouteGroupKind_eq_dec : EqDecision RouteGroupKind.
Proof. solve_decision. Defined.

Record RouteNamespaces := mkRouteNamespaces {
  rn_From : option string; rn_Selector : option LabelSelector }.
Record AllowedRoutes := mkAllowedRoutes {
  ar_Namespaces : option RouteNamespaces; ar_Kinds : slice RouteGroupKind }.
Record ListenerTLSConfig := mkListenerTLSConfig {
  tls_Mode : option string; tls_CertificateRefs : list SecretObjectReference }.

Record Listener := mkListener {
  l_Name : string;
  l_Hostname : option string;
  l_Port : Z;
  l_Protocol : string;
  l_TLS : option ListenerTLSConfig;
  l_AllowedRoutes : option AllowedRoutes
}.

Record GatewayInfrastructure := mkGatewayInfrastructure {
  gi_Labels : gmap string string; gi_Annotations : gmap string string }.

(** The status of a listener of a Gateway or a ListenerSet. *)
Record ListenerStatus := mkListenerStatus {
  lstat_Name : string;
  lstat_SupportedKinds : slice RouteGroupKind;
  lstat_Conditions : list Condition;
  lstat_AttachedRoutes : Z
}.

Record GatewayStatusAddress := mkGatewayStatusAddress {
  gsa_Type : option string; gsa_Value : string }.

Record GatewayStatus := mkGatewayStatus {
  gs_Addresses : list GatewayStatusAddress;
  gs_Conditions : list Condition;
  gs_Listeners : list ListenerStatus;
  gs_AttachedListenerSets : option Z
}.

#[export] Instance ListenerStatus_eq_dec : EqDecision ListenerStatus.
Proof. solve_decision. Defined.
#[export] Instance GatewayStatusAddress_eq_dec : EqDecision GatewayStatusAddress.
Proof. solve_decision. Defined.
#[export] Instance GatewayStatus_eq_dec : EqDecision GatewayStatus.
Proof. solve_decision. Defined.

Definition IPAddressType : string := "IPAddress".
Definition HostnameAddressType : string := "Hostname".

Record Gateway := mkGateway {
  gw_meta : ObjectMeta;
  gw_gvk : GroupVersionKind;
  gw_GatewayClassName : string;
  gw_Listeners : list Listener;
  gw_Infrastructure : option GatewayInfrastructure;
  (** [allowedListeners], with its [namespaces]. *)
  gw_AllowedListeners : option (option RouteNamespaces);
  gw_Status : GatewayStatus
}.

Record ParametersReference := mkParametersReference {
  pref_Group : string; pref_Kind : string; pref_Name : string; pref_Namespace : option string }.

Record GatewayClass := mkGatewayClass {
  gc_meta : ObjectMeta;
  gc_ControllerName : string;
  gc_ParametersRef : option ParametersReference;
  gc_Conditions : list Condition;
  gc_SupportedFeatures : list string
}.

(** A ListenerSet; [lst_Kind] is the kind of its type metadata.  A ListenerEntry
    has the fields of a Listener. *)
Record ParentGatewayReference := mkParentGatewayReference {
  pgr_Namespace : option string; pgr_Name : string }.

Record ListenerSetStatus := mkListenerSetStatus {
  lss_Conditions : list Condition; lss_Listeners : list ListenerStatus }.

#[export] Instance ListenerSetStatus_eq_dec : EqDecision ListenerSetStatus.
Proof. solve_decision. Defined.

Record ListenerSet := mkListenerSet {
  lst_meta : ObjectMeta;
  lst_Kind : string;
  lst_ParentRef : ParentGatewayReference;
  lst_Listeners : list Listener;
  lst_Status : ListenerSetStatus
}.

(** Types and reasons of conditions. *)
Definition ConditionAccepted : string := "Accepted".
Definition ConditionProgrammed : string := "Programmed".
Definition ConditionResolvedRefs : string := "ResolvedRefs".
Definition ConditionReady : string := "Ready".
Definition ReasonAccepted : string := "Accepted".
Definition ReasonProgrammed : string := "Programmed".
Definition ReasonResolvedRefs : string := "ResolvedRefs".
Definition ReasonPending : string := "Pending".
Definition ReasonInvalid : string := "Invalid".
Definition ReasonInvalidParameters : string := "InvalidParameters".
Definition GatewayReasonNoResources : string := "NoResources".
Definition GatewayReasonReady : string := "Ready".
Definition GatewayReasonListenersNotReady : string := "ListenersNotReady".
Definition ListenerReasonInvalidRouteKinds : string := "InvalidRouteKinds".
Definition ListenerReasonInvalidCertificateRef : string := "InvalidCertificateRef".
Definition ListenerReasonUnsupportedProtocol : string := "UnsupportedProtocol".
Definition ListenerReasonHostnameConflict : string := "HostnameConflict".
Definition ReasonRefNotPermitted : string := "RefNotPermitted".
Definition ReasonUnsupportedValue : string := "UnsupportedValue".
Definition ListenerSetReasonNotAllowed : string := "NotAllowed".
Definition ListenerSetReasonListenersNotValid : string := "ListenersNotValid".
Definition RouteReasonNotAllowedByListeners : string := "NotAllowedByListeners".
Definition RouteReasonNoMatchingListenerHostname : string := "NoMatchingListenerHostname".
Definition RouteReasonInvalidKind : string := "InvalidKind".
Definition RouteReasonBackendNotFound : string := "BackendNotFound".
Definition PolicyReasonConflicted : string := "Conflicted".
Definition PolicyReasonNoValidCACertificate : string := "NoValidCACertificate".
Definition PolicyReasonInvalidCACertificateRef : string := "InvalidCACertificateRef".

(** *** Routes

    All five route kinds have the parent references, hostnames, rules and
    per-parent status below; TCPRoute and UDPRoute have no hostnames. *)

Record RouteParentStatus := mkRouteParentStatus {
  rps_ParentRef : ParentReference;
  rps_ControllerName : string;
  rps_Conditions : list Condition
}.

#[export] Instance RouteParentStatus_eq_dec : EqDecision RouteParentStatus.
Proof. solve_decision. Defined.

Record Route (Rule : Type) := mkRoute {
  rt_meta : ObjectMeta;
  rt_ParentRefs : list ParentReference;
  rt_Hostnames : list string;
  rt_Rules : list Rule;
  rt_Parents : list RouteParentStatus
}.
Arguments mkRoute {Rule}.
Arguments rt_meta {Rule}.
Arguments rt_ParentRefs {Rule}.
Arguments rt_Hostnames {Rule}.
Arguments rt_Rules {Rule}.
Arguments rt_Parents {Rule}.

Record HTTPHeader := mkHTTPHeader { hh_Name : string; hh_Value : string }.
Record HTTPHeaderFilter := mkHTTPHeaderFilter {
  hhf_Set : list HTTPHeader; hhf_Add : list HTTPHeader; hhf_Remove : list string }.
Record HTTPPathModifier := mkHTTPPathModifier {
  pm_Type : string; pm_ReplaceFullPath : option string; pm_ReplacePrefixMatch : option string }.
Record HTTPRequestRedirectFilter := mkHTTPRequestRedirectFilter {
  rrf_Scheme : option string;
  rrf_Hostname : option string;
  rrf_Path : option HTTPPathModifier;
  rrf_Port : option Z;
  rrf_StatusCode : option Z
}.
Record HTTPURLRewriteFilter := mkHTTPURLRewriteFilter {
  urf_Hostname : option string; urf_Path : option HTTPPathModifier }.

Record RouteFilter := mkRouteFilter {
  rf_Type : string;
  rf_RequestHeaderModifier : option HTTPHeaderFilter;
  rf_ResponseHeaderModifier : option HTTPHeaderFilter;
  rf_RequestMirror : option BackendObjectReference;
  rf_RequestRedirect : option HTTPRequestRedirectFilter;
  rf_URLRewrite : option HTTPURLRewriteFilter;
  rf_ExternalAuth : option BackendObjectReference
}.

Record HTTPPathMatch := mkHTTPPathMatch {
  hpm_Type : option string; hpm_Value : option string }.
(** A header, query parameter or gRPC header match. *)
Record ValueMatch := mkValueMatch {
  vm_Type : option string; vm_Name : string; vm_Value : string }.
Record HTTPRouteMatch := mkHTTPRouteMatch {
  hrm_Path : option HTTPPathMatch;
  hrm_Headers : list ValueMatch;
  hrm_QueryParams : list ValueMatch;
  hrm_Method : option string
}.
Record HTTPBackendRef := mkHTTPBackendRef {
  hbr_BackendRef : BackendRef; hbr_Filters : list RouteFilter }.
Record HTTPRouteRule := mkHTTPRouteRule {
  hrr_Matches : list HTTPRouteMatch;
  hrr_Filters : list RouteFilter;
  hrr_BackendRefs : list HTTPBackendRef
}.

Record GRPCMethodMatch := mkGRPCMethodMatch {
  gmm_Type : option string; gmm_Service : option string; gmm_Method : option string }.
Record GRPCRouteMatch := mkGRPCRouteMatch {
  grm_Method : option GRPCMethodMatch; grm_Headers : list ValueMatch }.
Record GRPCRouteRule := mkGRPCRouteRule {
  grr_Matches : list GRPCRouteMatch;
  grr_Filters : list RouteFilter;
  grr_BackendRefs : list BackendRef
}.

(** Rules of TLSRoute, TCPRoute and UDPRoute. *)
Record L4RouteRule := mkL4RouteRule { l4_BackendRefs : list BackendRef }.

Abbreviation HTTPRoute := (Route HTTPRouteRule).
Abbreviation GRPCRoute := (Route GRPCRouteRule).
Abbreviation TLSRoute := (Route L4RouteRule).
Abbreviation TCPRoute := (Route L4RouteRule).
Abbreviation UDPRoute := (Route L4RouteRule).

(** *** Policies *)

Record PolicyTargetReference := mkPolicyTargetReference {
  ptr_Group : string; ptr_Kind : string; ptr_Name : string; ptr_SectionName : option string }.

(** A reference to an object of the same namespace. *)
Record LocalObjectReference := mkLocalObjectReference {
  lor_Group : string; lor_Kind : string; lor_Name : string }.

Record PolicyAncestorStatus := mkPolicyAncestorStatus {
  pas_AncestorRef : ParentReference;
  pas_ControllerName : string;
  pas_Conditions : list Condition
}.

#[export] Instance PolicyAncestorStatus_eq_dec : EqDecision PolicyAncestorStatus.
Proof. solve_decision. Defined.

Record BackendTLSPolicy := mkBackendTLSPolicy {
  btp_meta : ObjectMeta;
  btp_TargetRefs : list PolicyTargetReference;
  btp_CACertificateRefs : list LocalObjectReference;
  btp_WellKnownCACertificates : option string;
  btp_Ancestors : list PolicyAncestorStatus
}.

End gatewayv1.
