(* ===== verification/Model.v ===== *)
(** * The internal model (src/pkg/model/model.go)

    The intermediate representation between ingestion (Gateway API or Ingress
    objects) and translation (Envoy configuration): listeners of the four
    protocols, their routes and backends, the accessors of the [Listener]
    interface, and [HTTPRoute.GetMatchKey], by which translation groups the
    routes that match the same requests. *)

From S2P Require Import Prelude GoStrings.
From Stdlib Require Import Ascii.

Module model.

(** ** Data *)

Record FullyQualifiedResource := mkFQR {
  fqr_Name : string;
  fqr_Namespace : string;
  fqr_Group : string;
  fqr_Version : string;
  fqr_Kind : string;
  fqr_UID : string
}.

#[global] Instance FullyQualifiedResource_eq_dec : EqDecision FullyQualifiedResource.
Proof. solve_decision. Defined.

Record TLSSecret := mkTLSSecret { sec_Name : string; sec_Namespace : string }.

#[global] Instance TLSSecret_eq_dec : EqDecision TLSSecret.
Proof. solve_decision. Defined.

#[global] Instance TLSSecret_countable : Countable TLSSecret.
Proof.
  refine (inj_countable' (λ s, (sec_Name s, sec_Namespace s)) (λ p, mkTLSSecret p.1 p.2) _).
  by intros [].
Defined.

Record Service := mkService {
  ms_Type : string;
  ms_InsecureNodePort : option Z;
  ms_SecureNodePort : option Z
}.

Record StringMatch := mkStringMatch { sm_Prefix : string; sm_Exact : string; sm_Regex : string }.
Definition emptyMatch : StringMatch := mkStringMatch "" "" "".

#[global] Instance StringMatch_eq_dec : EqDecision StringMatch.
Proof. solve_decision. Defined.

Record KeyValueMatch := mkKeyValueMatch { kv_Key : string; kv_Match : StringMatch }.

Record Header := mkHeader { h_Name : string; h_Value : string }.
Record HttpHeaderFilter := mkHttpHeaderFilter {
  hf_HeadersToAdd : list Header;
  hf_HeadersToSet : list Header;
  hf_HeadersToRemove : list string
}.

Record BackendHttpFilter := mkBackendHttpFilter {
  bhf_Name : string;
  bhf_RequestHeaderFilter : option HttpHeaderFilter;
  bhf_ResponseHeaderModifier : option HttpHeaderFilter
}.

Record DirectResponse := mkDirectResponse { dr_StatusCode : Z; dr_Body : string }.

Record BackendPort := mkBackendPort { bp_Port : Z; bp_Name : string }.
Record BackendTLS := mkBackendTLS { bt_SNI : string; bt_ValidationSecret : string }.

Record Backend := mkBackend {
  b_Name : string;
  b_Namespace : string;
  b_Port : option BackendPort;
  b_Weight : option Z;
  b_TLS : option BackendTLS
}.

Record Timeout := mkTimeout { to_Request : option Z; to_Backend : option Z }.
Record HttpRequestMirror := mkHttpRequestMirror { mir_Backend : option Backend }.

Record HTTPRequestRedirectFilter := mkRedirect {
  rd_Scheme : option string;
  rd_Hostname : option string;
  rd_Path : option StringMatch;
  rd_Port : option Z;
  rd_StatusCode : option Z
}.

Record HTTPURLRewriteFilter := mkRewrite {
  rw_HostName : option string; rw_Path : option StringMatch }.

Record HTTPRoute := mkHTTPRoute {
  r_Name : string;
  r_Hostnames : list string;
  r_PathMatch : StringMatch;
  r_HeadersMatch : list KeyValueMatch;
  r_QueryParamsMatch : list KeyValueMatch;
  r_Method : option string;
  r_Backends : list Backend;
  r_BackendHttpFilters : list BackendHttpFilter;
  r_DirectResponse : option DirectResponse;
  r_ResponseHeaderMatch : option HttpHeaderFilter;
  r_ResponseHeaderModifier : option HttpHeaderFilter;
  r_RequestHeaderFilter : option HttpHeaderFilter;
  r_RequestRedirect : option HTTPRequestRedirectFilter;
  r_Rewrite : option HTTPURLRewriteFilter;
  r_RequestMirrors : list HttpRequestMirror;
  r_IsGRPC : bool;
  r_Timeout : Timeout
}.

Record Infrastructure := mkInfrastructure {
  inf_Labels : gmap string string; inf_Annotations : gmap string string }.

(** [hl_TLS] is a slice: the code tells nil (no TLS) from empty. *)
Record HTTPListener := mkHTTPListener {
  hl_Name : string;
  hl_Sources : list FullyQualifiedResource;
  hl_Address : string;
  hl_Port : Z;
  hl_Hostname : string;
  hl_TLS : slice TLSSecret;
  hl_Routes : list HTTPRoute;
  hl_Service : option Service;
  hl_Infrastructure : option Infrastructure;
  hl_ForceHTTPtoHTTPSRedirect : bool
}.

Record TLSRoute := mkTLSRoute {
  tr_Name : string; tr_Hostnames : list string; tr_Backends : list Backend }.

Record TLSListener := mkTLSListener {
  tl_Name : string;
  tl_Sources : list FullyQualifiedResource;
  tl_Address : string;
  tl_Port : Z;
  tl_Hostname : string;
  tl_Routes : list TLSRoute;
  tl_Service : option Service;
  tl_Infrastructure : option Infrastructure
}.

Record TCPRoute := mkTCPRoute { tcpr_Backends : list Backend }.
Record TCPListener := mkTCPListener {
  tcpl_Name : string;
  tcpl_Port : Z;
  tcpl_Sources : list FullyQualifiedResource;
  tcpl_Routes : list TCPRoute;
  tcpl_Infrastructure : option Infrastructure
}.

Record UDPRoute := mkUDPRoute { udpr_Backends : list Backend }.
Record UDPListener := mkUDPListener {
  udpl_Name : string;
  udpl_Port : Z;
  udpl_Sources : list FullyQualifiedResource;
  udpl_Routes : list UDPRoute;
  udpl_Infrastructure : option Infrastructure
}.

Record Model := mkModel {
  m_HTTP : list HTTPListener;
  m_TLS : list TLSListener;
  m_TCP : list TCPListener;
  m_UDP : list UDPListener
}.

(** ** The [Listener] interface *)

Class Listener (T : Type) := {
  GetSources : T → list FullyQualifiedResource;
  GetPort : T → Z;
  GetAnnotations : T → option (gmap string string);
  GetLabels : T → option (gmap string string)
}.

#[export] Instance HTTPListener_Listener : Listener HTTPListener := {
  GetSources := hl_Sources;
  GetPort := hl_Port;
  GetAnnotations h := inf_Annotations <$> hl_Infrastructure h;
  GetLabels h := inf_Labels <$> hl_Infrastructure h
}.

#[export] Instance TLSListener_Listener : Listener TLSListener := {
  GetSources := tl_Sources;
  GetPort := tl_Port;
  GetAnnotations h := inf_Annotations <$> tl_Infrastructure h;
  GetLabels h := inf_Labels <$> tl_Infrastructure h
}.

(** [Model.GetListeners]: the HTTP listeners, then the TLS listeners. *)
Definition GetListeners (m : Model) : list (HTTPListener + TLSListener) :=
  (inl <$> m_HTTP m) ++ (inr <$> m_TLS m).

(** ** Methods *)

Definition StringMatch_String (sm : StringMatch) : string :=
  if negb (String.eqb (sm_Prefix sm) "") then "prefix:" +:+ sm_Prefix sm
  else if negb (String.eqb (sm_Exact sm) "") then "exact:" +:+ sm_Exact sm
  else if negb (String.eqb (sm_Regex sm) "") then "regex:" +:+ sm_Regex sm
  else "".

Definition KeyValueMatch_String (kv : KeyValueMatch) : string :=
  "kv:" +:+ kv_Key kv +:+ ":" +:+ StringMatch_String (kv_Match kv).

(** [BackendPort.GetPort]; the receiver of a nil pointer panics. *)
Definition BackendPort_GetPort (b : BackendPort) : string :=
  if bool_decide (bp_Port b ≠ 0%Z) then Itoa (bp_Port b) else bp_Name b.

(** [sort.Slice] by the printed match; it sorts the slice in place, so the route
    itself changes ([sort_matches]). *)
Definition kv_less (a b : KeyValueMatch) : bool :=
  str_ltb (KeyValueMatch_String a) (KeyValueMatch_String b).

Definition sort_matches (r : HTTPRoute) : HTTPRoute :=
  mkHTTPRoute (r_Name r) (r_Hostnames r) (r_PathMatch r)
    (sort_stable kv_less (r_HeadersMatch r)) (sort_stable kv_less (r_QueryParamsMatch r))
    (r_Method r) (r_Backends r) (r_BackendHttpFilters r) (r_DirectResponse r)
    (r_ResponseHeaderMatch r) (r_ResponseHeaderModifier r) (r_RequestHeaderFilter r)
    (r_RequestRedirect r) (r_Rewrite r) (r_RequestMirrors r) (r_IsGRPC r) (r_Timeout r).

(** The pieces of a match key, each followed by a vertical bar in the key. *)
Definition key_segments (r : HTTPRoute) : list string :=
  match r_Method r with Some m => ["method:" +:+ m] | None => [] end ++
  ["path:" +:+ StringMatch_String (r_PathMatch r)] ++
  ((λ h, "header:" +:+ KeyValueMatch_String h) <$> sort_stable kv_less (r_HeadersMatch r)) ++
  ((λ q, "query:" +:+ KeyValueMatch_String q) <$> sort_stable kv_less (r_QueryParamsMatch r)).

Definition write_segments (l : list string) : string :=
  foldr (λ s acc, s +:+ "|" +:+ acc) "" l.

Definition GetMatchKey (r : HTTPRoute) : string := write_segments (key_segments r).

(** ** Lemmas *)

Lemma kv_less_asym a b : kv_less a b = true → kv_less b a = false.
Proof. apply str_ltb_asym. Qed.

Lemma kv_le_trans a b c : sorted_le kv_less a b → sorted_le kv_less b c → sorted_le kv_less a c.
Proof. apply str_le_trans. Qed.

#[export] Hint Resolve kv_less_asym kv_le_trans : go.

(** Sorting matches sorts the strings they print to. *)
Lemma fmap_sort_matches l :
  KeyValueMatch_String <$> sort_stable kv_less l = sort_strings (KeyValueMatch_String <$> l).
Proof.
  assert (Hins : ∀ x k, KeyValueMatch_String <$> insert_stable kv_less x k =
    insert_stable str_ltb (KeyValueMatch_String x) (KeyValueMatch_String <$> k)).
  { intros x k. induction k as [|y k IH]; [done|].
    rewrite fmap_cons. cbn [insert_stable]. unfold kv_less at 1.
    destruct (str_ltb _ _); [|done]. rewrite fmap_cons. by f_equal. }
  induction l as [|x l IH]; [done|]. rewrite fmap_cons.
  change (KeyValueMatch_String <$> insert_stable kv_less x (sort_stable kv_less l) =
    insert_stable str_ltb (KeyValueMatch_String x) (sort_strings (KeyValueMatch_String <$> l))).
  by rewrite Hins, IH.
Qed.

Lemma fmap_tag_sort tag l :
  (λ h, tag +:+ KeyValueMatch_String h) <$> sort_stable kv_less l =
  String.app tag <$> sort_strings (KeyValueMatch_String <$> l).
Proof.
  rewrite <-fmap_sort_matches. induction (sort_stable kv_less l) as [|x k IH]; [done|].
  cbn. f_equal. exact IH.
Qed.

Lemma GetMatchKey_sort_matches r : GetMatchKey (sort_matches r) = GetMatchKey r.
Proof.
  unfold GetMatchKey, key_segments, sort_matches.
  cbn [r_Method r_PathMatch r_HeadersMatch r_QueryParamsMatch].
  by rewrite !sort_stable_idemp by eauto with go.
Qed.

Lemma sort_matches_idemp r : sort_matches (sort_matches r) = sort_matches r.
Proof.
  unfold sort_matches. cbn [r_Name r_Hostnames r_PathMatch r_HeadersMatch r_QueryParamsMatch
    r_Method r_Backends r_BackendHttpFilters r_DirectResponse r_ResponseHeaderMatch
    r_ResponseHeaderModifier r_RequestHeaderFilter r_RequestRedirect r_Rewrite r_RequestMirrors
    r_IsGRPC r_Timeout].
  by rewrite !sort_stable_idemp by eauto with go.
Qed.

(** Two lists of bar-free pieces written the same way are equal. *)
Lemma write_segments_inj l1 l2 :
  Forall (λ s, ContainsChar s "|" = false) l1 →
  Forall (λ s, ContainsChar s "|" = false) l2 →
  write_segments l1 = write_segments l2 → l1 = l2.
Proof.
  intros H1. revert l2. induction H1 as [|s l1 Hs _ IH]; intros l2 H2 H.
  - destruct H2 as [|t l2]; [done|]. cbn in H. apply (f_equal len) in H.
    rewrite !len_app in H. cbn in H. lia.
  - destruct H2 as [|t l2 Ht H2].
    + cbn in H. apply (f_equal len) in H. rewrite !len_app in H. cbn in H. lia.
    + cbn in H. apply str_sep_inj in H as [-> H]; [|done..].
      f_equal. by apply IH.
Qed.

(** Splitting a list of tagged headers followed by tagged queries. *)
Lemma tagged_inj (h1 h2 q1 q2 : list string) :
  (String.app "header:" <$> h1) ++ (String.app "query:" <$> q1) =
  (String.app "header:" <$> h2) ++ (String.app "query:" <$> q2) →
  h1 = h2 ∧ q1 = q2.
Proof.
  revert h2. induction h1 as [|x h1 IH]; intros [|y h2]; cbn; intros H.
  - split; [done|]. by apply (inj (fmap (String.app "query:"))).
  - by destruct q1.
  - by destruct q2.
  - injection H as H1 H2. destruct (IH _ H2) as [-> ->].
    split; [|done]. f_equal. exact H1.
Qed.

(** The texts that a key is made of. *)
Definition same_texts (r1 r2 : HTTPRoute) : Prop :=
  r_Method r1 = r_Method r2 ∧
  StringMatch_String (r_PathMatch r1) = StringMatch_String (r_PathMatch r2) ∧
  (KeyValueMatch_String <$> r_HeadersMatch r1) ≡ₚ (KeyValueMatch_String <$> r_HeadersMatch r2) ∧
  (KeyValueMatch_String <$> r_QueryParamsMatch r1) ≡ₚ
    (KeyValueMatch_String <$> r_QueryParamsMatch r2).

Lemma key_segments_sorted r :
  key_segments r =
  match r_Method r with Some m => ["method:" +:+ m] | None => [] end ++
  ("path:" +:+ StringMatch_String (r_PathMatch r)) ::
  (String.app "header:" <$> sort_strings (KeyValueMatch_String <$> r_HeadersMatch r)) ++
  (String.app "query:" <$> sort_strings (KeyValueMatch_String <$> r_QueryParamsMatch r)).
Proof. unfold key_segments. by rewrite !fmap_tag_sort. Qed.

Lemma same_texts_segments r1 r2 : same_texts r1 r2 ↔ key_segments r1 = key_segments r2.
Proof.
  rewrite !key_segments_sorted. unfold same_texts. split.
  - intros (-> & -> & Hh & Hq). by rewrite (sort_strings_perm _ _ Hh), (sort_strings_perm _ _ Hq).
  - destruct (r_Method r1) as [m1|], (r_Method r2) as [m2|]; cbn [app]; intros H; try discriminate H.
    all: first [injection H as Hm Hp Ht | injection H as Hp Ht].
    all: apply tagged_inj in Ht as [Hh Hq].
    all: rewrite <-(sort_strings_Permutation (_ <$> r_HeadersMatch r1)),
      <-(sort_strings_Permutation (_ <$> r_QueryParamsMatch r1)), Hh, Hq,
      !sort_strings_Permutation.
    all: rewrite !str_app_nil_l in *; split_and!; congruence || reflexivity.
Qed.

(** ** The invariant of the models that ingestion builds

    Every backend has a port, every route without backends has a direct
    response, and every mirror has a backend with a port: what translation
    dereferences is there. *)
Definition backend_ok (b : Backend) : Prop := is_Some (b_Port b).
Definition mirror_ok (m : HttpRequestMirror) : Prop :=
  ∃ b, mir_Backend m = Some b ∧ backend_ok b.

Record route_ok (r : HTTPRoute) : Prop := {
  route_backends : Forall backend_ok (r_Backends r);
  route_response : r_Backends r = [] → is_Some (r_DirectResponse r);
  route_mirrors : Forall mirror_ok (r_RequestMirrors r)
}.

Record model_ok (m : Model) : Prop := {
  ok_HTTP : Forall (λ l, Forall route_ok (hl_Routes l)) (m_HTTP m);
  ok_TLS : Forall (λ l, Forall (λ r, Forall backend_ok (tr_Backends r)) (tl_Routes l)) (m_TLS m);
  ok_TCP : Forall (λ l, Forall (λ r, Forall backend_ok (tcpr_Backends r)) (tcpl_Routes l)) (m_TCP m);
  ok_UDP : Forall (λ l, Forall (λ r, Forall backend_ok (udpr_Backends r)) (udpl_Routes l)) (m_UDP m)
}.

(** ** Match keys *)

(** What a route matches, up to the order in which its header and query
    parameter conditions are written. *)
Definition same_match (r1 r2 : HTTPRoute) : Prop :=
  r_Method r1 = r_Method r2 ∧ r_PathMatch r1 = r_PathMatch r2 ∧
  r_HeadersMatch r1 ≡ₚ r_HeadersMatch r2 ∧ r_QueryParamsMatch r1 ≡ₚ r_QueryParamsMatch r2.

Definition bar_free (s : string) : Prop := ContainsChar s "|" = false.

(** A match of one kind (or of none), as ingestion builds them, with no separator of
    keys in it. *)
Inductive plain_match : StringMatch → Prop :=
| plain_prefix p : bar_free p → plain_match (mkStringMatch p "" "")
| plain_exact e : bar_free e → plain_match (mkStringMatch "" e "")
| plain_regex x : bar_free x → plain_match (mkStringMatch "" "" x).

Definition plain_kv (kv : KeyValueMatch) : Prop :=
  bar_free (kv_Key kv) ∧ ContainsChar (kv_Key kv) ":" = false ∧ plain_match (kv_Match kv).

Record plain_route (r : HTTPRoute) : Prop := {
  plain_method : ∀ m, r_Method r = Some m → bar_free m;
  plain_path : plain_match (r_PathMatch r);
  plain_headers : Forall plain_kv (r_HeadersMatch r);
  plain_queries : Forall plain_kv (r_QueryParamsMatch r)
}.

Lemma String_match_inj sm1 sm2 :
  plain_match sm1 → plain_match sm2 → StringMatch_String sm1 = StringMatch_String sm2 → sm1 = sm2.
Proof.
  intros [p1 _|e1 _|x1 _] [p2 _|e2 _|x2 _]; unfold StringMatch_String; cbn [sm_Prefix sm_Exact sm_Regex];
    repeat match goal with |- context [String.eqb ?a ""] => destruct (String.eqb_spec a ""); cbn [negb] end;
    intros H; subst; try done; try (cbn in H; discriminate H); f_equal; by apply (inj (String.app _)) in H.
Qed.

Lemma kv_String_inj kv1 kv2 :
  plain_kv kv1 → plain_kv kv2 → KeyValueMatch_String kv1 = KeyValueMatch_String kv2 → kv1 = kv2.
Proof.
  intros (_ & Hc1 & Hm1) (_ & Hc2 & Hm2) H. unfold KeyValueMatch_String in H.
  apply (inj (String.app "kv:")) in H. apply str_sep_inj in H as [Hk H]; [|done..].
  apply String_match_inj in H; [|done..]. destruct kv1, kv2; cbn in *; congruence.
Qed.

Lemma plain_String sm : plain_match sm → bar_free (StringMatch_String sm).
Proof.
  unfold bar_free. intros [p H|e H|x H]; unfold StringMatch_String; cbn [sm_Prefix sm_Exact sm_Regex];
    repeat match goal with |- context [String.eqb ?a ""] => destruct (String.eqb_spec a ""); cbn [negb] end;
    rewrite ?ContainsChar_app; try done; by rewrite H.
Qed.

Lemma plain_kv_String kv : plain_kv kv → bar_free (KeyValueMatch_String kv).
Proof.
  intros (Hk & _ & Hm%plain_String). unfold bar_free, KeyValueMatch_String in *.
  by rewrite !ContainsChar_app, Hk, Hm.
Qed.

Lemma plain_segments r : plain_route r → Forall (λ s, ContainsChar s "|" = false) (key_segments r).
Proof.
  intros [Hm Hp%plain_String Hh Hq]. unfold key_segments. rewrite !Forall_app. split_and!.
  - destruct (r_Method r) as [m|]; [|constructor]. apply Forall_singleton. rewrite ContainsChar_app. by rewrite (Hm m eq_refl).
  - apply Forall_singleton. rewrite ContainsChar_app. by rewrite Hp.
  - apply Forall_fmap, Forall_forall. intros kv Hkv%elem_of_sort_stable. rewrite Forall_forall in Hh.
    specialize (Hh kv Hkv). apply plain_kv_String in Hh. unfold compose. rewrite ContainsChar_app. by rewrite Hh.
  - apply Forall_fmap, Forall_forall. intros kv Hkv%elem_of_sort_stable. rewrite Forall_forall in Hq.
    specialize (Hq kv Hkv). apply plain_kv_String in Hq. unfold compose. rewrite ContainsChar_app. by rewrite Hq.
Qed.

(** A function that is injective on the elements reflects permutations. *)
Lemma fmap_perm_inj {A B} (P : A → Prop) (f : A → B) l1 l2 :
  (∀ x y, P x → P y → f x = f y → x = y) → Forall P l1 → Forall P l2 → f <$> l1 ≡ₚ f <$> l2 → l1 ≡ₚ l2.
Proof.
  intros Hf H1. revert l2. induction H1 as [|x l1 Hx _ IH]; intros l2 H2 H.
  - symmetry in H. apply Permutation_nil_r in H. by apply fmap_nil_inv in H as ->.
  - assert (Hin : f x ∈ f <$> l2) by (rewrite <-H; left). apply list_elem_of_fmap in Hin as (y & Ey & Hy).
    assert (x = y) as -> by (apply Hf; [done| |done]; rewrite Forall_forall in H2; by apply H2).
    apply list_elem_of_split in Hy as (k1 & k2 & ->). rewrite <-Permutation_middle in H2 |- *.
    apply Forall_cons in H2 as [_ H2]. f_equiv. apply IH; [done|].
    rewrite <-Permutation_middle in H. cbn in H. by apply Permutation_cons_inv in H.
Qed.

Lemma same_match_texts r1 r2 : plain_route r1 → plain_route r2 → same_match r1 r2 ↔ same_texts r1 r2.
Proof.
  intros [Hm1 Hp1 Hh1 Hq1] [Hm2 Hp2 Hh2 Hq2]. unfold same_match, same_texts. split.
  - intros (-> & -> & Hh & Hq). split_and!; [done..| |]; by f_equiv.
  - intros (Hm & Hp & Hh & Hq). split_and!; [done|by apply String_match_inj| |];
      eapply fmap_perm_inj; eauto using kv_String_inj.
Qed.

(** C27: translation groups routes by [GetMatchKey].  On routes whose matches are of
    one kind each, with no vertical bar in them and no colon in the keys of header
    and query parameter matches, two routes get the same key exactly when they have
    the same method, the same path match and, up to order, the same header and query
    parameter matches.  Without these conditions keys collide
    ([GetMatchKey_collision], [GetMatchKey_colon_collision]). *)
Theorem GetMatchKey_groups r1 r2 :
  plain_route r1 → plain_route r2 →
  GetMatchKey r1 = GetMatchKey r2 ↔ same_match r1 r2.
Proof.
  intros H1 H2. rewrite same_match_texts, same_texts_segments by done. unfold GetMatchKey. split.
  - apply write_segments_inj; by apply plain_segments.
  - by intros ->.
Qed.

Definition example_route (h q : list KeyValueMatch) : HTTPRoute :=
  mkHTTPRoute "r" [] (mkStringMatch "/api" "" "") h q (Some "GET") [] [] None None None None None
    None [] false (mkTimeout None None).

Definition example_kv (k v : string) : KeyValueMatch := mkKeyValueMatch k (mkStringMatch "" v "").

Lemma GetMatchKey_groups_witness :
  GetMatchKey (example_route [example_kv "b" "1"; example_kv "a" "2"] []) =
  GetMatchKey (example_route [example_kv "a" "2"; example_kv "b" "1"] []) ↔
  same_match (example_route [example_kv "b" "1"; example_kv "a" "2"] [])
    (example_route [example_kv "a" "2"; example_kv "b" "1"] []).
Proof.
  apply GetMatchKey_groups; split; cbn; try (by repeat constructor);
    intros m [= <-]; reflexivity.
Defined.

(** Without the condition, keys collide: a header value may contain the text of
    another condition. *)
Example GetMatchKey_collision :
  GetMatchKey (example_route [example_kv "a" "1|header:kv:b:exact:2"] []) =
  GetMatchKey (example_route [example_kv "a" "1"; example_kv "b" "2"] []).
Proof. vm_compute. reflexivity. Qed.

(** They also collide without a bar, by a colon in a key. *)
Example GetMatchKey_colon_collision :
  GetMatchKey (example_route [example_kv "a" "exact:b"] []) =
  GetMatchKey (example_route [example_kv "a:exact" "b"] []).
Proof. vm_compute. reflexivity. Qed.

End model.
