(* ===== verification/Hostnames.v ===== *)
(** * Names and hostnames

    [Module helper] models src/pkg/model/helper.go: [Shorten] with its hash,
    [ComputeHosts] and [AddSource].  [Module gateway] models the hostname part
    of src/pkg/gateway_api/helpers/gateway.go ([SNIHostnamesIntersect]).  Both
    are specified against [matches], the hosts a hostname pattern stands for. *)

From S2P Require Import Prelude GoStrings Sha256 ApiTypes Model.
From Stdlib Require Import Ascii.
Import model.

(** ** What a hostname pattern matches

    A pattern that starts with a star matches the hosts that end with the rest
    and have something before it; any other pattern matches itself. *)
Definition matches (p h : string) : Prop :=
  match p with
  | String "*" s => ∃ u, u ≠ "" ∧ h = u +:+ s
  | _ => h = p
  end.

Module helper.

Definition allHosts : string := "*".

Definition encode_rune (c : ascii) : ascii :=
  match c with
  | "0" => "g" | "1" => "h" | "3" => "k" | "a" => "m" | "e" => "t"
  | _ => c
  end%char.

(** The slice expression [x[:10]] is in range: the argument is a hash, of 64
    characters ([len_hash]). *)
Definition encodehash (x : string) : string :=
  str_map (λ c, String (encode_rune c) "") (str_take 10 x).

Definition hash (hex : string) : string := hex_state (Sum256 hex).

Definition Shorten (s : string) : string :=
  if 63 <? len s then str_take 52 s +:+ "-" +:+ encodehash (hash s) else s.

Definition hostnameMatchesWildcardHostname (hostname wildcardHostname : string) : bool :=
  if negb (HasSuffix hostname (TrimPrefix wildcardHostname allHosts)) then false
  else
    let wildcardMatch := TrimSuffix hostname (TrimPrefix wildcardHostname allHosts) in
    0 <? len wildcardMatch.

(** The variant with a capital N, which trims a suffix from the wildcard. *)
Definition hostnameMatchesWildcardHostName (hostname wildcardHostname : string) : bool :=
  if negb (HasSuffix hostname (TrimSuffix wildcardHostname allHosts)) then false
  else
    let wildMatch := TrimSuffix hostname (TrimPrefix wildcardHostname allHosts) in
    0 <? len wildMatch.

(** The body of the loop of [ComputeHosts]: what one route hostname adds. *)
Definition computeHost (listenerHostnameVal routeHostname : string) : list string :=
  if len listenerHostnameVal =? 0 then [routeHostname]
  else if String.eqb listenerHostnameVal routeHostname then [routeHostname]
  else if HasPrefix listenerHostnameVal allHosts then
    if hostnameMatchesWildcardHostname routeHostname listenerHostnameVal
    then [routeHostname] else []
  else if HasPrefix routeHostname allHosts then
    if hostnameMatchesWildcardHostname listenerHostnameVal routeHostname
    then [listenerHostnameVal] else []
  else [].

Definition ComputeHosts (routeHostnames : list string) (listenerHostname : option string)
  : list string :=
  let listenerHostnameVal := default "" listenerHostname in
  if length routeHostnames =? 0 then
    if 0 <? len listenerHostnameVal then [listenerHostnameVal] else [allHosts]
  else sort_strings (routeHostnames ≫= computeHost listenerHostnameVal).

Definition AddSource (sourceList : list FullyQualifiedResource) (source : FullyQualifiedResource)
  : list FullyQualifiedResource :=
  if existsb (λ s, bool_decide (s = source)) sourceList then sourceList
  else sourceList ++ [source].

(** ** Lemmas *)

Lemma len_str_map_char (f : ascii → ascii) s : len (str_map (λ c, String (f c) "") s) = len s.
Proof.
  induction s as [|c s IH]; [done|]. cbn [str_map]. rewrite str_app_cons, str_app_nil_l.
  unfold len in *. cbn. by f_equal.
Qed.

Lemma len_hash s : len (hash s) = 64.
Proof. apply len_hex_state. Qed.

Lemma len_encodehash s : len (encodehash (hash s)) = 10.
Proof. unfold encodehash. by rewrite len_str_map_char, len_str_take, len_hash. Qed.

Lemma matches_wild s h : matches (String "*" s) h ↔ ∃ u, u ≠ "" ∧ h = u +:+ s.
Proof. done. Qed.

Lemma matches_exact p h : HasPrefix p "*" = false → matches p h ↔ h = p.
Proof.
  destruct p as [|c p]; [done|]. unfold HasPrefix. cbn.
  destruct (ascii_dec "*" c) as [<-|Hne]; [by destruct p|]. intros _.
  destruct c as [[] [] [] [] [] [] [] []]; try done.
Qed.

Lemma HasPrefix_star p : HasPrefix p "*" = true → ∃ s, p = String "*" s.
Proof. intros [u ->]%HasPrefix_spec. by exists u. Qed.

Lemma TrimPrefix_star s : TrimPrefix (String "*" s) "*" = s.
Proof. apply (TrimPrefix_app "*" s). Qed.

(** The helper decides [matches] for wildcard patterns. *)
Lemma hostnameMatches_spec h s :
  hostnameMatchesWildcardHostname h (String "*" s) = true ↔ matches (String "*" s) h.
Proof.
  unfold hostnameMatchesWildcardHostname. rewrite TrimPrefix_star, matches_wild.
  destruct (HasSuffix h s) eqn:E; cbn [negb].
  - apply HasSuffix_spec in E as [u ->]. rewrite TrimSuffix_app, Nat.ltb_lt. split.
    + intros Hu. exists u. destruct u; [cbn in Hu; lia|done].
    + intros (v & Hv & ->%str_app_inj_r). destruct v; [done|]. cbn. lia.
  - split; [done|]. intros (u & _ & ->). assert (HasSuffix (u +:+ s) s = true) by
      (apply HasSuffix_spec; eauto). congruence.
Qed.

(** A listener without a hostname matches every host. *)
Definition listener_matches (l h : string) : Prop := l = "" ∨ matches l h.

(** The one case [ComputeHosts] does not serve: listener and route are both
    wildcards and the route's is the broader one. *)
Definition broader_wildcard (l r : string) : Prop :=
  HasPrefix l "*" = true ∧ HasPrefix r "*" = true ∧ len r < len l.

(** A wildcard extended on the left matches less. *)
Lemma matches_extend u s h :
  u ≠ "" → HasPrefix (u +:+ s) "*" = true → matches (u +:+ s) h → matches (String "*" s) h.
Proof.
  destruct u as [|c u]; [done|]. intros _ Hp. rewrite str_app_cons in *.
  apply HasPrefix_star in Hp as [t Ht]. injection Ht as -> _.
  rewrite !matches_wild. intros (v & Hv & ->). exists (v +:+ u).
  rewrite str_app_assoc. split; [|done]. by destruct v.
Qed.

(** A wildcard that is not shorter than another one matching the same host is
    an instance of it. *)
Lemma matches_comparable s t h :
  matches (String "*" s) h → matches (String "*" t) h → len s ≤ len t →
  s = t ∨ matches (String "*" s) (String "*" t).
Proof.
  rewrite !matches_wild. intros (u & Hu & ->) (v & Hv & H) Hlen.
  destruct (suffix_comparable _ _ _ _ H Hlen) as [w ->].
  destruct w as [|c w]; [by left|]. right. exists (String "*" (String c w)).
  by rewrite !str_app_cons.
Qed.

Lemma computeHost_wild s r h : String "*" s ≠ r →
  (∃ p, p ∈ computeHost (String "*" s) r ∧ matches p h) ↔
  matches r h ∧ matches (String "*" s) h ∧ ¬ broader_wildcard (String "*" s) r.
Proof.
  intros Hne. unfold computeHost, broader_wildcard, allHosts.
  rewrite (proj2 (String.eqb_neq _ _) Hne). assert (HasPrefix (String "*" s) "*" = true) as ->
    by (by destruct s).
  destruct (hostnameMatchesWildcardHostname r _) eqn:E; cbn [len String.length Nat.eqb].
  - apply hostnameMatches_spec in E. setoid_rewrite list_elem_of_singleton.
    destruct E as (u & Hu & ->). split; [|naive_solver].
    intros (? & -> & Hm). destruct (HasPrefix (u +:+ s) "*") eqn:Er.
    + split_and!; [done|by eapply matches_extend|]. intros (_ & _ & Hlt).
      rewrite len_app in Hlt. destruct u; [done|]. unfold len in Hlt. cbn in Hlt. lia.
    + split_and!; [done| |naive_solver]. apply matches_exact in Hm as ->; [|done].
      exists u. done.
  - split; [by intros (? & ?%elem_of_nil & _)|].
    intros (Hr & Hm & Hb). exfalso. destruct (HasPrefix r "*") eqn:Er.
    + apply HasPrefix_star in Er as [t ->]. destruct (decide (len s ≤ len t)) as [Hle|Hgt].
      * destruct (matches_comparable s t h Hm Hr Hle) as [->|Hc%hostnameMatches_spec]; congruence.
      * apply Hb. split_and!; [done..|]. unfold len in *. cbn. lia.
    + apply matches_exact in Hr as ->; [|done]. apply hostnameMatches_spec in Hm. congruence.
Qed.

Lemma computeHost_exact l r h : l ≠ "" → l ≠ r → HasPrefix l "*" = false →
  (∃ p, p ∈ computeHost l r ∧ matches p h) ↔ matches r h ∧ h = l.
Proof.
  intros Hl0 Hlr El. unfold computeHost, allHosts. rewrite (proj2 (String.eqb_neq _ _) Hlr), El.
  destruct (Nat.eqb_spec (len l) 0) as [?%len_nil_inv|_]; [done|].
  destruct (HasPrefix r "*") eqn:Er.
  - apply HasPrefix_star in Er as [t ->].
    destruct (hostnameMatchesWildcardHostname l _) eqn:E.
    + apply hostnameMatches_spec in E. setoid_rewrite list_elem_of_singleton. split.
      * intros (? & -> & Hm). apply matches_exact in Hm as ->; [|done]. done.
      * intros (_ & ->). exists l. by rewrite (matches_exact l).
    + split; [by intros (? & ?%elem_of_nil & _)|].
      intros (Hr & ->). apply hostnameMatches_spec in Hr. congruence.
  - split; [by intros (? & ?%elem_of_nil & _)|].
    rewrite matches_exact by done. intros (-> & ?). congruence.
Qed.

Lemma computeHost_spec l r h :
  (∃ p, p ∈ computeHost l r ∧ matches p h) ↔
  matches r h ∧ listener_matches l h ∧ ¬ broader_wildcard l r.
Proof.
  unfold listener_matches.
  destruct (decide (l = "")) as [->|Hl0].
  { setoid_rewrite list_elem_of_singleton. unfold broader_wildcard. cbn. naive_solver. }
  destruct (decide (l = r)) as [->|Hlr].
  { unfold computeHost. rewrite String.eqb_refl.
    destruct (Nat.eqb_spec (len r) 0) as [?%len_nil_inv|_]; [done|].
    setoid_rewrite list_elem_of_singleton. split; [|naive_solver].
    intros (? & -> & ?). split_and!; [done|by right|]. intros (_ & _ & ?). lia. }
  destruct (HasPrefix l "*") eqn:El.
  - apply HasPrefix_star in El as [s ->]. rewrite computeHost_wild by done. naive_solver.
  - rewrite computeHost_exact by done. rewrite (matches_exact l) by done.
    assert (¬ broader_wildcard l r) by (unfold broader_wildcard; rewrite El; naive_solver).
    naive_solver.
Qed.

Lemma matches_all h : h ≠ "" → matches "*" h.
Proof. exists h. by rewrite str_app_nil_r. Qed.

(** Every pattern matches a host. *)
Lemma matches_something p : ∃ h, matches p h.
Proof.
  destruct (HasPrefix p "*") eqn:E.
  - apply HasPrefix_star in E as [s ->]. exists ("a" +:+ s). by exists "a".
  - exists p. by apply matches_exact.
Qed.

(** The listener and the route have a host in common, up to the exception of
    [broader_wildcard]. *)
Definition hosts_meet (routeHostnames : list string) (listenerHostname : option string) : Prop :=
  routeHostnames = [] ∨
  ∃ r h, r ∈ routeHostnames ∧ matches r h ∧ listener_matches (default "" listenerHostname) h ∧
    ¬ broader_wildcard (default "" listenerHostname) r.

Lemma ComputeHosts_meet rs l : ComputeHosts rs l ≠ [] ↔ hosts_meet rs l.
Proof.
  unfold ComputeHosts, hosts_meet. set (lv := default "" l).
  destruct rs as [|r0 rs]; cbn [length Nat.eqb]; [by destruct (0 <? len lv); split; auto|].
  set (hosts := (r0 :: rs) ≫= computeHost lv).
  assert (Hne : sort_strings hosts ≠ [] ↔ ∃ p, p ∈ hosts).
  { split.
    - intros Hs. destruct (sort_strings hosts) as [|q qs] eqn:E; [done|]. exists q.
      rewrite <-elem_of_sort_strings, E. left.
    - intros [q Hq] E. rewrite <-elem_of_sort_strings, E in Hq. by apply elem_of_nil in Hq. }
  rewrite Hne. unfold hosts. setoid_rewrite list_elem_of_bind. split.
  - intros (q & r & Hq & Hr). right. destruct (matches_something q) as [h Hh]. exists r, h.
    destruct (proj1 (computeHost_spec lv r h)) as (? & ? & ?); [by exists q|done].
  - intros [?|(r & h & Hr & Hm & Hl & Hb)]; [done|].
    destruct (proj2 (computeHost_spec lv r h)) as (q & ? & _); [done|]. by exists q, r.
Qed.

#[global] Instance hosts_meet_dec rs l : Decision (hosts_meet rs l) :=
  match decide (ComputeHosts rs l = []) with
  | left E => right (λ H, proj2 (ComputeHosts_meet rs l) H E)
  | right Hne => left (proj1 (ComputeHosts_meet rs l) Hne)
  end.

Lemma len_Shorten s : len (Shorten s) ≤ 63.
Proof.
  unfold Shorten. destruct (Nat.ltb_spec 63 (len s)); [|lia].
  rewrite !len_app, len_encodehash, len_str_take. change (len "-") with 1. lia.
Qed.

(** ** Theorems *)

(** C26: [ComputeHosts] serves a (non-empty) host exactly when the listener and
    the route both match it, where a route without hostnames matches what the
    listener does and a listener without hostname matches everything.  The one
    exception, in which the host is not served, is a route wildcard that is
    broader than the listener's wildcard. *)
Theorem ComputeHosts_intersection routeHostnames listenerHostname h :
  h ≠ "" →
  (∃ p, p ∈ ComputeHosts routeHostnames listenerHostname ∧ matches p h) ↔
  listener_matches (default "" listenerHostname) h ∧
  (routeHostnames = [] ∨
   ∃ r, r ∈ routeHostnames ∧ matches r h ∧ ¬ broader_wildcard (default "" listenerHostname) r).
Proof.
  intros Hh. unfold ComputeHosts. set (l := default "" listenerHostname).
  destruct routeHostnames as [|r0 rs]; cbn [length Nat.eqb].
  - unfold listener_matches. destruct (decide (l = "")) as [->|Hl].
    + cbn. setoid_rewrite list_elem_of_singleton. pose proof (matches_all h Hh). naive_solver.
    + destruct l as [|c l']; [done|]. cbn [len String.length Nat.ltb Nat.leb].
      setoid_rewrite list_elem_of_singleton. naive_solver.
  - setoid_rewrite elem_of_sort_strings. setoid_rewrite list_elem_of_bind. split.
    + intros (p & (r & Hp & Hr) & Hm).
      assert (∃ p, p ∈ computeHost l r ∧ matches p h) as Hs by eauto.
      apply computeHost_spec in Hs. naive_solver.
    + intros (Hl & [?|(r & Hr & Hm & Hb)]); [done|].
      assert (∃ p, p ∈ computeHost l r ∧ matches p h) as (p & Hp & ?)
        by (by apply computeHost_spec).
      exists p. split; [|done]. exists r. done.
Qed.

Lemma ComputeHosts_intersection_witness :
  (∃ p, p ∈ ComputeHosts ["a.example.com"; "*.org"] (Some "*.example.com") ∧
        matches p "a.example.com") ↔
  listener_matches "*.example.com" "a.example.com" ∧
  (["a.example.com"; "*.org"] = [] ∨
   ∃ r, r ∈ ["a.example.com"; "*.org"] ∧ matches r "a.example.com" ∧
        ¬ broader_wildcard "*.example.com" r).
Proof.
  apply (ComputeHosts_intersection ["a.example.com"; "*.org"] (Some "*.example.com")). discriminate.
Defined.

(** The exception is real: the listener restricts the route to [*.b.com], but
    no host is served. *)
Example ComputeHosts_broader_route : ComputeHosts ["*.com"] (Some "*.b.com") = [].
Proof. reflexivity. Qed.

(** [Shorten] returns a name of at most 63 bytes: the name itself when it
    fits, otherwise its first 52 bytes, a dash and ten characters of its hash. *)
Theorem Shorten_bound s :
  len (Shorten s) ≤ 63 ∧
  (len s ≤ 63 → Shorten s = s) ∧
  (63 < len s → len (Shorten s) = 63 ∧
     Shorten s = str_take 52 s +:+ "-" +:+ encodehash (hash s) ∧ Shorten (Shorten s) = Shorten s).
Proof.
  assert (Hlong : 63 < len s → len (Shorten s) = 63).
  { intros H. unfold Shorten. rewrite (proj2 (Nat.ltb_lt _ _) H).
    rewrite !len_app, len_encodehash, len_str_take. change (len "-") with 1. lia. }
  assert (Hid : ∀ t, len t ≤ 63 → Shorten t = t).
  { intros t H. unfold Shorten. by rewrite (proj2 (Nat.ltb_ge _ _) H). }
  destruct (decide (63 < len s)) as [H|H].
  - split_and!; [rewrite Hlong by done; lia|intros; exfalso; lia|]. intros _. split_and!; [by apply Hlong| |].
    + unfold Shorten. by rewrite (proj2 (Nat.ltb_lt _ _) H).
    + apply Hid. rewrite Hlong by done. lia.
  - split_and!; [rewrite Hid by lia; lia|by apply Hid|intros; exfalso; lia].
Qed.

(** [AddSource] keeps the list of sources free of duplicates, adds exactly
    the given source and keeps the order of the others. *)
Theorem AddSource_set l x :
  NoDup l →
  NoDup (AddSource l x) ∧ (∀ y, y ∈ AddSource l x ↔ y = x ∨ y ∈ l) ∧ l `prefix_of` AddSource l x.
Proof.
  intros Hl. unfold AddSource. destruct (existsb _ _) eqn:E.
  - apply existsb_exists in E as (y & Hy & ->%bool_decide_eq_true).
    apply list_elem_of_In in Hy. split_and!; [done|set_solver|done].
  - assert (Hx : x ∉ l).
    { intros Hx%list_elem_of_In. assert (existsb (λ s, bool_decide (s = x)) l = true) as E'.
      { apply existsb_exists. exists x. by rewrite bool_decide_eq_true. }
      congruence. }
    split_and!; [|set_solver|by apply prefix_app_r].
    apply NoDup_app. split_and!; [done|set_solver|apply NoDup_singleton].
Qed.

Lemma AddSource_set_witness :
  let s := mkFQR "a" "b" "" "" "" "" in
  NoDup (AddSource [s] s) ∧ (∀ y, y ∈ AddSource [s] s ↔ y = s ∨ y ∈ [s]) ∧
  [s] `prefix_of` AddSource [s] s.
Proof. intros s. apply AddSource_set. apply NoDup_singleton. Defined.

End helper.

Module gateway.
Import gatewayv1.

Definition allHosts : string := "*".

Definition IsHTTPSTerminatedListener (listener : Listener) : bool :=
  String.eqb (l_Protocol listener) HTTPSProtocolType.

Definition IsTLSPassthroughListener (listener : Listener) : bool :=
  String.eqb (l_Protocol listener) TLSProtocolType &&
  match l_TLS listener with
  | Some tls => match tls_Mode tls with
                | Some mode => String.eqb mode TLSModePassthrough
                | None => false
                end
  | None => false
  end.

Definition ListenerHostname (listener : Listener) : string :=
  match l_Hostname listener with None => "" | Some h => h end.

Definition normalizeHostname (hostname : string) : string :=
  if String.eqb hostname "" then allHosts else hostname.

Definition hostnameMatchesWildcardHostname (hostname wildcardHostname : string) : bool :=
  if negb (HasSuffix hostname (TrimPrefix wildcardHostname allHosts)) then false
  else
    let wildcardMatch := TrimSuffix hostname (TrimPrefix wildcardHostname allHosts) in
    0 <? len wildcardMatch.

(** The loop over the reversed labels, [fuel] iterations from index [i]. *)
Fixpoint labels_loop (routeSlice listenerSlice : list string) (fuel i matchingLabels : nat)
  : go bool :=
  match fuel with
  | 0 => Ok (0 <? matchingLabels)
  | S fuel' =>
      r ← index routeSlice i;
      if String.eqb r allHosts then Ok (0 <? matchingLabels) else
      l ← index listenerSlice i;
      if String.eqb l allHosts then Ok (0 <? matchingLabels) else
      if String.eqb r l
      then labels_loop routeSlice listenerSlice fuel' (S i) (S matchingLabels)
      else Ok false
  end.

Definition wildcardHostnamesIntersect (routeHostname listenerHostname : string) : go bool :=
  if String.eqb routeHostname allHosts || String.eqb listenerHostname allHosts then Ok true else
  let '(cutRouteHostname, found) := CutPrefix routeHostname "*." in
  if negb found || (len cutRouteHostname =? 0) then Ok false else
  let '(cutListenerHostname, found) := CutPrefix listenerHostname "*." in
  if negb found || (len cutListenerHostname =? 0) then Ok false else
  let routeSlice := reverse (SplitChar "." routeHostname) in
  let listenerSlice := reverse (SplitChar "." listenerHostname) in
  if (length routeSlice =? 0) || (length listenerSlice =? 0) then Ok false else
  let maxLength := length routeSlice `max` length listenerSlice in
  labels_loop routeSlice listenerSlice maxLength 0 0.

Definition SNIHostnamesIntersect (a b : string) : go bool :=
  let a := normalizeHostname a in
  let b := normalizeHostname b in
  if String.eqb a allHosts || String.eqb b allHosts then Ok true else
  if String.eqb a b then Ok true else
  let aWildcard := HasPrefix a allHosts in
  let bWildcard := HasPrefix b allHosts in
  if aWildcard && bWildcard then wildcardHostnamesIntersect a b
  else if aWildcard then Ok (hostnameMatchesWildcardHostname b a)
  else if bWildcard then Ok (hostnameMatchesWildcardHostname a b)
  else Ok false.

(** ** Lemmas *)

(** The loop on labels that end with the star: it never leaves the slices, and
    compares the labels up to the end of the shorter one. *)
Lemma labels_loop_spec p p' x y fuel m :
  length p = length p' → "*" ∉ x → "*" ∉ y → length x `min` length y < fuel →
  labels_loop (p ++ x ++ ["*"]) (p' ++ y ++ ["*"]) fuel (length p) m =
  Ok (bool_decide (x `prefix_of` y ∨ y `prefix_of` x) && (0 <? m + length x `min` length y)).
Proof.
  revert p p' y fuel m. induction x as [|a x IH]; intros p p' y fuel m Hp Hx Hy Hf;
    (destruct fuel as [|fuel]; [lia|]); cbn [labels_loop]; unfold index.
  - cbn [app]. rewrite list_lookup_middle by done. cbn [mbind go_mbind String.eqb].
    rewrite bool_decide_true by (left; apply prefix_nil). cbn. by rewrite Nat.add_0_r.
  - cbn [app]. rewrite list_lookup_middle by done. cbn [mbind go_mbind].
    rewrite (proj2 (String.eqb_neq a allHosts)) by (unfold allHosts; set_solver).
    destruct y as [|b y]; cbn [app].
    + rewrite list_lookup_middle by done. cbn [mbind go_mbind String.eqb].
      rewrite bool_decide_true by (right; apply prefix_nil).
      cbn. by rewrite Nat.add_0_r.
    + rewrite list_lookup_middle by done. cbn [mbind go_mbind].
      rewrite (proj2 (String.eqb_neq b allHosts)) by (unfold allHosts; set_solver).
      destruct (String.eqb_spec a b) as [->|Hab].
      * specialize (IH (p ++ [b]) (p' ++ [b]) y fuel (S m)).
        rewrite !length_app, <-!(assoc_L (++)) in IH. cbn [app length] in IH, Hf |- *.
        rewrite Nat.add_1_r in IH. rewrite IH; [|lia|set_solver|set_solver|lia].
        do 2 f_equal; [|f_equal; lia]. apply bool_decide_ext.
        split; (intros [?|?]; [left|right]); first [by apply prefix_cons|by eapply prefix_cons_inv_2].
      * rewrite bool_decide_false; [done|].
        by intros [?%prefix_cons_inv_1|?%prefix_cons_inv_1].
Qed.

(** A hostname of a listener: none, a host without star, a lone star, or a star
    label followed by a host without star. *)
Definition valid_pattern (p : string) : Prop :=
  ContainsChar p "*" = false ∨ p = "*" ∨
  ∃ x, p = "*." +:+ x ∧ x ≠ "" ∧ ContainsChar x "*" = false.

Definition is_host (h : string) : Prop := h ≠ "" ∧ ContainsChar h "*" = false.

Lemma star_not_label x : ContainsChar x "*" = false → "*" ∉ reverse (SplitChar "." x).
Proof.
  intros Hx Hin. rewrite elem_of_reverse in Hin.
  by apply (ContainsChar_label "." "*") in Hin.
Qed.

Lemma reverse_split_wild x : reverse (SplitChar "." ("*." +:+ x)) = reverse (SplitChar "." x) ++ ["*"].
Proof.
  change ("*." +:+ x) with ("*" +:+ String "." x). rewrite SplitChar_app. by rewrite reverse_app.
Qed.

Lemma prefix_reverse {A} (k l : list A) : reverse k `prefix_of` reverse l ↔ k `suffix_of` l.
Proof. symmetry. apply suffix_prefix_reverse. Qed.

(** Two wildcards meet exactly when one is a label-wise suffix of the other. *)
Lemma wildcardHostnamesIntersect_spec x y :
  x ≠ "" → y ≠ "" → ContainsChar x "*" = false → ContainsChar y "*" = false →
  ∃ r, wildcardHostnamesIntersect ("*." +:+ x) ("*." +:+ y) = Ok r ∧
    (r = true ↔ (∃ u, "." +:+ x = u +:+ "." +:+ y) ∨ (∃ u, "." +:+ y = u +:+ "." +:+ x)).
Proof.
  intros Hx0 Hy0 Hx Hy. unfold wildcardHostnamesIntersect.
  rewrite !reverse_split_wild. set (rx := reverse _). set (ry := reverse _).
  assert (Hrx : 0 < length rx).
  { unfold rx. rewrite length_reverse. pose proof (SplitChar_nonempty "." x).
    destruct (SplitChar "." x); [done|cbn; lia]. }
  assert (Hry : 0 < length ry).
  { unfold ry. rewrite length_reverse. pose proof (SplitChar_nonempty "." y).
    destruct (SplitChar "." y); [done|cbn; lia]. }
  assert (HC : ∀ z, CutPrefix ("*." +:+ z) "*." = (z, true)).
  { intros z. unfold CutPrefix. assert (HasPrefix ("*." +:+ z) "*." = true) as ->
      by (apply HasPrefix_spec; eauto). by rewrite str_drop_app. }
  rewrite !HC. cbn [negb orb String.eqb].
  destruct (Nat.eqb_spec (len x) 0) as [?%len_nil_inv|_]; [done|].
  destruct (Nat.eqb_spec (len y) 0) as [?%len_nil_inv|_]; [done|].
  rewrite !length_app. cbn [length].
  rewrite !(proj2 (Nat.eqb_neq _ _)) by lia. cbn [orb].
  eexists. split.
  - apply (labels_loop_spec [] []); [done|by apply star_not_label..|]. lia.
  - rewrite andb_true_iff, bool_decide_eq_true, Nat.ltb_lt. unfold rx, ry.
    rewrite !prefix_reverse, !SplitChar_suffix. fold rx ry. cbn [Nat.add].
    split; [intros [[?|?] _]; [by right|by left]|].
    intros [?|?]; (split; [|lia]); [by right|by left].
Qed.

Lemma ContainsChar_star_prefix p : ContainsChar p "*" = false → HasPrefix p "*" = false.
Proof.
  intros H. destruct (HasPrefix p "*") eqn:E; [|done].
  apply HasPrefix_spec in E as [u ->]. by rewrite ContainsChar_app in H.
Qed.

Lemma matches_host p : ContainsChar p "*" = false → ∀ h, matches p h ↔ h = p.
Proof. intros Hp h. by apply helper.matches_exact, ContainsChar_star_prefix. Qed.

(** Every pattern but the empty one matches some host. *)
Lemma valid_pattern_inhabited p : valid_pattern p → p ≠ "" → ∃ h, is_host h ∧ matches p h.
Proof.
  intros [Hp|[->|(x & -> & Hx & Hs)]] Hne.
  - exists p. split; [done|]. by apply matches_host.
  - exists "a". split; [done|]. by apply helper.matches_all.
  - exists ("a." +:+ x). split; [|by exists "a"]. split; [done|].
    rewrite ContainsChar_app. by rewrite Hs.
Qed.

Lemma hostnameMatches_matches h s :
  hostnameMatchesWildcardHostname h (String "*" s) = true ↔ matches (String "*" s) h.
Proof. apply helper.hostnameMatches_spec. Qed.

Lemma normalizeHostname_idemp p : normalizeHostname (normalizeHostname p) = normalizeHostname p.
Proof.
  unfold normalizeHostname, allHosts. destruct (String.eqb p "") eqn:E; [done|]. by rewrite E.
Qed.

Definition meet (a b : string) : Prop := ∃ h, is_host h ∧ matches a h ∧ matches b h.

Lemma meet_exact a s :
  a ≠ "" → ContainsChar a "*" = false → meet a (String "*" s) ↔ matches (String "*" s) a.
Proof.
  intros Ha Hs. unfold meet. setoid_rewrite (matches_host a Hs).
  split; [by intros (h & _ & -> & ?)|]. by exists a.
Qed.

Lemma meet_comm a b : meet a b ↔ meet b a.
Proof. unfold meet. naive_solver. Qed.

Lemma meet_wild x y :
  ContainsChar x "*" = false → ContainsChar y "*" = false →
  meet ("*." +:+ x) ("*." +:+ y) ↔
  (∃ u, "." +:+ x = u +:+ "." +:+ y) ∨ (∃ u, "." +:+ y = u +:+ "." +:+ x).
Proof.
  assert (Hone : ∀ x y, ContainsChar x "*" = false →
    (∃ u, "." +:+ x = u +:+ "." +:+ y) → meet ("*." +:+ x) ("*." +:+ y)).
  { intros z t Hz [u Hu]. exists ("a." +:+ z). split; [|split].
    - split; [done|]. rewrite ContainsChar_app. by rewrite Hz.
    - by exists "a".
    - exists ("a" +:+ u). split; [done|]. by rewrite str_app_assoc, <-Hu. }
  intros Hx Hy. split.
  - intros (h & _ & (u & _ & ->) & (v & _ & H)).
    destruct (decide (len ("." +:+ x) ≤ len ("." +:+ y))) as [Hle|Hgt].
    + right. by eapply suffix_comparable.
    + left. symmetry in H. eapply suffix_comparable; [exact H|]. unfold len in *. cbn in *. lia.
  - intros [H|H]; [by apply Hone|]. apply meet_comm. by apply Hone.
Qed.

(** The decision on normalised patterns. *)
Lemma SNIHostnamesIntersect_meet a b :
  a ≠ "" → b ≠ "" → valid_pattern a → valid_pattern b →
  ∃ r, SNIHostnamesIntersect a b = Ok r ∧ (r = true ↔ meet a b).
Proof.
  intros Ha Hb Va Vb. unfold SNIHostnamesIntersect, normalizeHostname, allHosts.
  rewrite (proj2 (String.eqb_neq a "") Ha), (proj2 (String.eqb_neq b "") Hb).
  destruct (String.eqb_spec a "*") as [->|Ha1]; cbn [orb].
  { destruct (valid_pattern_inhabited b) as (h & Hh & ?); [done..|].
    exists true. split; [done|]. split; [|done]. intros _. exists h.
    split_and!; [done|by apply helper.matches_all, Hh|done]. }
  destruct (String.eqb_spec b "*") as [->|Hb1].
  { destruct (valid_pattern_inhabited a) as (h & Hh & ?); [done..|].
    exists true. split; [done|]. split; [|done]. intros _. exists h.
    split_and!; [done|done|by apply helper.matches_all, Hh]. }
  destruct (String.eqb_spec a b) as [->|Hab].
  { destruct (valid_pattern_inhabited b) as (h & Hh & ?); [done..|].
    exists true. split; [done|]. split; [|done]. intros _. by exists h. }
  destruct Va as [Va|[?|(x & -> & Hx & Hxs)]]; [|done|];
    destruct Vb as [Vb|[?|(y & -> & Hy & Hys)]]; try done.
  - rewrite !ContainsChar_star_prefix by done. exists false. split; [done|]. split; [done|].
    unfold meet. setoid_rewrite (matches_host a Va). setoid_rewrite (matches_host b Vb).
    intros (h & _ & -> & ?). done.
  - rewrite (ContainsChar_star_prefix a) by done. cbn [andb].
    change ("*." +:+ y) with (String "*" ("." +:+ y)).
    eexists. split; [reflexivity|]. rewrite meet_exact by done. apply hostnameMatches_matches.
  - rewrite (ContainsChar_star_prefix b) by done. cbn [andb].
    change ("*." +:+ x) with (String "*" ("." +:+ x)).
    eexists. split; [reflexivity|]. rewrite meet_comm, meet_exact by done. apply hostnameMatches_matches.
  - setoid_rewrite (meet_wild x y Hxs Hys). by apply wildcardHostnamesIntersect_spec.
Qed.

(** ** Theorem *)

(** C35: for hostnames a listener can have (none, exact, or a wildcard label in
    front), [SNIHostnamesIntersect] returns, without leaving the label slices,
    and answers true exactly when some host is matched by both; an empty
    hostname matches every host. *)
Theorem SNIHostnamesIntersect_spec a b :
  valid_pattern a → valid_pattern b →
  ∃ r, SNIHostnamesIntersect a b = Ok r ∧
    (r = true ↔ ∃ h, is_host h ∧ helper.listener_matches a h ∧ helper.listener_matches b h).
Proof.
  intros Va Vb.
  assert (Hn : ∀ p h, is_host h → helper.listener_matches p h ↔ matches (normalizeHostname p) h).
  { intros p h [Hh _]. unfold helper.listener_matches, normalizeHostname, allHosts.
    pose proof (helper.matches_all h Hh). destruct (String.eqb_spec p ""); naive_solver. }
  assert (Hv : ∀ p, valid_pattern p → valid_pattern (normalizeHostname p) ∧ normalizeHostname p ≠ "").
  { intros p Vp. unfold normalizeHostname, allHosts.
    destruct (String.eqb_spec p ""); [|done]. split; [by right; left|done]. }
  destruct (Hv a Va) as [Va' Ha], (Hv b Vb) as [Vb' Hb].
  destruct (SNIHostnamesIntersect_meet _ _ Ha Hb Va' Vb') as (r & Hr & Hiff).
  exists r. split.
  - rewrite <-Hr. unfold SNIHostnamesIntersect. by rewrite !normalizeHostname_idemp.
  - rewrite Hiff. unfold meet. split; intros (h & Hh & H1 & H2); exists h;
      rewrite !Hn in * by done; done.
Qed.

Lemma SNIHostnamesIntersect_spec_witness :
  ∃ r, SNIHostnamesIntersect "*.a.com" "*.com" = Ok r ∧
    (r = true ↔ ∃ h, is_host h ∧ helper.listener_matches "*.a.com" h ∧
                     helper.listener_matches "*.com" h).
Proof.
  apply SNIHostnamesIntersect_spec; right; right.
  - exists "a.com". repeat split; discriminate.
  - exists "com". repeat split; discriminate.
Defined.

End gateway.
