(* ===== verification/Helpers.v ===== *)
(** * Gateway API helpers (src/pkg/gateway_api/helpers)

    One module per source file: type predicates ([types]), namespaces and
    backend service names ([namespaces]), reference grants
    ([referencegrants]), status conditions ([conditions]), object comparison
    ([equal]), listener sets ([listenerset]) and the BackendTLSPolicy lookup
    ([backendtlspolicy]).  What label selectors select, and what the API server
    stores, are parameters. *)

From S2P Require Import Prelude GoStrings ApiTypes.
Import k8s gatewayv1.

(** [metav1.LabelSelectorAsSelector] with [Matches]: no answer when the selector
    does not parse. *)
Class LabelSelectors := {
  selector_matches : option LabelSelector → gmap string string → option bool
}.

Module types.

Definition kindGateway : string := "Gateway".
Definition kindSecret : string := "Secret".
Definition kindService : string := "Service".
Definition kindServiceImport : string := "ServiceImport".
Definition kindListenerSet : string := "ListenerSet".
Definition mcs_GroupName : string := "multicluster.x-k8s.io".

(** [p == nil || *p == v] and [p != nil && *p == v]. *)
Definition nil_or (p : option string) (v : string) : bool :=
  match p with None => true | Some x => String.eqb x v end.
Definition set_to (p : option string) (v : string) : bool :=
  match p with None => false | Some x => String.eqb x v end.

Definition GatewayV1GVK (kind : string) : GroupVersionKind :=
  mkGVK GroupName GroupVersion_Version kind.

Definition IsGateway (parent : ParentReference) : bool :=
  nil_or (pr_Kind parent) kindGateway && nil_or (pr_Group parent) GroupName.

Definition IsListenerSet (parent : ParentReference) : bool :=
  set_to (pr_Kind parent) kindListenerSet && nil_or (pr_Group parent) GroupName.

Definition IsServiceTargetRef (tr : PolicyTargetReference) : bool :=
  String.eqb (ptr_Kind tr) kindService && String.eqb (ptr_Group tr) corev1_GroupName.

Definition IsGammaService (parent : ParentReference) : bool :=
  set_to (pr_Kind parent) kindService &&
  (set_to (pr_Group parent) corev1_GroupName || set_to (pr_Group parent) "core").

Definition IsService (be : BackendObjectReference) : bool :=
  nil_or (bor_Kind be) kindService && nil_or (bor_Group be) corev1_GroupName.

Definition IsSecret (secret : SecretObjectReference) : bool :=
  nil_or (sor_Kind secret) kindSecret && nil_or (sor_Group secret) corev1_GroupName.

Definition IsServiceImport (be : BackendObjectReference) : bool :=
  set_to (bor_Kind be) kindServiceImport && set_to (bor_Group be) mcs_GroupName.

(** The kinds of backend and parent references exclude each other. *)
Lemma IsServiceImport_not_Service be : IsServiceImport be = true → IsService be = false.
Proof.
  unfold IsServiceImport, IsService, set_to, nil_or. intros [Hk Hg]%andb_true_iff.
  destruct (bor_Kind be); [|done]. apply String.eqb_eq in Hk as ->. done.
Qed.

End types.

Module namespaces.
Import types.

Abbreviation NamespaceLabelIndex := (gmap string (gmap string string)).

Definition NewNamespaceLabelIndex (nss : list Namespace) : NamespaceLabelIndex :=
  foldl (λ index ns, <[om_Name (ns_meta ns) := om_Labels (ns_meta ns)]> index) ∅ nss.

Definition NamespaceDerefOr (namespace : option string) (defaultNamespace : string) : string :=
  match namespace with
  | Some ns => if negb (String.eqb ns "") then ns else defaultNamespace
  | None => defaultNamespace
  end.

Section Selectors.
Context `{!LabelSelectors}.

Definition isNamespaceSelected (selector : option LabelSelector) (routeNamespace : string)
    (nss : NamespaceLabelIndex) : bool :=
  match nss !! routeNamespace with
  | None => false
  | Some labelsForNamespace =>
      match selector_matches selector labelsForNamespace with
      | None => false
      | Some b => b
      end
  end.

Definition IsListenerNamespaceAllowed (listener : Listener)
    (routeNamespace gatewayNamespace : string) (nss : NamespaceLabelIndex) : bool :=
  match l_AllowedRoutes listener ≫= ar_Namespaces with
  | None => String.eqb routeNamespace gatewayNamespace
  | Some routeNamespaces =>
      match rn_From routeNamespaces with
      | None =>
          match rn_Selector routeNamespaces with
          | Some _ => isNamespaceSelected (rn_Selector routeNamespaces) routeNamespace nss
          | None => String.eqb routeNamespace gatewayNamespace
          end
      | Some from =>
          if String.eqb from NamespacesFromAll then true
          else if String.eqb from NamespacesFromSame then String.eqb routeNamespace gatewayNamespace
          else if String.eqb from NamespacesFromNone then false
          else if String.eqb from NamespacesFromSelector
          then isNamespaceSelected (rn_Selector routeNamespaces) routeNamespace nss
          else false
      end
  end.
End Selectors.

(** A stored mcs-api ServiceImport. *)
Record ServiceImport := mkServiceImport { si_meta : ObjectMeta; si_Kind : string }.

Section Backends.
(** The annotation key [mcsapicontrollers.DerivedServiceAnnotation], whether
    the scheme has the mcs-api group, and the client's [Get] (an import or an
    error). *)
Context (DerivedServiceAnnotation : string) (HasServiceImportSupport : bool).
Context (getServiceImport : NamespacedName → ServiceImport + string).

Definition GetServiceName (svcImport : ServiceImport) : string + string :=
  match om_Annotations (si_meta svcImport) !! DerivedServiceAnnotation with
  | None => inr (si_Kind svcImport +:+ " " +:+ om_Namespace (si_meta svcImport) +:+ "/" +:+
                 om_Name (si_meta svcImport) +:+ " does not have annotation " +:+
                 DerivedServiceAnnotation)
  | Some backendServiceName => inl backendServiceName
  end.

Definition GetBackendServiceName (namespace : string) (bor : BackendObjectReference)
  : go (string + string) :=
  if IsService bor then Ok (inl (bor_Name bor))
  else if HasServiceImportSupport && IsServiceImport bor then
    match getServiceImport (mkNamespacedName namespace (bor_Name bor)) with
    | inr err => Ok (inr err)
    | inl svcImport => Ok (GetServiceName svcImport)
    end
  else
    kind ← deref (bor_Kind bor);
    Ok (inr ("Unsupported backend kind " +:+ kind)).
End Backends.

End namespaces.

Module referencegrants.
Import namespaces.

Definition isReferenceAllowed (originatingNamespace name : string) (namespace : option string)
    (fromGVK toGVK : GroupVersionKind) (grants : list ReferenceGrant) : bool :=
  let ns := NamespaceDerefOr namespace originatingNamespace in
  if String.eqb originatingNamespace ns then true
  else existsb (λ g,
    if negb (String.eqb (rg_Namespace g) ns) then false
    else existsb (λ from,
      if String.eqb (rgf_Group from) (gvk_Group fromGVK) &&
         String.eqb (rgf_Kind from) (gvk_Kind fromGVK) &&
         String.eqb (rgf_Namespace from) originatingNamespace
      then existsb (λ to,
        String.eqb (rgt_Group to) (gvk_Group toGVK) &&
        String.eqb (rgt_Kind to) (gvk_Kind toGVK) &&
        match rgt_Name to with None => true | Some n => String.eqb n name end) (rg_To g)
      else false) (rg_From g)) grants.

Definition IsBackendReferenceAllowed (originatingNamespace : string) (be : BackendObjectReference)
    (gvk : GroupVersionKind) (grants : list ReferenceGrant) : bool :=
  isReferenceAllowed originatingNamespace (bor_Name be) (bor_Namespace be) gvk
    (mkGVK corev1_GroupName "v1" "Service") grants.

Definition IsSecretReferenceAllowed (originatingNamespace : string) (sr : SecretObjectReference)
    (gvk : GroupVersionKind) (grants : list ReferenceGrant) : bool :=
  isReferenceAllowed originatingNamespace (sor_Name sr) (sor_Namespace sr) gvk
    (mkGVK corev1_GroupName "v1" "Secret") grants.

(** The Gateway API rule: a grant in the target's namespace names the
    referrer's kind and namespace and the target's kind (and name, if any). *)
Definition granted (originatingNamespace name ns : string) (fromGVK toGVK : GroupVersionKind)
    (grants : list ReferenceGrant) : Prop :=
  ∃ g from to, g ∈ grants ∧ rg_Namespace g = ns ∧
    from ∈ rg_From g ∧ from = mkReferenceGrantFrom (gvk_Group fromGVK) (gvk_Kind fromGVK)
                                 originatingNamespace ∧
    to ∈ rg_To g ∧ rgt_Group to = gvk_Group toGVK ∧ rgt_Kind to = gvk_Kind toGVK ∧
    (rgt_Name to = None ∨ rgt_Name to = Some name).

Lemma existsb_elem {A} (f : A → bool) l : existsb f l = true ↔ ∃ x, x ∈ l ∧ f x = true.
Proof. rewrite existsb_exists. by setoid_rewrite list_elem_of_In. Qed.

Lemma isReferenceAllowed_granted orig name namespace from to grants :
  isReferenceAllowed orig name namespace from to grants = true ↔
  NamespaceDerefOr namespace orig = orig ∨
  granted orig name (NamespaceDerefOr namespace orig) from to grants.
Proof.
  unfold isReferenceAllowed, granted. set (ns := NamespaceDerefOr namespace orig).
  destruct (String.eqb_spec orig ns) as [E|E]; [naive_solver|].
  rewrite existsb_elem. split.
  - intros (g & Hg & H). right. destruct (String.eqb_spec (rg_Namespace g) ns) as [Hns|]; [|done].
    apply existsb_elem in H as (f & Hf & H).
    destruct (_ && _) eqn:Ef in H; [|done].
    apply andb_true_iff in Ef as [[Ef1 Ef2]%andb_true_iff Ef3].
    apply existsb_elem in H as (t & Ht & [[Et1 Et2]%andb_true_iff Et3]%andb_true_iff).
    rewrite String.eqb_eq in *. exists g, f, t. split_and!; try done.
    + destruct f; cbn in *; congruence.
    + destruct (rgt_Name t); [right; f_equal; by apply String.eqb_eq|by left].
  - intros [?|(g & f & t & Hg & Hns & Hf & -> & Ht & Ht1 & Ht2 & Ht3)]; [done|].
    exists g. split; [done|]. rewrite Hns, String.eqb_refl. cbn [negb].
    apply existsb_elem. eexists. split; [done|]. cbn. rewrite !String.eqb_refl. cbn [andb].
    apply existsb_elem. exists t. split; [done|]. rewrite Ht1, Ht2, !String.eqb_refl. cbn [andb].
    destruct Ht3 as [->| ->]; [done|apply String.eqb_refl].
Qed.

(** ** Theorems *)

(** The namespace a reference leads to: the one it names, or that of the referrer
    if it names none. *)
Definition leads_to (orig : string) (namespace : option string) (ns : string) : Prop :=
  match namespace with
  | None | Some EmptyString => ns = orig
  | Some ns' => ns = ns'
  end.

Lemma NamespaceDerefOr_leads orig namespace ns :
  leads_to orig namespace ns ↔ ns = NamespaceDerefOr namespace orig.
Proof. by destruct namespace as [[]|]. Qed.

(** C23: a backend reference is allowed exactly when it leads to the namespace of
    the route, or to a namespace in which a ReferenceGrant names the kind and the
    namespace of the route among those it grants from, and Services, all of them or
    the one of this name, among those it grants to. *)
Theorem IsBackendReferenceAllowed_granted orig be gvk grants :
  IsBackendReferenceAllowed orig be gvk grants = true ↔
  ∃ ns, leads_to orig (bor_Namespace be) ns ∧
    (ns = orig ∨ granted orig (bor_Name be) ns gvk (mkGVK "" "v1" "Service") grants).
Proof.
  unfold IsBackendReferenceAllowed. rewrite isReferenceAllowed_granted. setoid_rewrite NamespaceDerefOr_leads.
  change corev1_GroupName with EmptyString. naive_solver.
Qed.

(** Grants only ever add permissions. *)
Lemma IsBackendReferenceAllowed_mono orig be gvk grants grants' :
  grants ⊆ grants' →
  IsBackendReferenceAllowed orig be gvk grants = true →
  IsBackendReferenceAllowed orig be gvk grants' = true.
Proof.
  unfold IsBackendReferenceAllowed. rewrite !isReferenceAllowed_granted. unfold granted.
  intros Hsub [?|(g & f & t & ? & ?)]; [by left|]. right. exists g, f, t. naive_solver.
Qed.

End referencegrants.

Module conditions.

Definition IsConditionPresent (conds : list Condition) (condType : string) : bool :=
  existsb (λ cond, String.eqb (cond_Type cond) condType) conds.

Definition ConditionChanged (a b : Condition) : bool :=
  negb (String.eqb (cond_Status a) (cond_Status b)) ||
  negb (String.eqb (cond_Reason a) (cond_Reason b)) ||
  negb (String.eqb (cond_Message a) (cond_Message b)) ||
  negb (Z.eqb (cond_ObservedGeneration a) (cond_ObservedGeneration b)).

Definition IsAccepted (conds : list Condition) : bool :=
  existsb (λ cond, String.eqb (cond_Type cond) "Accepted" &&
                   String.eqb (cond_Status cond) ConditionTrue) conds.

(** The assignments to the fields of [existingConditions[j]]. *)
Definition overwrite (cond update : Condition) : Condition :=
  mkCondition (cond_Type cond) (cond_Status update) (cond_Reason update) (cond_Message update)
    (cond_ObservedGeneration update) (cond_LastTransitionTime update).

Definition merge_one (cond update : Condition) : Condition :=
  if ConditionChanged cond update then overwrite cond update else cond.

(** The inner loop: the first condition of the update's type is overwritten;
    nothing when there is none ([found] stays false). *)
Fixpoint merge_existing (existing : list Condition) (update : Condition)
  : option (list Condition) :=
  match existing with
  | [] => None
  | cond :: rest =>
      if String.eqb (cond_Type cond) (cond_Type update)
      then Some (merge_one cond update :: rest)
      else cons cond <$> merge_existing rest update
  end.

Definition merge_step (st : list Condition * list Condition) (update : Condition)
  : list Condition * list Condition :=
  let '(existing, additions) := st in
  match merge_existing existing update with
  | Some existing' => (existing', additions)
  | None => (existing, additions ++ [update])
  end.

Definition MergeConditions (existingConditions updates : list Condition) : list Condition :=
  let '(existing, additions) := foldl merge_step (existingConditions, []) updates in
  existing ++ additions.

(** ** Lemmas *)

Abbreviation types l := (@fmap list list_fmap Condition string cond_Type l).

(** Applies the update of the condition's type, if there is one. *)
Definition apply_updates (updates : list Condition) (c : Condition) : Condition :=
  match filter (λ u, cond_Type u = cond_Type c) updates with
  | u :: _ => merge_one c u
  | [] => c
  end.

Lemma cond_Type_merge_one c u : cond_Type (merge_one c u) = cond_Type c.
Proof. unfold merge_one. by case_match. Qed.

Lemma ConditionChanged_overwrite c u : ConditionChanged (overwrite c u) u = false.
Proof. unfold ConditionChanged. cbn. by rewrite !String.eqb_refl, Z.eqb_refl. Qed.

Lemma merge_one_settled c u : ConditionChanged (merge_one c u) u = false.
Proof. unfold merge_one. destruct (ConditionChanged c u) eqn:E; [apply ConditionChanged_overwrite|done]. Qed.

Lemma merge_one_idemp c u : merge_one (merge_one c u) u = merge_one c u.
Proof. unfold merge_one at 1. by rewrite merge_one_settled. Qed.

Lemma cond_Type_apply_updates us c : cond_Type (apply_updates us c) = cond_Type c.
Proof. unfold apply_updates. case_match; [done|]. apply cond_Type_merge_one. Qed.

Lemma types_apply_updates us (l : list Condition) : types (apply_updates us <$> l) = types l.
Proof.
  rewrite <-list_fmap_compose. apply list_fmap_ext. intros ? c _. apply cond_Type_apply_updates.
Qed.

Lemma apply_updates_cons_ne u us c :
  cond_Type u ≠ cond_Type c → apply_updates (u :: us) c = apply_updates us c.
Proof. intros H. unfold apply_updates. by rewrite filter_cons_False. Qed.

Lemma apply_updates_nil_type us c : cond_Type c ∉ types us → apply_updates us c = c.
Proof.
  intros H. unfold apply_updates. case_match eqn:E; [done|].
  assert (Hin : c0 ∈ filter (λ u, cond_Type u = cond_Type c) us) by (rewrite E; left).
  apply list_elem_of_filter in Hin as [Hc Hin]. destruct H. rewrite <-Hc.
  by apply list_elem_of_fmap_2.
Qed.

Lemma apply_updates_unique us u c :
  NoDup (types us) → u ∈ us → cond_Type u = cond_Type c → apply_updates us c = merge_one c u.
Proof.
  induction us as [|v us IH]; [by intros _ ?%elem_of_nil|].
  intros [Hv Hus]%NoDup_cons [->|Hu]%elem_of_cons Huc.
  - unfold apply_updates. by rewrite filter_cons_True.
  - rewrite apply_updates_cons_ne; [by apply IH|]. intros Hvc. apply Hv.
    rewrite Hvc, <-Huc. by apply list_elem_of_fmap_2.
Qed.

Lemma ConditionChanged_refl c : ConditionChanged c c = false.
Proof. unfold ConditionChanged. by rewrite !String.eqb_refl, Z.eqb_refl. Qed.

Lemma apply_updates_idemp us c : apply_updates us (apply_updates us c) = apply_updates us c.
Proof.
  unfold apply_updates at 1. rewrite cond_Type_apply_updates. unfold apply_updates.
  case_match; [done|]. apply merge_one_idemp.
Qed.

Lemma filter_none {A} (P : A → Prop) `{!∀ x, Decision (P x)} l :
  (∀ x, x ∈ l → ¬ P x) → filter P l = [].
Proof.
  induction l as [|x l IH]; intros Hl; [done|].
  rewrite filter_cons_False by (apply Hl; left). apply IH. intros y Hy. apply Hl. by right.
Qed.

Lemma merge_existing_None l u : cond_Type u ∉ types l → merge_existing l u = None.
Proof.
  induction l as [|c l IH]; cbn; [done|]. intros [Hc Hl]%not_elem_of_cons.
  rewrite (proj2 (String.eqb_neq _ _)) by done. by rewrite IH.
Qed.

Lemma merge_existing_Some l u :
  NoDup (types l) → cond_Type u ∈ types l →
  merge_existing l u = Some (apply_updates [u] <$> l).
Proof.
  induction l as [|c l IH]; cbn; [by intros _ ?%elem_of_nil|].
  intros [Hc Hl]%NoDup_cons Hu. destruct (String.eqb_spec (cond_Type c) (cond_Type u)) as [E|E].
  - do 2 f_equal; [unfold apply_updates; by rewrite filter_cons_True|].
    symmetry. rewrite <-(list_fmap_id l) at 2. apply list_fmap_ext. intros i d Hd.
    apply apply_updates_nil_type. rewrite list_fmap_singleton, list_elem_of_singleton, <-E.
    intros Hdc. apply Hc. rewrite <-Hdc. by apply list_elem_of_fmap_2, list_elem_of_lookup_2 with i.
  - rewrite IH; [|done|set_solver]. cbn. do 2 f_equal.
    by rewrite apply_updates_cons_ne.
Qed.

(** The loop in closed form: the old conditions updated in place, then the new
    ones in the order of the updates. *)
Lemma MergeConditions_closed existing updates :
  NoDup (types existing) → NoDup (types updates) →
  MergeConditions existing updates =
  (apply_updates updates <$> existing) ++ filter (λ u, cond_Type u ∉ types existing) updates.
Proof.
  intros He. unfold MergeConditions.
  assert (Hgen : ∀ ex add, types ex = types existing → NoDup (types updates) →
    foldl merge_step (ex, add) updates =
    (apply_updates updates <$> ex, add ++ filter (λ u, cond_Type u ∉ types existing) updates)).
  { induction updates as [|u us IH]; intros ex add Hex Hus.
    - cbn. rewrite app_nil_r. f_equal. rewrite <-(list_fmap_id ex) at 1. by apply list_fmap_ext.
    - apply NoDup_cons in Hus as [Hu Hus]. cbn [foldl merge_step].
      destruct (decide (cond_Type u ∈ types existing)) as [Hin|Hin].
      + rewrite merge_existing_Some; [|by rewrite Hex..]. rewrite IH; [|by rewrite types_apply_updates|done].
        rewrite filter_cons_False by naive_solver. f_equal. rewrite <-list_fmap_compose.
        apply list_fmap_ext. intros i c _. cbn.
        destruct (decide (cond_Type u = cond_Type c)) as [E|E].
        * unfold apply_updates at 2 3. rewrite !filter_cons_True by done.
          apply apply_updates_nil_type. by rewrite cond_Type_merge_one, <-E.
        * by rewrite !apply_updates_cons_ne.
      + rewrite merge_existing_None by (by rewrite Hex). rewrite IH by done.
        rewrite filter_cons_True, <-(assoc_L (++)) by done. f_equal.
        apply list_fmap_ext. intros i c Hc. symmetry. apply apply_updates_cons_ne.
        intros E. apply Hin. rewrite <-Hex, E. by apply list_elem_of_fmap_2, list_elem_of_lookup_2 with i. }
  intros Hu. by rewrite Hgen.
Qed.

(** ** Theorem *)

(** Two conditions report the same; their transition times may differ. *)
Definition same_report (a b : Condition) : Prop :=
  cond_Status a = cond_Status b ∧ cond_Reason a = cond_Reason b ∧ cond_Message a = cond_Message b ∧
  cond_ObservedGeneration a = cond_ObservedGeneration b.
#[export] Instance same_report_dec a b : Decision (same_report a b).
Proof. unfold same_report. apply _. Defined.

Lemma merge_one_report c u : cond_Type c = cond_Type u → merge_one c u = if decide (same_report c u) then c else u.
Proof.
  intros Ht. unfold merge_one.
  assert (Hc : ConditionChanged c u = false ↔ same_report c u).
  { unfold ConditionChanged, same_report.
    by rewrite !orb_false_iff, !negb_false_iff, !String.eqb_eq, Z.eqb_eq, !(assoc (∧)). }
  destruct (ConditionChanged c u).
  - rewrite decide_False by (by rewrite <-Hc). destruct c, u. cbn in *. by subst.
  - by rewrite decide_True by by apply Hc.
Qed.

(** C36: merging updates into conditions with one condition per type.  Every old
    condition keeps its place: unchanged if no update has its type or if the update
    reports the same status, reason, message and generation, and otherwise replaced
    by the update, its transition time included.  The updates of new types follow in
    their order, so that there is again one condition per type; and merging the same
    updates again changes nothing. *)
Theorem MergeConditions_spec existing updates :
  NoDup (types existing) → NoDup (types updates) →
  let merged := MergeConditions existing updates in
  NoDup (types merged) ∧
  (∀ i c, existing !! i = Some c → cond_Type c ∉ types updates → merged !! i = Some c) ∧
  (∀ i c u, existing !! i = Some c → u ∈ updates → cond_Type c = cond_Type u →
     merged !! i = Some (if decide (same_report c u) then c else u)) ∧
  drop (length existing) merged = filter (λ u, cond_Type u ∉ types existing) updates ∧
  MergeConditions merged updates = merged.
Proof.
  intros He Hu. rewrite (MergeConditions_closed _ _ He Hu). set (new := filter _ _).
  assert (Hnew : ∀ u, u ∈ new ↔ (cond_Type u ∉ types existing) ∧ u ∈ updates).
  { intros u. unfold new. by rewrite list_elem_of_filter. }
  assert (Hty : types ((apply_updates updates <$> existing) ++ new) = types existing ++ types new).
  { by rewrite fmap_app, types_apply_updates. }
  assert (Hnd : NoDup (types existing ++ types new)).
  { apply NoDup_app. split_and!; [done| |by apply (sublist_NoDup _ (types updates)),
      fmap_sublist, sublist_filter].
    intros t Ht. rewrite list_elem_of_fmap. intros (u & -> & Hin). by apply Hnew in Hin as []. }
  assert (Hold : ∀ i c, existing !! i = Some c →
    ((apply_updates updates <$> existing) ++ new) !! i = Some (apply_updates updates c)).
  { intros i c Hi. rewrite lookup_app_l by (rewrite length_fmap; by eapply lookup_lt_Some).
    by rewrite list_lookup_fmap, Hi. }
  cbn zeta. rewrite Hty. split_and!; [done| | | |].
  - intros i c Hi Hc. by rewrite (Hold i c Hi), apply_updates_nil_type.
  - intros i c u Hi Hin Ht. by rewrite (Hold i c Hi), (apply_updates_unique updates u), merge_one_report.
  - by rewrite drop_app_length' by (by rewrite length_fmap).
  - rewrite MergeConditions_closed; [|by rewrite Hty|done]. rewrite Hty.
    rewrite filter_none, app_nil_r.
    + rewrite fmap_app, <-list_fmap_compose. f_equal.
      * apply list_fmap_ext. intros ? c _. apply apply_updates_idemp.
      * rewrite <-(list_fmap_id new) at 2. apply list_fmap_ext. intros i u Hi.
        apply list_elem_of_lookup_2, Hnew in Hi as [_ Hi].
        rewrite (apply_updates_unique updates u) by done. unfold merge_one.
        by rewrite ConditionChanged_refl.
    + intros u Hin Hn. apply Hn. rewrite elem_of_app, !list_elem_of_fmap.
      destruct (decide (cond_Type u ∈ types existing)) as [Ht|Ht].
      * left. by apply list_elem_of_fmap.
      * right. exists u. split; [done|]. by apply Hnew.
Qed.

Definition cond_example (t s : string) (time : Z) : Condition := mkCondition t s "r" "m" 1 time.

Lemma MergeConditions_spec_witness :
  let existing := [cond_example "Accepted" "True" 1; cond_example "Programmed" "True" 1] in
  let updates := [cond_example "Programmed" "False" 2; cond_example "Ready" "True" 2] in
  let merged := MergeConditions existing updates in
  NoDup (types merged) ∧
  (∀ i c, existing !! i = Some c → cond_Type c ∉ types updates → merged !! i = Some c) ∧
  (∀ i c u, existing !! i = Some c → u ∈ updates → cond_Type c = cond_Type u →
     merged !! i = Some (if decide (same_report c u) then c else u)) ∧
  drop (length existing) merged = filter (λ u, cond_Type u ∉ types existing) updates ∧
  MergeConditions merged updates = merged.
Proof.
  intros existing updates. apply MergeConditions_spec; apply (bool_decide_unpack _); vm_compute; exact I.
Defined.

End conditions.

Module equal.

(** A [client.Object], as far as the comparison looks at it. *)
Record Object := mkObject { obj_gvk : GroupVersionKind; obj_meta : ObjectMeta }.

Definition retry_error : string := "Same object, different generations, retry reconciliation".

(** The answer with the error that comes with it, if any. *)
Definition ObjectsEqual (a b : Object) : bool * option string :=
  if bool_decide (obj_gvk a = obj_gvk b) &&
     String.eqb (om_Name (obj_meta a)) (om_Name (obj_meta b)) &&
     String.eqb (om_Namespace (obj_meta a)) (om_Namespace (obj_meta b))
  then if Z.eqb (om_Generation (obj_meta a)) (om_Generation (obj_meta b))
       then (true, None)
       else (true, Some retry_error)
  else (false, None).

Definition ContainsCommonHTTPRoute (a b : list Object) : bool * option string :=
  let fix inner hrA b rest :=
    match b with
    | [] => rest
    | hrB :: b' =>
        match ObjectsEqual hrA hrB with
        | (_, Some err) => (true, Some err)
        | (true, None) => (true, None)
        | (false, None) => inner hrA b' rest
        end
    end in
  foldr (λ hrA rest, inner hrA b rest) (false, None) a.

End equal.

Module listenerset.

Definition ListenerSetParentGateway (ls : ListenerSet) : NamespacedName :=
  let gwNamespace := default (om_Namespace (lst_meta ls)) (pgr_Namespace (lst_ParentRef ls)) in
  mkNamespacedName gwNamespace (pgr_Name (lst_ParentRef ls)).

(** A conversion between types with the same fields. *)
Definition ListenerEntryToListener (entry : Listener) : Listener := entry.

(** [get] is the client's [Get] (no object on an error). *)
Definition ResolveListenerSetToGateway (get : NamespacedName → option ListenerSet)
    (lsName lsNamespace : string) : option NamespacedName :=
  match get (mkNamespacedName lsNamespace lsName) with
  | None => None
  | Some ls => Some (ListenerSetParentGateway ls)
  end.

(** [spec.allowedListeners] of a Gateway: which namespaces may add listeners.
    [list_namespaces] is the client's list of the namespaces a selector selects
    (none when the selector does not parse or the list fails). *)
Definition IsListenerSetAllowed
    (list_namespaces : option LabelSelector → option (list Namespace))
    (gw : ObjectMeta) (allowedListeners : option (option RouteNamespaces))
    (ls : ListenerSet) : bool :=
  match allowedListeners with
  | None => false
  | Some None => false
  | Some (Some ns) =>
      match rn_From ns with
      | None => false
      | Some from =>
          if String.eqb from NamespacesFromNone then false
          else if String.eqb from NamespacesFromAll then true
          else if String.eqb from NamespacesFromSame
          then String.eqb (om_Namespace (lst_meta ls)) (om_Namespace gw)
          else if String.eqb from NamespacesFromSelector
          then match list_namespaces (rn_Selector ns) with
               | None => false
               | Some nsList =>
                   existsb (λ n, String.eqb (om_Name (ns_meta n)) (om_Namespace (lst_meta ls))) nsList
               end
          else false
      end
  end.

End listenerset.

Module backendtlspolicy.
Import types.

Record BackendTLSPolicyTargetServiceCollection := mkCollection {
  Valid : gmap string BackendTLSPolicy;
  Invalid : gmap string BackendTLSPolicy;
  Conflicted : gmap NamespacedName BackendTLSPolicy
}.

Abbreviation Collection := BackendTLSPolicyTargetServiceCollection.
Definition emptyCollection : Collection := mkCollection ∅ ∅ ∅.

Definition UpsertValidPolicy (sectionName : string) (p : BackendTLSPolicy) (b : Collection) : Collection :=
  mkCollection (<[sectionName := p]> (Valid b)) (Invalid b) (Conflicted b).
Definition DeleteValidPolicy (sectionName : string) (b : Collection) : Collection :=
  mkCollection (delete sectionName (Valid b)) (Invalid b) (Conflicted b).
Definition UpsertInvalidPolicy (sectionName : string) (p : BackendTLSPolicy) (b : Collection) : Collection :=
  mkCollection (Valid b) (<[sectionName := p]> (Invalid b)) (Conflicted b).
Definition UpsertConflictedPolicy (name : NamespacedName) (p : BackendTLSPolicy) (b : Collection) : Collection :=
  mkCollection (Valid b) (Invalid b) (<[name := p]> (Conflicted b)).

Abbreviation BackendTLSPolicyServiceMap := (gmap NamespacedName Collection).

Definition policy_key (p : BackendTLSPolicy) : NamespacedName := ObjectKey (btp_meta p).
Definition created (p : BackendTLSPolicy) : Z := om_CreationTimestamp (btp_meta p).

(** The body of the inner loop for a target reference that is a Service. *)
Definition lookup_step (lookupMap : BackendTLSPolicyServiceMap) (current : BackendTLSPolicy)
    (svcName : NamespacedName) (sectionName : string) : BackendTLSPolicyServiceMap :=
  match lookupMap !! svcName with
  | None => <[svcName := UpsertValidPolicy sectionName current emptyCollection]> lookupMap
  | Some existingCollection =>
      match Valid existingCollection !! sectionName with
      | None => <[svcName := UpsertValidPolicy sectionName current existingCollection]> lookupMap
      | Some existing =>
          let currentName := policy_key current in
          let existingName := policy_key existing in
          let current_wins := <[svcName := UpsertValidPolicy sectionName current
              (UpsertConflictedPolicy existingName existing existingCollection)]> lookupMap in
          let existing_wins := <[svcName :=
              UpsertConflictedPolicy currentName current existingCollection]> lookupMap in
          if bool_decide (currentName = existingName) then lookupMap
          else if (created current <? created existing)%Z then current_wins
          else if (created existing <? created current)%Z then existing_wins
          else if str_ltb (nn_String currentName) (nn_String existingName) then current_wins
          else existing_wins
      end
  end.

Definition target_step (current : BackendTLSPolicy) (lookupMap : BackendTLSPolicyServiceMap)
    (targetRef : PolicyTargetReference) : BackendTLSPolicyServiceMap :=
  if negb (IsServiceTargetRef targetRef) then lookupMap
  else
    let svcName := mkNamespacedName (om_Namespace (btp_meta current)) (ptr_Name targetRef) in
    let sectionName := default "" (ptr_SectionName targetRef) in
    lookup_step lookupMap current svcName sectionName.

Definition BuildBackendTLSPolicyLookup (items : list BackendTLSPolicy) : BackendTLSPolicyServiceMap :=
  foldl (λ m current, foldl (target_step current) m (btp_TargetRefs current)) ∅ items.

(** ** Specification

    The claims that policies make: policy [p] targets section [sec] of the
    service [svc]. *)
Definition claims (items : list BackendTLSPolicy) (p : BackendTLSPolicy)
    (svc : NamespacedName) (sec : string) : Prop :=
  p ∈ items ∧ nn_Namespace svc = om_Namespace (btp_meta p) ∧
  ∃ tr, tr ∈ btp_TargetRefs p ∧ IsServiceTargetRef tr = true ∧
    nn_Name svc = ptr_Name tr ∧ sec = default "" (ptr_SectionName tr).

(** Precedence: older first, then the first name in lexical order. *)
Definition before (p q : BackendTLSPolicy) : Prop :=
  (created p < created q)%Z ∨
  created p = created q ∧ str_ltb (nn_String (policy_key p)) (nn_String (policy_key q)) = true.

Definition valid (m : BackendTLSPolicyServiceMap) svc sec : option BackendTLSPolicy :=
  m !! svc ≫= λ c, Valid c !! sec.
Definition conflicted (m : BackendTLSPolicyServiceMap) svc key : option BackendTLSPolicy :=
  m !! svc ≫= λ c, Conflicted c !! key.

(** ** Lemmas *)

Lemma before_trans p q r : before p q → before q r → before p r.
Proof.
  unfold before. intros [?|[? ?]] [?|[? ?]]; [left; lia..|].
  right. split; [lia|]. by eapply str_ltb_trans.
Qed.

(** The claims already processed, with the two maps they lead to. *)
Abbreviation claim := (BackendTLSPolicy * (NamespacedName * string))%type.

Record lookup_inv (l : list claim) (m : BackendTLSPolicyServiceMap) : Prop := {
  inv_valid : ∀ svc sec w, valid m svc sec = Some w → (w, (svc, sec)) ∈ l;
  inv_claim : ∀ p svc sec, (p, (svc, sec)) ∈ l →
    ∃ w, valid m svc sec = Some w ∧
      (w = p ∨ before w p ∧ conflicted m svc (policy_key p) = Some p);
  inv_conflicted : ∀ svc key p, conflicted m svc key = Some p →
    key = policy_key p ∧
    ∃ sec w, (p, (svc, sec)) ∈ l ∧ valid m svc sec = Some w ∧ before w p
}.

Definition claim_step (m : BackendTLSPolicyServiceMap) (c : claim) : BackendTLSPolicyServiceMap :=
  lookup_step m c.1 c.2.1 c.2.2.

Lemma valid_insert m svc c svc' sec :
  valid (<[svc := c]> m) svc' sec = if decide (svc = svc') then Valid c !! sec else valid m svc' sec.
Proof. unfold valid. rewrite lookup_insert. by case_decide. Qed.

Lemma conflicted_insert m svc c svc' k :
  conflicted (<[svc := c]> m) svc' k =
  if decide (svc = svc') then Conflicted c !! k else conflicted m svc' k.
Proof. unfold conflicted. rewrite lookup_insert. by case_decide. Qed.

(** [valid] after [p] became the valid policy of a section, and [conflicted]
    after [p] became a conflicting policy of a service. *)
Definition valid_set m' m svc sec (p : BackendTLSPolicy) : Prop :=
  ∀ svc' sec', valid m' svc' sec' =
    if decide ((svc, sec) = (svc', sec')) then Some p else valid m svc' sec'.
Definition conflicted_set m' m svc (p : BackendTLSPolicy) : Prop :=
  ∀ svc' k, conflicted m' svc' k =
    if decide ((svc, policy_key p) = (svc', k)) then Some p else conflicted m svc' k.

(** The branches of the loop body. *)
Lemma lookup_step_cases m cur svc sec :
  let m' := lookup_step m cur svc sec in
  (∀ ex, valid m svc sec = Some ex → om_Namespace (btp_meta ex) = om_Namespace (btp_meta cur)) →
  (valid m svc sec = None ∧ valid_set m' m svc sec cur ∧
     ∀ svc' k, conflicted m' svc' k = conflicted m svc' k) ∨
  ∃ ex, valid m svc sec = Some ex ∧
    ((policy_key cur = policy_key ex ∧ m' = m) ∨
     (before cur ex ∧ valid_set m' m svc sec cur ∧ conflicted_set m' m svc ex) ∨
     (before ex cur ∧ (∀ svc' sec', valid m' svc' sec' = valid m svc' sec') ∧
        conflicted_set m' m svc cur)).
Proof.
  intros m' Hns. subst m'. unfold lookup_step.
  destruct (m !! svc) as [c|] eqn:Hc; [destruct (Valid c !! sec) as [ex|] eqn:Hex|].
  - assert (Hv : valid m svc sec = Some ex) by (unfold valid; by rewrite Hc).
    right. exists ex. split; [done|]. specialize (Hns ex Hv).
    case_bool_decide as Hk; [by left|right].
    assert (Hname : nn_String (policy_key cur) ≠ nn_String (policy_key ex)).
    { intros E. apply Hk. unfold policy_key, ObjectKey, nn_String in *. cbn in *.
      rewrite Hns in *. apply str_app_inj_l, (str_app_inj_l "/") in E. by rewrite E. }
    destruct (Z.ltb_spec (created cur) (created ex)) as [Hlt|Hge];
      [left|destruct (Z.ltb_spec (created ex) (created cur)) as [Hgt|Hle];
        [right|destruct (str_ltb _ _) eqn:Hs; [left|right]]];
      (split; [unfold before|]).
    all: try (by left). all: try (right; split; [lia|]; by first [done|apply str_ltb_total]).
    all: split; intros svc' x; rewrite ?valid_insert, ?conflicted_insert;
      unfold valid, conflicted; cbn; repeat case_decide; simplify_eq; rewrite ?Hc; cbn;
      rewrite ?lookup_insert; repeat case_decide; simplify_eq; try done; congruence.
  - left. unfold valid, conflicted. rewrite Hc. split_and!; [done|..]; intros svc' x;
      rewrite ?valid_insert, ?lookup_insert; unfold valid; repeat case_decide; simplify_eq; cbn;
      rewrite ?Hc, ?lookup_insert; cbn; repeat case_decide; simplify_eq; try done; congruence.
  - left. unfold valid, conflicted. rewrite Hc. split_and!; [done|..]; intros svc' x;
      rewrite ?valid_insert, ?lookup_insert; unfold valid; repeat case_decide; simplify_eq; cbn;
      rewrite ?Hc, ?lookup_insert; cbn; repeat case_decide; simplify_eq; try done; congruence.
Qed.

(** Names identify policies, and targets are in the policy's namespace. *)
Definition well_named (l : list claim) : Prop :=
  (∀ c1 c2, c1 ∈ l → c2 ∈ l → policy_key c1.1 = policy_key c2.1 → c1.1 = c2.1) ∧
  (∀ c, c ∈ l → om_Namespace (btp_meta c.1) = nn_Namespace c.2.1).

Lemma lookup_inv_new l m m' cur svc sec :
  lookup_inv l m → valid m svc sec = None → valid_set m' m svc sec cur →
  (∀ svc' k, conflicted m' svc' k = conflicted m svc' k) →
  lookup_inv (l ++ [(cur, (svc, sec))]) m'.
Proof.
  intros [Hv Hcl Hco] Hnone Hset Hsame. split.
  - intros svc' sec' w. rewrite Hset. case_decide; simplify_eq; intros; simplify_eq.
    + apply elem_of_app. right. by apply list_elem_of_singleton.
    + apply elem_of_app. left. by apply Hv.
  - intros p svc' sec'. rewrite elem_of_app, list_elem_of_singleton. intros [Hin|?].
    + destruct (Hcl _ _ _ Hin) as (w & Hw & Hor). exists w. rewrite Hset, Hsame.
      case_decide; simplify_eq. done.
    + simplify_eq. exists cur. rewrite Hset. rewrite decide_True by done. by split; [|left].
  - intros svc' k p. rewrite Hsame. intros H. destruct (Hco _ _ _ H) as (-> & s & w & Hin & Hw & Hb).
    split; [done|]. exists s, w. rewrite Hset. case_decide; simplify_eq.
    split_and!; [apply elem_of_app; by left|done|done].
Qed.

Lemma lookup_inv_current l m m' cur ex svc sec :
  well_named (l ++ [(cur, (svc, sec))]) → lookup_inv l m → valid m svc sec = Some ex →
  before cur ex → valid_set m' m svc sec cur → conflicted_set m' m svc ex →
  lookup_inv (l ++ [(cur, (svc, sec))]) m'.
Proof.
  intros [Hinj _] [Hv Hcl Hco] Hex Hb Hset Hcset.
  assert (Hin_ex : (ex, (svc, sec)) ∈ l) by (by apply Hv). split.
  - intros svc' sec' w. rewrite Hset. case_decide; intros; simplify_eq; apply elem_of_app.
    + right. by apply list_elem_of_singleton.
    + left. by apply Hv.
  - intros p svc' sec'. rewrite elem_of_app, list_elem_of_singleton. intros [Hin|?].
    + destruct (Hcl _ _ _ Hin) as (w & Hw & Hor). rewrite Hset, Hcset.
      assert (Hkey : policy_key ex = policy_key p → ex = p).
      { intros E. apply (Hinj (ex, (svc, sec)) (p, (svc', sec'))); [set_solver..|done]. }
      destruct (decide ((svc, sec) = (svc', sec'))) as [E|E].
      * injection E as <- <-. exists cur. split; [done|]. right.
        rewrite Hex in Hw. injection Hw as <-. destruct Hor as [<-|[Hb' Hc]].
        -- by rewrite decide_True.
        -- split; [by eapply before_trans|]. case_decide as Hd; [|done].
           f_equal. apply Hkey. congruence.
      * exists w. split; [done|]. destruct Hor as [?|[Hb' Hc]]; [by left|right].
        split; [done|]. case_decide as Hd; [|done]. f_equal. apply Hkey. congruence.
    + simplify_eq. exists cur. rewrite Hset, decide_True by done. by split; [|left].
  - intros svc' k p. rewrite Hcset. case_decide as Hd.
    + simplify_eq. intros ?. simplify_eq. split; [done|]. exists sec, cur.
      rewrite Hset, decide_True by done. split_and!; [set_solver|done|done].
    + intros H. destruct (Hco _ _ _ H) as (-> & s & w & Hin & Hw & Hb'). split; [done|].
      exists s. rewrite Hset. destruct (decide ((svc, sec) = (svc', s))) as [E|E].
      * injection E as <- <-. exists cur. rewrite Hex in Hw. injection Hw as <-.
        split_and!; [set_solver|done|by eapply before_trans].
      * exists w. split_and!; [set_solver|done|done].
Qed.

Lemma lookup_inv_existing l m m' cur ex svc sec :
  well_named (l ++ [(cur, (svc, sec))]) → lookup_inv l m → valid m svc sec = Some ex →
  before ex cur → (∀ svc' sec', valid m' svc' sec' = valid m svc' sec') →
  conflicted_set m' m svc cur →
  lookup_inv (l ++ [(cur, (svc, sec))]) m'.
Proof.
  intros [Hinj _] [Hv Hcl Hco] Hex Hb Hsame Hcset. split.
  - intros svc' sec' w. rewrite Hsame. intros H. apply elem_of_app. left. by apply Hv.
  - intros p svc' sec'. rewrite elem_of_app, list_elem_of_singleton. intros [Hin|?].
    + destruct (Hcl _ _ _ Hin) as (w & Hw & Hor). exists w. rewrite Hsame, Hcset.
      split; [done|]. destruct Hor as [?|[Hb' Hc]]; [by left|right]. split; [done|].
      case_decide as Hd; [|done]. f_equal.
      apply (Hinj (cur, (svc, sec)) (p, (svc', sec'))); [set_solver..|cbn; congruence].
    + simplify_eq. exists ex. rewrite Hsame, Hcset. split; [done|]. right.
      by rewrite decide_True.
  - intros svc' k p. rewrite Hcset. case_decide as Hd.
    + simplify_eq. intros ?. simplify_eq. split; [done|]. exists sec, ex. rewrite Hsame.
      split_and!; [set_solver|done|done].
    + intros H. destruct (Hco _ _ _ H) as (-> & s & w & Hin & Hw & Hb'). split; [done|].
      exists s, w. rewrite Hsame. split_and!; [set_solver|done|done].
Qed.

Lemma lookup_inv_repeat l m cur svc sec :
  lookup_inv l m → valid m svc sec = Some cur → lookup_inv (l ++ [(cur, (svc, sec))]) m.
Proof.
  intros [Hv Hcl Hco] Hex. split.
  - intros svc' sec' w H. apply elem_of_app. left. by apply Hv.
  - intros p svc' sec'. rewrite elem_of_app, list_elem_of_singleton. intros [Hin|?]; [by apply Hcl|].
    simplify_eq. exists cur. by split; [|left].
  - intros svc' k p H. destruct (Hco _ _ _ H) as (? & s & w & ? & ? & ?). split; [done|].
    exists s, w. split_and!; [set_solver|done|done].
Qed.

Lemma lookup_inv_step l m c :
  well_named (l ++ [c]) → lookup_inv l m → lookup_inv (l ++ [c]) (claim_step m c).
Proof.
  destruct c as [cur [svc sec]]. intros Hn Hinv. unfold claim_step. cbn.
  assert (Hsvc : ∀ ex, valid m svc sec = Some ex → (ex, (svc, sec)) ∈ l)
    by (intros ex; by apply (inv_valid _ _ Hinv)).
  destruct (lookup_step_cases m cur svc sec) as [(? & ? & ?)|(ex & Hex & [(Hk & ->)|[(?&?&?)|(?&?&?)]])].
  - intros ex Hex%Hsvc. destruct Hn as [_ Hn].
    transitivity (nn_Namespace svc); [apply (Hn (ex, (svc, sec)))|symmetry; apply (Hn (cur, (svc, sec)))];
      set_solver.
  - by eapply lookup_inv_new.
  - apply lookup_inv_repeat; [done|]. rewrite Hex. f_equal. destruct Hn as [Hn _].
    apply (Hn (ex, (svc, sec)) (cur, (svc, sec))); [|set_solver|done].
    apply elem_of_app. left. by apply Hsvc.
  - by eapply lookup_inv_current.
  - by eapply lookup_inv_existing.
Qed.

Lemma lookup_inv_foldl l : well_named l → lookup_inv l (foldl claim_step ∅ l).
Proof.
  induction l as [|c l IH] using rev_ind; intros Hn.
  - split; intros *; unfold valid, conflicted; cbn; rewrite ?lookup_empty; try done.
    by intros ?%elem_of_nil.
  - rewrite foldl_app. apply lookup_inv_step; [done|]. apply IH.
    destruct Hn as [H1 H2]. split; intros; [apply H1|apply H2]; set_solver.
Qed.

(** The nested loops as one loop over the claims. *)
Definition policy_claims (p : BackendTLSPolicy) : list claim :=
  btp_TargetRefs p ≫= λ tr,
    if IsServiceTargetRef tr
    then [(p, (mkNamespacedName (om_Namespace (btp_meta p)) (ptr_Name tr),
               default "" (ptr_SectionName tr)))]
    else [].

Lemma BuildBackendTLSPolicyLookup_claims items :
  BuildBackendTLSPolicyLookup items = foldl claim_step ∅ (items ≫= policy_claims).
Proof.
  unfold BuildBackendTLSPolicyLookup. generalize (∅ : BackendTLSPolicyServiceMap) as m.
  induction items as [|p items IH]; intros m; [done|]. cbn [foldl].
  rewrite bind_cons, foldl_app, IH. f_equal. unfold policy_claims.
  revert m. induction (btp_TargetRefs p) as [|tr trs IHt]; intros m; [done|].
  rewrite bind_cons, foldl_app. cbn [foldl]. rewrite IHt. f_equal.
  unfold target_step. by destruct (IsServiceTargetRef tr).
Qed.

Lemma elem_of_claims items p svc sec :
  (p, (svc, sec)) ∈ items ≫= policy_claims ↔ claims items p svc sec.
Proof.
  unfold claims, policy_claims. rewrite list_elem_of_bind. setoid_rewrite list_elem_of_bind. split.
  - intros (q & (tr & Hin & Htr) & Hq). destruct (IsServiceTargetRef tr) eqn:E; [|by apply elem_of_nil in Hin].
    apply list_elem_of_singleton in Hin. simplify_eq. cbn. eauto 10.
  - intros (Hp & Hns & tr & Htr & Hs & Hn & ->). exists p. split; [|done]. exists tr.
    rewrite Hs, list_elem_of_singleton. split; [|done]. destruct svc. cbn in *. congruence.
Qed.

(** ** Theorem *)

(** C29: for policies with distinct names, every section of a service that some
    policy targets has exactly one valid policy, one that targets it; every
    other policy that targets it comes later in precedence (created later, or at
    the same time with a larger name) and is listed as conflicted; and only such
    policies are listed as conflicted.  A target without a section name is, for the
    code, one more section, named by the empty string: it does not conflict with
    targets of other sections, as the comment on [Valid] says it would. *)
Theorem BuildBackendTLSPolicyLookup_precedence items :
  NoDup (policy_key <$> items) →
  let m := BuildBackendTLSPolicyLookup items in
  (∀ svc sec w, valid m svc sec = Some w → claims items w svc sec) ∧
  (∀ p svc sec, claims items p svc sec →
     ∃ w, valid m svc sec = Some w ∧
       (w = p ∨ before w p ∧ conflicted m svc (policy_key p) = Some p)) ∧
  (∀ svc key p, conflicted m svc key = Some p →
     key = policy_key p ∧
     ∃ sec w, claims items p svc sec ∧ valid m svc sec = Some w ∧ before w p).
Proof.
  intros Hnd m. subst m. rewrite BuildBackendTLSPolicyLookup_claims.
  setoid_rewrite <-elem_of_claims.
  destruct (lookup_inv_foldl (items ≫= policy_claims)) as [H1 H2 H3]; [|done].
  split.
  - intros [p [svc sec]] [q [svc' sec']] [Hp _]%elem_of_claims [Hq _]%elem_of_claims. cbn.
    apply list_elem_of_lookup in Hp as [i Hi], Hq as [j Hj]. intros E.
    assert (i = j) as ->; [|congruence].
    eapply (NoDup_lookup _ i j (policy_key p) Hnd);
      rewrite list_lookup_fmap; [by rewrite Hi|by rewrite Hj, E].
  - intros [p [svc sec]] (_ & Hns & _)%elem_of_claims. by cbn in *.
Qed.

Definition policy_example (name : string) (time : Z) : BackendTLSPolicy :=
  mkBackendTLSPolicy (mkObjectMeta name "ns" "" 1 ∅ ∅ time None)
    [mkPolicyTargetReference "" "Service" "svc" None] [] None [].

Lemma BuildBackendTLSPolicyLookup_precedence_witness :
  let items := [policy_example "b" 5; policy_example "a" 5; policy_example "c" 9] in
  let m := BuildBackendTLSPolicyLookup items in
  valid m (mkNamespacedName "ns" "svc") "" = Some (policy_example "a" 5) ∧
  (∀ svc sec w, valid m svc sec = Some w → claims items w svc sec) ∧
  (∀ p svc sec, claims items p svc sec →
     ∃ w, valid m svc sec = Some w ∧
       (w = p ∨ before w p ∧ conflicted m svc (policy_key p) = Some p)) ∧
  (∀ svc key p, conflicted m svc key = Some p →
     key = policy_key p ∧
     ∃ sec w, claims items p svc sec ∧ valid m svc sec = Some w ∧ before w p).
Proof.
  intros items m. split; [vm_compute; reflexivity|].
  apply BuildBackendTLSPolicyLookup_precedence. apply (bool_decide_unpack _). vm_compute. exact I.
Defined.

End backendtlspolicy.
