(* ===== verification/Ingestion.v ===== *)
(** * Gateway API ingestion (src/pkg/model/ingestion/gateway.go)

    [GatewayAPI] turns a Gateway, its listeners and the routes attached to it
    into the listeners of the internal model.  The per-kind conversions
    ([toHTTPRoutes], [toGRPCRoutes], [toTLSRoutes], [toTCPRoutes],
    [toUDPRoutes]) and their helpers are the definitions below; pointers the
    code dereferences without a test make a conversion panic. *)

From S2P Require Import Prelude GoStrings ApiTypes Model Hostnames Helpers.
Import k8s.

Module ingestion.
Import types namespaces referencegrants.

Definition allHosts : string := "*".

Record ListenerWithContext := mkListenerWithContext {
  lc_Listener : gatewayv1.Listener;
  lc_Source : model.FullyQualifiedResource;
  lc_SourceGeneration : Z;
  (** nil if all namespaces are allowed *)
  lc_AllowedNamespaces : option (gset string)
}.

(** The fields of [Input] that [GatewayAPI] reads; [in_Listeners] may be nil. *)
Record Input := mkInput {
  in_Gateway : gatewayv1.Gateway;
  in_Listeners : slice ListenerWithContext;
  in_HTTPRoutes : list gatewayv1.HTTPRoute;
  in_TLSRoutes : list gatewayv1.TLSRoute;
  in_GRPCRoutes : list gatewayv1.GRPCRoute;
  in_TCPRoutes : list gatewayv1.TCPRoute;
  in_UDPRoutes : list gatewayv1.UDPRoute;
  in_ReferenceGrants : list gatewayv1.ReferenceGrant;
  in_Services : list Service
}.

(** ** Conversions of fields *)

Definition toHTTPHeaders (headers : list gatewayv1.HTTPHeader) : list model.Header :=
  (λ h, model.mkHeader (gatewayv1.hh_Name h) (gatewayv1.hh_Value h)) <$> headers.

Definition toHostname (hostname : option string) : string :=
  match hostname with Some h => h | None => allHosts end.

Definition toMapString (in_ : gmap string string) : gmap string string := in_.

Definition serviceExists (svcName svcNamespace : string) (services : list Service) : bool :=
  existsb (λ svc, String.eqb (om_Name (svc_meta svc)) svcName &&
                  String.eqb (om_Namespace (svc_meta svc)) svcNamespace) services.

Definition backendRefToModelBackend (be : gatewayv1.BackendObjectReference)
    (defaultNamespace : string) : model.Backend :=
  let ns := NamespaceDerefOr (gatewayv1.bor_Namespace be) defaultNamespace in
  let modelport := (λ p, model.mkBackendPort (u32 p) "") <$> gatewayv1.bor_Port be in
  model.mkBackend (gatewayv1.bor_Name be) ns modelport None None.

Definition backendToModelBackend (be : gatewayv1.BackendRef) (defaultNamespace : string)
  : model.Backend :=
  let res := backendRefToModelBackend (gatewayv1.br_ref be) defaultNamespace in
  model.mkBackend (model.b_Name res) (model.b_Namespace res) (model.b_Port res)
    (gatewayv1.br_Weight be) (model.b_TLS res).

(** [toHTTPRequestMirror] reads the filter through its pointer. *)
Definition toHTTPRequestMirror (mirror : option gatewayv1.BackendObjectReference) (ns : string)
  : go model.HttpRequestMirror :=
  ref ← deref mirror;
  Ok (model.mkHttpRequestMirror (Some (backendRefToModelBackend ref ns))).

(** [&model.HttpHeaderFilter{...}] from a header modifier, read through its
    pointer. *)
Definition toHeaderFilter (f : option gatewayv1.HTTPHeaderFilter) : go model.HttpHeaderFilter :=
  m ← deref f;
  Ok (model.mkHttpHeaderFilter (toHTTPHeaders (gatewayv1.hhf_Add m))
        (toHTTPHeaders (gatewayv1.hhf_Set m)) (gatewayv1.hhf_Remove m)).

Definition exactMatch (v : string) : model.StringMatch := model.mkStringMatch "" v "".
Definition prefixMatch (v : string) : model.StringMatch := model.mkStringMatch v "" "".
Definition regexMatch (v : string) : model.StringMatch := model.mkStringMatch "" "" v.

(** One iteration of the header and query loops, for a known match type. *)
Definition toKeyValueMatch (t : string) (h : gatewayv1.ValueMatch) : list model.KeyValueMatch :=
  if String.eqb t gatewayv1.MatchExact then
    [model.mkKeyValueMatch (gatewayv1.vm_Name h) (exactMatch (gatewayv1.vm_Value h))]
  else if String.eqb t gatewayv1.MatchRegularExpression then
    [model.mkKeyValueMatch (gatewayv1.vm_Name h) (regexMatch (gatewayv1.vm_Value h))]
  else [].

Definition toGRPCHeaderMatch (m : gatewayv1.GRPCRouteMatch) : list model.KeyValueMatch :=
  gatewayv1.grm_Headers m ≫= λ h,
    toKeyValueMatch (default gatewayv1.MatchExact (gatewayv1.vm_Type h)) h.

(** Unlike the gRPC version, a header without a type is a nil dereference. *)
Definition toHeaderMatch (m : gatewayv1.HTTPRouteMatch) : go (list model.KeyValueMatch) :=
  go_flat_map (λ h, t ← deref (gatewayv1.vm_Type h); Ok (toKeyValueMatch t h))
    (gatewayv1.hrm_Headers m).

Definition toQueryMatch (m : gatewayv1.HTTPRouteMatch) : list model.KeyValueMatch :=
  gatewayv1.hrm_QueryParams m ≫= λ q,
    toKeyValueMatch (default gatewayv1.MatchExact (gatewayv1.vm_Type q)) q.

Definition toGRPCPathMatch (m : gatewayv1.GRPCRouteMatch) : go model.StringMatch :=
  match gatewayv1.grm_Method m with
  | None => Ok model.emptyMatch
  | Some mm =>
      match gatewayv1.gmm_Service mm with
      | None => Ok model.emptyMatch
      | Some service =>
          let path := "/" +:+ service in
          let path := match gatewayv1.gmm_Method mm with
                      | Some meth => path +:+ "/" +:+ meth
                      | None => path
                      end in
          t ← deref (gatewayv1.gmm_Type mm);
          if String.eqb t gatewayv1.MatchExact then Ok (exactMatch path)
          else if String.eqb t gatewayv1.MatchRegularExpression then Ok (regexMatch path)
          else Ok model.emptyMatch
      end
  end.

Definition toPathMatch (m : gatewayv1.HTTPRouteMatch) : go model.StringMatch :=
  match gatewayv1.hrm_Path m with
  | None => Ok model.emptyMatch
  | Some path =>
      t ← deref (gatewayv1.hpm_Type path);
      if String.eqb t gatewayv1.MatchExact then
        v ← deref (gatewayv1.hpm_Value path); Ok (exactMatch v)
      else if String.eqb t gatewayv1.PathMatchPathPrefix then
        v ← deref (gatewayv1.hpm_Value path); Ok (prefixMatch v)
      else if String.eqb t gatewayv1.MatchRegularExpression then
        v ← deref (gatewayv1.hpm_Value path); Ok (regexMatch v)
      else Ok model.emptyMatch
  end.

Definition toHTTPRequestRedirectFilter (listener : gatewayv1.Listener)
    (redirect : option gatewayv1.HTTPRequestRedirectFilter)
  : go (option model.HTTPRequestRedirectFilter) :=
  match redirect with
  | None => Ok None
  | Some redirect =>
      pathModifier ←
        match gatewayv1.rrf_Path redirect with
        | None => Ok None
        | Some p =>
            if String.eqb (gatewayv1.pm_Type p) gatewayv1.FullPathHTTPPathModifier then
              v ← deref (gatewayv1.pm_ReplaceFullPath p); Ok (Some (exactMatch v))
            else if String.eqb (gatewayv1.pm_Type p) gatewayv1.PrefixMatchHTTPPathModifier then
              v ← deref (gatewayv1.pm_ReplacePrefixMatch p); Ok (Some (prefixMatch v))
            else Ok (Some model.emptyMatch)
        end;
      let rediretPort :=
        match gatewayv1.rrf_Port redirect with
        | None => match gatewayv1.rrf_Scheme redirect with
                  | None => Some (gatewayv1.l_Port listener)
                  | Some _ => None
                  end
        | Some p => Some p
        end in
      Ok (Some (model.mkRedirect (gatewayv1.rrf_Scheme redirect) (gatewayv1.rrf_Hostname redirect)
                  pathModifier rediretPort (gatewayv1.rrf_StatusCode redirect)))
  end.

Definition toHTTPRewriteFilter (rewrite : option gatewayv1.HTTPURLRewriteFilter)
  : go (option model.HTTPURLRewriteFilter) :=
  match rewrite with
  | None => Ok None
  | Some rewrite =>
      pathFilter ←
        match gatewayv1.urf_Path rewrite with
        | None => Ok None
        | Some p =>
            if String.eqb (gatewayv1.pm_Type p) gatewayv1.FullPathHTTPPathModifier then
              v ← deref (gatewayv1.pm_ReplaceFullPath p); Ok (Some (exactMatch v))
            else if String.eqb (gatewayv1.pm_Type p) gatewayv1.PrefixMatchHTTPPathModifier then
              v ← deref (gatewayv1.pm_ReplacePrefixMatch p);
              Ok (Some (prefixMatch (TrimSuffix v "/")))
            else Ok None
        end;
      Ok (Some (model.mkRewrite (gatewayv1.urf_Hostname rewrite) pathFilter))
  end.

Definition toTLS (tls : option gatewayv1.ListenerTLSConfig) (grants : list gatewayv1.ReferenceGrant)
    (defaultNamespace : string) : slice model.TLSSecret :=
  match tls with
  | None => None
  | Some tls => Some (gatewayv1.tls_CertificateRefs tls ≫= λ cert,
      if IsSecretReferenceAllowed defaultNamespace cert (GatewayV1GVK "Gateway") grants
      then [model.mkTLSSecret (gatewayv1.sor_Name cert)
              (NamespaceDerefOr (gatewayv1.sor_Namespace cert) defaultNamespace)]
      else [])
  end.

(** ** Attachment and backends *)

(** The loop over the parent references of TLS, TCP, UDP and gRPC routes: some
    reference has no section name or the listener's. *)
Definition section_matches (listener : gatewayv1.Listener) (ref : gatewayv1.ParentReference) : bool :=
  match gatewayv1.pr_SectionName ref with
  | None => true
  | Some s => String.eqb s (gatewayv1.l_Name listener)
  end.

Definition attached_by_section {R} (listener : gatewayv1.Listener) (r : gatewayv1.Route R) : bool :=
  existsb (section_matches listener) (gatewayv1.rt_ParentRefs r).

(** The loop of [toHTTPRoutes], which also looks at the kind of the parent. *)
Definition http_ref_attaches (listener : gatewayv1.Listener)
    (listenerSource : model.FullyQualifiedResource) (routeNamespace : string)
    (ref : gatewayv1.ParentReference) : bool :=
  if negb (section_matches listener ref) then false
  else if String.eqb (model.fqr_Kind listenerSource) "Gateway" then
    IsGateway ref || (bool_decide (gatewayv1.pr_Kind ref = None) &&
                      bool_decide (gatewayv1.pr_Group ref = None))
  else if IsListenerSet ref then
    String.eqb (NamespaceDerefOr (gatewayv1.pr_Namespace ref) routeNamespace)
      (model.fqr_Namespace listenerSource) &&
    String.eqb (gatewayv1.pr_Name ref) (model.fqr_Name listenerSource)
  else false.

Definition http_attached (listener : gatewayv1.Listener)
    (listenerSource : model.FullyQualifiedResource) (r : gatewayv1.HTTPRoute) : bool :=
  existsb (http_ref_attaches listener listenerSource (om_Namespace (gatewayv1.rt_meta r)))
    (gatewayv1.rt_ParentRefs r).

(** The guards of the backend loops, each of which skips the reference: allowed
    by a grant, a Service, with a port, and known. *)
Definition backend_accepted (kind routeNamespace : string) (services : list Service)
    (grants : list gatewayv1.ReferenceGrant) (ref : gatewayv1.BackendObjectReference) : bool :=
  IsBackendReferenceAllowed routeNamespace ref (mkGVK gatewayv1.GroupName "v1beta1" kind) grants &&
  nil_or (gatewayv1.bor_Kind ref) "Service" && nil_or (gatewayv1.bor_Group ref) corev1_GroupName &&
  bool_decide (is_Some (gatewayv1.bor_Port ref)) &&
  serviceExists (gatewayv1.bor_Name ref) (NamespaceDerefOr (gatewayv1.bor_Namespace ref) routeNamespace)
    services.

Definition toBackends (kind routeNamespace : string) (services : list Service)
    (grants : list gatewayv1.ReferenceGrant) (refs : list gatewayv1.BackendRef)
  : list model.Backend :=
  refs ≫= λ be,
    if backend_accepted kind routeNamespace services grants (gatewayv1.br_ref be)
    then [backendToModelBackend be routeNamespace] else [].

(** The hosts a route serves on the listener: none ([None]) when the two do not
    intersect, the empty list for all hosts. *)
Definition matched_hosts {R} (listener : gatewayv1.Listener) (r : gatewayv1.Route R)
  : option (list string) :=
  let matchedHosts := helper.ComputeHosts (gatewayv1.rt_Hostnames r) (gatewayv1.l_Hostname listener) in
  if length matchedHosts =? 0 then None
  else if bool_decide (matchedHosts = [allHosts]) then Some []
  else Some matchedHosts.

(** ** TCP, UDP and TLS routes *)

Definition toUDPRoutes (listener : gatewayv1.Listener) (input : list gatewayv1.UDPRoute)
    (services : list Service) (grants : list gatewayv1.ReferenceGrant) : list model.UDPRoute :=
  input ≫= λ route,
    if negb (attached_by_section listener route) then []
    else (λ rule, model.mkUDPRoute
            (toBackends "UDPRoute" (om_Namespace (gatewayv1.rt_meta route)) services grants
               (gatewayv1.l4_BackendRefs rule))) <$> gatewayv1.rt_Rules route.

Definition toTCPRoutes (listener : gatewayv1.Listener) (input : list gatewayv1.TCPRoute)
    (services : list Service) (grants : list gatewayv1.ReferenceGrant) : list model.TCPRoute :=
  input ≫= λ route,
    if negb (attached_by_section listener route) then []
    else (λ rule, model.mkTCPRoute
            (toBackends "TCPRoute" (om_Namespace (gatewayv1.rt_meta route)) services grants
               (gatewayv1.l4_BackendRefs rule))) <$> gatewayv1.rt_Rules route.

(** The inner loop of [toTLSRoutes], over all the routes of the input. *)
Definition toTLSRoutes_inner (listener : gatewayv1.Listener) (input : list gatewayv1.TLSRoute)
    (services : list Service) (grants : list gatewayv1.ReferenceGrant) : list model.TLSRoute :=
  input ≫= λ r,
    if negb (attached_by_section listener r) then []
    else match matched_hosts listener r with
         | None => []
         | Some matchedHosts =>
             (λ rule, model.mkTLSRoute "" matchedHosts
                (toBackends "TLSRoute" (om_Namespace (gatewayv1.rt_meta r)) services grants
                   (gatewayv1.l4_BackendRefs rule))) <$> gatewayv1.rt_Rules r
         end.

(** The outer loop runs the inner one, on the whole input, for every rule of
    every attached route (the backends it collects itself are not used). *)
Definition toTLSRoutes (listener : gatewayv1.Listener) (input : list gatewayv1.TLSRoute)
    (services : list Service) (grants : list gatewayv1.ReferenceGrant) : list model.TLSRoute :=
  input ≫= λ r,
    if negb (attached_by_section listener r) then []
    else match matched_hosts listener r with
         | None => []
         | Some _ => gatewayv1.rt_Rules r ≫= λ _, toTLSRoutes_inner listener input services grants
         end.

(** ** HTTP and gRPC routes *)

(** The variables the loop over a rule's filters assigns. *)
Record RuleFilters := mkRuleFilters {
  fs_requestHeaderFilter : option model.HttpHeaderFilter;
  fs_responseHeaderFilter : option model.HttpHeaderFilter;
  fs_requestMirrors : list model.HttpRequestMirror;
  fs_requestRedirectFilter : option model.HTTPRequestRedirectFilter;
  fs_rewriteFilter : option model.HTTPURLRewriteFilter
}.
Definition noFilters : RuleFilters := mkRuleFilters None None [] None None.

(** The cases that HTTP and gRPC rules have in common. *)
Definition common_filter (ns : string) (fs : RuleFilters) (f : gatewayv1.RouteFilter)
    (other : go RuleFilters) : go RuleFilters :=
  let '(mkRuleFilters req resp mirrors redirect rewrite) := fs in
  if String.eqb (gatewayv1.rf_Type f) gatewayv1.FilterRequestHeaderModifier then
    h ← toHeaderFilter (gatewayv1.rf_RequestHeaderModifier f);
    Ok (mkRuleFilters (Some h) resp mirrors redirect rewrite)
  else if String.eqb (gatewayv1.rf_Type f) gatewayv1.FilterResponseHeaderModifier then
    h ← toHeaderFilter (gatewayv1.rf_ResponseHeaderModifier f);
    Ok (mkRuleFilters req (Some h) mirrors redirect rewrite)
  else if String.eqb (gatewayv1.rf_Type f) gatewayv1.FilterRequestMirror then
    m ← toHTTPRequestMirror (gatewayv1.rf_RequestMirror f) ns;
    Ok (mkRuleFilters req resp (mirrors ++ [m]) redirect rewrite)
  else other.

Definition http_filter (listener : gatewayv1.Listener) (ns : string) (fs : RuleFilters)
    (f : gatewayv1.RouteFilter) : go RuleFilters :=
  common_filter ns fs f (
    let '(mkRuleFilters req resp mirrors redirect rewrite) := fs in
    if String.eqb (gatewayv1.rf_Type f) gatewayv1.FilterRequestRedirect then
      r ← toHTTPRequestRedirectFilter listener (gatewayv1.rf_RequestRedirect f);
      Ok (mkRuleFilters req resp mirrors r rewrite)
    else if String.eqb (gatewayv1.rf_Type f) gatewayv1.FilterURLRewrite then
      r ← toHTTPRewriteFilter (gatewayv1.rf_URLRewrite f);
      Ok (mkRuleFilters req resp mirrors redirect r)
    else Ok fs).

Definition grpc_filter (ns : string) (fs : RuleFilters) (f : gatewayv1.RouteFilter) : go RuleFilters :=
  common_filter ns fs f (Ok fs).

(** The filters of the backends of an HTTP rule: the code builds them, which may
    panic, and does not store them in the route. *)
Definition backend_filter (name : string) (f : gatewayv1.RouteFilter)
  : go (list model.BackendHttpFilter) :=
  if String.eqb (gatewayv1.rf_Type f) gatewayv1.FilterRequestHeaderModifier then
    h ← toHeaderFilter (gatewayv1.rf_RequestHeaderModifier f);
    Ok [model.mkBackendHttpFilter name (Some h) None]
  else if String.eqb (gatewayv1.rf_Type f) gatewayv1.FilterResponseHeaderModifier then
    h ← toHeaderFilter (gatewayv1.rf_ResponseHeaderModifier f);
    Ok [model.mkBackendHttpFilter name None (Some h)]
  else Ok [].

Definition backend_filters (routeNamespace : string) (services : list Service)
    (grants : list gatewayv1.ReferenceGrant) (refs : list gatewayv1.HTTPBackendRef)
  : go (list model.BackendHttpFilter) :=
  go_flat_map (λ be,
    let ref := gatewayv1.br_ref (gatewayv1.hbr_BackendRef be) in
    if backend_accepted "HttpRoute" routeNamespace services grants ref
    then go_flat_map (λ f,
           port ← deref (gatewayv1.bor_Port ref);
           let name := NamespaceDerefOr (gatewayv1.bor_Namespace ref) routeNamespace +:+ ":" +:+
                       gatewayv1.bor_Name ref +:+ ":" +:+ Itoa (u32 port) in
           backend_filter name f) (gatewayv1.hbr_Filters be)
    else Ok []) refs.

(** [dr]: a 500 response when no backend is left. *)
Definition direct_response (bes : list model.Backend) : option model.DirectResponse :=
  if length bes =? 0 then Some (model.mkDirectResponse 500 "") else None.

(** The composite literal of a route, with the fields both kinds set. *)
Definition ruleRoute (matchedHosts : list string) (bes : list model.Backend) (fs : RuleFilters)
    (path : model.StringMatch) (headers queries : list model.KeyValueMatch) (isGRPC : bool)
  : model.HTTPRoute :=
  model.mkHTTPRoute "" matchedHosts path headers queries None bes [] (direct_response bes)
    None (fs_responseHeaderFilter fs) (fs_requestHeaderFilter fs) (fs_requestRedirectFilter fs)
    (fs_rewriteFilter fs) (fs_requestMirrors fs) isGRPC (model.mkTimeout None None).

(** One rule: a route without matches, or one route per match. *)
Definition http_rule_routes (listener : gatewayv1.Listener) (ns : string) (services : list Service)
    (grants : list gatewayv1.ReferenceGrant) (matchedHosts : list string)
    (rule : gatewayv1.HTTPRouteRule) : go (list model.HTTPRoute) :=
  let bes := toBackends "HttpRoute" ns services grants
               (gatewayv1.hbr_BackendRef <$> gatewayv1.hrr_BackendRefs rule) in
  _ ← backend_filters ns services grants (gatewayv1.hrr_BackendRefs rule);
  fs ← go_foldl (http_filter listener ns) noFilters (gatewayv1.hrr_Filters rule);
  if length (gatewayv1.hrr_Matches rule) =? 0 then
    Ok [ruleRoute matchedHosts bes fs model.emptyMatch [] [] false]
  else go_map (λ m,
    path ← toPathMatch m;
    headers ← toHeaderMatch m;
    Ok (ruleRoute matchedHosts bes fs path headers (toQueryMatch m) false))
    (gatewayv1.hrr_Matches rule).

Definition toHTTPRoutes (listener : gatewayv1.Listener) (input : list gatewayv1.HTTPRoute)
    (services : list Service) (grants : list gatewayv1.ReferenceGrant)
    (listenerSource : model.FullyQualifiedResource) : go (list model.HTTPRoute) :=
  go_flat_map (λ r,
    if negb (http_attached listener listenerSource r) then Ok []
    else match matched_hosts listener r with
         | None => Ok []
         | Some matchedHosts =>
             go_flat_map (http_rule_routes listener (om_Namespace (gatewayv1.rt_meta r)) services
                            grants matchedHosts) (gatewayv1.rt_Rules r)
         end) input.

Definition grpc_rule_routes (ns : string) (services : list Service)
    (grants : list gatewayv1.ReferenceGrant) (matchedHosts : list string)
    (rule : gatewayv1.GRPCRouteRule) : go (list model.HTTPRoute) :=
  let bes := toBackends "GrpcRoute" ns services grants (gatewayv1.grr_BackendRefs rule) in
  fs ← go_foldl (grpc_filter ns) noFilters (gatewayv1.grr_Filters rule);
  if length (gatewayv1.grr_Matches rule) =? 0 then
    Ok [ruleRoute matchedHosts bes fs model.emptyMatch [] [] false]
  else go_map (λ m,
    path ← toGRPCPathMatch m;
    Ok (ruleRoute matchedHosts bes fs path (toGRPCHeaderMatch m) [] true))
    (gatewayv1.grr_Matches rule).

Definition toGRPCRoutes (listener : gatewayv1.Listener) (input : list gatewayv1.GRPCRoute)
    (services : list Service) (grants : list gatewayv1.ReferenceGrant) : go (list model.HTTPRoute) :=
  go_flat_map (λ r,
    if negb (attached_by_section listener r) then Ok []
    else match matched_hosts listener r with
         | None => Ok []
         | Some matchedHosts =>
             go_flat_map (grpc_rule_routes (om_Namespace (gatewayv1.rt_meta r)) services grants
                            matchedHosts) (gatewayv1.rt_Rules r)
         end) input.

(** ** The Gateway *)

Definition gateway_source (gw : gatewayv1.Gateway) : model.FullyQualifiedResource :=
  model.mkFQR (om_Name (gatewayv1.gw_meta gw)) (om_Namespace (gatewayv1.gw_meta gw))
    (gvk_Group (gatewayv1.gw_gvk gw)) (gvk_Version (gatewayv1.gw_gvk gw))
    (gvk_Kind (gatewayv1.gw_gvk gw)) (om_UID (gatewayv1.gw_meta gw)).

Definition gateway_infra (gw : gatewayv1.Gateway) : option model.Infrastructure :=
  (λ i, model.mkInfrastructure (toMapString (gatewayv1.gi_Labels i))
          (toMapString (gatewayv1.gi_Annotations i))) <$> gatewayv1.gw_Infrastructure gw.

Definition is_http_protocol (p : string) : bool :=
  String.eqb p gatewayv1.HTTPProtocolType || String.eqb p gatewayv1.HTTPSProtocolType ||
  String.eqb p gatewayv1.TLSProtocolType.

(** The body of both listener loops: one listener, appended to the results. *)
Definition ingest_listener (input : Input) (res : model.Model)
    (lsrc : gatewayv1.Listener * model.FullyQualifiedResource) : go model.Model :=
  let '(l, source) := lsrc in
  let '(model.mkModel resHTTP resTLS resTCP resUDP) := res in
  let infra := gateway_infra (in_Gateway input) in
  let name := gatewayv1.l_Name l in
  let port := u32 (gatewayv1.l_Port l) in
  let services := in_Services input in
  let grants := in_ReferenceGrants input in
  if String.eqb (gatewayv1.l_Protocol l) gatewayv1.UDPProtocolType then
    Ok (model.mkModel resHTTP resTLS resTCP (resUDP ++ [model.mkUDPListener name port [source]
          (toUDPRoutes l (in_UDPRoutes input) services grants) infra]))
  else if String.eqb (gatewayv1.l_Protocol l) gatewayv1.TCPProtocolType then
    Ok (model.mkModel resHTTP resTLS (resTCP ++ [model.mkTCPListener name port [source]
          (toTCPRoutes l (in_TCPRoutes input) services grants) infra]) resUDP)
  else if negb (is_http_protocol (gatewayv1.l_Protocol l)) then Ok res
  else
    httpRoutes ← toHTTPRoutes l (in_HTTPRoutes input) services grants source;
    grpcRoutes ← toGRPCRoutes l (in_GRPCRoutes input) services grants;
    Ok (model.mkModel
      (resHTTP ++ [model.mkHTTPListener name [source] "" port (toHostname (gatewayv1.l_Hostname l))
        (toTLS (gatewayv1.l_TLS l) grants (om_Namespace (gatewayv1.gw_meta (in_Gateway input))))
        (httpRoutes ++ grpcRoutes) None infra false])
      (resTLS ++ [model.mkTLSListener name [source] "" port (toHostname (gatewayv1.l_Hostname l))
        (toTLSRoutes l (in_TLSRoutes input) services grants) None infra])
      resTCP resUDP).

(** The source of a listener with context: its own, when it is named. *)
Definition context_source (source : model.FullyQualifiedResource) (lc : ListenerWithContext)
  : gatewayv1.Listener * model.FullyQualifiedResource :=
  (lc_Listener lc,
   if negb (String.eqb (model.fqr_Name (lc_Source lc)) "") then lc_Source lc else source).

Definition GatewayAPI (input : Input) : go model.Model :=
  let source := gateway_source (in_Gateway input) in
  res ← go_foldl (ingest_listener input) (model.mkModel [] [] [] [])
          (context_source source <$> elems (in_Listeners input));
  match in_Listeners input with
  | None => go_foldl (ingest_listener input) res
              ((λ l, (l, source)) <$> gatewayv1.gw_Listeners (in_Gateway input))
  | Some _ => Ok res
  end.

(** ** What the API server guarantees

    The schema of the Gateway API fills in default types and demands the field
    that belongs to a filter or modifier type, and a port on the references that
    are to Services.  A reference to another kind of object needs no port. *)
Definition valid_path_modifier (p : gatewayv1.HTTPPathModifier) : Prop :=
  (gatewayv1.pm_Type p = gatewayv1.FullPathHTTPPathModifier →
     is_Some (gatewayv1.pm_ReplaceFullPath p)) ∧
  (gatewayv1.pm_Type p = gatewayv1.PrefixMatchHTTPPathModifier →
     is_Some (gatewayv1.pm_ReplacePrefixMatch p)).

Definition opt_all {A} (P : A → Prop) (o : option A) : Prop := ∀ a, o = Some a → P a.

(** The rule of the schema: [size(self.group) == 0 && self.kind == 'Service'],
    with the defaults of the two fields. *)
Definition refers_to_service (ref : gatewayv1.BackendObjectReference) : Prop :=
  default "" (gatewayv1.bor_Group ref) = "" ∧ default "Service" (gatewayv1.bor_Kind ref) = "Service".

Record valid_filter (f : gatewayv1.RouteFilter) : Prop := {
  vf_request : gatewayv1.rf_Type f = gatewayv1.FilterRequestHeaderModifier →
    is_Some (gatewayv1.rf_RequestHeaderModifier f);
  vf_response : gatewayv1.rf_Type f = gatewayv1.FilterResponseHeaderModifier →
    is_Some (gatewayv1.rf_ResponseHeaderModifier f);
  vf_mirror : gatewayv1.rf_Type f = gatewayv1.FilterRequestMirror →
    ∃ ref, gatewayv1.rf_RequestMirror f = Some ref ∧
      (refers_to_service ref → is_Some (gatewayv1.bor_Port ref));
  vf_redirect : opt_all (λ r, opt_all valid_path_modifier (gatewayv1.rrf_Path r))
    (gatewayv1.rf_RequestRedirect f);
  vf_rewrite : opt_all (λ r, opt_all valid_path_modifier (gatewayv1.urf_Path r))
    (gatewayv1.rf_URLRewrite f)
}.

Definition valid_http_match (m : gatewayv1.HTTPRouteMatch) : Prop :=
  opt_all (λ p, is_Some (gatewayv1.hpm_Type p) ∧ is_Some (gatewayv1.hpm_Value p))
    (gatewayv1.hrm_Path m) ∧
  Forall (λ h, is_Some (gatewayv1.vm_Type h)) (gatewayv1.hrm_Headers m).

Definition valid_http_rule (r : gatewayv1.HTTPRouteRule) : Prop :=
  Forall valid_http_match (gatewayv1.hrr_Matches r) ∧
  Forall valid_filter (gatewayv1.hrr_Filters r) ∧
  Forall (λ be, Forall valid_filter (gatewayv1.hbr_Filters be)) (gatewayv1.hrr_BackendRefs r).

Definition valid_grpc_rule (r : gatewayv1.GRPCRouteRule) : Prop :=
  Forall (λ m, opt_all (λ mm, is_Some (gatewayv1.gmm_Type mm)) (gatewayv1.grm_Method m))
    (gatewayv1.grr_Matches r) ∧
  Forall valid_filter (gatewayv1.grr_Filters r).

Definition valid_input (input : Input) : Prop :=
  Forall (λ r, Forall valid_http_rule (gatewayv1.rt_Rules r)) (in_HTTPRoutes input) ∧
  Forall (λ r, Forall valid_grpc_rule (gatewayv1.rt_Rules r)) (in_GRPCRoutes input).

(** ** What the code needs beyond the schema

    Every request mirror of a rule names a port: a mirror to a Service does by
    the schema, one to another kind of object may not. *)
Definition mirror_has_port (f : gatewayv1.RouteFilter) : Prop :=
  gatewayv1.rf_Type f = gatewayv1.FilterRequestMirror →
  opt_all (λ ref, is_Some (gatewayv1.bor_Port ref)) (gatewayv1.rf_RequestMirror f).

Definition http_mirrors_have_ports (r : gatewayv1.HTTPRoute) : Prop :=
  Forall (λ rule, Forall mirror_has_port (gatewayv1.hrr_Filters rule)) (gatewayv1.rt_Rules r).
Definition grpc_mirrors_have_ports (r : gatewayv1.GRPCRoute) : Prop :=
  Forall (λ rule, Forall mirror_has_port (gatewayv1.grr_Filters rule)) (gatewayv1.rt_Rules r).
Definition mirrors_have_ports (input : Input) : Prop :=
  Forall http_mirrors_have_ports (in_HTTPRoutes input) ∧
  Forall grpc_mirrors_have_ports (in_GRPCRoutes input).

(** ** Lemmas *)

Lemma toBackends_ok kind ns services grants refs :
  Forall model.backend_ok (toBackends kind ns services grants refs).
Proof.
  apply Forall_forall. intros b. unfold toBackends. rewrite list_elem_of_bind.
  intros (be & Hb & _). destruct (backend_accepted _ _ _ _ _) eqn:E; [|by apply elem_of_nil in Hb].
  apply list_elem_of_singleton in Hb as ->. unfold backend_accepted in E.
  apply andb_true_iff in E as [[_ E]%andb_true_iff _]. apply bool_decide_eq_true in E as [p Hp].
  unfold model.backend_ok. cbn. rewrite Hp. by eexists.
Qed.

(** Whether the mirrors have ports ([P]) decides whether the routes are well
    formed; that the functions return does not depend on it. *)
Section Ports.
Variable P : Prop.

Definition filters_ok (fs : RuleFilters) : Prop := P → Forall model.mirror_ok (fs_requestMirrors fs).
Definition route_okP (r : model.HTTPRoute) : Prop := P → model.route_ok r.

Lemma Forall_okP rs : Forall route_okP rs → P → Forall model.route_ok rs.
Proof. intros H HP. eapply Forall_impl; [exact H|]. intros r Hr. by apply Hr. Qed.

Lemma ruleRoute_ok hosts kind ns services grants refs fs path hs qs g :
  filters_ok fs →
  route_okP (ruleRoute hosts (toBackends kind ns services grants refs) fs path hs qs g).
Proof.
  intros Hm HP. split; [apply toBackends_ok| |by apply Hm]. cbn. unfold direct_response. by intros ->.
Qed.

Lemma yields_toHeaderFilter f : is_Some f → yields (toHeaderFilter f) (λ _, True).
Proof. intros [x ->]. by apply yields_Ok. Qed.

Lemma yields_path_modifier {B} (p : gatewayv1.HTTPPathModifier) (f g : string → B) (b : B) :
  valid_path_modifier p →
  yields (if String.eqb (gatewayv1.pm_Type p) gatewayv1.FullPathHTTPPathModifier then
            v ← deref (gatewayv1.pm_ReplaceFullPath p); Ok (f v)
          else if String.eqb (gatewayv1.pm_Type p) gatewayv1.PrefixMatchHTTPPathModifier then
            v ← deref (gatewayv1.pm_ReplacePrefixMatch p); Ok (g v)
          else Ok b) (λ _, True).
Proof.
  intros [H1 H2]. destruct (String.eqb_spec (gatewayv1.pm_Type p) gatewayv1.FullPathHTTPPathModifier) as [E|_].
  { destruct (H1 E) as [x ->]. by apply yields_Ok. }
  destruct (String.eqb_spec (gatewayv1.pm_Type p) gatewayv1.PrefixMatchHTTPPathModifier) as [E|_].
  { destruct (H2 E) as [x ->]. by apply yields_Ok. }
  by apply yields_Ok.
Qed.

Lemma yields_redirect l r :
  opt_all (λ r, opt_all valid_path_modifier (gatewayv1.rrf_Path r)) r →
  yields (toHTTPRequestRedirectFilter l r) (λ _, True).
Proof.
  intros H. destruct r as [r|]; [|by apply yields_Ok]. specialize (H r eq_refl). cbn in *.
  apply yields_bind with (λ _, True); [|intros; by apply yields_Ok].
  destruct (gatewayv1.rrf_Path r) as [p|]; [|by apply yields_Ok].
  by apply (yields_path_modifier p (λ v, Some (exactMatch v)) (λ v, Some (prefixMatch v))), H.
Qed.

Lemma yields_rewrite r :
  opt_all (λ r, opt_all valid_path_modifier (gatewayv1.urf_Path r)) r →
  yields (toHTTPRewriteFilter r) (λ _, True).
Proof.
  intros H. destruct r as [r|]; [|by apply yields_Ok]. specialize (H r eq_refl). cbn in *.
  apply yields_bind with (λ _, True); [|intros; by apply yields_Ok].
  destruct (gatewayv1.urf_Path r) as [p|]; [|by apply yields_Ok].
  by apply (yields_path_modifier p (λ v, Some (exactMatch v))
    (λ v, Some (prefixMatch (TrimSuffix v "/")))), H.
Qed.

Lemma yields_common_filter ns fs f other :
  valid_filter f → (P → mirror_has_port f) → filters_ok fs → yields other filters_ok →
  yields (common_filter ns fs f other) filters_ok.
Proof.
  intros Hf Hport Hfs Hother. unfold common_filter. destruct fs as [req resp mirrors redir rew].
  destruct (String.eqb_spec (gatewayv1.rf_Type f) gatewayv1.FilterRequestHeaderModifier) as [E|_].
  { eapply yields_bind; [apply yields_toHeaderFilter, (vf_request _ Hf E)|]. intros h _. by apply yields_Ok. }
  destruct (String.eqb_spec (gatewayv1.rf_Type f) gatewayv1.FilterResponseHeaderModifier) as [E|_].
  { eapply yields_bind; [apply yields_toHeaderFilter, (vf_response _ Hf E)|]. intros h _. by apply yields_Ok. }
  destruct (String.eqb_spec (gatewayv1.rf_Type f) gatewayv1.FilterRequestMirror) as [E|_]; [|done].
  destruct (vf_mirror _ Hf E) as (ref & Eref & _). rewrite Eref. cbn. apply yields_Ok. intros HP.
  apply Forall_app. split; [by apply Hfs|]. apply Forall_singleton. eexists. split; [done|].
  destruct (Hport HP E ref Eref) as [p Hp]. unfold model.backend_ok. cbn. rewrite Hp. by eexists.
Qed.

Lemma yields_http_filter l ns fs f :
  valid_filter f → (P → mirror_has_port f) → filters_ok fs → yields (http_filter l ns fs f) filters_ok.
Proof.
  intros Hf Hport Hfs. unfold http_filter. apply yields_common_filter; [done..|].
  destruct fs as [req resp mirrors redir rew]. case_match.
  { eapply yields_bind; [apply yields_redirect, (vf_redirect _ Hf)|]. intros r _. by apply yields_Ok. }
  case_match; [|by apply yields_Ok].
  eapply yields_bind; [apply yields_rewrite, (vf_rewrite _ Hf)|]. intros r _. by apply yields_Ok.
Qed.

Lemma yields_backend_filters ns services grants refs :
  Forall (λ be, Forall valid_filter (gatewayv1.hbr_Filters be)) refs →
  yields (backend_filters ns services grants refs) (λ _, True).
Proof.
  intros H. apply (yields_mono _ (Forall (λ _, True))); [done|]. apply yields_flat_map.
  eapply Forall_impl; [exact H|]. intros be Hbe. cbn beta zeta.
  destruct (backend_accepted _ _ _ _ _) eqn:E; [|by apply yields_Ok].
  unfold backend_accepted in E.
  apply andb_true_iff in E as [[_ [p Hp]%bool_decide_eq_true]%andb_true_iff _].
  apply yields_flat_map. eapply Forall_impl; [exact Hbe|]. intros f Hf. cbn beta zeta. rewrite Hp.
  cbn [deref mbind go_mbind]. unfold backend_filter.
  destruct (String.eqb_spec (gatewayv1.rf_Type f) gatewayv1.FilterRequestHeaderModifier) as [E|_].
  { eapply yields_bind; [apply yields_toHeaderFilter, (vf_request _ Hf E)|].
    intros h _. apply yields_Ok. by repeat constructor. }
  destruct (String.eqb_spec (gatewayv1.rf_Type f) gatewayv1.FilterResponseHeaderModifier) as [E|_];
    [|by apply yields_Ok].
  eapply yields_bind; [apply yields_toHeaderFilter, (vf_response _ Hf E)|].
  intros h _. apply yields_Ok. by repeat constructor.
Qed.

Lemma yields_http_match m :
  valid_http_match m →
  yields (toPathMatch m) (λ _, True) ∧ yields (toHeaderMatch m) (λ _, True).
Proof.
  intros [Hp Hh]. split.
  - unfold toPathMatch. destruct (gatewayv1.hrm_Path m) as [p|]; [|by apply yields_Ok].
    destruct (Hp p eq_refl) as [[t ->] [v ->]]. cbn. repeat case_match; by apply yields_Ok.
  - apply (yields_mono _ (Forall (λ _, True))); [done|]. apply yields_flat_map.
    eapply Forall_impl; [exact Hh|]. intros h [t ->]. cbn. apply yields_Ok. by apply Forall_true.
Qed.

(** The loop over the filters of a rule. *)
Lemma yields_filters step l :
  (∀ fs f, valid_filter f → (P → mirror_has_port f) → filters_ok fs → yields (step fs f) filters_ok) →
  Forall valid_filter l → (P → Forall mirror_has_port l) → yields (go_foldl step noFilters l) filters_ok.
Proof.
  intros Hstep Hf Hport. apply yields_foldl; [intros _; constructor|].
  apply Forall_forall. intros f Hin fs Hfs. rewrite Forall_forall in Hf. apply Hstep; [by apply Hf| |done].
  intros HP. specialize (Hport HP). rewrite Forall_forall in Hport. by apply Hport.
Qed.

Lemma yields_http_rule l ns services grants hosts rule :
  valid_http_rule rule → (P → Forall mirror_has_port (gatewayv1.hrr_Filters rule)) →
  yields (http_rule_routes l ns services grants hosts rule) (Forall route_okP).
Proof.
  intros (Hm & Hf & Hb) Hport. unfold http_rule_routes.
  eapply yields_bind; [by apply yields_backend_filters|]. intros _ _.
  eapply (yields_bind _ _ filters_ok); [apply yields_filters; [apply yields_http_filter|done..]|].
  intros fs Hfs. case_match.
  { apply yields_Ok. apply Forall_singleton. by apply ruleRoute_ok. }
  apply yields_map. eapply Forall_impl; [exact Hm|]. intros m [H1 H2]%yields_http_match.
  eapply yields_bind; [exact H1|]. intros path _. eapply yields_bind; [exact H2|]. intros hs _.
  apply yields_Ok. by apply ruleRoute_ok.
Qed.

Lemma yields_grpc_rule ns services grants hosts rule :
  valid_grpc_rule rule → (P → Forall mirror_has_port (gatewayv1.grr_Filters rule)) →
  yields (grpc_rule_routes ns services grants hosts rule) (Forall route_okP).
Proof.
  intros (Hm & Hf) Hport. unfold grpc_rule_routes.
  eapply (yields_bind _ _ filters_ok).
  { apply yields_filters; [|done..]. intros fs f Hvf Hp Hfs.
    apply yields_common_filter; [done..|by apply yields_Ok]. }
  intros fs Hfs. case_match.
  { apply yields_Ok. apply Forall_singleton. by apply ruleRoute_ok. }
  apply yields_map. eapply Forall_impl; [exact Hm|]. intros m Hmm.
  eapply (yields_bind _ _ (λ _, True)); [|intros path _; apply yields_Ok; by apply ruleRoute_ok].
  unfold toGRPCPathMatch. destruct (gatewayv1.grm_Method m) as [mm|] eqn:Em; [|by apply yields_Ok].
  destruct (Hmm mm Em) as [t ->]. cbn. repeat case_match; by apply yields_Ok.
Qed.

(** What holds of every element of a list, and under [P] something more. *)
Lemma Forall_with {A} (Q R : A → Prop) l : Forall Q l → (P → Forall R l) → Forall (λ x, Q x ∧ (P → R x)) l.
Proof.
  rewrite !Forall_forall. intros HQ HR x Hx. split; [by apply HQ|]. intros HP. by apply HR.
Qed.

Lemma yields_toHTTPRoutes l input services grants source :
  Forall (λ r, Forall valid_http_rule (gatewayv1.rt_Rules r)) input → (P → Forall http_mirrors_have_ports input) →
  yields (toHTTPRoutes l input services grants source) (Forall route_okP).
Proof.
  intros H Hport. apply yields_flat_map. eapply Forall_impl; [by apply Forall_with|]. intros r [Hr Hp]. cbn beta.
  repeat case_match; try (by apply yields_Ok). apply yields_flat_map.
  eapply Forall_impl; [by apply Forall_with|]. intros rule [Hrule Hpr]. by apply yields_http_rule.
Qed.

Lemma yields_toGRPCRoutes l input services grants :
  Forall (λ r, Forall valid_grpc_rule (gatewayv1.rt_Rules r)) input → (P → Forall grpc_mirrors_have_ports input) →
  yields (toGRPCRoutes l input services grants) (Forall route_okP).
Proof.
  intros H Hport. apply yields_flat_map. eapply Forall_impl; [by apply Forall_with|]. intros r [Hr Hp]. cbn beta.
  repeat case_match; try (by apply yields_Ok). apply yields_flat_map.
  eapply Forall_impl; [by apply Forall_with|]. intros rule [Hrule Hpr]. by apply yields_grpc_rule.
Qed.

End Ports.

(** Loops over routes and rules whose results all come from [toBackends]. *)
Lemma l4_routes_ok {A B} (P : B → Prop) (f : A → list B) l :
  (∀ x y, y ∈ f x → P y) → Forall P (l ≫= f).
Proof. intros H. apply Forall_forall. intros y (x & Hy & _)%list_elem_of_bind. by eapply H. Qed.

Lemma toUDPRoutes_ok l input services grants :
  Forall (λ r, Forall model.backend_ok (model.udpr_Backends r)) (toUDPRoutes l input services grants).
Proof.
  apply l4_routes_ok. intros r x. case_match; [by intros ?%elem_of_nil|].
  intros (rule & -> & _)%list_elem_of_fmap. apply toBackends_ok.
Qed.

Lemma toTCPRoutes_ok l input services grants :
  Forall (λ r, Forall model.backend_ok (model.tcpr_Backends r)) (toTCPRoutes l input services grants).
Proof.
  apply l4_routes_ok. intros r x. case_match; [by intros ?%elem_of_nil|].
  intros (rule & -> & _)%list_elem_of_fmap. apply toBackends_ok.
Qed.

Lemma toTLSRoutes_inner_ok l input services grants :
  Forall (λ r, Forall model.backend_ok (model.tr_Backends r))
    (toTLSRoutes_inner l input services grants).
Proof.
  apply l4_routes_ok. intros r x. case_match; [by intros ?%elem_of_nil|].
  case_match; [|by intros ?%elem_of_nil].
  intros (rule & -> & _)%list_elem_of_fmap. apply toBackends_ok.
Qed.

Lemma toTLSRoutes_ok l input services grants :
  Forall (λ r, Forall model.backend_ok (model.tr_Backends r)) (toTLSRoutes l input services grants).
Proof.
  apply l4_routes_ok. intros r x. case_match; [by intros ?%elem_of_nil|].
  case_match; [|by intros ?%elem_of_nil]. intros (rule & Hx & _)%list_elem_of_bind.
  by eapply Forall_forall in Hx; [|apply toTLSRoutes_inner_ok].
Qed.

Definition model_okP (input : Input) (m : model.Model) : Prop := mirrors_have_ports input → model.model_ok m.

Lemma yields_ingest_listener input res lsrc :
  valid_input input → model_okP input res →
  yields (ingest_listener input res lsrc) (model_okP input).
Proof.
  intros [Hh Hg] Hres. destruct lsrc as [l source], res as [http tls tcp udp].
  unfold ingest_listener. case_match; [|case_match; [|case_match]].
  - apply yields_Ok. intros [K1 K2 K3 K4]%Hres. split; [done..|]. apply Forall_app. split; [done|].
    apply Forall_singleton, toUDPRoutes_ok.
  - apply yields_Ok. intros [K1 K2 K3 K4]%Hres. split; [done..| |done]. apply Forall_app. split; [done|].
    apply Forall_singleton, toTCPRoutes_ok.
  - by apply yields_Ok.
  - eapply yields_bind; [apply (yields_toHTTPRoutes (mirrors_have_ports input)); [done|by intros []]|]. intros rs Hrs.
    eapply yields_bind; [apply (yields_toGRPCRoutes (mirrors_have_ports input)); [done|by intros []]|]. intros gs Hgs.
    apply yields_Ok. intros HP. destruct (Hres HP) as [K1 K2 K3 K4].
    split; [| |done..]; (apply Forall_app; split; [done|apply Forall_singleton]).
    + apply Forall_app. split; by eapply Forall_okP.
    + apply toTLSRoutes_ok.
Qed.

(** The listeners [GatewayAPI] works on: those it is given with their context,
    and those of the Gateway when it is given none. *)
Definition effective_listeners (input : Input)
  : list (gatewayv1.Listener * model.FullyQualifiedResource) :=
  let source := gateway_source (in_Gateway input) in
  match in_Listeners input with
  | Some lcs => context_source source <$> lcs
  | None => (λ l, (l, source)) <$> gatewayv1.gw_Listeners (in_Gateway input)
  end.

Lemma GatewayAPI_effective input :
  GatewayAPI input =
  go_foldl (ingest_listener input) (model.mkModel [] [] [] []) (effective_listeners input).
Proof.
  unfold GatewayAPI, effective_listeners. destruct (in_Listeners input) as [lcs|]; [|done].
  cbn [elems default]. by destruct (go_foldl _ _ _).
Qed.

Definition of_protocol (p : string → bool) (ls : gatewayv1.Listener * model.FullyQualifiedResource) : Prop :=
  p (gatewayv1.l_Protocol ls.1) = true.
#[export] Instance of_protocol_dec p ls : Decision (of_protocol p ls) := decide (_ = true).

(** Name, port and sources of a listener, before and after. *)
Definition listener_id (ls : gatewayv1.Listener * model.FullyQualifiedResource)
  : string * Z * list model.FullyQualifiedResource :=
  (gatewayv1.l_Name ls.1, u32 (gatewayv1.l_Port ls.1), [ls.2]).

Record ids_of (ls : list (gatewayv1.Listener * model.FullyQualifiedResource)) (m : model.Model) : Prop := {
  ids_HTTP : (λ l, (model.hl_Name l, model.hl_Port l, model.hl_Sources l)) <$> model.m_HTTP m =
    listener_id <$> filter (of_protocol is_http_protocol) ls;
  ids_TLS : (λ l, (model.tl_Name l, model.tl_Port l, model.tl_Sources l)) <$> model.m_TLS m =
    listener_id <$> filter (of_protocol is_http_protocol) ls;
  ids_TCP : (λ l, (model.tcpl_Name l, model.tcpl_Port l, model.tcpl_Sources l)) <$> model.m_TCP m =
    listener_id <$> filter (of_protocol (String.eqb gatewayv1.TCPProtocolType)) ls;
  ids_UDP : (λ l, (model.udpl_Name l, model.udpl_Port l, model.udpl_Sources l)) <$> model.m_UDP m =
    listener_id <$> filter (of_protocol (String.eqb gatewayv1.UDPProtocolType)) ls
}.

Lemma ids_of_step input ls m lsrc m' :
  ids_of ls m → ingest_listener input m lsrc = Ok m' → ids_of (ls ++ [lsrc]) m'.
Proof.
  intros [H1 H2 H3 H4] H. destruct lsrc as [l source], m as [http tls tcp udp].
  unfold ingest_listener in H. cbn in H1, H2, H3, H4.
  assert (Hf : ∀ p (b : bool), p (gatewayv1.l_Protocol l) = b →
    listener_id <$> filter (of_protocol p) (ls ++ [(l, source)]) =
    (listener_id <$> filter (of_protocol p) ls) ++
      if b then [listener_id (l, source)] else []).
  { intros p b Hp. rewrite filter_app, fmap_app. f_equal. destruct b.
    - by rewrite filter_cons_True.
    - rewrite filter_cons_False; [done|]. unfold of_protocol. cbn. by rewrite Hp. }
  assert (Hstep : ∀ bh bt bu : bool, is_http_protocol (gatewayv1.l_Protocol l) = bh →
    String.eqb gatewayv1.TCPProtocolType (gatewayv1.l_Protocol l) = bt →
    String.eqb gatewayv1.UDPProtocolType (gatewayv1.l_Protocol l) = bu →
    ∀ x y z w,
    ((λ l, (model.hl_Name l, model.hl_Port l, model.hl_Sources l)) <$> x) =
      (if bh then [listener_id (l, source)] else []) →
    ((λ l, (model.tl_Name l, model.tl_Port l, model.tl_Sources l)) <$> y) =
      (if bh then [listener_id (l, source)] else []) →
    ((λ l, (model.tcpl_Name l, model.tcpl_Port l, model.tcpl_Sources l)) <$> z) =
      (if bt then [listener_id (l, source)] else []) →
    ((λ l, (model.udpl_Name l, model.udpl_Port l, model.udpl_Sources l)) <$> w) =
      (if bu then [listener_id (l, source)] else []) →
    ids_of (ls ++ [(l, source)]) (model.mkModel (http ++ x) (tls ++ y) (tcp ++ z) (udp ++ w))).
  { intros bh bt bu Eh Et Eu x y z w Hx Hy Hz Hw.
    split; cbn [model.m_HTTP model.m_TLS model.m_TCP model.m_UDP];
      rewrite fmap_app; [rewrite (Hf _ _ Eh)|rewrite (Hf _ _ Eh)|rewrite (Hf _ _ Et)
        |rewrite (Hf _ _ Eu)]; by f_equal. }
  destruct (String.eqb_spec (gatewayv1.l_Protocol l) gatewayv1.UDPProtocolType) as [E|E1].
  { injection H as <-. rewrite E in Hstep.
    specialize (Hstep _ _ _ eq_refl eq_refl eq_refl [] [] []).
    rewrite !app_nil_r in Hstep. by apply Hstep. }
  destruct (String.eqb_spec (gatewayv1.l_Protocol l) gatewayv1.TCPProtocolType) as [E|E2].
  { injection H as <-. rewrite E in Hstep.
    specialize (Hstep _ _ _ eq_refl eq_refl eq_refl [] []).
    specialize (λ z, Hstep z []). rewrite !app_nil_r in Hstep. by apply Hstep. }
  assert (Eu : String.eqb gatewayv1.UDPProtocolType (gatewayv1.l_Protocol l) = false)
    by (by apply String.eqb_neq).
  assert (Et : String.eqb gatewayv1.TCPProtocolType (gatewayv1.l_Protocol l) = false)
    by (by apply String.eqb_neq).
  destruct (is_http_protocol (gatewayv1.l_Protocol l)) eqn:E3; cbn [negb] in H; go_inv.
  - specialize (Hstep _ _ _ eq_refl Et Eu). specialize (λ x y, Hstep x y [] []).
    rewrite !app_nil_r in Hstep. by apply Hstep.
  - specialize (Hstep _ _ _ eq_refl Et Eu [] [] [] []). rewrite !app_nil_r in Hstep. by apply Hstep.
Qed.

Lemma ids_of_foldl input ls ls' m m' :
  ids_of ls m → go_foldl (ingest_listener input) m ls' = Ok m' → ids_of (ls ++ ls') m'.
Proof.
  revert ls m. induction ls' as [|x ls' IH]; intros ls m Hm H; cbn in H.
  - injection H as <-. by rewrite app_nil_r.
  - go_inv. rewrite cons_middle, (assoc_L (++)). eapply IH; [by eapply ids_of_step|done].
Qed.

(** An accepted backend is a known service, in the route's namespace or
    granted to routes of the kind the guard was given. *)
Lemma elem_of_toBackends kind ns services grants refs b :
  b ∈ toBackends kind ns services grants refs →
  (∃ svc, svc ∈ services ∧ om_Name (svc_meta svc) = model.b_Name b ∧
     om_Namespace (svc_meta svc) = model.b_Namespace b) ∧
  (model.b_Namespace b = ns ∨
   granted ns (model.b_Name b) (model.b_Namespace b) (mkGVK gatewayv1.GroupName "v1beta1" kind)
     (mkGVK corev1_GroupName "v1" "Service") grants).
Proof.
  unfold toBackends. rewrite list_elem_of_bind. intros (be & Hb & _).
  destruct (backend_accepted _ _ _ _ _) eqn:E; [|by apply elem_of_nil in Hb].
  apply list_elem_of_singleton in Hb as ->. unfold backend_accepted in E.
  apply andb_true_iff in E as [[[[Ha _]%andb_true_iff _]%andb_true_iff _]%andb_true_iff Hs].
  cbn. split.
  - apply existsb_elem in Hs as (svc & Hin & [Hn Hns]%andb_true_iff).
    apply String.eqb_eq in Hn, Hns. by exists svc.
  - unfold IsBackendReferenceAllowed in Ha. by apply isReferenceAllowed_granted in Ha.
Qed.

(** Every route of [toHTTPRoutes] is a [ruleRoute]. *)
Lemma elem_of_toHTTPRoutes l input services grants source routes r :
  toHTTPRoutes l input services grants source = Ok routes → r ∈ routes →
  ∃ route rule fs path hs qs, route ∈ input ∧ rule ∈ gatewayv1.rt_Rules route ∧
    http_attached l source route = true ∧ matched_hosts l route = Some (model.r_Hostnames r) ∧
    go_foldl (http_filter l (om_Namespace (gatewayv1.rt_meta route))) noFilters
      (gatewayv1.hrr_Filters rule) = Ok fs ∧
    r = ruleRoute (model.r_Hostnames r)
          (toBackends "HttpRoute" (om_Namespace (gatewayv1.rt_meta route)) services grants
             (gatewayv1.hbr_BackendRef <$> gatewayv1.hrr_BackendRefs rule)) fs path hs qs false.
Proof.
  intros H Hr. eapply elem_of_go_flat_map in Hr as (route & zs & Hin & Hz & Hr); [|exact H].
  cbn beta in Hz. destruct (http_attached l source route) eqn:Ha; cbn [negb] in Hz;
    [|injection Hz as <-; by apply elem_of_nil in Hr].
  destruct (matched_hosts l route) as [hosts|] eqn:Hh; [|injection Hz as <-; by apply elem_of_nil in Hr].
  eapply elem_of_go_flat_map in Hr as (rule & ys & Hrule & Hy & Hr); [|exact Hz].
  unfold http_rule_routes in Hy. go_inv. case_match.
  - injection Hy as <-. apply list_elem_of_singleton in Hr as ->. exists route, rule. do 4 eexists.
    split_and!; [done..|reflexivity].
  - eapply elem_of_go_map in Hr as (m & _ & Hm); [|exact Hy].
    cbn beta in Hm. go_inv. exists route, rule. do 4 eexists.
    split_and!; [done..|reflexivity].
Qed.

(** The mirrors that a rule's filters add: the reference as it is written. *)
Definition mirrors_from (ns : string) (fl : list gatewayv1.RouteFilter) (mi : model.HttpRequestMirror) : Prop :=
  ∃ f ref b, f ∈ fl ∧ gatewayv1.rf_Type f = gatewayv1.FilterRequestMirror ∧
    gatewayv1.rf_RequestMirror f = Some ref ∧ model.mir_Backend mi = Some b ∧
    model.b_Name b = gatewayv1.bor_Name ref ∧
    model.b_Namespace b = NamespaceDerefOr (gatewayv1.bor_Namespace ref) ns.

Lemma http_filter_mirrors l ns fs f fs' mi :
  http_filter l ns fs f = Ok fs' → mi ∈ fs_requestMirrors fs' →
  mi ∈ fs_requestMirrors fs ∨ mirrors_from ns [f] mi.
Proof.
  destruct fs as [req resp mirrors redir rew]. unfold http_filter, common_filter. intros H Hmi.
  destruct (String.eqb _ _); [go_inv; by left|]. destruct (String.eqb _ _); [go_inv; by left|].
  destruct (String.eqb_spec (gatewayv1.rf_Type f) gatewayv1.FilterRequestMirror) as [E|_].
  - unfold toHTTPRequestMirror in H. destruct (gatewayv1.rf_RequestMirror f) as [ref|] eqn:Eref; [|done].
    cbn in H. injection H as <-. cbn in Hmi. apply elem_of_app in Hmi as [Hmi| ->%list_elem_of_singleton]; [by left|].
    right. exists f, ref. eexists. split_and!; [by left|done..].
  - destruct (String.eqb _ _); [go_inv; by left|]. destruct (String.eqb _ _); go_inv; by left.
Qed.

Lemma rule_mirrors l ns fl fs mi :
  go_foldl (http_filter l ns) noFilters fl = Ok fs → mi ∈ fs_requestMirrors fs → mirrors_from ns fl mi.
Proof.
  intros H. pattern fs. eapply (go_foldl_inv _ _ _ _ _ _ _ H). Unshelve.
  - by intros ?%elem_of_nil.
  - intros fs1 f fs2 Hf IH Hstep Hmi. eapply http_filter_mirrors in Hmi; [|exact Hstep].
    destruct Hmi as [?|(f' & ref & b & ->%list_elem_of_singleton & ?)]; [by apply IH|]. by exists f, ref, b.
Qed.

(** On inputs that satisfy the schema, ingestion returns, and the model is well
    formed when the mirrors have ports. *)
Lemma GatewayAPI_returns input : valid_input input → yields (GatewayAPI input) (model_okP input).
Proof.
  intros Hv. rewrite GatewayAPI_effective. apply yields_foldl; [intros _; by repeat constructor|].
  apply Forall_forall. intros lsrc _ res Hres. by apply yields_ingest_listener.
Qed.

Lemma yields_GatewayAPI input :
  valid_input input → mirrors_have_ports input → yields (GatewayAPI input) model.model_ok.
Proof. intros Hv HP. eapply yields_mono; [|by apply GatewayAPI_returns]. intros m Hm. by apply Hm. Qed.

(** ** Theorems *)

(** the listeners of the model are exactly the effective listeners of the
    known protocols, in order, with their names, ports (as 32-bit numbers) and
    sources: TCP and UDP listeners each become one listener of their kind, and
    an HTTP, HTTPS or TLS listener becomes both an HTTP and a TLS listener. *)
Theorem GatewayAPI_listeners input m :
  GatewayAPI input = Ok m → ids_of (effective_listeners input) m.
Proof.
  rewrite GatewayAPI_effective. apply (ids_of_foldl input []). by split.
Qed.

(** C12: ingestion is well typed. On inputs that satisfy the schema of the
    Gateway API, [GatewayAPI] returns, and the listeners of the model are exactly
    the effective listeners of the known protocols, in order, each with its name,
    its port as a 32-bit number and its source. When moreover every request mirror
    names a port (which the schema demands only of mirrors to Services), the model
    satisfies the typing that translation needs: backends and mirrors have ports,
    and routes without backends have a direct response. *)
Theorem GatewayAPI_well_formed input :
  valid_input input →
  ∃ m, GatewayAPI input = Ok m ∧ ids_of (effective_listeners input) m ∧
    (mirrors_have_ports input → model.model_ok m).
Proof.
  intros (m & Hm & Hok)%GatewayAPI_returns. exists m. split_and!; [done|by apply GatewayAPI_listeners|done].
Qed.


(** [toTLSRoutes] returns the list of the TLS routes of a single pass over
    the input, repeated once per element of that list: each of the [n] routes
    occurs [n] times as often as it should. *)
Theorem toTLSRoutes_repeats l input services grants :
  let once := toTLSRoutes_inner l input services grants in
  toTLSRoutes l input services grants = mjoin (replicate (length once) once).
Proof.
  intros once. unfold toTLSRoutes. fold once.
  assert (Hgen : ∀ k, (k ≫= λ r, if negb (attached_by_section l r) then []
      else match matched_hosts l r with
           | None => []
           | Some _ => gatewayv1.rt_Rules r ≫= λ _, once
           end) = mjoin (replicate (length (toTLSRoutes_inner l k services grants)) once)).
  { induction k as [|r k IH]; [done|]. unfold toTLSRoutes_inner in *.
    rewrite !bind_cons, IH, length_app, replicate_add, join_app. f_equal.
    destruct (negb _); [done|]. destruct (matched_hosts l r); [|done].
    rewrite length_fmap. induction (gatewayv1.rt_Rules r) as [|rule rules IHr]; [done|].
    rewrite bind_cons, IHr. done. }
  apply Hgen.
Qed.

(** grants written for the kind [HTTPRoute], the kind the Gateway API has,
    do not open other namespaces to HTTP routes: the guard asks for the kind
    [HttpRoute], so all the backends that are left are in the namespace of the
    route. *)
Theorem toHTTPRoutes_HTTPRoute_grants l input services grants source routes r b :
  (∀ g from, g ∈ grants → from ∈ gatewayv1.rg_From g → gatewayv1.rgf_Kind from = "HTTPRoute") →
  toHTTPRoutes l input services grants source = Ok routes → r ∈ routes →
  b ∈ model.r_Backends r →
  ∃ route, route ∈ input ∧ model.b_Namespace b = om_Namespace (gatewayv1.rt_meta route).
Proof.
  intros Hg H Hr Hb.
  destruct (elem_of_toHTTPRoutes _ _ _ _ _ _ _ H Hr)
    as (route & rule & fs & path & hs & qs & Hin & _ & _ & _ & _ & E).
  rewrite E in Hb. cbn in Hb. exists route. split; [done|].
  apply elem_of_toBackends in Hb as [_ [?|(g & from & to & Hgin & _ & Hf & -> & _)]]; [done|].
  by apply (Hg _ _ Hgin) in Hf.
Qed.

(** ** A concrete Gateway *)

Definition ex_meta (name ns : string) : ObjectMeta := mkObjectMeta name ns "" 1 ∅ ∅ 0 None.
Definition ex_listener : gatewayv1.Listener :=
  gatewayv1.mkListener "web" (Some "*.example.com") 80 "HTTP" None None.
Definition ex_ref (name : string) (ns : option string) : gatewayv1.HTTPBackendRef :=
  gatewayv1.mkHTTPBackendRef (gatewayv1.mkBackendRef
    (gatewayv1.mkBackendObjectReference None None name ns (Some 8080%Z)) (Some 1%Z)) [].
Definition ex_match : gatewayv1.HTTPRouteMatch :=
  gatewayv1.mkHTTPRouteMatch
    (Some (gatewayv1.mkHTTPPathMatch (Some "PathPrefix") (Some "/api"))) [] [] None.
Definition ex_route : gatewayv1.HTTPRoute :=
  gatewayv1.mkRoute (ex_meta "r" "default")
    [gatewayv1.mkParentReference None None None "gw" None None] ["a.example.com"]
    [gatewayv1.mkHTTPRouteRule [ex_match] [] [ex_ref "svc" None; ex_ref "other" (Some "apart")]] [].
Definition ex_services : list Service :=
  [mkService (ex_meta "svc" "default") [8080%Z]; mkService (ex_meta "other" "apart") [8080%Z]].
(** A grant, as the Gateway API writes it, for the second backend. *)
Definition ex_grant : gatewayv1.ReferenceGrant :=
  gatewayv1.mkReferenceGrant "grant" "apart"
    [gatewayv1.mkReferenceGrantFrom gatewayv1.GroupName "HTTPRoute" "default"]
    [gatewayv1.mkReferenceGrantTo "" "Service" None].
Definition ex_gateway : gatewayv1.Gateway :=
  gatewayv1.mkGateway (ex_meta "gw" "default") (GatewayV1GVK "Gateway") "class" [ex_listener] None None
    (gatewayv1.mkGatewayStatus [] [] [] None).
Definition ex_input : Input :=
  mkInput ex_gateway None [ex_route] [] [] [] [] [ex_grant] ex_services.

Definition ex_source : model.FullyQualifiedResource := gateway_source ex_gateway.
Definition ex_model_route : model.HTTPRoute :=
  ruleRoute ["a.example.com"]
    [model.mkBackend "svc" "default" (Some (model.mkBackendPort 8080 "")) (Some 1%Z) None]
    noFilters (prefixMatch "/api") [] [] false.

(** The granted backend is missing. *)
Example ex_routes :
  toHTTPRoutes ex_listener [ex_route] ex_services [ex_grant] ex_source = Ok [ex_model_route].
Proof. vm_compute. reflexivity. Qed.

Lemma ex_input_valid : valid_input ex_input.
Proof.
  split; [|constructor]. cbn. apply Forall_singleton. cbn. apply Forall_singleton.
  split_and!; cbn; [|constructor|by repeat constructor]. apply Forall_singleton.
  split; [|constructor]. intros p Hp. cbn in Hp. simplify_eq. by split; eexists.
Qed.

Lemma GatewayAPI_well_formed_witness :
  ∃ m, GatewayAPI ex_input = Ok m ∧ ids_of (effective_listeners ex_input) m ∧
    (mirrors_have_ports ex_input → model.model_ok m).
Proof. apply GatewayAPI_well_formed. exact ex_input_valid. Defined.

Lemma GatewayAPI_listeners_witness :
  ids_of [(ex_listener, ex_source)]
    (model.mkModel
      [model.mkHTTPListener "web" [ex_source] "" 80 "*.example.com" None [ex_model_route] None None false]
      [model.mkTLSListener "web" [ex_source] "" 80 "*.example.com" [] None None] [] []).
Proof. apply (GatewayAPI_listeners ex_input). vm_compute. reflexivity. Defined.

(** A rule that mirrors its requests: to a Service of another namespace without a
    grant, and to an object of another kind. *)
Definition ex_mirror_filter (kind : option string) (ns : option string) (port : option Z) : gatewayv1.RouteFilter :=
  gatewayv1.mkRouteFilter gatewayv1.FilterRequestMirror None None
    (Some (gatewayv1.mkBackendObjectReference None kind "shadow" ns port)) None None None.
Definition ex_mirror_route (f : gatewayv1.RouteFilter) : gatewayv1.HTTPRoute :=
  gatewayv1.mkRoute (ex_meta "r" "default")
    [gatewayv1.mkParentReference None None None "gw" None None] ["a.example.com"]
    [gatewayv1.mkHTTPRouteRule [ex_match] [f] [ex_ref "svc" None]] [].
Definition ex_mirror_input (f : gatewayv1.RouteFilter) : Input :=
  mkInput ex_gateway None [ex_mirror_route f] [] [] [] [] [] ex_services.

Definition ex_mirrored (ns : string) (port : option model.BackendPort) : model.HTTPRoute :=
  ruleRoute ["a.example.com"]
    [model.mkBackend "svc" "default" (Some (model.mkBackendPort 8080 "")) (Some 1%Z) None]
    (mkRuleFilters None None [model.mkHttpRequestMirror (Some (model.mkBackend "shadow" ns port None None))] None None)
    (prefixMatch "/api") [] [] false.

(** Mirrors bypass the reference grants and the existence check: the mirror to
    [apart/shadow], which no Service has and no grant allows, is kept. *)
Example mirrors_unchecked :
  toHTTPRoutes ex_listener [ex_mirror_route (ex_mirror_filter None (Some "apart") (Some 80%Z))] ex_services [] ex_source =
  Ok [ex_mirrored "apart" (Some (model.mkBackendPort 80 ""))].
Proof. vm_compute. reflexivity. Qed.

Lemma ex_mirror_input_valid f :
  valid_filter f → valid_input (ex_mirror_input f).
Proof.
  intros Hf. split; [|constructor]. cbn. apply Forall_singleton. cbn. apply Forall_singleton.
  split_and!; cbn; [|by apply Forall_singleton|by repeat constructor]. apply Forall_singleton.
  split; [|constructor]. intros p Hp. cbn in Hp. simplify_eq. by split; eexists.
Qed.

Lemma ex_mirror_filter_valid kind ns port :
  kind = Some "ServiceImport" ∨ is_Some port → valid_filter (ex_mirror_filter kind ns port).
Proof.
  intros H. split; try discriminate. intros _. eexists. split; [done|]. intros [_ Hk]. by destruct H as [->|?].
Qed.


Lemma toHTTPRoutes_HTTPRoute_grants_witness :
  ∃ route, route ∈ [ex_route] ∧ "default" = om_Namespace (gatewayv1.rt_meta route).
Proof.
  apply (toHTTPRoutes_HTTPRoute_grants ex_listener [ex_route] ex_services [ex_grant] ex_source
    [ex_model_route] ex_model_route
    (model.mkBackend "svc" "default" (Some (model.mkBackendPort 8080 "")) (Some 1%Z) None)).
  - intros g from ->%list_elem_of_singleton ->%list_elem_of_singleton. reflexivity.
  - vm_compute. reflexivity.
  - by left.
  - by left.
Defined.

End ingestion.
