(* ===== verification/Envoy.v ===== *)
(** * Envoy messages and the libraries around them

    The Envoy protobuf messages the translation builds, with the fields it sets
    ([Module envoy_api]); the constants and helper of src/pkg/envoy/xds.go
    ([Module envoy]); and, as classes, the code outside the repository that
    translation calls: protobuf marshalling ([Proto]) and the [math] and
    [slices] packages of [github.com/ccfish2/infra] ([Infra]).  The documented
    behaviour of each is a separate class of laws with a concrete instance. *)

From S2P Require Import Prelude GoStrings.
From Stdlib Require Import Ascii.

(** ** The infra helpers *)

Class Infra := {
  (** [math.IntMax] *)
  IntMax : nat → nat → nat;
  (** [slices.Unique]: the distinct elements, in the order of their first
      occurrence. *)
  Unique : list string → list string;
  (** [slices.SortedUnique] and [slices.SortedUniqs]: the distinct elements,
      sorted. *)
  SortedUnique : list string → list string;
  SortedUniqs : list string → list string
}.

Definition strictly_sorted (l : list string) : Prop :=
  StronglySorted (λ a b, str_ltb a b = true) l.

Class InfraLaws `{!Infra} : Prop := {
  IntMax_max : ∀ a b, IntMax a b = a `max` b;
  Unique_elem : ∀ x l, x ∈ Unique l ↔ x ∈ l;
  Unique_NoDup : ∀ l, NoDup (Unique l);
  SortedUnique_elem : ∀ x l, x ∈ SortedUnique l ↔ x ∈ l;
  SortedUnique_sorted : ∀ l, strictly_sorted (SortedUnique l);
  SortedUniqs_elem : ∀ x l, x ∈ SortedUniqs l ↔ x ∈ l;
  SortedUniqs_sorted : ∀ l, strictly_sorted (SortedUniqs l)
}.

(** A reference implementation: insertion in a sorted list without repeats. *)
Fixpoint insert_unique (x : string) (l : list string) : list string :=
  match l with
  | [] => [x]
  | y :: l' =>
      if String.eqb x y then l
      else if str_ltb x y then x :: l
      else y :: insert_unique x l'
  end.

Fixpoint first_occurrences (seen l : list string) : list string :=
  match l with
  | [] => []
  | x :: l' => if bool_decide (x ∈ seen) then first_occurrences seen l'
               else x :: first_occurrences (x :: seen) l'
  end.

Definition sorted_unique (l : list string) : list string := foldr insert_unique [] l.

Definition reference_infra : Infra :=
  {| IntMax := Nat.max; Unique := first_occurrences []; SortedUnique := sorted_unique;
     SortedUniqs := sorted_unique |}.

Lemma elem_of_insert_unique x y l : x ∈ insert_unique y l ↔ x = y ∨ x ∈ l.
Proof.
  induction l as [|z l IH]; cbn; [set_solver|].
  destruct (String.eqb_spec y z) as [->|]; [set_solver|]. case_match; set_solver.
Qed.

Lemma elem_of_sorted_unique x l : x ∈ sorted_unique l ↔ x ∈ l.
Proof.
  induction l as [|y l IH]; [done|]. cbn.
  change (foldr insert_unique [] l) with (sorted_unique l).
  rewrite elem_of_insert_unique, IH. set_solver.
Qed.

Lemma insert_unique_sorted x l : strictly_sorted l → strictly_sorted (insert_unique x l).
Proof.
  unfold strictly_sorted. induction 1 as [|y l Hl IH Hy]; cbn; [by repeat constructor|].
  destruct (String.eqb_spec x y) as [->|Hne]; [by constructor|].
  destruct (str_ltb x y) eqn:E.
  - constructor; [by constructor|]. constructor; [done|].
    eapply Forall_impl; [exact Hy|]. intros z Hz. by eapply str_ltb_trans.
  - constructor; [done|]. apply Forall_forall. intros z [->|Hz]%elem_of_insert_unique.
    + by apply str_ltb_total.
    + by eapply Forall_forall in Hy.
Qed.

Lemma sorted_unique_sorted l : strictly_sorted (sorted_unique l).
Proof. induction l as [|x l IH]; cbn; [constructor|]. by apply insert_unique_sorted. Qed.

Lemma elem_of_first_occurrences x seen l :
  x ∈ first_occurrences seen l ↔ x ∈ l ∧ x ∉ seen.
Proof.
  revert seen. induction l as [|y l IH]; intros seen; cbn; [set_solver|].
  case_bool_decide; rewrite ?elem_of_cons, IH; [|destruct (decide (x = y))]; set_solver.
Qed.

Lemma NoDup_first_occurrences seen l : NoDup (first_occurrences seen l).
Proof.
  revert seen. induction l as [|y l IH]; intros seen; cbn; [constructor|].
  case_bool_decide; [done|]. constructor; [|done]. rewrite elem_of_first_occurrences. set_solver.
Qed.

Lemma reference_infra_laws : @InfraLaws reference_infra.
Proof.
  split; cbn; intros; try done.
  - rewrite elem_of_first_occurrences. set_solver.
  - apply NoDup_first_occurrences.
  - apply elem_of_sorted_unique.
  - apply sorted_unique_sorted.
  - apply elem_of_sorted_unique.
  - apply sorted_unique_sorted.
Qed.

(** A strictly sorted list is determined by its elements. *)
Lemma strictly_sorted_NoDup l : strictly_sorted l → NoDup l.
Proof.
  induction 1 as [|x l _ IH Hx]; constructor; [|done]. intros Hin.
  eapply Forall_forall in Hx; [|exact Hin]. pose proof (str_ltb_asym _ _ Hx). congruence.
Qed.

Lemma strictly_sorted_ext l1 l2 :
  strictly_sorted l1 → strictly_sorted l2 → (∀ x, x ∈ l1 ↔ x ∈ l2) → l1 = l2.
Proof.
  intros H1 H2 Hel. apply (StronglySorted_unique_strong (sorted_le str_ltb)).
  - intros x y _ _. apply str_le_antisym.
  - eapply StronglySorted_mono; [|exact H1]. intros x y. apply str_ltb_asym.
  - eapply StronglySorted_mono; [|exact H2]. intros x y. apply str_ltb_asym.
  - apply NoDup_Permutation; [by apply strictly_sorted_NoDup..|done].
Qed.

(** ** Messages *)

Module envoy_api.

Inductive StringMatcher :=
| SM_Exact (s : string)
| SM_Prefix (s : string)
| SM_SafeRegex (regex : string).

Inductive PathSpecifier :=
| PS_Path (s : string)
| PS_Prefix (s : string)
| PS_PathSeparatedPrefix (s : string)
| PS_SafeRegex (regex : string).

(** The matcher of a header or query parameter may be nil. *)
Record NameMatcher := mkNameMatcher { nm_Name : string; nm_Match : option StringMatcher }.

Record RouteMatch := mkRouteMatch {
  rm_Path : PathSpecifier; rm_Headers : list NameMatcher; rm_QueryParameters : list NameMatcher }.

Inductive AppendAction := APPEND_IF_EXISTS_OR_ADD | OVERWRITE_IF_EXISTS_OR_ADD.
Record HeaderValueOption := mkHeaderValueOption {
  hvo_Key : string; hvo_Value : string; hvo_Action : AppendAction }.

(** The header changes of a route or of a weighted cluster. *)
Record HeaderChanges := mkHeaderChanges {
  hc_RequestHeadersToAdd : list HeaderValueOption;
  hc_RequestHeadersToRemove : list string;
  hc_ResponseHeadersToAdd : list HeaderValueOption;
  hc_ResponseHeadersToRemove : list string
}.
Definition noChanges : HeaderChanges := mkHeaderChanges [] [] [] [].
Definition appendChanges (a b : HeaderChanges) : HeaderChanges :=
  mkHeaderChanges (hc_RequestHeadersToAdd a ++ hc_RequestHeadersToAdd b)
    (hc_RequestHeadersToRemove a ++ hc_RequestHeadersToRemove b)
    (hc_ResponseHeadersToAdd a ++ hc_ResponseHeadersToAdd b)
    (hc_ResponseHeadersToRemove a ++ hc_ResponseHeadersToRemove b).

Record ClusterWeight := mkClusterWeight {
  cw_Name : string; cw_Weight : Z; cw_Headers : HeaderChanges }.

Inductive ClusterSpecifier :=
| CS_Cluster (name : string)
| CS_WeightedClusters (clusters : list ClusterWeight).

Record RequestMirrorPolicy := mkRequestMirrorPolicy { rmp_Cluster : string; rmp_Numerator : Z }.

Record RouteAction := mkRouteAction {
  ra_ClusterSpecifier : ClusterSpecifier;
  ra_MaxStreamDuration : option Z;
  ra_HostRewriteLiteral : option string;
  ra_RegexRewrite : option (string * string);
  ra_PrefixRewrite : string;
  ra_RequestMirrorPolicies : list RequestMirrorPolicy;
  ra_Timeout : option Z
}.

Inductive SchemeRewrite := SchemeUnset | HttpsRedirect (b : bool) | SchemeRedirect (s : string).
Inductive PathRewrite := PathUnset | PrefixRewrite (s : string) | PathRedirect (s : string).
Inductive RedirectResponseCode :=
| MOVED_PERMANENTLY | FOUND | SEE_OTHER | TEMPORARY_REDIRECT | PERMANENT_REDIRECT.

Record RedirectAction := mkRedirectAction {
  rda_Scheme : SchemeRewrite;
  rda_HostRedirect : string;
  rda_PortRedirect : Z;
  rda_ResponseCode : RedirectResponseCode;
  rda_Path : PathRewrite
}.

Inductive Action :=
| Act_Route (a : RouteAction)
| Act_Redirect (a : RedirectAction)
| Act_DirectResponse (status : Z) (body : string).

Record Route := mkRoute { er_Match : RouteMatch; er_Action : Action; er_Headers : HeaderChanges }.

(** Routes are pointers, and may be nil. *)
Record VirtualHost := mkVirtualHost {
  vh_Name : string; vh_Domains : list string; vh_Routes : list (option Route) }.
Record RouteConfiguration := mkRouteConfiguration {
  rc_Name : string; rc_VirtualHosts : list VirtualHost }.

(** [google.protobuf.Any]: a type and marshalled bytes. *)
Record Any := mkAny { any_TypeUrl : string; any_Value : string }.

Record CidrRange := mkCidrRange { cidr_AddressPrefix : string; cidr_PrefixLen : Z }.

Record HttpConnectionManager := mkHttpConnectionManager {
  hcm_StatPrefix : string;
  hcm_RouteConfigName : string;
  hcm_UseRemoteAddress : bool;
  hcm_SkipXffAppend : bool;
  hcm_HttpFilters : list (string * option Any);
  hcm_UpgradeConfigs : list string;
  hcm_MaxStreamDuration : option Z;
  hcm_StreamIdleTimeout : option Z;
  hcm_XffNumTrustedHops : Z;
  hcm_InternalAddressConfig : option (bool * list CidrRange)
}.

(** Upstream HTTP options: the protocol choice and the idle timeout. *)
Inductive UpstreamProtocol :=
| UseDownstreamProtocol | ExplicitHttp1 | ExplicitHttp2 | ExplicitHttp3.
Record HttpProtocolOptions := mkHttpProtocolOptions {
  hpo_Upstream : option UpstreamProtocol; hpo_IdleTimeout : option Z }.

Record TransportSocket := mkTransportSocket { ts_Name : string; ts_Config : Any }.

(** [SplitExternalLocalOriginErrors] and [ConsecutiveLocalOriginFailure]. *)
Record OutlierDetection := mkOutlierDetection {
  od_Split : bool; od_ConsecutiveLocalOriginFailure : option Z }.

(** [EdsClusterConfig] may be nil. *)
Record Cluster := mkCluster {
  cl_Name : string;
  cl_Options : gmap string (option Any);
  cl_EdsServiceName : option string;
  cl_ConnectTimeout : option Z;
  cl_LbPolicy : Z;
  cl_OutlierDetection : option OutlierDetection;
  cl_TransportSocket : option TransportSocket
}.

Record FilterChainMatch := mkFilterChainMatch {
  fcm_TransportProtocol : string; fcm_ServerNames : list string }.
Record FilterChain := mkFilterChain {
  fc_Match : option FilterChainMatch;
  fc_Filters : list (string * option Any);
  fc_TransportSocket : option TransportSocket
}.
Record SocketOption := mkSocketOption {
  so_Description : string; so_Level : Z; so_Name : Z; so_Value : Z }.
Record Listener := mkListener {
  li_Name : string;
  li_Address : option (string * Z);
  li_FilterChains : list FilterChain;
  li_ListenerFilters : list (string * option Any);
  li_SocketOptions : list SocketOption
}.

(** All messages that are marshalled, with the name of their type. *)
Inductive Message :=
| M_Listener (l : Listener)
| M_RouteConfiguration (r : RouteConfiguration)
| M_Cluster (c : Cluster)
| M_HttpConnectionManager (h : HttpConnectionManager)
| M_TcpProxy (statPrefix cluster : string)
| M_HttpProtocolOptions (o : HttpProtocolOptions)
| M_DownstreamTlsContext (sdsConfigs : list string)
| M_UpstreamTlsContext (sni sdsConfig : string)
| M_GrpcWeb
| M_GrpcStats (emitFilterState enableUpstreamStats : bool)
| M_Router
| M_TlsInspector
| M_ProxyProtocol.

End envoy_api.
Import envoy_api.

(** ** Marshalling *)

(** [proto.Marshal] (bytes, or nothing on an error) and the type URL
    [anypb.New] gives a message. *)
Class Proto := {
  Marshal : Message → option string;
  TypeUrl : Message → string;
  (** [UnmarshalTo] into upstream HTTP options. *)
  UnmarshalHttpProtocolOptions : Any → option HttpProtocolOptions
}.

(** Unmarshalling undoes marshalling. *)
Class ProtoLaws `{!Proto} : Prop := {
  Unmarshal_Marshal : ∀ o b, Marshal (M_HttpProtocolOptions o) = Some b →
    UnmarshalHttpProtocolOptions (mkAny (TypeUrl (M_HttpProtocolOptions o)) b) = Some o
}.

(** A concrete encoding that satisfies the law: the bits of a number. *)
Fixpoint bits (p : positive) : string :=
  match p with
  | xH => ""
  | xO p' => String "0" (bits p')
  | xI p' => String "1" (bits p')
  end.
Fixpoint of_bits (s : string) : positive :=
  match s with
  | "" => xH
  | String c s' => if Ascii.eqb c "0" then xO (of_bits s') else xI (of_bits s')
  end.

Lemma of_bits_bits p : of_bits (bits p) = p.
Proof. induction p as [p IH|p IH|]; cbn; by rewrite ?IH. Qed.

Definition options_code (o : HttpProtocolOptions) : option nat * option Z :=
  ((λ u, match u with UseDownstreamProtocol => 0 | ExplicitHttp1 => 1 | ExplicitHttp2 => 2
                    | ExplicitHttp3 => 3 end) <$> hpo_Upstream o, hpo_IdleTimeout o).
Definition options_decode (c : option nat * option Z) : HttpProtocolOptions :=
  mkHttpProtocolOptions
    ((λ n, match n with 0 => UseDownstreamProtocol | 1 => ExplicitHttp1 | 2 => ExplicitHttp2
                      | _ => ExplicitHttp3 end) <$> c.1) c.2.

Definition reference_proto : Proto :=
  {| Marshal m := match m with
                  | M_HttpProtocolOptions o => Some (bits (encode (options_code o)))
                  | _ => Some ""
                  end;
     TypeUrl _ := "";
     UnmarshalHttpProtocolOptions a := options_decode <$> decode (of_bits (any_Value a)) |}.

Lemma reference_proto_laws : @ProtoLaws reference_proto.
Proof.
  split. cbn. intros o b [= <-]. rewrite of_bits_bits, decode_encode. cbn. f_equal.
  by destruct o as [[[]|] ?].
Qed.

(** [dolphinv1.XDSResource]: an Any, nil in the zero value. *)
Abbreviation XDSResource := (option Any).

(** [toAny]: nil on an error. *)
Definition toAny `{!Proto} (msg : Message) : option Any :=
  match Marshal msg with
  | Some b => Some (mkAny (TypeUrl msg) b)
  | None => None
  end.

(** The end of every [New...] function: the resource, and whether there was no
    error; the callers that drop the error keep the zero resource. *)
Definition marshal_resource `{!Proto} (typeURL : string) (msg : Message) : XDSResource :=
  match Marshal msg with
  | Some b => Some (mkAny typeURL b)
  | None => None
  end.

(** ** src/pkg/envoy/xds.go *)

Module envoy.

Definition ListenerTypeURL : string := "type.googleapis.com/envoy.config.listener.v3.Listener".
Definition RouteTypeURL : string :=
  "type.googleapis.com/envoy.config.route.v3.RouteConfiguration".
Definition ClusterTypeURL : string := "type.googleapis.com/envoy.config.cluster.v3.Cluster".
Definition HttpConnectionManagerTypeURL : string :=
  "type.googleapis.com/envoy.extensions.filters.network.http_connection_manager.v3.HttpConnectionManager".
Definition DownstreamTlsContextURL : string :=
  "type.googleapis.com/envoy.extensions.transport_sockets.tls.v3.DownstreamTlsContext".
Definition UpstreamTlsContextURL : string :=
  "type.googleapis.com/envoy.extensions.transport_sockets.tls.v3.UpstreamTlsContext".

Definition GetInternalListenerCIDRs (ipv4 ipv6 : bool) : list CidrRange :=
  (if ipv4 then [mkCidrRange "10.0.0.0" 8; mkCidrRange "172.16.0.0" 12;
                 mkCidrRange "192.168.0.0" 16; mkCidrRange "127.0.0.1" 32] else []) ++
  (if ipv6 then [mkCidrRange "::1" 128] else []).

End envoy.
