(* ===== verification/VirtualHost.v ===== *)
(** * Virtual hosts (src/pkg/model/translation/envoy_virtual_host.go)

    From the HTTP routes of a host to the routes of an Envoy virtual host: the
    grouping of routes by match key, the match and action of each group, and the
    order in which Envoy tries the routes. *)

From S2P Require Import Prelude GoStrings Model Envoy.
From Stdlib Require Import Ascii.
Import envoy_api.

Module virtual_host.

Definition wildCard : string := "*".
Definition envoyAuthority : string := ":authority".
Definition dotRegex : string := "[.]".
Definition notDotRegex : string := "[^.]".

Record VirtualHostParameter := mkVirtualHostParameter {
  vp_HostNames : list string;
  vp_HTTPSRedirect : bool;
  vp_HostNameSuffixMatch : bool;
  vp_ListenerPort : Z
}.

Definition getClusterName (ns name port : string) : string := ns +:+ ":" +:+ name +:+ ":" +:+ port.

(** [backend.Port.GetPort()]: the method reads through the port pointer. *)
Definition backend_port (b : model.Backend) : go string :=
  p ← deref (model.b_Port b); Ok (model.BackendPort_GetPort p).

Definition backend_cluster (b : model.Backend) : go string :=
  port ← backend_port b; Ok (getClusterName (model.b_Namespace b) (model.b_Name b) port).

(** ** Matches *)

Definition getEnvoyStringMatcher (s : model.StringMatch) : option StringMatcher :=
  if negb (String.eqb (model.sm_Exact s) "") then Some (SM_Exact (model.sm_Exact s))
  else if negb (String.eqb (model.sm_Prefix s) "") then Some (SM_Prefix (model.sm_Prefix s))
  else if negb (String.eqb (model.sm_Regex s) "") then Some (SM_SafeRegex (model.sm_Regex s))
  else None.

Definition getQueryMatchers (query : list model.KeyValueMatch) : list NameMatcher :=
  (λ q, mkNameMatcher (model.kv_Key q) (getEnvoyStringMatcher (model.kv_Match q))) <$> query.

Definition getMatchingHeaderRegex (host : string) : string :=
  if HasPrefix host "*." then
    "^" +:+ notDotRegex +:+ "+" +:+ dotRegex +:+ ReplaceAllChar (str_drop 2 host) "." dotRegex +:+ "$"
  else "^" +:+ ReplaceAllChar host "." dotRegex +:+ "$".

Definition getHeaderMatchers (hostnames : list string) (hostNameSuffixMatch : bool)
    (headers : list model.KeyValueMatch) (method : option string) : list NameMatcher :=
  (if negb hostNameSuffixMatch then
     hostnames ≫= λ host,
       if negb (len host =? 0) && negb (String.eqb host wildCard) && ContainsChar host "*"
       then [mkNameMatcher envoyAuthority (Some (SM_SafeRegex (getMatchingHeaderRegex host)))]
       else []
   else []) ++
  ((λ h, mkNameMatcher (model.kv_Key h) (getEnvoyStringMatcher (model.kv_Match h))) <$> headers) ++
  match method with
  | Some m => [mkNameMatcher ":method" (Some (SM_Exact (ToUpper m)))]
  | None => []
  end.

Definition path_specifier (pathMatch : model.StringMatch) : PathSpecifier :=
  if negb (String.eqb (model.sm_Exact pathMatch) "") then PS_Path (model.sm_Exact pathMatch)
  else if String.eqb (model.sm_Prefix pathMatch) "/" then PS_Prefix (model.sm_Prefix pathMatch)
  else if negb (String.eqb (model.sm_Prefix pathMatch) "") then
    PS_PathSeparatedPrefix (TrimSuffix (model.sm_Prefix pathMatch) "/")
  else if negb (String.eqb (model.sm_Regex pathMatch) "") then
    PS_SafeRegex (model.sm_Regex pathMatch)
  else PS_Prefix "/".

Definition getRouteMatch (hostnames : list string) (hostNameSuffixMatch : bool)
    (pathMatch : model.StringMatch) (headers query : list model.KeyValueMatch)
    (method : option string) : RouteMatch :=
  mkRouteMatch (path_specifier pathMatch)
    (getHeaderMatchers hostnames hostNameSuffixMatch headers method) (getQueryMatchers query).

(** ** Headers *)

Definition getHeadersToAdd (filter : option model.HttpHeaderFilter) : list HeaderValueOption :=
  match filter with
  | None => []
  | Some f =>
      ((λ h, mkHeaderValueOption (model.h_Name h) (model.h_Value h) APPEND_IF_EXISTS_OR_ADD)
         <$> model.hf_HeadersToAdd f) ++
      ((λ h, mkHeaderValueOption (model.h_Name h) (model.h_Value h) OVERWRITE_IF_EXISTS_OR_ADD)
         <$> model.hf_HeadersToSet f)
  end.

Definition getHeadersToRemove (filter : option model.HttpHeaderFilter) : list string :=
  match filter with None => [] | Some f => model.hf_HeadersToRemove f end.

Definition header_changes (request response : option model.HttpHeaderFilter) : HeaderChanges :=
  mkHeaderChanges (getHeadersToAdd request) (getHeadersToRemove request)
    (getHeadersToAdd response) (getHeadersToRemove response).

Definition backend_filter_changes (f : model.BackendHttpFilter) : HeaderChanges :=
  header_changes (model.bhf_RequestHeaderFilter f) (model.bhf_ResponseHeaderModifier f).

(** ** Actions *)

Definition hostRewriteMutation (rewrite : option model.HTTPURLRewriteFilter) (a : RouteAction)
  : RouteAction :=
  match rewrite ≫= model.rw_HostName with
  | None => a
  | Some h => mkRouteAction (ra_ClusterSpecifier a) (ra_MaxStreamDuration a) (Some h)
                (ra_RegexRewrite a) (ra_PrefixRewrite a) (ra_RequestMirrorPolicies a) (ra_Timeout a)
  end.

Definition set_RegexRewrite (a : RouteAction) (pattern substitution : string) : RouteAction :=
  mkRouteAction (ra_ClusterSpecifier a) (ra_MaxStreamDuration a) (ra_HostRewriteLiteral a)
    (Some (pattern, substitution)) (ra_PrefixRewrite a) (ra_RequestMirrorPolicies a) (ra_Timeout a).

Definition pathPrefixMutation (rewrite : option model.HTTPURLRewriteFilter)
    (httpRoute : model.HTTPRoute) (a : RouteAction) : RouteAction :=
  match rewrite ≫= model.rw_Path with
  | None => a
  | Some path =>
      if negb (len (model.sm_Exact path) =? 0) || negb (len (model.sm_Regex path) =? 0) then a
      else if (len (model.sm_Prefix path) =? 0) || String.eqb (model.sm_Prefix path) "/" then
        set_RegexRewrite a
          ("^" +:+ QuoteMeta (model.sm_Prefix (model.r_PathMatch httpRoute)) +:+ "(/?)(.*)") "/\2"
      else mkRouteAction (ra_ClusterSpecifier a) (ra_MaxStreamDuration a) (ra_HostRewriteLiteral a)
             (ra_RegexRewrite a) (model.sm_Prefix path) (ra_RequestMirrorPolicies a) (ra_Timeout a)
  end.

Definition pathFullReplaceMutation (rewrite : option model.HTTPURLRewriteFilter) (a : RouteAction)
  : RouteAction :=
  match rewrite ≫= model.rw_Path with
  | None => a
  | Some path =>
      if len (model.sm_Exact path) =? 0 then a
      else set_RegexRewrite a "^/.*$" (model.sm_Exact path)
  end.

Definition requestMirrorMutation (mirrors : list model.HttpRequestMirror) (a : RouteAction)
  : go RouteAction :=
  if length mirrors =? 0 then Ok a else
  action ← go_flat_map (λ m,
    match model.mir_Backend m with
    | None => Ok []
    | Some b => cluster ← backend_cluster b; Ok [mkRequestMirrorPolicy cluster 100]
    end) mirrors;
  Ok (mkRouteAction (ra_ClusterSpecifier a) (ra_MaxStreamDuration a) (ra_HostRewriteLiteral a)
        (ra_RegexRewrite a) (ra_PrefixRewrite a) action (ra_Timeout a)).

(** [minTimeout] of [timeoutMutation]; nothing when neither is set. *)
Definition min_timeout (backend request : option Z) : option Z :=
  match backend, request with
  | None, None => None
  | _, _ =>
      match request with
      | Some r => match backend with
                  | None => Some r
                  | Some b => if (r <? b)%Z then Some r else Some b
                  end
      | None => backend
      end
  end.

Definition timeoutMutation (backend request : option Z) (a : RouteAction) : RouteAction :=
  match min_timeout backend request with
  | None => a
  | Some d => mkRouteAction (ra_ClusterSpecifier a) (ra_MaxStreamDuration a) (ra_HostRewriteLiteral a)
                (ra_RegexRewrite a) (ra_PrefixRewrite a) (ra_RequestMirrorPolicies a) (Some d)
  end.

(** The mutators of [getRouteAction], in order. *)
Definition mutate_action (route : model.HTTPRoute) (rewrite : option model.HTTPURLRewriteFilter)
    (mirrors : list model.HttpRequestMirror) (a : RouteAction) : go RouteAction :=
  let a := hostRewriteMutation rewrite a in
  let a := pathPrefixMutation rewrite route a in
  let a := pathFullReplaceMutation rewrite a in
  a ← requestMirrorMutation mirrors a;
  Ok (timeoutMutation (model.to_Backend (model.r_Timeout route))
        (model.to_Request (model.r_Timeout route)) a).

Definition new_action (cs : ClusterSpecifier) (maxStreamDuration : option Z) : RouteAction :=
  mkRouteAction cs maxStreamDuration None None "" [] None.

(** One weighted cluster; [backendFilter] is the map of the filters by name. *)
Definition cluster_weight (backendFilter : gmap string model.BackendHttpFilter) (be : model.Backend)
  : go ClusterWeight :=
  let weight := default 1%Z (model.b_Weight be) in
  name ← backend_cluster be;
  Ok (mkClusterWeight name (u32 weight)
        match backendFilter !! name with
        | Some fn => appendChanges noChanges (backend_filter_changes fn)
        | None => noChanges
        end).

Definition getRouteAction (route : model.HTTPRoute) (backends : list model.Backend)
    (filters : list model.BackendHttpFilter) (rewrite : option model.HTTPURLRewriteFilter)
    (mirrors : list model.HttpRequestMirror) : go RouteAction :=
  match backends with
  | [b] =>
      cluster ← backend_cluster b;
      mutate_action route rewrite mirrors (new_action (CS_Cluster cluster) (Some 0%Z))
  | _ =>
      let backendFilter := foldl (λ m f, <[model.bhf_Name f := f]> m) ∅ filters in
      weightedClusters ← go_map (cluster_weight backendFilter) backends;
      mutate_action route rewrite mirrors (new_action (CS_WeightedClusters weightedClusters) None)
  end.

Definition toRedirectResponseCode (statusCode : Z) : RedirectResponseCode :=
  if (statusCode =? 301)%Z then MOVED_PERMANENTLY
  else if (statusCode =? 302)%Z then FOUND
  else if (statusCode =? 303)%Z then SEE_OTHER
  else if (statusCode =? 307)%Z then TEMPORARY_REDIRECT
  else if (statusCode =? 308)%Z then PERMANENT_REDIRECT
  else MOVED_PERMANENTLY.

Definition redirect_port (redirect : model.HTTPRequestRedirectFilter) (listenerPort : Z) : Z :=
  match model.rd_Port redirect with
  | Some p => u32 p
  | None =>
      match model.rd_Scheme redirect with
      | Some scheme =>
          if String.eqb scheme "https" then 443%Z
          else if String.eqb scheme "http" then 80%Z
          else 0%Z
      | None => listenerPort
      end
  end.

(** The zero response code of an action is MOVED_PERMANENTLY. *)
Definition getRouteRedirect (redirect : model.HTTPRequestRedirectFilter) (listenerPort : Z)
  : RedirectAction :=
  mkRedirectAction
    match model.rd_Scheme redirect with Some s => SchemeRedirect s | None => SchemeUnset end
    (default "" (model.rd_Hostname redirect))
    (redirect_port redirect listenerPort)
    match model.rd_StatusCode redirect with
    | Some c => toRedirectResponseCode c
    | None => MOVED_PERMANENTLY
    end
    match model.rd_Path redirect with
    | Some path =>
        if negb (len (model.sm_Exact path) =? 0) then PathRedirect (model.sm_Exact path)
        else if negb (len (model.sm_Prefix path) =? 0) then PrefixRewrite (model.sm_Prefix path)
        else PathUnset
    | None => PathUnset
    end.

(** ** Routes *)

Definition envoyHTTPRouteNoBackend (route : model.HTTPRoute) (hostnames : list string)
    (hostNameSuffixMatch : bool) : option Route :=
  match model.r_DirectResponse route with
  | None => None
  | Some dr =>
      Some (mkRoute
        (getRouteMatch hostnames hostNameSuffixMatch (model.r_PathMatch route)
           (model.r_HeadersMatch route) (model.r_QueryParamsMatch route) (model.r_Method route))
        (Act_DirectResponse (u32 (model.dr_StatusCode dr)) (model.dr_Body dr)) noChanges)
  end.

(** The first loop of both functions: the routes by match key.  The key sorts
    the matches of the route in place. *)
Definition matchBackendMap (httpRoutes : list model.HTTPRoute) : gmap string (list model.HTTPRoute) :=
  foldl (λ m r, <[model.GetMatchKey r :=
                    default [] (m !! model.GetMatchKey r) ++ [model.sort_matches r]]> m)
    ∅ httpRoutes.

Definition https_redirect : RedirectAction :=
  mkRedirectAction (HttpsRedirect true) "" 0 MOVED_PERMANENTLY PathUnset.

(** The second loop of [envoyHTTPSRoutes]; the query and header matches are
    passed in this order. *)
Definition https_step (hostnames : list string) (hostNameSuffixMatch : bool)
    (st : gmap string (list model.HTTPRoute) * list (option Route)) (r : model.HTTPRoute)
  : go (gmap string (list model.HTTPRoute) * list (option Route)) :=
  let '(m, routes) := st in
  match m !! model.GetMatchKey r with
  | None => Ok st
  | Some hRoutes =>
      h0 ← index hRoutes 0;
      let route := mkRoute
        (getRouteMatch hostnames hostNameSuffixMatch (model.r_PathMatch h0)
           (model.r_QueryParamsMatch h0) (model.r_HeadersMatch h0) (model.r_Method h0))
        (Act_Redirect https_redirect) noChanges in
      Ok (delete (model.GetMatchKey r) m, routes ++ [Some route])
  end.

Definition envoyHTTPSRoutes (httpRoutes : list model.HTTPRoute) (hostnames : list string)
    (hostNameSuffixMatch : bool) : go (list (option Route)) :=
  st ← go_foldl (https_step hostnames hostNameSuffixMatch) (matchBackendMap httpRoutes, []) httpRoutes;
  Ok st.2.

Definition group_backends (hRoutes : list model.HTTPRoute) : list model.Backend :=
  hRoutes ≫= model.r_Backends.

(** The route of a group with backends or a redirect; [r] is the loop variable. *)
Definition group_route (hostnames : list string) (hostNameSuffixMatch : bool) (listenerPort : Z)
    (hRoutes : list model.HTTPRoute) (h0 r : model.HTTPRoute) : go Route :=
  let backends := group_backends hRoutes in
  let changes := header_changes (model.r_RequestHeaderFilter h0) (model.r_ResponseHeaderModifier h0) in
  action ←
    match model.r_RequestRedirect h0 with
    | Some redirect => Ok (Act_Redirect (getRouteRedirect redirect listenerPort))
    | None =>
        a ← getRouteAction r backends (model.r_BackendHttpFilters r) (model.r_Rewrite r)
              (model.r_RequestMirrors r);
        Ok (Act_Route a)
    end;
  let changes :=
    if length backends =? 1
    then foldl (λ c fn, appendChanges c (backend_filter_changes fn)) changes
           (model.r_BackendHttpFilters h0)
    else changes in
  Ok (mkRoute
    (getRouteMatch hostnames hostNameSuffixMatch (model.r_PathMatch h0) (model.r_HeadersMatch h0)
       (model.r_QueryParamsMatch h0) (model.r_Method h0)) action changes).

(** No backend in the group, and no redirect on its first route. *)
Definition no_target (hRoutes : list model.HTTPRoute) (h0 : model.HTTPRoute) : bool :=
  (length (group_backends hRoutes) =? 0) && bool_decide (model.r_RequestRedirect h0 = None).

(** The second loop of [envoyHTTPRoutes]; a group without a target stays in the
    map. *)
Definition http_step (hostnames : list string) (hostNameSuffixMatch : bool) (listenerPort : Z)
    (st : gmap string (list model.HTTPRoute) * list (option Route)) (r0 : model.HTTPRoute)
  : go (gmap string (list model.HTTPRoute) * list (option Route)) :=
  let '(m, routes) := st in
  let r := model.sort_matches r0 in
  match m !! model.GetMatchKey r with
  | None => Ok st
  | Some hRoutes =>
      h0 ← index hRoutes 0;
      if no_target hRoutes h0 then
        Ok (m, routes ++ [envoyHTTPRouteNoBackend h0 hostnames hostNameSuffixMatch])
      else
        route ← group_route hostnames hostNameSuffixMatch listenerPort hRoutes h0 r;
        Ok (delete (model.GetMatchKey r) m, routes ++ [Some route])
  end.

Definition envoyHTTPRoutes (httpRoutes : list model.HTTPRoute) (hostnames : list string)
    (hostNameSuffixMatch : bool) (listenerPort : Z) : go (list (option Route)) :=
  st ← go_foldl (http_step hostnames hostNameSuffixMatch listenerPort)
         (matchBackendMap httpRoutes, []) httpRoutes;
  Ok st.2.

(** ** Order *)

Definition GetPath (m : RouteMatch) : string :=
  match rm_Path m with PS_Path s => s | _ => "" end.
Definition GetSafeRegex (m : RouteMatch) : string :=
  match rm_Path m with PS_SafeRegex s => s | _ => "" end.
Definition GetPrefix (m : RouteMatch) : string :=
  match rm_Path m with PS_Prefix s => s | _ => "" end.
Definition GetPathSeparatedPrefix (m : RouteMatch) : string :=
  match rm_Path m with PS_PathSeparatedPrefix s => s | _ => "" end.

Section Sorting.
Context {infra : Infra}.

Definition Less (r1 r2 : Route) : bool :=
  let m1 := er_Match r1 in
  let m2 := er_Match r2 in
  let exactMatch1 := len (GetPath m1) in
  let exactMatch2 := len (GetPath m2) in
  if negb (exactMatch1 =? exactMatch2) then exactMatch2 <? exactMatch1 else
  let regexMatch1 := len (GetSafeRegex m1) in
  let regexMatch2 := len (GetSafeRegex m2) in
  if negb (regexMatch1 =? regexMatch2) then regexMatch2 <? regexMatch1 else
  let prefixMatch1 := IntMax (len (GetPathSeparatedPrefix m1)) (len (GetPrefix m1)) in
  let prefixMatch2 := IntMax (len (GetPathSeparatedPrefix m2)) (len (GetPrefix m2)) in
  let headerMatch1 := length (rm_Headers m1) in
  let headerMatch2 := length (rm_Headers m2) in
  let queryMatch1 := length (rm_QueryParameters m1) in
  let queryMatch2 := length (rm_QueryParameters m2) in
  if negb (prefixMatch1 =? prefixMatch2) then prefixMatch2 <? prefixMatch1 else
  if negb (headerMatch1 =? headerMatch2) then headerMatch2 <? headerMatch1 else
  queryMatch2 <? queryMatch1.

(** [sort.Stable(routes)]: with two or more routes every one is compared, and
    comparing a nil route panics. *)
Definition sort_routes (routes : list (option Route)) : go (list (option Route)) :=
  if length routes <? 2 then Ok routes
  else rs ← go_map deref routes; Ok (Some <$> sort_stable Less rs).

(** The loop over the host names. *)
Fixpoint host_domains (domains : list string) (hostNames : list string) : list string :=
  match hostNames with
  | [] => domains
  | host :: rest =>
      if String.eqb host wildCard then [wildCard]
      else host_domains (domains ++ [host; JoinHostPort host wildCard]) rest
  end.

Definition NewVirtualHost (httpRoutes : list model.HTTPRoute) (param : VirtualHostParameter)
  : go VirtualHost :=
  routes ←
    if vp_HTTPSRedirect param
    then envoyHTTPSRoutes httpRoutes (vp_HostNames param) (vp_HostNameSuffixMatch param)
    else envoyHTTPRoutes httpRoutes (vp_HostNames param) (vp_HostNameSuffixMatch param)
           (vp_ListenerPort param);
  routes ← sort_routes routes;
  let domains := host_domains [] (vp_HostNames param) in
  name ← index domains 0;
  Ok (mkVirtualHost name domains routes).

(** Without mutators, the version with defaults is the same. *)
Definition NewVirtualHostWithDefaults (httpRoutes : list model.HTTPRoute)
    (param : VirtualHostParameter) : go VirtualHost := NewVirtualHost httpRoutes param.

(** ** Lemmas on the order *)

(** [Less] compares five lengths, in this order, the larger first. *)
Definition rank (r : Route) : list nat :=
  [len (GetPath (er_Match r)); len (GetSafeRegex (er_Match r));
   IntMax (len (GetPathSeparatedPrefix (er_Match r))) (len (GetPrefix (er_Match r)));
   length (rm_Headers (er_Match r)); length (rm_QueryParameters (er_Match r))].

Fixpoint lex_gt (k1 k2 : list nat) : bool :=
  match k1, k2 with
  | x :: k1', y :: k2' => if negb (x =? y) then y <? x else lex_gt k1' k2'
  | _, _ => false
  end.

Lemma Less_rank r1 r2 : Less r1 r2 = lex_gt (rank r1) (rank r2).
Proof.
  unfold Less, rank. cbv zeta. cbn [lex_gt].
  do 4 (match goal with |- (if negb ?b then _ else _) = _ => destruct b end; cbn [negb]; [|reflexivity]).
  match goal with |- (?a <? ?b) = _ => destruct (Nat.eqb_spec b a) as [->|] end; [|reflexivity].
  apply Nat.ltb_irrefl.
Qed.

Lemma lex_gt_asym k1 k2 : lex_gt k1 k2 = true → lex_gt k2 k1 = false.
Proof.
  revert k2. induction k1 as [|x k1 IH]; intros [|y k2]; cbn [lex_gt]; try done.
  rewrite (Nat.eqb_sym y x). destruct (Nat.eqb_spec x y); cbn [negb]; [apply IH|].
  rewrite Nat.ltb_lt, Nat.ltb_ge. lia.
Qed.

Lemma lex_gt_le_trans k1 k2 k3 :
  length k1 = length k2 → length k2 = length k3 →
  lex_gt k2 k1 = false → lex_gt k3 k2 = false → lex_gt k3 k1 = false.
Proof.
  revert k2 k3. induction k1 as [|x k1 IH]; intros [|y k2] [|z k3] H1 H2; try done. cbn [lex_gt].
  destruct (Nat.eqb_spec y x), (Nat.eqb_spec z y), (Nat.eqb_spec z x); cbn [negb]; subst; try done;
    rewrite ?Nat.ltb_ge; try lia.
  apply IH; cbn in *; lia.
Qed.

Lemma Less_asym r1 r2 : Less r1 r2 = true → Less r2 r1 = false.
Proof. rewrite !Less_rank. apply lex_gt_asym. Qed.

Lemma Less_le_trans r1 r2 r3 :
  sorted_le Less r1 r2 → sorted_le Less r2 r3 → sorted_le Less r1 r3.
Proof. cbn. rewrite !Less_rank. by apply lex_gt_le_trans. Qed.

End Sorting.
#[export] Hint Resolve Less_asym Less_le_trans : go.

(** ** Lemmas on the groups *)

(** The routes of one match key, in order. *)
Definition group (k : string) (rs : list model.HTTPRoute) : list model.HTTPRoute :=
  model.sort_matches <$> filter (λ r, model.GetMatchKey r = k) rs.

Lemma group_snoc k rs r :
  group k (rs ++ [r]) =
  group k rs ++ if decide (model.GetMatchKey r = k) then [model.sort_matches r] else [].
Proof.
  unfold group. rewrite filter_app, fmap_app. f_equal.
  case_decide; [by rewrite filter_cons_True|by rewrite filter_cons_False].
Qed.

Lemma matchBackendMap_lookup rs k :
  matchBackendMap rs !! k = if decide (group k rs = []) then None else Some (group k rs).
Proof.
  induction rs as [|r rs IH] using rev_ind; [done|].
  unfold matchBackendMap in *. rewrite foldl_app. cbn [foldl].
  rewrite group_snoc. destruct (decide (model.GetMatchKey r = k)) as [->|Hne].
  - rewrite lookup_insert_eq, IH, (decide_False (P := _ ++ _ = [])) by (by intros [_ ?]%app_nil).
    by case_decide as Hnil; [rewrite Hnil|].
  - by rewrite lookup_insert_ne, app_nil_r.
Qed.

Lemma group_member rs r :
  r ∈ rs → model.sort_matches r ∈ group (model.GetMatchKey r) rs.
Proof. intros Hr. apply list_elem_of_fmap_2, list_elem_of_filter. done. Qed.

Lemma elem_of_group k rs h :
  h ∈ group k rs → ∃ r, r ∈ rs ∧ h = model.sort_matches r ∧ model.GetMatchKey r = k.
Proof.
  intros (r & -> & [Hk Hr]%list_elem_of_filter)%list_elem_of_fmap. by exists r.
Qed.

(** *** The routes of a host, without the map

    A group without a target contributes a response for every member, any
    other group one route, where its first member is. *)
Definition served (g : list model.HTTPRoute) : bool :=
  match g with [] => true | h0 :: _ => negb (no_target g h0) end.

Definition member_routes (hostnames : list string) (suffix : bool) (port : Z)
    (all before : list model.HTTPRoute) (r : model.HTTPRoute) : go (list (option Route)) :=
  match group (model.GetMatchKey r) all with
  | [] => Ok []
  | (h0 :: _) as g =>
      if no_target g h0 then Ok [envoyHTTPRouteNoBackend h0 hostnames suffix]
      else if decide (model.GetMatchKey r ∈ model.GetMatchKey <$> before) then Ok []
      else route ← group_route hostnames suffix port g h0 (model.sort_matches r); Ok [Some route]
  end.

Fixpoint grouped_routes (hostnames : list string) (suffix : bool) (port : Z)
    (all before rest : list model.HTTPRoute) : go (list (option Route)) :=
  match rest with
  | [] => Ok []
  | r :: rest' =>
      xs ← member_routes hostnames suffix port all before r;
      ys ← grouped_routes hostnames suffix port all (before ++ [r]) rest';
      Ok (xs ++ ys)
  end.

(** The map after the members in [before] were processed. *)
Definition map_after (all before : list model.HTTPRoute) (m : gmap string (list model.HTTPRoute)) : Prop :=
  ∀ k, m !! k =
    if decide (k ∈ model.GetMatchKey <$> before ∧ served (group k all) = true) then None
    else matchBackendMap all !! k.

Lemma GetMatchKey_sorted r : model.GetMatchKey (model.sort_matches r) = model.GetMatchKey r.
Proof. apply model.GetMatchKey_sort_matches. Qed.

Lemma http_step_spec hostnames suffix port all before m routes r :
  r ∈ all → map_after all before m →
  match member_routes hostnames suffix port all before r with
  | Ok xs => ∃ m', http_step hostnames suffix port (m, routes) r = Ok (m', routes ++ xs) ∧
                   map_after all (before ++ [r]) m'
  | Panic p => http_step hostnames suffix port (m, routes) r = Panic p
  end.
Proof.
  intros Hr Hm. unfold http_step, member_routes. rewrite GetMatchKey_sorted, Hm, matchBackendMap_lookup.
  pose proof (group_member all r Hr) as Hg. unfold map_after in *.
  destruct (group (model.GetMatchKey r) all) as [|h0 g] eqn:Eg; [by apply elem_of_nil in Hg|].
  rewrite (decide_False (P := _ = [])) by done. cbn [served].
  destruct (no_target (h0 :: g) h0) eqn:Ent; cbn [negb].
  - cbv beta iota. rewrite (decide_False (P := _ ∧ false = true)) by naive_solver.
    cbn [index lookup list_lookup mbind go_mbind]. rewrite Ent.
    exists m. split; [done|]. intros k. rewrite Hm, fmap_app.
    apply decide_ext. split; [set_solver|]. intros [[?|Hk]%elem_of_app Hs]; [done|].
    apply list_elem_of_singleton in Hk as ->. rewrite Eg in Hs. cbn in Hs. by rewrite Ent in Hs.
  - destruct (decide (model.GetMatchKey r ∈ model.GetMatchKey <$> before)) as [Hb|Hb].
    + cbv beta iota. rewrite (decide_True (P := _ ∧ true = true)) by done. exists m. rewrite app_nil_r. split; [done|]. intros k.
      rewrite Hm, fmap_app. apply decide_ext. split; [set_solver|].
      intros [[?|Hk]%elem_of_app Hs]; [done|]. by apply list_elem_of_singleton in Hk as ->.
    + rewrite (decide_False (P := _ ∧ true = true)) by naive_solver.
      cbn [index lookup list_lookup mbind go_mbind]. rewrite Ent. destruct (group_route _ _ _ _ _ _) as [route|p]; cbn [mbind go_mbind]; [|done].
      eexists. split; [done|]. intros k. rewrite fmap_app.
      destruct (decide (k = model.GetMatchKey r)) as [->|Hk].
      * rewrite lookup_delete_eq, decide_True; [done|]. split; [set_solver|].
        rewrite Eg. cbn. by rewrite Ent.
      * rewrite lookup_delete_ne, Hm by done. apply decide_ext. set_solver.
Qed.

Lemma http_steps_spec hostnames suffix port all before rest m routes :
  rest ⊆ all → map_after all before m →
  go_foldl (http_step hostnames suffix port) (m, routes) rest ≫= (λ st, Ok st.2) =
  grouped_routes hostnames suffix port all before rest ≫= (λ ys, Ok (routes ++ ys)).
Proof.
  revert before m routes. induction rest as [|r rest IH]; intros before m routes Hsub Hm;
    cbn [go_foldl grouped_routes].
  - cbn. by rewrite app_nil_r.
  - pose proof (http_step_spec hostnames suffix port all before m routes r) as Hstep.
    destruct (member_routes _ _ _ _ _ _) as [xs|p].
    + destruct Hstep as (m' & -> & Hm'); [set_solver|done|]. cbn [mbind go_mbind].
      rewrite (IH (before ++ [r])); [|set_solver|done].
      destruct (grouped_routes _ _ _ _ _ _); cbn; [|done]. by rewrite (assoc_L (++)).
    + by rewrite Hstep; [|set_solver|done].
Qed.

Lemma envoyHTTPRoutes_grouped hostnames suffix port rs :
  envoyHTTPRoutes rs hostnames suffix port = grouped_routes hostnames suffix port rs [] rs.
Proof.
  unfold envoyHTTPRoutes. rewrite (http_steps_spec _ _ _ rs []); [|done|].
  - by destruct (grouped_routes _ _ _ _ _ _).
  - intros k. by rewrite decide_False by (by intros [?%elem_of_nil _]).
Qed.

(** *** Panics *)

Lemma yields_backend_cluster b : model.backend_ok b → yields (backend_cluster b) (λ _, True).
Proof. intros [p Hp]. unfold backend_cluster, backend_port. rewrite Hp. by apply yields_Ok. Qed.

Lemma yields_mutate_action route rewrite mirrors a :
  Forall model.mirror_ok mirrors → yields (mutate_action route rewrite mirrors a) (λ _, True).
Proof.
  intros H. unfold mutate_action. cbv zeta. apply yields_bind with (λ _, True); [|intros; by apply yields_Ok].
  unfold requestMirrorMutation. case_match; [by apply yields_Ok|].
  apply yields_bind with (Forall (λ _, True)); [|intros; by apply yields_Ok].
  apply yields_flat_map. eapply Forall_impl; [exact H|]. intros m (b & -> & Hb).
  eapply yields_bind; [by apply yields_backend_cluster|]. intros c _. apply yields_Ok. by repeat constructor.
Qed.

Lemma yields_getRouteAction route backends filters rewrite mirrors :
  Forall model.backend_ok backends → Forall model.mirror_ok mirrors →
  yields (getRouteAction route backends filters rewrite mirrors) (λ _, True).
Proof.
  intros Hb Hm. unfold getRouteAction.
  assert (Hw : ∀ bf, yields (go_map (cluster_weight bf) backends) (λ _, True)).
  { intros bf. apply yields_mono with (Forall (λ _, True)); [done|]. apply yields_map.
    eapply Forall_impl; [exact Hb|]. intros b Hbb. unfold cluster_weight.
    eapply yields_bind; [by apply yields_backend_cluster|]. intros. by apply yields_Ok. }
  destruct backends as [|b [|b' bs]].
  - eapply yields_bind; [apply Hw|]. intros. by apply yields_mutate_action.
  - eapply yields_bind; [apply yields_backend_cluster; by inversion Hb|]. intros.
    by apply yields_mutate_action.
  - eapply yields_bind; [apply Hw|]. intros. by apply yields_mutate_action.
Qed.

Lemma group_backends_ok k rs :
  Forall model.route_ok rs → Forall model.backend_ok (group_backends (group k rs)).
Proof.
  intros H. apply Forall_forall. intros b (h & Hb & Hh)%list_elem_of_bind.
  apply elem_of_group in Hh as (r & Hr & -> & _).
  eapply Forall_forall in H; [|exact Hr]. by eapply Forall_forall in Hb; [|apply (model.route_backends _ H)].
Qed.

Lemma yields_member_routes hostnames suffix port all before r :
  Forall model.route_ok all → r ∈ all →
  yields (member_routes hostnames suffix port all before r) (Forall is_Some).
Proof.
  intros Hok Hr. unfold member_routes.
  destruct (group (model.GetMatchKey r) all) as [|h0 g] eqn:Eg; [by apply yields_Ok|].
  destruct (no_target (h0 :: g) h0) eqn:Ent.
  - apply yields_Ok, Forall_singleton. unfold envoyHTTPRouteNoBackend.
    apply andb_true_iff in Ent as [Hb%Nat.eqb_eq%nil_length_inv _].
    assert (h0 ∈ group (model.GetMatchKey r) all) as (r0 & Hr0 & -> & _)%elem_of_group
      by (rewrite Eg; left).
    eapply Forall_forall in Hok; [|exact Hr0].
    destruct (model.route_response _ Hok) as [dr Hdr].
    { unfold group_backends in Hb. rewrite bind_cons in Hb. by apply app_nil in Hb as [Hb _]. }
    cbn. rewrite Hdr. by eexists.
  - case_decide; [by apply yields_Ok|]. apply yields_bind with (λ _, True);
      [|intros; apply yields_Ok, Forall_singleton; by eexists].
    unfold group_route. cbv zeta. apply yields_bind with (λ _, True); [|intros; by apply yields_Ok].
    destruct (model.r_RequestRedirect h0); [by apply yields_Ok|].
    eapply yields_bind; [|intros; by apply yields_Ok]. apply yields_getRouteAction.
    + rewrite <-Eg. by apply group_backends_ok.
    + eapply Forall_forall in Hok; [|exact Hr]. apply (model.route_mirrors _ Hok).
Qed.

Lemma yields_grouped_routes hostnames suffix port all before rest :
  Forall model.route_ok all → rest ⊆ all →
  yields (grouped_routes hostnames suffix port all before rest) (Forall is_Some).
Proof.
  intros Hok. revert before. induction rest as [|r rest IH]; intros before Hsub; cbn; [by apply yields_Ok|].
  eapply yields_bind; [apply yields_member_routes; [done|set_solver]|]. intros xs Hxs.
  eapply yields_bind; [apply IH; set_solver|]. intros ys Hys. apply yields_Ok. by apply Forall_app.
Qed.

(** During the redirect loop the groups in the map are not empty. *)
Definition https_inv (st : gmap string (list model.HTTPRoute) * list (option Route)) : Prop :=
  (∀ k g, st.1 !! k = Some g → g ≠ []) ∧ Forall is_Some st.2.

Lemma yields_https_step hostnames suffix st r :
  https_inv st → yields (https_step hostnames suffix st r) https_inv.
Proof.
  destruct st as [m routes]. intros [Hm Hs]. unfold https_step.
  destruct (m !! model.GetMatchKey r) as [g|] eqn:E; [|by apply yields_Ok].
  destruct g as [|h0 g]; [by apply Hm in E|]. apply yields_Ok. split; cbn.
  - intros k g' [_ Hk]%lookup_delete_Some. by eapply Hm.
  - apply Forall_app. split; [done|]. apply Forall_singleton. by eexists.
Qed.

Lemma yields_envoyHTTPSRoutes rs hostnames suffix :
  yields (envoyHTTPSRoutes rs hostnames suffix) (Forall is_Some).
Proof.
  unfold envoyHTTPSRoutes. apply yields_bind with https_inv.
  - apply yields_foldl; [|apply Forall_forall; intros; by apply yields_https_step].
    split; [|constructor]. intros k g. cbn. rewrite matchBackendMap_lookup. case_decide; naive_solver.
  - intros st [_ Hst]. by apply yields_Ok.
Qed.

Lemma host_domains_nonempty d hs : d ≠ [] ∨ hs ≠ [] → host_domains d hs ≠ [].
Proof.
  revert d. induction hs as [|h hs IH]; intros d Hd; cbn; [naive_solver|].
  case_match; [done|]. apply IH. left. by destruct d.
Qed.

(** *** Clusters *)

(** The clusters a route sends requests to, mirrors included. *)
Definition specifier_clusters (cs : ClusterSpecifier) : list string :=
  match cs with CS_Cluster c => [c] | CS_WeightedClusters l => cw_Name <$> l end.
Definition action_clusters (a : RouteAction) : list string :=
  specifier_clusters (ra_ClusterSpecifier a) ++ (rmp_Cluster <$> ra_RequestMirrorPolicies a).
Definition route_clusters (rt : Route) : list string :=
  match er_Action rt with Act_Route a => action_clusters a | _ => [] end.

(** The clusters of the backends and mirrors of routes. *)
Definition mirrored (ms : list model.HttpRequestMirror) (b : model.Backend) : Prop :=
  ∃ m, m ∈ ms ∧ model.mir_Backend m = Some b.
Definition referenced (rs : list model.HTTPRoute) (c : string) : Prop :=
  ∃ r b, r ∈ rs ∧ (b ∈ model.r_Backends r ∨ mirrored (model.r_RequestMirrors r) b) ∧
    backend_cluster b = Ok c.

(** The rewrites and the timeout change neither the clusters nor the mirrors. *)
Lemma mutate_action_clusters route rewrite mirrors a a' c :
  ra_RequestMirrorPolicies a = [] → mutate_action route rewrite mirrors a = Ok a' →
  c ∈ action_clusters a' →
  c ∈ specifier_clusters (ra_ClusterSpecifier a) ∨
  ∃ b, mirrored mirrors b ∧ backend_cluster b = Ok c.
Proof.
  intros Ha H. unfold mutate_action in H. cbv zeta in H.
  set (a1 := pathFullReplaceMutation _ _) in H.
  assert (H1 : ra_ClusterSpecifier a1 = ra_ClusterSpecifier a ∧ ra_RequestMirrorPolicies a1 = []).
  { subst a1. unfold pathFullReplaceMutation, pathPrefixMutation, hostRewriteMutation.
    repeat case_match; by cbn. }
  go_inv. unfold action_clusters. rewrite elem_of_app.
  assert (Ht : ∀ x y z, ra_ClusterSpecifier (timeoutMutation x y z) = ra_ClusterSpecifier z ∧
    ra_RequestMirrorPolicies (timeoutMutation x y z) = ra_RequestMirrorPolicies z).
  { intros x y z. unfold timeoutMutation. by case_match. }
  destruct (Ht (model.to_Backend (model.r_Timeout route)) (model.to_Request (model.r_Timeout route)) a0)
    as [-> ->]. clear Ht. unfold requestMirrorMutation in E. destruct H1 as [H1 H2].
  destruct (length mirrors =? 0).
  - injection E as <-. rewrite H1, H2. intros [?|?%elem_of_nil]; [by left|done].
  - go_inv. cbn. rewrite H1. intros [?|Hm]; [by left|right].
    apply list_elem_of_fmap in Hm as (p & -> & Hp).
    eapply elem_of_go_flat_map in Hp as (m & zs & Hm & Hz & Hp); [|exact E0]. cbn beta in Hz.
    destruct (model.mir_Backend m) as [b|] eqn:Eb; go_inv; [|by apply elem_of_nil in Hp].
    apply list_elem_of_singleton in Hp as ->. exists b. split; [by exists m|done].
Qed.

Lemma getRouteAction_clusters route backends filters rewrite mirrors a c :
  getRouteAction route backends filters rewrite mirrors = Ok a → c ∈ action_clusters a →
  ∃ b, (b ∈ backends ∨ mirrored mirrors b) ∧ backend_cluster b = Ok c.
Proof.
  intros H Hc.
  assert (Hw : ∀ bf ws, go_map (cluster_weight bf) backends = Ok ws →
    mutate_action route rewrite mirrors (new_action (CS_WeightedClusters ws) None) = Ok a →
    ∃ b, (b ∈ backends ∨ mirrored mirrors b) ∧ backend_cluster b = Ok c).
  { intros bf ws Hws Hm.
    destruct (mutate_action_clusters _ _ _ (new_action (CS_WeightedClusters ws) None) _ _ eq_refl Hm Hc)
      as [Hc'|(b & ? & ?)]; [|naive_solver]. cbn in Hc'.
    apply list_elem_of_fmap in Hc' as (w & -> & Hin).
    eapply elem_of_go_map in Hin as (b & Hb & Hbw); [|exact Hws].
    unfold cluster_weight in Hbw. go_inv. exists b. naive_solver. }
  unfold getRouteAction in H. destruct backends as [|b [|b' bs]].
  - cbv zeta in H. go_inv. by eapply Hw.
  - go_inv. destruct (mutate_action_clusters _ _ _ (new_action (CS_Cluster a0) (Some 0%Z)) _ _ eq_refl H Hc)
      as [Hb|(b' & ? & ?)]; [|naive_solver].
    cbn in Hb. apply list_elem_of_singleton in Hb as ->. exists b. split; [left; by left|done].
  - cbv zeta in H. go_inv. by eapply Hw.
Qed.

Lemma group_route_clusters hostnames suffix port rs k h0 r rt c :
  r ∈ rs → group_route hostnames suffix port (group k rs) h0 (model.sort_matches r) = Ok rt →
  c ∈ route_clusters rt → referenced rs c.
Proof.
  intros Hr H Hc. unfold group_route in H. cbv zeta in H. go_inv.
  destruct (model.r_RequestRedirect h0); go_inv; [by apply elem_of_nil in Hc|].
  eapply getRouteAction_clusters in Hc as (b & [Hb|Hb] & Hbc); [| |exact E0].
  - apply list_elem_of_bind in Hb as (h & Hb & (r' & Hr' & -> & _)%elem_of_group).
    exists r', b. naive_solver.
  - exists r, b. naive_solver.
Qed.

Lemma grouped_routes_clusters hostnames suffix port rs before rest out rt c :
  rest ⊆ rs → grouped_routes hostnames suffix port rs before rest = Ok out →
  Some rt ∈ out → c ∈ route_clusters rt → referenced rs c.
Proof.
  revert before out. induction rest as [|r rest IH]; intros before out Hsub H Hin Hc; cbn in H; go_inv.
  { by apply elem_of_nil in Hin. }
  apply elem_of_app in Hin as [Hin|Hin]; [|eapply IH; [|done..]; set_solver].
  unfold member_routes in E. destruct (group (model.GetMatchKey r) rs) as [|h0 g] eqn:Eg; go_inv.
  { by apply elem_of_nil in Hin. }
  destruct (no_target _ _).
  - go_inv. apply list_elem_of_singleton in Hin. unfold envoyHTTPRouteNoBackend in Hin.
    case_match; simplify_eq. by apply elem_of_nil in Hc.
  - case_decide; [go_inv; by apply elem_of_nil in Hin|].
    apply bind_Ok in E as (rt' & Egr & [= <-]).
    apply list_elem_of_singleton in Hin as [= ->]. rewrite <-Eg in Egr.
    eapply group_route_clusters; [|exact Egr|done]. set_solver.
Qed.

Lemma https_routes_clusters rs hostnames suffix out rt :
  envoyHTTPSRoutes rs hostnames suffix = Ok out → Some rt ∈ out → route_clusters rt = [].
Proof.
  intros H.
  assert (Hinv : ∀ l m routes st, (∀ rt, Some rt ∈ routes → route_clusters rt = []) →
    go_foldl (https_step hostnames suffix) (m, routes) l = Ok st →
    ∀ rt, Some rt ∈ st.2 → route_clusters rt = []).
  { induction l as [|r l IH]; intros m routes st Hr Hst; cbn [go_foldl] in Hst; [by go_inv|].
    go_inv. destruct a as [m' routes']. eapply IH; [|exact Hst]. unfold https_step in E.
    destruct (m !! _); go_inv; simplify_eq; [|done]. intros rt' [?|Hx]%elem_of_app; [by apply Hr|].
    by apply list_elem_of_singleton in Hx as [= ->]. }
  unfold envoyHTTPSRoutes in H. go_inv. eapply Hinv; [|exact E]. by intros ? ?%elem_of_nil.
Qed.

Section VirtualHosts.
Context {infra : Infra}.

(** The routes of a virtual host before they are sorted. *)
Definition unsorted_routes (rs : list model.HTTPRoute) (param : VirtualHostParameter)
  : go (list (option Route)) :=
  if vp_HTTPSRedirect param
  then envoyHTTPSRoutes rs (vp_HostNames param) (vp_HostNameSuffixMatch param)
  else envoyHTTPRoutes rs (vp_HostNames param) (vp_HostNameSuffixMatch param) (vp_ListenerPort param).

Lemma go_map_deref_Some {A} (l : list (option A)) rs : go_map deref l = Ok rs → l = Some <$> rs.
Proof.
  intros H%go_map_Ok. induction H as [|x y l rs Hx _ IH]; [done|].
  rewrite fmap_cons, <-IH. destruct x; naive_solver.
Qed.

Lemma sort_routes_Permutation us l : sort_routes us = Ok l → l ≡ₚ us.
Proof.
  unfold sort_routes. case_match; intros Hs; go_inv; [done|].
  apply go_map_deref_Some in E as ->. by rewrite sort_stable_Permutation.
Qed.

Lemma yields_sort_routes us : Forall is_Some us → yields (sort_routes us) (Forall is_Some).
Proof.
  intros H. unfold sort_routes. case_match; [by apply yields_Ok|].
  eapply yields_bind.
  - apply (yields_map _ (λ _, True)). eapply Forall_impl; [exact H|]. intros o Ho. by apply yields_deref.
  - intros rs _. apply yields_Ok, Forall_forall. intros o (x & -> & _)%list_elem_of_fmap. by eexists.
Qed.

Lemma NewVirtualHost_routes rs param vh :
  NewVirtualHost rs param = Ok vh →
  ∃ us, unsorted_routes rs param = Ok us ∧ sort_routes us = Ok (vh_Routes vh).
Proof. intros H. unfold NewVirtualHost in H. go_inv. by exists a. Qed.

Lemma NewVirtualHost_clusters rs param vh rt c :
  NewVirtualHost rs param = Ok vh → Some rt ∈ vh_Routes vh → c ∈ route_clusters rt →
  referenced rs c.
Proof.
  intros (us & Hus & Hperm%sort_routes_Permutation)%NewVirtualHost_routes Hin Hc.
  rewrite Hperm in Hin. unfold unsorted_routes in Hus. destruct (vp_HTTPSRedirect param).
  - rewrite (https_routes_clusters _ _ _ _ _ Hus Hin) in Hc. by apply elem_of_nil in Hc.
  - rewrite envoyHTTPRoutes_grouped in Hus. by eapply grouped_routes_clusters.
Qed.

(** ** Theorems *)

(** on routes from ingestion (the model invariant) and at least one host
    name, building a virtual host does not panic, and it has no nil route. *)
Theorem NewVirtualHost_total rs param :
  Forall model.route_ok rs → vp_HostNames param ≠ [] →
  ∃ vh, NewVirtualHost rs param = Ok vh ∧ Forall is_Some (vh_Routes vh).
Proof.
  intros Hok Hh. unfold NewVirtualHost.
  apply yields_bind with (Forall is_Some).
  { case_match; [apply yields_envoyHTTPSRoutes|]. rewrite envoyHTTPRoutes_grouped.
    by apply yields_grouped_routes. }
  intros us Hus. eapply yields_bind; [by apply yields_sort_routes|]. intros l Hl.
  pose proof (host_domains_nonempty [] (vp_HostNames param) (or_intror Hh)) as Hd.
  cbv zeta. destruct (host_domains [] (vp_HostNames param)); [done|]. by apply yields_Ok.
Qed.

(** The precedence of matches: the longer exact path, then the longer regular
    expression, then the longer prefix, then more header matches, then more query
    parameter matches. *)
Record Precedence := mkPrecedence {
  pc_exact : nat; pc_regex : nat; pc_prefix : nat; pc_headers : nat; pc_queries : nat }.
#[export] Instance Precedence_eq_dec : EqDecision Precedence.
Proof. solve_decision. Defined.

Definition precedence (r : Route) : Precedence :=
  let m := er_Match r in
  let '(e, x, p) := match rm_Path m with
    | PS_Path s => (len s, 0, 0)
    | PS_SafeRegex s => (0, len s, 0)
    | PS_Prefix s | PS_PathSeparatedPrefix s => (0, 0, len s)
    end in
  mkPrecedence e x p (length (rm_Headers m)) (length (rm_QueryParameters m)).

Definition outranks (a b : Precedence) : Prop :=
  pc_exact b < pc_exact a ∨ pc_exact a = pc_exact b ∧
  (pc_regex b < pc_regex a ∨ pc_regex a = pc_regex b ∧
   (pc_prefix b < pc_prefix a ∨ pc_prefix a = pc_prefix b ∧
    (pc_headers b < pc_headers a ∨ pc_headers a = pc_headers b ∧ pc_queries b < pc_queries a))).

Lemma rank_precedence `{!InfraLaws} r :
  let p := precedence r in rank r = [pc_exact p; pc_regex p; pc_prefix p; pc_headers p; pc_queries p].
Proof.
  unfold rank, precedence, GetPath, GetSafeRegex, GetPrefix, GetPathSeparatedPrefix. rewrite IntMax_max.
  destruct (rm_Path (er_Match r)); cbn; rewrite ?Nat.max_0_r; done.
Qed.

Lemma rank_eq `{!InfraLaws} r1 r2 : rank r1 = rank r2 ↔ precedence r1 = precedence r2.
Proof.
  rewrite !rank_precedence. destruct (precedence r1), (precedence r2). cbn. split; congruence.
Qed.

Lemma lex_gt_cons x y k1 k2 : lex_gt (x :: k1) (y :: k2) = true ↔ y < x ∨ x = y ∧ lex_gt k1 k2 = true.
Proof. cbn [lex_gt]. destruct (Nat.eqb_spec x y); cbn [negb]; [naive_solver lia|]. rewrite Nat.ltb_lt. lia. Qed.

Lemma Less_outranks `{!InfraLaws} r1 r2 : Less r1 r2 = true ↔ outranks (precedence r1) (precedence r2).
Proof.
  rewrite Less_rank, !rank_precedence, !lex_gt_cons. unfold outranks. cbn [lex_gt]. naive_solver.
Qed.

(** C17: the routes of a virtual host are the generated routes, reordered by the
    precedence of their matches: a route is never behind one that it outranks,
    by the length of its exact path, then of its regular expression, then of its
    prefix, then by its number of header matches, then of query parameter matches;
    and routes of the same precedence keep the order in which they were
    generated. *)
Theorem NewVirtualHost_order `{!InfraLaws} rs param vh :
  NewVirtualHost rs param = Ok vh →
  ∃ us, unsorted_routes rs param = Ok us ∧ vh_Routes vh ≡ₚ us ∧
    (∀ i j a b, i < j → vh_Routes vh !! i = Some (Some a) → vh_Routes vh !! j = Some (Some b) →
       ¬ outranks (precedence b) (precedence a)) ∧
    (∀ k, filter (λ o, precedence <$> o = Some k) (vh_Routes vh) = filter (λ o, precedence <$> o = Some k) us).
Proof.
  intros (us & Hus & Hs)%NewVirtualHost_routes. exists us.
  split; [done|]. split; [by apply sort_routes_Permutation|].
  unfold sort_routes in Hs. destruct (Nat.ltb_spec (length us) 2) as [Hlen|_].
  { injection Hs as <-. split; [|done]. intros i j a b Hij _ Hj%lookup_lt_Some. lia. }
  go_inv. apply go_map_deref_Some in E as ->. rewrite <-Hs.
  rename a into gen. split.
  - intros i j a b Hij. rewrite !list_lookup_fmap. intros Hi Hj.
    destruct (sort_stable Less gen !! i) as [a'|] eqn:Ea; [|done].
    destruct (sort_stable Less gen !! j) as [b'|] eqn:Eb; [|done]. simplify_eq/=.
    rewrite <-Less_outranks, not_true_iff_false.
    eapply (StronglySorted_lookup (sorted_le Less)); [|exact Hij|exact Ea|exact Eb].
    apply sort_stable_sorted; eauto with go.
  - intros k.
    assert (Hf : ∀ l : list Route, filter (λ o, precedence <$> o = Some k) (Some <$> l) =
      Some <$> filter (λ x, precedence x = k) l).
    { induction l as [|x l IH]; [done|]. rewrite fmap_cons, !filter_cons, IH. cbn.
      destruct (decide (Some (precedence x) = Some k)), (decide (precedence x = k)); naive_solver. }
    rewrite !Hf. f_equal. apply sort_stable_filter. intros x y Hx Hy. apply not_true_iff_false.
    rewrite Less_outranks, Hx, Hy. unfold outranks. lia.
Qed.

End VirtualHosts.


(** ** Concrete routes *)

Definition ex_backend (name : string) : model.Backend :=
  model.mkBackend name "default" (Some (model.mkBackendPort 8080 "")) None None.

Definition ex_route (path : model.StringMatch) (backends : list model.Backend) : model.HTTPRoute :=
  model.mkHTTPRoute "" [] path [] [] None backends []
    (if length backends =? 0 then Some (model.mkDirectResponse 500 "") else None)
    None None None None None [] false (model.mkTimeout None None).

Definition ex_routes : list model.HTTPRoute :=
  [ex_route (model.mkStringMatch "/a" "" "") [ex_backend "one"];
   ex_route (model.mkStringMatch "/a" "" "") [ex_backend "two"];
   ex_route (model.mkStringMatch "" "/a" "") [ex_backend "three"]].

Definition ex_param : VirtualHostParameter := mkVirtualHostParameter ["example.com"] false true 80.

Lemma ex_routes_ok : Forall model.route_ok ex_routes.
Proof.
  repeat (apply Forall_cons_2; [split; [apply Forall_singleton; by eexists|discriminate|constructor]|]).
  constructor.
Qed.

(** The two routes with the same match are one weighted route, behind the exact
    match. *)
Example ex_virtual_host :
  (λ vh, (vh_Domains vh, (λ o, default [] (route_clusters <$> o)) <$> vh_Routes vh)) <$>
    @NewVirtualHost reference_infra ex_routes ex_param =
  Ok (["example.com"; "example.com:*"],
      [["default:three:8080"]; ["default:one:8080"; "default:two:8080"]]).
Proof. vm_compute. reflexivity. Qed.

(** Two routes with the same match and no backend give two responses. *)
Example ex_duplicate_responses :
  length <$> envoyHTTPRoutes
    [ex_route model.emptyMatch []; ex_route model.emptyMatch []] ["example.com"] true 80 = Ok 2.
Proof. vm_compute. reflexivity. Qed.

Lemma NewVirtualHost_total_witness :
  ∃ vh, @NewVirtualHost reference_infra ex_routes ex_param = Ok vh ∧ Forall is_Some (vh_Routes vh).
Proof. apply NewVirtualHost_total; [exact ex_routes_ok|discriminate]. Defined.

Definition ex_built : VirtualHost :=
  match @NewVirtualHost reference_infra ex_routes ex_param with
  | Ok vh => vh
  | Panic _ => mkVirtualHost "" [] []
  end.

Lemma NewVirtualHost_order_witness :
  ∃ us, unsorted_routes ex_routes ex_param = Ok us ∧ vh_Routes ex_built ≡ₚ us ∧
    (∀ i j a b, i < j → vh_Routes ex_built !! i = Some (Some a) →
       vh_Routes ex_built !! j = Some (Some b) → ¬ outranks (precedence b) (precedence a)) ∧
    (∀ k, filter (λ o, precedence <$> o = Some k) (vh_Routes ex_built) =
          filter (λ o, precedence <$> o = Some k) us).
Proof.
  apply (@NewVirtualHost_order reference_infra reference_infra_laws ex_routes ex_param ex_built).
  vm_compute. reflexivity.
Defined.

End virtual_host.
