(* ===== verification/Listeners.v ===== *)
(** * Envoy listeners and clusters

    src/pkg/model/translation: envoy_listener.go (filter chains and listeners),
    envoy_http_connection_manager.go, envoy_route_configuration.go and
    envoy_cluster.go.  A function that returns an error with the zero resource
    returns [None].  Mutators are functions on the message. *)

From S2P Require Import Prelude GoStrings Model Envoy.
From Stdlib Require Import Ascii.
Import envoy_api.

Module listeners.

Section Messages.
Context {infra : Infra} {pb : Proto} {range : MapRange}.
(** [operatorOption.Config.IngressProxyXffNumTrustedHops]. *)
Context (ingressProxyXffNumTrustedHops : Z).

(** ** envoy_http_connection_manager.go *)

Abbreviation HCMMutator := (HttpConnectionManager → HttpConnectionManager).

Definition defaultConnectionManager (name routeName : string) : HttpConnectionManager :=
  mkHttpConnectionManager name routeName true false
    [("envoy.filters.http.grpc_web", toAny M_GrpcWeb);
     ("envoy.filters.http.grpc_stats", toAny (M_GrpcStats true true));
     ("envoy.filters.http.router", toAny M_Router)]
    ["websocket"] (Some 0%Z) (Some 300%Z) 0 None.

Definition NewHTTPConnectionManager (name routeName : string) (mutationFunc : list HCMMutator)
  : XDSResource :=
  let connectionManager := foldl (λ m fn, fn m) (defaultConnectionManager name routeName) mutationFunc in
  marshal_resource envoy.HttpConnectionManagerTypeURL (M_HttpConnectionManager connectionManager).

Definition WithXffNumTrustedHops (h : HttpConnectionManager) : HttpConnectionManager :=
  mkHttpConnectionManager (hcm_StatPrefix h) (hcm_RouteConfigName h) (hcm_UseRemoteAddress h)
    (hcm_SkipXffAppend h) (hcm_HttpFilters h) (hcm_UpgradeConfigs h) (hcm_MaxStreamDuration h)
    (hcm_StreamIdleTimeout h) ingressProxyXffNumTrustedHops (hcm_InternalAddressConfig h).

Definition WithInternalAddressConfig (enableIpv4 enableIpv6 : bool) (h : HttpConnectionManager)
  : HttpConnectionManager :=
  mkHttpConnectionManager (hcm_StatPrefix h) (hcm_RouteConfigName h) (hcm_UseRemoteAddress h)
    (hcm_SkipXffAppend h) (hcm_HttpFilters h) (hcm_UpgradeConfigs h) (hcm_MaxStreamDuration h)
    (hcm_StreamIdleTimeout h) (hcm_XffNumTrustedHops h)
    (Some (false, envoy.GetInternalListenerCIDRs enableIpv4 enableIpv6)).

(** ** envoy_route_configuration.go *)

Definition NewRouteConfiguration (name : string) (virtualhosts : list VirtualHost) : XDSResource :=
  marshal_resource envoy.RouteTypeURL
    (M_RouteConfiguration (mkRouteConfiguration name virtualhosts)).

(** ** envoy_listener.go *)

Definition httpConnectionManagerType : string := "envoy.filters.network.http_connection_manager".
Definition tcpProxyType : string := "envoy.filters.network.tcp_proxy".
Definition tlsInspectorType : string := "envoy.filters.listener.tls_inspector".
Definition proxyProtocolType : string := "envoy.filters.listener.proxy_protocol".
Definition tlsTransportSocketType : string := "envoy.transport_sockets.tls".
Definition rawBufferTransportProtocol : string := "raw_buffer".
Definition tlsTransportProtocol : string := "tls".

Abbreviation ListenerMutator := (Listener → Listener).

Definition WithProxyProtocol (l : Listener) : Listener :=
  mkListener (li_Name l) (li_Address l) (li_FilterChains l)
    ((proxyProtocolType, toAny M_ProxyProtocol) :: li_ListenerFilters l) (li_SocketOptions l).

Definition WithSocketOption (tcpKeepAlive tcpKeepIdleInSeconds tcpKeepAliveProbeIntervalInSeconds
    tcpKeepAliveMaxFailures : Z) (l : Listener) : Listener :=
  mkListener (li_Name l) (li_Address l) (li_FilterChains l) (li_ListenerFilters l)
    [mkSocketOption "Enable TCP keep-alive (default to enabled)" 1 9 tcpKeepAlive;
     mkSocketOption "TCP keep-alive idle time (in seconds) (defaults to 10s)" 6 4 tcpKeepIdleInSeconds;
     mkSocketOption "TCP keep-alive probe intervals (in seconds) (defaults to 5s)" 6 5
       tcpKeepAliveProbeIntervalInSeconds;
     mkSocketOption "TCP keep-alive probe max failures." 6 6 tcpKeepAliveMaxFailures].

Definition defaultSocketOption : ListenerMutator := WithSocketOption 1 10 5 10.

Definition toFilterChainMatch (hostNames : list string) : FilterChainMatch :=
  let serverNames := SortedUnique hostNames in
  mkFilterChainMatch tlsTransportProtocol
    (if (1 <? length serverNames) ||
        ((length serverNames =? 1) && negb (String.eqb (default "" (head serverNames)) "*"))
     then serverNames else []).

(** The names go through a map, whose order is not fixed. *)
Definition newTransportSocket (dolphinSecretNamespace : string) (tls : list model.TLSSecret)
  : option TransportSocket :=
  let tlsMap : gmap string unit :=
    foldl (λ m t, <[dolphinSecretNamespace +:+ "/" +:+ model.sec_Name t := tt]> m) ∅ tls in
  match Marshal (M_DownstreamTlsContext (map_keys tlsMap)) with
  | None => None
  | Some b => Some (mkTransportSocket tlsTransportSocketType (mkAny envoy.DownstreamTlsContextURL b))
  end.

Definition hcm_chain (m : option FilterChainMatch) (hcm : Any) (ts : option TransportSocket)
  : FilterChain := mkFilterChain m [(httpConnectionManagerType, Some hcm)] ts.

Definition tcp_proxy_filter (statPrefix cluster : string) : string * option Any :=
  (tcpProxyType, toAny (M_TcpProxy statPrefix cluster)).

Definition httpFilterChain (name : string) (enableIpv4 enableIpv6 : bool) : option FilterChain :=
  let n := name +:+ "-insecure" in
  match NewHTTPConnectionManager n n
          [WithXffNumTrustedHops; WithInternalAddressConfig enableIpv4 enableIpv6] with
  | None => None
  | Some hcm => Some (hcm_chain (Some (mkFilterChainMatch rawBufferTransportProtocol [])) hcm None)
  end.

(** The order of the secrets. *)
Definition secret_name (s : model.TLSSecret) : string :=
  model.sec_Namespace s +:+ "/" +:+ model.sec_Name s.
Definition secret_less (a b : model.TLSSecret) : bool := str_ltb (secret_name a) (secret_name b).
Definition orderedSecrets (m : gmap model.TLSSecret (list string)) : list model.TLSSecret :=
  sort_stable secret_less (map_keys m).

(** One chain per secret: a secure connection manager, with the given mutators. *)
Definition secure_chain (name dolphinSecretNamespace : string) (mutators : list HCMMutator)
    (m : gmap model.TLSSecret (list string)) (secret : model.TLSSecret) : option FilterChain :=
  let hostNames := default [] (m !! secret) in
  let n := name +:+ "-secure" in
  match NewHTTPConnectionManager n n mutators with
  | None => None
  | Some hcm =>
      match newTransportSocket dolphinSecretNamespace [secret] with
      | None => None
      | Some ts => Some (hcm_chain (Some (toFilterChainMatch hostNames)) hcm (Some ts))
      end
  end.

Definition httpsFilterChains (name dolphinSecretNamespace : string)
    (tlsSecretsToHostnames : gmap model.TLSSecret (list string)) (enableIpv4 enableIpv6 : bool)
  : option (list FilterChain) :=
  if size tlsSecretsToHostnames =? 0 then Some []
  else mapM (secure_chain name dolphinSecretNamespace
               [WithInternalAddressConfig enableIpv4 enableIpv6] tlsSecretsToHostnames)
         (orderedSecrets tlsSecretsToHostnames).

Record tlsPassthroughBackend := mkPassthrough { pt_Hostnames : list string; pt_StatPrefix : string }.
Definition emptyPassthrough : tlsPassthroughBackend := mkPassthrough [] "".

Definition passthrough_chain (m : gmap string tlsPassthroughBackend) (backend : string) : FilterChain :=
  let pt := default emptyPassthrough (m !! backend) in
  let statPrefix := if String.eqb (pt_StatPrefix pt) "" then backend else pt_StatPrefix pt in
  mkFilterChain (Some (toFilterChainMatch (pt_Hostnames pt)))
    [tcp_proxy_filter statPrefix backend] None.

Definition tlsPassthroughFilterChains (m : gmap string tlsPassthroughBackend) : list FilterChain :=
  if size m =? 0 then [] else passthrough_chain m <$> sort_strings (map_keys m).

(** The listener literal and the mutators of all listeners with a TLS
    inspector. *)
Definition inspected_listener (name : string) (filterChains : list FilterChain)
    (mutatorFunc : list ListenerMutator) : Listener :=
  foldl (λ l fn, fn l)
    (mkListener name None filterChains [(tlsInspectorType, toAny M_TlsInspector)] []) mutatorFunc.

(** The filter chains of [newListener]: plain HTTP, one per secret, one per
    passthrough backend. *)
Definition listener_chains (name dolphinSecretNamespace : string) (includeHTTPFilterchain : bool)
    (tlsSecretsToHostnames : gmap model.TLSSecret (list string))
    (tlsPassthroughBackendsMap : gmap string tlsPassthroughBackend) (enableIpv4 enableIpv6 : bool)
  : option (list FilterChain) :=
  http ← (if includeHTTPFilterchain
          then (λ c, [c]) <$> httpFilterChain name enableIpv4 enableIpv6 else Some []);
  https ← httpsFilterChains name dolphinSecretNamespace tlsSecretsToHostnames enableIpv4 enableIpv6;
  Some (http ++ https ++ tlsPassthroughFilterChains tlsPassthroughBackendsMap).

Definition newListener (name dolphinSecretNamespace : string) (includeHTTPFilterchain : bool)
    (tlsSecretsToHostnames : gmap model.TLSSecret (list string))
    (tlsPassthroughBackendsMap : gmap string tlsPassthroughBackend) (enableIpv4 enableIpv6 : bool)
    (mutatorFunc : list ListenerMutator) : XDSResource :=
  filterChains ← listener_chains name dolphinSecretNamespace includeHTTPFilterchain
    tlsSecretsToHostnames tlsPassthroughBackendsMap enableIpv4 enableIpv6;
  marshal_resource envoy.ListenerTypeURL (M_Listener (inspected_listener name filterChains mutatorFunc)).

Definition newListenerWithDefaults (name dolphinSecretNamespace : string) (includeHTTPFilterchain : bool)
    (tlsSecretsToHostnames : gmap model.TLSSecret (list string))
    (ptBackendsToHostnames : gmap string tlsPassthroughBackend) (enableIpv4 enableIpv6 : bool)
    (mutatorFunc : list ListenerMutator) : XDSResource :=
  newListener name dolphinSecretNamespace includeHTTPFilterchain tlsSecretsToHostnames
    ptBackendsToHostnames enableIpv4 enableIpv6 (mutatorFunc ++ [defaultSocketOption]).

(** The listeners of the older, per-protocol constructors. *)
Definition NewHTTPListener (name dolphinSecretNamespace : string)
    (tls : gmap model.TLSSecret (list string)) (mutatorFunc : list ListenerMutator) : XDSResource :=
  let n := name +:+ "-insecure" in
  hcm ← NewHTTPConnectionManager n n [WithXffNumTrustedHops];
  secure ← mapM (secure_chain name dolphinSecretNamespace [WithXffNumTrustedHops] tls) (orderedSecrets tls);
  let filterChains :=
    hcm_chain (Some (mkFilterChainMatch rawBufferTransportProtocol [])) hcm None :: secure in
  marshal_resource envoy.ListenerTypeURL (M_Listener (inspected_listener name filterChains mutatorFunc)).

Definition NewHTTPListenerWithDefaults (name dolphinSecretNamespace : string)
    (tls : gmap model.TLSSecret (list string)) (mutatorFunc : list ListenerMutator) : XDSResource :=
  NewHTTPListener name dolphinSecretNamespace tls (mutatorFunc ++ [defaultSocketOption]).

Definition NewSNIListener (name : string) (backendsForHost : gmap string (list string))
    (mutatorFunc : list ListenerMutator) : XDSResource :=
  let filterChains :=
    (λ backend, mkFilterChain (Some (toFilterChainMatch (default [] (backendsForHost !! backend))))
       [tcp_proxy_filter "tcp" backend] None) <$> sort_strings (map_keys backendsForHost) in
  marshal_resource envoy.ListenerTypeURL (M_Listener (inspected_listener name filterChains mutatorFunc)).

Definition NewSNIListenerWithDefaults (name : string) (backendsForHost : gmap string (list string))
    (mutatorFunc : list ListenerMutator) : XDSResource :=
  NewSNIListener name backendsForHost (mutatorFunc ++ [defaultSocketOption]).

Definition NewTCPListener (name : string) (port : Z) (cluster : string)
    (mutatorFunc : list ListenerMutator) : XDSResource :=
  let listener := foldl (λ l fn, fn l)
    (mkListener name (Some ("0.0.0.0", u32 port))
       [mkFilterChain None [tcp_proxy_filter "tcp" cluster] None] [] []) mutatorFunc in
  marshal_resource envoy.ListenerTypeURL (M_Listener listener).

Definition NewTCPListenerWithDefaults (name : string) (port : Z) (cluster : string)
    (mutatorFunc : list ListenerMutator) : XDSResource :=
  NewTCPListener name port cluster (mutatorFunc ++ [defaultSocketOption]).

(** ** envoy_cluster.go *)

Definition httpProtocolOptionsType : string := "envoy.extensions.upstreams.http.v3.HttpProtocolOptions".
Definition upstreamTLSType : string := "envoy.transport_sockets.tls".

Inductive HTTPVersionType :=
| HTTPVersionDownstream | HTTPVersionAuto | HTTPVersion1 | HTTPVersion2 | HTTPVersion3.

Abbreviation ClusterMutator := (Cluster → Cluster).

Definition WithClusterLbPolicy (lbPolicy : Z) (c : Cluster) : Cluster :=
  mkCluster (cl_Name c) (cl_Options c) (cl_EdsServiceName c) (cl_ConnectTimeout c) lbPolicy
    (cl_OutlierDetection c) (cl_TransportSocket c).

Definition WithOutlierDetection (splitExternalLocalOriginErrors : bool) (c : Cluster) : Cluster :=
  mkCluster (cl_Name c) (cl_Options c) (cl_EdsServiceName c) (cl_ConnectTimeout c) (cl_LbPolicy c)
    (Some (mkOutlierDetection splitExternalLocalOriginErrors None)) (cl_TransportSocket c).

Definition set_Options (c : Cluster) (o : gmap string (option Any)) : Cluster :=
  mkCluster (cl_Name c) o (cl_EdsServiceName c) (cl_ConnectTimeout c) (cl_LbPolicy c)
    (cl_OutlierDetection c) (cl_TransportSocket c).

Definition WithProtocol (protocolVersion : HTTPVersionType) (c : Cluster) : Cluster :=
  let options := mkHttpProtocolOptions
    match protocolVersion with
    | HTTPVersion1 | HTTPVersionAuto => Some ExplicitHttp1
    | HTTPVersion2 => Some ExplicitHttp2
    | HTTPVersion3 => Some ExplicitHttp3
    | HTTPVersionDownstream => None
    end None in
  set_Options c {[ httpProtocolOptionsType := toAny (M_HttpProtocolOptions options) ]}.

Definition WithConnectionTimeout (seconds : Z) (c : Cluster) : Cluster :=
  mkCluster (cl_Name c) (cl_Options c) (cl_EdsServiceName c) (Some seconds) (cl_LbPolicy c)
    (cl_OutlierDetection c) (cl_TransportSocket c).

(** A missing or nil option, like one that does not unmarshal, leaves the
    cluster as it is. *)
Definition WithIdleTimeout (seconds : Z) (c : Cluster) : Cluster :=
  match cl_Options c !! httpProtocolOptionsType with
  | Some (Some a) =>
      match UnmarshalHttpProtocolOptions a with
      | None => c
      | Some opts =>
          set_Options c (<[httpProtocolOptionsType :=
            toAny (M_HttpProtocolOptions (mkHttpProtocolOptions (hpo_Upstream opts) (Some seconds)))]>
            (cl_Options c))
      end
  | _ => c
  end.

Definition WithUpstreamTLS (secretsNamespace validationSecret sni : string) (c : Cluster) : Cluster :=
  match Marshal (M_UpstreamTlsContext sni (secretsNamespace +:+ "/" +:+ validationSecret)) with
  | None => c
  | Some b =>
      mkCluster (cl_Name c) (cl_Options c) (cl_EdsServiceName c) (cl_ConnectTimeout c) (cl_LbPolicy c)
        (cl_OutlierDetection c)
        (Some (mkTransportSocket upstreamTLSType (mkAny envoy.UpstreamTlsContextURL b)))
  end.

(** The cluster literals, before marshalling. *)
Definition http_cluster (clusterName clusterServiceName : string) (mutationFunc : list ClusterMutator)
  : Cluster :=
  foldl (λ c fn, fn c)
    (mkCluster clusterName
       {[ httpProtocolOptionsType :=
            toAny (M_HttpProtocolOptions (mkHttpProtocolOptions (Some UseDownstreamProtocol) None)) ]}
       (Some clusterServiceName) None 0 None None) mutationFunc.

Definition tcp_cluster (clusterName clusterServiceName : string) (mutationFunc : list ClusterMutator)
  : Cluster :=
  foldl (λ c fn, fn c) (mkCluster clusterName ∅ (Some clusterServiceName) None 0 None None) mutationFunc.

Definition NewHTTPCluster (clusterName clusterServiceName : string)
    (mutationFunc : list ClusterMutator) : XDSResource :=
  marshal_resource envoy.ClusterTypeURL
    (M_Cluster (http_cluster clusterName clusterServiceName mutationFunc)).

Definition NewTCPCluster (clusterName clusterServiceName : string)
    (mutationFunc : list ClusterMutator) : XDSResource :=
  marshal_resource envoy.ClusterTypeURL
    (M_Cluster (tcp_cluster clusterName clusterServiceName mutationFunc)).

(** [Cluster_ROUND_ROBIN] is the value 0. *)
Definition NewTCPClusterWithDefaults (clusterName clusterServiceName : string)
    (mutationFunc : list ClusterMutator) : XDSResource :=
  NewTCPCluster clusterName clusterServiceName
    (mutationFunc ++ [WithConnectionTimeout 5; WithClusterLbPolicy 0; WithOutlierDetection true]).

End Messages.

(** ** Determinism: the order in which Go visits the maps does not show *)

Lemma secret_less_asym a b : secret_less a b = true → secret_less b a = false.
Proof. apply str_ltb_asym. Qed.
Lemma secret_le_trans a b c :
  sorted_le secret_less a b → sorted_le secret_less b c → sorted_le secret_less a c.
Proof. apply str_le_trans. Qed.
#[export] Hint Resolve secret_less_asym secret_le_trans : go.

(** Kubernetes names contain no slash. *)
Definition secret_ok (s : model.TLSSecret) : Prop := ContainsChar (model.sec_Namespace s) "/" = false.

Lemma secret_name_inj a b : secret_ok a → secret_ok b → secret_name a = secret_name b → a = b.
Proof.
  unfold secret_ok, secret_name. destruct a as [n ns], b as [n' ns']. cbn. intros Ha Hb H.
  by apply str_sep_inj in H as [-> ->].
Qed.

Section Determinism.
Context {infra : Infra} {pb : Proto} (r1 r2 : MapRange) (hops : Z).

Lemma orderedSecrets_det m :
  (∀ s, is_Some (m !! s) → secret_ok s) →
  @orderedSecrets r1 m = @orderedSecrets r2 m.
Proof.
  intros Hm. apply sort_stable_unique; eauto with go; [apply map_keys_ranges|].
  intros x y Hx Hy H1 H2. apply secret_name_inj.
  - apply Hm. by apply elem_of_map_keys in Hx.
  - apply Hm. by apply elem_of_map_keys in Hy.
  - by apply str_le_antisym.
Qed.

Lemma sorted_keys_det {A} (m : gmap string A) :
  sort_strings (@map_keys r1 _ _ _ _ m) = sort_strings (@map_keys r2 _ _ _ _ m).
Proof. apply sort_strings_perm, map_keys_ranges. Qed.

(** The only map [newTransportSocket] is given has one key. *)
Lemma map_keys_singleton (r : MapRange) (k : string) :
  @map_keys r _ _ _ _ (<[k := tt]> (∅ : gmap string unit)) = [k].
Proof.
  apply Permutation_length_1_inv. symmetry. rewrite map_keys_perm, map_to_list_insert by done.
  by rewrite map_to_list_empty.
Qed.

Lemma newTransportSocket_det ns secret :
  @newTransportSocket pb r1 ns [secret] = @newTransportSocket pb r2 ns [secret].
Proof. unfold newTransportSocket. cbn [foldl]. by rewrite !map_keys_singleton. Qed.

Lemma httpsFilterChains_det name ns m v4 v6 :
  (∀ s, is_Some (m !! s) → secret_ok s) →
  @httpsFilterChains infra pb r1 name ns m v4 v6 = @httpsFilterChains infra pb r2 name ns m v4 v6.
Proof.
  intros Hm. unfold httpsFilterChains. rewrite (orderedSecrets_det m Hm). case_match; [done|].
  apply mapM_ext. intros secret. unfold secure_chain. by rewrite newTransportSocket_det.
Qed.

Lemma tlsPassthroughFilterChains_det m :
  @tlsPassthroughFilterChains infra pb r1 m = @tlsPassthroughFilterChains infra pb r2 m.
Proof. unfold tlsPassthroughFilterChains. by rewrite sorted_keys_det. Qed.

Lemma newListenerWithDefaults_det name ns http secrets pts v4 v6 fns :
  (∀ s, is_Some (secrets !! s) → secret_ok s) →
  @newListenerWithDefaults infra pb r1 hops name ns http secrets pts v4 v6 fns =
  @newListenerWithDefaults infra pb r2 hops name ns http secrets pts v4 v6 fns.
Proof.
  intros Hm. unfold newListenerWithDefaults, newListener, listener_chains.
  by rewrite httpsFilterChains_det, tlsPassthroughFilterChains_det.
Qed.

End Determinism.

(** ** Theorems *)

(** a TLS filter chain asks for server names exactly when some host name is
    not the star; they are then the host names, sorted and without repeats. *)
Theorem toFilterChainMatch_server_names `{!Infra, !InfraLaws} hostNames :
  let names := fcm_ServerNames (toFilterChainMatch hostNames) in
  strictly_sorted names ∧
  ∀ x, x ∈ names ↔ x ∈ hostNames ∧ ∃ y, y ∈ hostNames ∧ y ≠ "*".
Proof.
  cbn. pose proof (SortedUnique_sorted hostNames) as Hs.
  pose proof (λ x, SortedUnique_elem x hostNames) as He.
  destruct (SortedUnique hostNames) as [|a [|b l]] eqn:E; cbn.
  - split; [constructor|]. set_solver.
  - destruct (String.eqb_spec a "*") as [->|Ha]; cbn.
    + split; [constructor|]. intros x. split; [by intros ?%elem_of_nil|].
      intros (_ & y & Hy & Hne). apply He, list_elem_of_singleton in Hy. done.
    + split; [done|]. intros x. rewrite He. split; [|naive_solver]. intros Hx. split; [done|].
      exists a. split; [apply He; left|done].
  - split; [done|]. intros x. rewrite He. split; [|naive_solver]. intros Hx. split; [done|].
    destruct (decide (a = "*")) as [->|Ha].
    + exists b. split; [apply He; right; left|]. intros ->.
      apply StronglySorted_inv in Hs as [_ Hs]. apply Forall_cons in Hs as [Hs _].
      pose proof (str_ltb_asym _ _ Hs). congruence.
    + exists a. split; [apply He; left|done].
Qed.

(** an HTTP cluster keeps following the downstream protocol when the idle
    timeout is set on it: the options that reach Envoy have both. *)
Theorem http_cluster_options `{!Proto, !ProtoLaws} name svc seconds b :
  Marshal (M_HttpProtocolOptions (mkHttpProtocolOptions (Some UseDownstreamProtocol) None)) = Some b →
  cl_Options (http_cluster name svc
    [WithConnectionTimeout 5; WithIdleTimeout seconds; WithClusterLbPolicy 0; WithOutlierDetection true]) =
  {[ httpProtocolOptionsType :=
       toAny (M_HttpProtocolOptions (mkHttpProtocolOptions (Some UseDownstreamProtocol) (Some seconds))) ]}.
Proof.
  intros Hb. unfold http_cluster. cbn [foldl]. unfold WithIdleTimeout at 1. cbn [cl_Options WithConnectionTimeout].
  unfold toAny at 1. rewrite Hb. rewrite lookup_singleton_eq. rewrite (Unmarshal_Marshal _ _ Hb).
  cbn [cl_Options WithOutlierDetection WithClusterLbPolicy set_Options WithConnectionTimeout hpo_Upstream].
  unfold toAny at 2. rewrite Hb. apply insert_singleton_eq.
Qed.

Lemma toFilterChainMatch_server_names_witness :
  let names := fcm_ServerNames (@toFilterChainMatch reference_infra ["b"; "*"; "b"]) in
  names = ["*"; "b"] ∧ strictly_sorted names ∧
  ∀ x, x ∈ names ↔ x ∈ ["b"; "*"; "b"] ∧ ∃ y, y ∈ ["b"; "*"; "b"] ∧ y ≠ "*".
Proof.
  split; [vm_compute; reflexivity|].
  apply (@toFilterChainMatch_server_names reference_infra reference_infra_laws).
Defined.

Lemma http_cluster_options_witness :
  cl_Options (@http_cluster reference_proto "c" "s"
    [WithConnectionTimeout 5; @WithIdleTimeout reference_proto 60; WithClusterLbPolicy 0; WithOutlierDetection true]) =
  {[ httpProtocolOptionsType :=
       @toAny reference_proto
         (M_HttpProtocolOptions (mkHttpProtocolOptions (Some UseDownstreamProtocol) (Some 60%Z))) ]}.
Proof.
  apply (@http_cluster_options reference_proto reference_proto_laws "c" "s" 60
    (bits (encode (options_code (mkHttpProtocolOptions (Some UseDownstreamProtocol) None))))).
  reflexivity.
Defined.

End listeners.
