(* ===== verification/Translator.v ===== *)
(** * The default translator (src/pkg/model/translation/translator.go)

    From the internal model to a DolphinEnvoyConfig: the backend services, the
    frontend service with its ports, and the Envoy resources (listener, route
    configurations, clusters, TCP listeners).  Go maps are [gmap]s, and every
    [range] over one uses the order of the [MapRange] parameter. *)

From S2P Require Import Prelude GoStrings Model Envoy VirtualHost Listeners.
From Stdlib Require Import Ascii.
Import envoy_api.

Module translation.
Import virtual_host listeners.

Definition secureHost : string := "secure".
Definition insecureHost : string := "insecure".

Record defaultTranslator := mkTranslator {
  t_name : string;
  t_namespace : string;
  t_secretsNamespace : string;
  t_enforceHTTPs : bool;
  t_useProxyProtocol : bool;
  t_hostNameSuffixMatch : bool;
  t_idleTimeoutSeconds : Z;
  t_ipv4Enabled : bool;
  t_ipv6Enabled : bool
}.

(** The parts of [dolphinv1.DolphinEnvoyConfig] that translation sets. *)
Record DService := mkDService { ds_Name : string; ds_Namespace : string; ds_Ports : list string }.
Record ServiceListener := mkServiceListener {
  sl_Name : string; sl_Namespace : string; sl_Ports : slice Z }.
Record OwnerReference := mkOwnerReference {
  or_APIVersion : string; or_Kind : string; or_Name : string; or_UID : string; or_Controller : option bool }.
Record DolphinEnvoyConfig := mkDEC {
  dec_Name : string;
  dec_Namespace : string;
  dec_Labels : gmap string string;
  dec_OwnerReferences : list OwnerReference;
  dec_BackendServices : list DService;
  dec_Services : list ServiceListener;
  dec_Resources : list XDSResource
}.

Definition getClusterServiceName (ns name port : string) : string :=
  ns +:+ "/" +:+ name +:+ ":" +:+ port.

Section Translator.
Context {infra : Infra} {pb : Proto} {range : MapRange}.
Context (hops : Z).

(** ** Backends by namespace, name and port *)

Abbreviation NamePortMap := (gmap string (gmap string (list string))).

Definition merge_backend (m : NamePortMap) (backend : model.Backend) : NamePortMap :=
  match model.b_Port backend with
  | None => m
  | Some port =>
      let namePortMap := default ∅ (m !! model.b_Namespace backend) in
      let ports := SortedUniqs (default [] (namePortMap !! model.b_Name backend) ++
                                [model.BackendPort_GetPort port]) in
      <[model.b_Namespace backend := <[model.b_Name backend := ports]> namePortMap]> m
  end.

Definition mergeBackendsInNamespaceNamePortMap (backends : list model.Backend) (m : NamePortMap)
  : NamePortMap := foldl merge_backend m backends.

Definition merge_http_route (m : NamePortMap) (route : model.HTTPRoute) : NamePortMap :=
  let m := mergeBackendsInNamespaceNamePortMap (model.r_Backends route) m in
  foldl (λ m mirror,
    match model.mir_Backend mirror with
    | Some b => mergeBackendsInNamespaceNamePortMap [b] m
    | None => m
    end) m (model.r_RequestMirrors route).

Definition merge_http (m : NamePortMap) (mo : model.Model) : NamePortMap :=
  foldl (λ m l, foldl merge_http_route m (model.hl_Routes l)) m (model.m_HTTP mo).
Definition merge_tls (m : NamePortMap) (mo : model.Model) : NamePortMap :=
  foldl (λ m l, foldl (λ m r, mergeBackendsInNamespaceNamePortMap (model.tr_Backends r) m) m
                  (model.tl_Routes l)) m (model.m_TLS mo).
Definition merge_tcp (m : NamePortMap) (mo : model.Model) : NamePortMap :=
  foldl (λ m l, foldl (λ m r, mergeBackendsInNamespaceNamePortMap (model.tcpr_Backends r) m) m
                  (model.tcpl_Routes l)) m (model.m_TCP mo).

Definition getNamespaceNamePortsMap (mo : model.Model) : NamePortMap :=
  merge_tcp (merge_tls (merge_http ∅ mo) mo) mo.
Definition getNamespaceNamePortsMapForHTTP (mo : model.Model) : NamePortMap := merge_http ∅ mo.
Definition getNamespaceNamePortsMapForTLS (mo : model.Model) : NamePortMap := merge_tls ∅ mo.
Definition getNamespaceNamePortsMapForTCP (mo : model.Model) : NamePortMap := merge_tcp ∅ mo.

Definition isGRPCService (mo : model.Model) (ns name port : string) : bool :=
  existsb (λ l, existsb (λ r,
    model.r_IsGRPC r && existsb (λ be,
      String.eqb (model.b_Name be) name && String.eqb (model.b_Namespace be) ns &&
      match model.b_Port be with
      | Some p => String.eqb (model.BackendPort_GetPort p) port
      | None => false
      end) (model.r_Backends r)) (model.hl_Routes l)) (model.m_HTTP mo).

(** The nested [range] loops over such a map. *)
Definition services_of (m : NamePortMap) : list DService :=
  map_keys m ≫= λ ns,
    let v := default ∅ (m !! ns) in
    (λ name, mkDService name ns (default [] (v !! name))) <$> map_keys v.

(** Services with the same namespace and name are compared by their first
    port; there are none in a map. *)
Definition service_less (a b : DService) : bool :=
  if negb (String.eqb (ds_Namespace a) (ds_Namespace b)) then str_ltb (ds_Namespace a) (ds_Namespace b)
  else if negb (String.eqb (ds_Name a) (ds_Name b)) then str_ltb (ds_Name a) (ds_Name b)
  else str_ltb (default "" (head (ds_Ports a))) (default "" (head (ds_Ports b))).

Definition getBackendServices (mo : model.Model) : list DService :=
  sort_stable service_less (services_of (getNamespaceNamePortsMap mo)).

(** ** The frontend service *)

Definition add_port (ports : gmap Z unit) (port : Z) : gmap Z unit :=
  if bool_decide (port ≠ 0%Z) then <[u16 port := tt]> ports else ports.

Definition listener_ports (mo : model.Model) : gmap Z unit :=
  let ports := foldl add_port ∅ (model.hl_Port <$> model.m_HTTP mo) in
  let ports := foldl add_port ports (model.tl_Port <$> model.m_TLS mo) in
  foldl add_port ports (model.tcpl_Port <$> model.m_TCP mo).

Definition getServices (d : defaultTranslator) (mo : model.Model) : list ServiceListener :=
  let listenerPorts := sort_stable Z.ltb (map_keys (listener_ports mo)) in
  [mkServiceListener (t_name d) (t_namespace d)
     (if length listenerPorts =? 0 then None else Some listenerPorts)].

(** ** The listener *)

Definition tlsSecretsToHostnames (httpListeners : list model.HTTPListener)
  : gmap model.TLSSecret (list string) :=
  foldl (λ m h, foldl (λ m s, <[s := default [] (m !! s) ++ [model.hl_Hostname h]]> m) m
                  (elems (model.hl_TLS h))) ∅ httpListeners.

Definition add_passthrough (listener : model.TLSListener) (route : model.TLSRoute)
    (m : gmap string tlsPassthroughBackend) (backend : model.Backend)
  : go (gmap string tlsPassthroughBackend) :=
  key ← backend_cluster backend;
  let entry := default emptyPassthrough (m !! key) in
  let hostnames := pt_Hostnames entry ++ model.tr_Hostnames route in
  let statPrefix :=
    match model.tr_Hostnames route with
    | h :: _ => model.tl_Name listener +:+ ":" +:+ h
    | [] => pt_StatPrefix entry
    end in
  Ok (<[key := mkPassthrough hostnames statPrefix]> m).

Definition tlsPassthroughBackendsToHostnames (tlsListeners : list model.TLSListener)
  : go (gmap string tlsPassthroughBackend) :=
  go_foldl (λ m listener,
    go_foldl (λ m route, go_foldl (add_passthrough listener route) m (model.tr_Backends route))
      m (model.tl_Routes listener)) ∅ tlsListeners.

Definition proxy_mutators (d : defaultTranslator) : list (Listener → Listener) :=
  if t_useProxyProtocol d then [WithProxyProtocol] else [].

Definition getListener (d : defaultTranslator) (mo : model.Model) : go (list XDSResource) :=
  if (length (model.m_HTTP mo) =? 0) && (length (model.m_TLS mo) =? 0) then Ok []
  else
    pts ← tlsPassthroughBackendsToHostnames (model.m_TLS mo);
    Ok [newListenerWithDefaults hops "listener" (t_secretsNamespace d) (0 <? length (model.m_HTTP mo))
          (tlsSecretsToHostnames (model.m_HTTP mo)) pts (t_ipv4Enabled d) (t_ipv6Enabled d)
          (proxy_mutators d)].

Definition getHTTPRouteListener (d : defaultTranslator) (mo : model.Model) : list XDSResource :=
  if length (model.m_HTTP mo) =? 0 then []
  else [NewHTTPListenerWithDefaults hops "listener" (t_secretsNamespace d)
          (tlsSecretsToHostnames (model.m_HTTP mo)) (proxy_mutators d)].

Definition getTLSRouteListener (d : defaultTranslator) (mo : model.Model) : go (list XDSResource) :=
  if length (model.m_TLS mo) =? 0 then Ok []
  else
    backendsMap ← go_foldl (λ m h,
      go_foldl (λ m route,
        go_foldl (λ m backend,
          key ← backend_cluster backend;
          Ok (<[key := default [] (m !! key) ++ model.tr_Hostnames route]> m)) m
          (model.tr_Backends route)) m (model.tl_Routes h)) (∅ : gmap string (list string)) (model.m_TLS mo);
    if size backendsMap =? 0 then Ok []
    else Ok [NewSNIListenerWithDefaults "listener" backendsMap (proxy_mutators d)].

(** ** Route configurations *)

(** One iteration of the first loops: a host of a route, on the secure or the
    insecure side. *)
Definition entry_port (l : model.HTTPListener) : string :=
  match model.hl_TLS l with Some _ => secureHost | None => insecureHost end.

Definition route_hosts (l : model.HTTPListener) (r : model.HTTPRoute) : list string :=
  if length (model.r_Hostnames r) =? 0 then [model.hl_Hostname l] else model.r_Hostnames r.

Record HostMaps := mkHostMaps {
  portHostName : gmap string (list string);
  hostNamePortRoutes : gmap string (gmap string (list model.HTTPRoute))
}.

Definition add_host (port : string) (r : model.HTTPRoute) (st : HostMaps) (h : string) : HostMaps :=
  let byPort := default ∅ (hostNamePortRoutes st !! h) in
  mkHostMaps (<[port := default [] (portHostName st !! port) ++ [h]]> (portHostName st))
    (<[h := <[port := default [] (byPort !! port) ++ [r]]> byPort]> (hostNamePortRoutes st)).

Definition host_maps (mo : model.Model) : HostMaps :=
  foldl (λ st l, foldl (λ st r, foldl (add_host (entry_port l) r) st (route_hosts l r)) st
                   (model.hl_Routes l)) (mkHostMaps ∅ ∅) (model.m_HTTP mo).

(** [hostNamePortRoutes[h][port]]. *)
Definition host_routes (st : HostMaps) (h port : string) : option (list model.HTTPRoute) :=
  hostNamePortRoutes st !! h ≫= λ m, m !! port.

Definition host_param (d : defaultTranslator) (h : string) (redirect : bool) (port : Z)
  : VirtualHostParameter := mkVirtualHostParameter [h] redirect (t_hostNameSuffixMatch d) port.

(** The redirecting virtual hosts of the insecure side. *)
Definition redirect_hosts (d : defaultTranslator) (mo : model.Model) (st : HostMaps)
    (hosts : list string) : go (list VirtualHost) :=
  go_map (λ h,
    l0 ← index (model.m_HTTP mo) 0;
    NewVirtualHostWithDefaults (default [] (host_routes st h secureHost))
      (host_param d h true (model.hl_Port l0))) hosts.

(** The virtual hosts of one side; [redirected] are the hosts to skip. *)
Definition plain_hosts (d : defaultTranslator) (mo : model.Model) (st : HostMaps) (port : string)
    (redirected hosts : list string) : go (list VirtualHost) :=
  go_flat_map (λ h,
    if String.eqb port insecureHost && bool_decide (h ∈ redirected) then Ok []
    else match host_routes st h port with
         | None => Ok []
         | Some routes =>
             l0 ← index (model.m_HTTP mo) 0;
             vh ← NewVirtualHostWithDefaults routes (host_param d h false (model.hl_Port l0));
             Ok [vh]
         end) hosts.

Definition vh_less (a b : VirtualHost) : bool := str_ltb (vh_Name a) (vh_Name b).

(** The route configurations of one side, before marshalling. *)
Definition side_configurations (d : defaultTranslator) (mo : model.Model) (st : HostMaps)
    (port : string) : go (list RouteConfiguration) :=
  match portHostName st !! port with
  | None =>
      if String.eqb port insecureHost && (0 <? length (model.m_HTTP mo))
      then Ok [mkRouteConfiguration "listener-insecure" []] else Ok []
  | Some hostNames =>
      let redirected :=
        if String.eqb port insecureHost && t_enforceHTTPs d
        then Unique (default [] (portHostName st !! secureHost)) else [] in
      redirects ← redirect_hosts d mo st redirected;
      plain ← plain_hosts d mo st port redirected (Unique hostNames);
      Ok [mkRouteConfiguration ("listener-" +:+ port) (sort_stable vh_less (redirects ++ plain))]
  end.

Definition route_configurations (d : defaultTranslator) (mo : model.Model)
  : go (list RouteConfiguration) :=
  go_flat_map (side_configurations d mo (host_maps mo)) [insecureHost; secureHost].

Definition getEnvoyHTTPRouteConfiguration (d : defaultTranslator) (mo : model.Model)
  : go (list XDSResource) :=
  rcs ← route_configurations d mo;
  Ok (fmap (M:=list) (λ rc, NewRouteConfiguration (rc_Name rc) (rc_VirtualHosts rc)) rcs).

(** ** Clusters *)

Abbreviation triple := (string * string * string)%type.

(** The three nested loops over namespaces, names and ports. *)
Definition triples (m : NamePortMap) : list triple :=
  map_keys m ≫= λ ns,
    let v := default ∅ (m !! ns) in
    map_keys v ≫= λ name, (λ port, (ns, name, port)) <$> default [] (v !! name).

Definition triple_name (t : triple) : string := let '(ns, name, port) := t in getClusterName ns name port.
Definition triple_service (t : triple) : string :=
  let '(ns, name, port) := t in getClusterServiceName ns name port.

(** The host name given to TLS upstreams: of the last route that has one. *)
Definition upstream_hostname (mo : model.Model) : string :=
  foldl (λ h l, foldl (λ h r, match model.r_Hostnames r with x :: _ => x | [] => h end) h
                  (model.hl_Routes l)) "" (model.m_HTTP mo).

Definition http_mutators (d : defaultTranslator) (mo : model.Model) (t : triple)
  : list (Cluster → Cluster) :=
  [WithConnectionTimeout 5; WithIdleTimeout (t_idleTimeoutSeconds d); WithClusterLbPolicy 0;
   WithOutlierDetection true] ++
  (if String.eqb t.2 "443"
   then [WithUpstreamTLS (t_secretsNamespace d) "example-cert" (upstream_hostname mo)] else []).

Abbreviation cluster_state := (gmap string XDSResource * list string)%type.

Definition add_http_cluster (d : defaultTranslator) (mo : model.Model) (st : cluster_state)
    (t : triple) : cluster_state :=
  (<[triple_name t := NewHTTPCluster (triple_name t) (triple_service t) (http_mutators d mo t)]> st.1,
   st.2 ++ [triple_name t]).

Definition add_tcp_cluster (st : cluster_state) (t : triple) : cluster_state :=
  match st.1 !! triple_name t with
  | Some _ => st
  | None => (<[triple_name t := NewTCPClusterWithDefaults (triple_name t) (triple_service t) []]> st.1,
             st.2 ++ [triple_name t])
  end.

Definition envoyClusters (d : defaultTranslator) (mo : model.Model) : cluster_state :=
  let st := foldl (add_http_cluster d mo) (∅, []) (triples (getNamespaceNamePortsMapForHTTP mo)) in
  let st := foldl add_tcp_cluster st (triples (getNamespaceNamePortsMapForTLS mo)) in
  foldl add_tcp_cluster st (triples (getNamespaceNamePortsMapForTCP mo)).

Definition getClusters (d : defaultTranslator) (mo : model.Model) : list XDSResource :=
  let st := envoyClusters d mo in
  (λ name, default None (st.1 !! name)) <$> sort_strings st.2.

(** ** TCP listeners *)

(** The cluster of a TCP listener: the first backend of the first route that has
    backends; empty when there is none. *)
Fixpoint tcp_cluster_of (routes : list model.TCPRoute) : string :=
  match routes with
  | [] => ""
  | route :: rest =>
      match model.tcpr_Backends route with
      | [] => tcp_cluster_of rest
      | backend :: _ =>
          match model.b_Port backend with
          | Some p => getClusterName (model.b_Namespace backend) (model.b_Name backend)
                        (model.BackendPort_GetPort p)
          | None => ""
          end
      end
  end.

Definition getTCPRouteListeners (mo : model.Model) : list XDSResource :=
  model.m_TCP mo ≫= λ listener,
    let cluster := tcp_cluster_of (model.tcpl_Routes listener) in
    if String.eqb cluster "" then []
    else match NewTCPListenerWithDefaults "tcp-listener" (model.tcpl_Port listener) cluster [] with
         | Some l => [Some l]
         | None => []
         end.

(** ** Translate *)

Definition getResources (d : defaultTranslator) (mo : model.Model) : go (list XDSResource) :=
  listener ← getListener d mo;
  routes ← getEnvoyHTTPRouteConfiguration d mo;
  Ok (listener ++ routes ++ getClusters d mo ++ getTCPRouteListeners mo).

(** [k8s.UseOriginalSourceAddressLabel] is a constant of infra. *)
Context (UseOriginalSourceAddressLabel : string).

Definition Translate (d : defaultTranslator) (mo : model.Model) : go DolphinEnvoyConfig :=
  resources ← getResources d mo;
  Ok (mkDEC (t_name d) (t_namespace d) {[ UseOriginalSourceAddressLabel := "false" ]} []
        (getBackendServices mo) (getServices d mo) resources).

End Translator.

End translation.
