(* ===== verification/TranslatorFacts.v ===== *)
(** * Properties of the default translator

    What [Translate] guarantees: it returns on the models ingestion builds; its
    result does not depend on the order in which Go visits maps; the clusters
    that routes, mirrors, TLS chains and TCP listeners name are all configured;
    and the backend services and ports it lists are those of the model. *)

From S2P Require Import Prelude GoStrings Model Ingestion Envoy VirtualHost Listeners Translator.
From Stdlib Require Import Ascii.
Import envoy_api.

Module translation_facts.
Import virtual_host listeners translation.

(** ** Backends *)

(** The backends of the model, by protocol; HTTP backends include mirrors. *)
Definition http_backends (mo : model.Model) : list model.Backend :=
  model.m_HTTP mo ≫= λ l, model.hl_Routes l ≫= λ r,
    model.r_Backends r ++ omap model.mir_Backend (model.r_RequestMirrors r).
Definition tls_backends (mo : model.Model) : list model.Backend :=
  model.m_TLS mo ≫= λ l, model.tl_Routes l ≫= model.tr_Backends.
Definition tcp_backends (mo : model.Model) : list model.Backend :=
  model.m_TCP mo ≫= λ l, model.tcpl_Routes l ≫= model.tcpr_Backends.

(** A backend with a port, as the triple of its cluster. *)
Definition triple_of (b : model.Backend) : option (string * string * string) :=
  (λ p, (model.b_Namespace b, model.b_Name b, model.BackendPort_GetPort p)) <$> model.b_Port b.

Lemma backend_cluster_triple b c :
  backend_cluster b = Ok c ↔ ∃ t, triple_of b = Some t ∧ triple_name t = c.
Proof.
  unfold backend_cluster, backend_port, triple_of. destruct (model.b_Port b); cbn; naive_solver.
Qed.

Lemma foldl_bind {A B S} (f : S → B → S) (g : A → list B) s l :
  foldl (λ s x, foldl f s (g x)) s l = foldl f s (l ≫= g).
Proof. revert s. induction l as [|x l IH]; intros s; [done|]. cbn [foldl]. by rewrite bind_cons, foldl_app, IH. Qed.

Lemma foldl_ext' {A S} (f g : S → A → S) s l : (∀ s x, f s x = g s x) → foldl f s l = foldl g s l.
Proof. intros H. revert s. induction l as [|x l IH]; intros s; [done|]. cbn. by rewrite H, IH. Qed.

Section Maps.
Context {infra : Infra} {laws : InfraLaws}.
Abbreviation NamePortMap := (gmap string (gmap string (list string))).

Lemma merge_http_backends m mo : merge_http m mo = foldl merge_backend m (http_backends mo).
Proof.
  unfold merge_http, http_backends. rewrite <-foldl_bind. apply foldl_ext'. intros s l.
  rewrite <-foldl_bind. apply foldl_ext'. intros s' r. rewrite foldl_app.
  unfold merge_http_route, mergeBackendsInNamespaceNamePortMap.
  generalize (foldl merge_backend s' (model.r_Backends r)) as k.
  induction (model.r_RequestMirrors r) as [|x ms IH]; intros k; [done|]. cbn.
  destruct (model.mir_Backend x); cbn; apply IH.
Qed.

Lemma merge_tls_backends m mo : merge_tls m mo = foldl merge_backend m (tls_backends mo).
Proof.
  unfold merge_tls, tls_backends. rewrite <-foldl_bind. apply foldl_ext'. intros s l.
  by rewrite <-foldl_bind.
Qed.

Lemma merge_tcp_backends m mo : merge_tcp m mo = foldl merge_backend m (tcp_backends mo).
Proof.
  unfold merge_tcp, tcp_backends. rewrite <-foldl_bind. apply foldl_ext'. intros s l.
  by rewrite <-foldl_bind.
Qed.

(** The ports of a service in the map. *)
Definition ports_of (m : NamePortMap) (ns name : string) : list string :=
  default [] (default ∅ (m !! ns) !! name).

(** The invariant of such maps: services have ports, sorted without repeats. *)
Definition ports_ok (m : NamePortMap) : Prop :=
  ∀ ns v name ps, m !! ns = Some v → v !! name = Some ps → strictly_sorted ps ∧ ps ≠ [].

Lemma merge_backend_ok m b : ports_ok m → ports_ok (merge_backend m b).
Proof using laws.
  intros Hm. unfold merge_backend. destruct (model.b_Port b) as [p|]; [|done].
  intros ns v name ps. rewrite lookup_insert. case_decide as Hns; [|apply Hm].
  intros [= <-]. rewrite lookup_insert. case_decide as Hn.
  - intros [= <-]. split; [apply SortedUniqs_sorted|]. intros Hnil.
    assert (Hin : model.BackendPort_GetPort p ∈ ([] : list string)); [|by apply elem_of_nil in Hin].
    rewrite <-Hnil. apply SortedUniqs_elem. set_solver.
  - destruct (m !! model.b_Namespace b) as [v|] eqn:Ev; cbn; [|by rewrite lookup_empty].
    intros. by eapply Hm.
Qed.

Lemma merge_backends_ok bs m : ports_ok m → ports_ok (foldl merge_backend m bs).
Proof using laws. revert m. induction bs as [|b bs IH]; intros m Hm; [done|]. by apply IH, merge_backend_ok. Qed.

Lemma ports_ok_empty : ports_ok ∅.
Proof. intros ns v name ps H. by rewrite lookup_empty in H. Qed.

Lemma ports_of_merge m b ns name p :
  p ∈ ports_of (merge_backend m b) ns name ↔
  p ∈ ports_of m ns name ∨ triple_of b = Some (ns, name, p).
Proof using laws.
  unfold merge_backend, triple_of, ports_of. destruct (model.b_Port b) as [q|]; cbn; [|naive_solver].
  rewrite lookup_insert. case_decide as Hns; cbn; [|naive_solver]. subst ns.
  rewrite lookup_insert. case_decide as Hn; cbn; [|naive_solver]. subst name.
  rewrite SortedUniqs_elem, elem_of_app, list_elem_of_singleton. naive_solver.
Qed.

Lemma ports_of_backends bs m ns name p :
  p ∈ ports_of (foldl merge_backend m bs) ns name ↔
  p ∈ ports_of m ns name ∨ ∃ b, b ∈ bs ∧ triple_of b = Some (ns, name, p).
Proof using laws.
  revert m. induction bs as [|b bs IH]; intros m; cbn [foldl].
  - split; [by left|]. by intros [?|(? & ?%elem_of_nil & _)].
  - rewrite IH, ports_of_merge. setoid_rewrite elem_of_cons. naive_solver.
Qed.

Lemma ports_of_empty ns name p : p ∉ ports_of ∅ ns name.
Proof. unfold ports_of. rewrite lookup_empty. cbn. rewrite lookup_empty. cbn. by intros ?%elem_of_nil. Qed.

Section Range.
Context {range : MapRange}.

Lemma elem_of_triples m ns name p : (ns, name, p) ∈ triples m ↔ p ∈ ports_of m ns name.
Proof using Type.
  unfold triples, ports_of. rewrite list_elem_of_bind. split.
  - intros (ns' & Hin & Hns). apply list_elem_of_bind in Hin as (name' & Hin & _).
    apply list_elem_of_fmap in Hin as (p' & Heq & Hp). by simplify_eq.
  - intros Hp. exists ns. destruct (m !! ns) as [v|] eqn:Ev; cbn in *.
    + split; [|apply elem_of_map_keys; by rewrite Ev]. apply list_elem_of_bind. exists name.
      split; [by apply list_elem_of_fmap_2|]. apply elem_of_map_keys.
      destruct (v !! name); [by eexists|by apply elem_of_nil in Hp].
    + rewrite lookup_empty in Hp. by apply elem_of_nil in Hp.
Qed.

Lemma NoDup_bind' {A B} (f : A → list B) l :
  NoDup l → (∀ x, x ∈ l → NoDup (f x)) →
  (∀ x y z, x ∈ l → y ∈ l → z ∈ f x → z ∈ f y → x = y) → NoDup (l ≫= f).
Proof.
  induction 1 as [|x l Hx Hl IH]; intros Hf Hd; [constructor|]. rewrite bind_cons.
  apply NoDup_app. split_and!; [apply Hf; left| |].
  - intros z Hz (y & Hzy & Hy)%list_elem_of_bind.
    assert (x = y) as ->; [|done]. apply (Hd x y z); [left|by right|done..].
  - apply IH; intros; [apply Hf; by right|]. eapply Hd; [by right|by right|done..].
Qed.

Lemma NoDup_triples m : ports_ok m → NoDup (triples m).
Proof using Type.
  intros Hm. apply NoDup_bind'; [apply NoDup_map_keys|..].
  - intros ns Hns%elem_of_map_keys. destruct (m !! ns) as [v|] eqn:Ev; [cbn|by destruct Hns].
    apply NoDup_bind'; [apply NoDup_map_keys|..].
    + intros name Hname%elem_of_map_keys. destruct (v !! name) as [ps|] eqn:Eps; [cbn|by destruct Hname].
      apply NoDup_fmap_2; [by intros ? ? [=]|]. by apply strictly_sorted_NoDup, (Hm ns v name).
    + intros x y z _ _ (p & -> & _)%list_elem_of_fmap (p' & Heq & _)%list_elem_of_fmap. congruence.
  - intros x y z _ _ (n & Hz & _)%list_elem_of_bind (n' & Hz' & _)%list_elem_of_bind.
    apply list_elem_of_fmap in Hz as (p & -> & _), Hz' as (p' & Heq & _). congruence.
Qed.

End Range.
End Maps.

(** ** Clusters *)

Section Clusters.
Context {infra : Infra} {pb : Proto}.
Context (d : defaultTranslator) (mo : model.Model).

(** The cluster resource named [c]. *)
Definition is_cluster (c : string) (v : XDSResource) : Prop :=
  ∃ cl, cl_Name cl = c ∧ v = marshal_resource envoy.ClusterTypeURL (M_Cluster cl).

Lemma http_cluster_named t :
  is_cluster (triple_name t) (NewHTTPCluster (triple_name t) (triple_service t) (http_mutators d mo t)).
Proof.
  eexists. split; [|reflexivity]. unfold http_cluster, http_mutators.
  rewrite foldl_app. cbn [foldl].
  assert (Hidle : ∀ s c, cl_Name (WithIdleTimeout s c) = cl_Name c)
    by (intros; unfold WithIdleTimeout; by repeat case_match).
  assert (Htls : ∀ x y z c, cl_Name (WithUpstreamTLS x y z c) = cl_Name c)
    by (intros; unfold WithUpstreamTLS; by repeat case_match).
  destruct (String.eqb t.2 "443"); cbn [foldl]; rewrite ?Htls; cbn [cl_Name WithOutlierDetection
    WithClusterLbPolicy]; by rewrite Hidle.
Qed.

Lemma tcp_cluster_named t :
  is_cluster (triple_name t) (NewTCPClusterWithDefaults (triple_name t) (triple_service t) []).
Proof. eexists. split; [|reflexivity]. done. Qed.

(** The invariant of the three loops; [l] are the triples seen. *)
Record clusters_inv (l : list (string * string * string)) (st : gmap string XDSResource * list string)
  : Prop := {
  ci_names : ∀ c, c ∈ st.2 ↔ ∃ t, t ∈ l ∧ triple_name t = c;
  ci_bound : ∀ c, c ∈ st.2 ↔ is_Some (st.1 !! c);
  ci_named : ∀ c v, st.1 !! c = Some v → is_cluster c v
}.

Lemma clusters_inv_add l st t v :
  clusters_inv l st → is_cluster (triple_name t) v →
  clusters_inv (l ++ [t]) (<[triple_name t := v]> st.1, st.2 ++ [triple_name t]).
Proof.
  intros [H1 H2 H3] Hv. split; cbn.
  - intros c. rewrite elem_of_app, list_elem_of_singleton, H1. setoid_rewrite elem_of_app.
    setoid_rewrite list_elem_of_singleton. naive_solver.
  - intros c. rewrite elem_of_app, list_elem_of_singleton, H2, lookup_insert_is_Some. destruct (decide (triple_name t = c)); naive_solver.
  - intros c w. rewrite lookup_insert. case_decide as E; [by intros [= <-]; subst|apply H3].
Qed.

Lemma clusters_inv_http l st t :
  clusters_inv l st → clusters_inv (l ++ [t]) (add_http_cluster d mo st t).
Proof. intros H. apply clusters_inv_add; [done|apply http_cluster_named]. Qed.

Lemma clusters_inv_tcp l st t : clusters_inv l st → clusters_inv (l ++ [t]) (add_tcp_cluster st t).
Proof.
  intros H. unfold add_tcp_cluster. destruct (st.1 !! triple_name t) eqn:E.
  - destruct H as [H1 H2 H3]. split; [|done..]. intros c. rewrite H1. setoid_rewrite elem_of_app.
    setoid_rewrite list_elem_of_singleton. split; [naive_solver|]. intros (t' & [?| ->] & <-); [naive_solver|].
    apply H1, H2. by rewrite E.
  - apply clusters_inv_add; [done|apply tcp_cluster_named].
Qed.

Lemma foldl_inv {A S} (I : list A → S → Prop) (f : S → A → S) l0 s l :
  (∀ k s x, I k s → I (k ++ [x]) (f s x)) → I l0 s → I (l0 ++ l) (foldl f s l).
Proof.
  intros Hf. revert l0 s. induction l as [|x l IH]; intros l0 s Hs; cbn; [by rewrite app_nil_r|].
  rewrite cons_middle, (assoc_L (++)). by apply IH, Hf.
Qed.

Context {range : MapRange}.

(** All the triples, in the order of the loops. *)
Definition all_triples : list (string * string * string) :=
  (triples (getNamespaceNamePortsMapForHTTP mo) ++ triples (getNamespaceNamePortsMapForTLS mo)) ++
  triples (getNamespaceNamePortsMapForTCP mo).

Lemma envoyClusters_inv : clusters_inv all_triples (envoyClusters d mo).
Proof.
  unfold envoyClusters, all_triples.
  apply (foldl_inv clusters_inv); [intros; by apply clusters_inv_tcp|].
  apply (foldl_inv clusters_inv); [intros; by apply clusters_inv_tcp|].
  apply (foldl_inv clusters_inv _ []); [intros; by apply clusters_inv_http|].
  split; cbn; [set_solver| |by intros c v; rewrite lookup_empty].
  intros c. rewrite lookup_empty. split; [by intros ?%elem_of_nil|by intros [? ?]].
Qed.

Lemma getClusters_named c :
  c ∈ (envoyClusters d mo).2 → ∃ v, is_cluster c v ∧ v ∈ getClusters d mo.
Proof.
  destruct envoyClusters_inv as [_ H2 H3]. intros Hc. destruct (proj1 (H2 c) Hc) as [v Hv].
  exists v. split; [by apply H3|]. unfold getClusters. cbv zeta. apply list_elem_of_fmap.
  exists c. rewrite Hv. split; [done|]. by apply elem_of_sort_strings.
Qed.

Lemma elem_of_all_triples `{!InfraLaws} t :
  t ∈ all_triples ↔ ∃ b, b ∈ http_backends mo ++ tls_backends mo ++ tcp_backends mo ∧ triple_of b = Some t.
Proof.
  destruct t as [[ns name] p]. unfold all_triples. rewrite !elem_of_app, !elem_of_triples.
  unfold getNamespaceNamePortsMapForHTTP, getNamespaceNamePortsMapForTLS, getNamespaceNamePortsMapForTCP.
  rewrite merge_http_backends, merge_tls_backends, merge_tcp_backends, !ports_of_backends.
  pose proof (ports_of_empty ns name p). setoid_rewrite elem_of_app. setoid_rewrite elem_of_app.
  naive_solver.
Qed.

(** Every backend of the model with a port has its cluster. *)
Lemma backend_has_cluster `{!InfraLaws} b c :
  b ∈ http_backends mo ++ tls_backends mo ++ tcp_backends mo → backend_cluster b = Ok c →
  ∃ v, is_cluster c v ∧ v ∈ getClusters d mo.
Proof.
  intros Hb (t & Ht & Hc)%backend_cluster_triple. apply getClusters_named.
  apply (ci_names _ _ envoyClusters_inv). exists t. split; [|done]. apply elem_of_all_triples. by exists b.
Qed.

End Clusters.

(** ** Hosts and their routes *)

(** The (side, host, route) entries of the model, in the order of the loops. *)
Definition entry := (string * string * model.HTTPRoute)%type.
Definition entries (mo : model.Model) : list entry :=
  model.m_HTTP mo ≫= λ l, model.hl_Routes l ≫= λ r, (λ h, (entry_port l, h, r)) <$> route_hosts l r.

Definition add_entry (st : HostMaps) (e : entry) : HostMaps := add_host e.1.1 e.2 st e.1.2.

Lemma host_maps_entries mo : host_maps mo = foldl add_entry (mkHostMaps ∅ ∅) (entries mo).
Proof.
  unfold host_maps, entries. rewrite <-foldl_bind. apply foldl_ext'. intros st l.
  rewrite <-foldl_bind. apply foldl_ext'. intros st' r. generalize (route_hosts l r) as hs.
  intros hs. revert st'. induction hs as [|h hs IH]; intros st'; [done|]. cbn. by rewrite IH.
Qed.

Definition nonempty {A} (l : list A) : option (list A) := match l with [] => None | _ => Some l end.

Lemma nonempty_snoc {A} (l : list A) x : nonempty (l ++ [x]) = Some (default [] (nonempty l) ++ [x]).
Proof. by destruct l. Qed.

(** The hosts of a side, and the routes of a host on a side. *)
Definition side_hosts (es : list entry) (port : string) : list string :=
  (λ e, e.1.2) <$> filter (λ e, e.1.1 = port) es.
Definition side_routes (es : list entry) (h port : string) : list model.HTTPRoute :=
  (λ e, e.2) <$> filter (λ e, e.1 = (port, h)) es.

Lemma side_hosts_snoc es p h r port :
  side_hosts (es ++ [(p, h, r)]) port = side_hosts es port ++ if decide (p = port) then [h] else [].
Proof.
  unfold side_hosts. rewrite filter_app, fmap_app. f_equal.
  case_decide; [by rewrite filter_cons_True|by rewrite filter_cons_False].
Qed.

Lemma side_routes_snoc es p h r h' port :
  side_routes (es ++ [(p, h, r)]) h' port =
  side_routes es h' port ++ if decide ((p, h) = (port, h')) then [r] else [].
Proof.
  unfold side_routes. rewrite filter_app, fmap_app. f_equal.
  case_decide; [by rewrite filter_cons_True|by rewrite filter_cons_False].
Qed.

Lemma host_maps_spec es :
  let st := foldl add_entry (mkHostMaps ∅ ∅) es in
  (∀ port, portHostName st !! port = nonempty (side_hosts es port)) ∧
  (∀ h port, host_routes st h port = nonempty (side_routes es h port)).
Proof.
  induction es as [|[[p h] r] es [IH1 IH2]] using rev_ind.
  { split; intros *; unfold host_routes; cbn; by rewrite lookup_empty. }
  cbv zeta in *. rewrite foldl_app. cbn [foldl]. set (st := foldl add_entry _ es) in *.
  unfold add_entry, add_host. cbn [fst snd portHostName hostNamePortRoutes]. split.
  - intros port. rewrite side_hosts_snoc, lookup_insert, IH1.
    case_decide as E; subst; [by rewrite nonempty_snoc|by rewrite app_nil_r, IH1].
  - intros h' port. unfold host_routes. cbn [hostNamePortRoutes].
    rewrite side_routes_snoc, lookup_insert. specialize (IH2 h' port). unfold host_routes in IH2.
    destruct (decide (h = h')) as [->|Eh]; cbn [mbind option_bind].
    + rewrite lookup_insert. destruct (decide (p = port)) as [->|Ep].
      * rewrite decide_True, nonempty_snoc, <-IH2 by done.
        by destruct (hostNamePortRoutes st !! h').
      * rewrite decide_False, app_nil_r, <-IH2 by congruence.
        by destruct (hostNamePortRoutes st !! h').
    + by rewrite decide_False, app_nil_r, <-IH2 by congruence.
Qed.

Lemma elem_of_entries mo p h r :
  (p, h, r) ∈ entries mo → ∃ l, l ∈ model.m_HTTP mo ∧ r ∈ model.hl_Routes l ∧ h ∈ route_hosts l r ∧ p = entry_port l.
Proof.
  intros (l & Hin & Hl)%list_elem_of_bind. apply list_elem_of_bind in Hin as (r' & Hin & Hr).
  apply list_elem_of_fmap in Hin as (h' & Heq & Hh). simplify_eq. eauto 10.
Qed.

Lemma elem_of_side_routes mo h port r :
  r ∈ side_routes (entries mo) h port → ∃ l, l ∈ model.m_HTTP mo ∧ r ∈ model.hl_Routes l.
Proof.
  intros ([[p h'] r'] & -> & [_ Hin]%list_elem_of_filter)%list_elem_of_fmap.
  apply elem_of_entries in Hin as (l & ? & ? & _). by exists l.
Qed.

(** The routes are routes of the model's HTTP listeners. *)
Definition model_routes (mo : model.Model) (rs : list model.HTTPRoute) : Prop :=
  ∀ r, r ∈ rs → ∃ l, l ∈ model.m_HTTP mo ∧ r ∈ model.hl_Routes l.

Lemma referenced_backend mo rs c :
  model_routes mo rs → referenced rs c → ∃ b, b ∈ http_backends mo ∧ backend_cluster b = Ok c.
Proof.
  intros Hrs (r & b & Hr & Hb & Hc). exists b. split; [|done].
  destruct (Hrs r Hr) as (l & Hl & Hrl).
  apply list_elem_of_bind. exists l. split; [|done]. apply list_elem_of_bind. exists r. split; [|done].
  apply elem_of_app. destruct Hb as [?|(m & Hm & Hmb)]; [by left|right].
  apply list_elem_of_omap. by exists m.
Qed.

Section Routes.
Context {infra : Infra} {pb : Proto}.
Context (d : defaultTranslator) (mo : model.Model).

(** The virtual hosts of a side come from [NewVirtualHost] on routes of the
    model, with the host as their only name. *)
Definition from_routes (vh : VirtualHost) : Prop :=
  ∃ rs h redirect port, NewVirtualHost rs (host_param d h redirect port) = Ok vh ∧
    model_routes mo rs.

Lemma host_routes_model h port rs :
  host_routes (host_maps mo) h port = Some rs → model_routes mo rs.
Proof.
  rewrite host_maps_entries, (proj2 (host_maps_spec (entries mo))). unfold nonempty.
  intros H r Hr. destruct (side_routes (entries mo) h port) eqn:E; [done|]. injection H as <-.
  rewrite <-E in Hr. by eapply elem_of_side_routes.
Qed.

Lemma route_configurations_from rcs rc vh :
  route_configurations d mo = Ok rcs → rc ∈ rcs → vh ∈ rc_VirtualHosts rc → from_routes vh.
Proof.
  intros H Hrc Hvh. eapply elem_of_go_flat_map in Hrc as (port & cs & _ & Hside & Hrc); [|exact H].
  unfold side_configurations in Hside. destruct (portHostName _ !! port); cbn zeta in Hside.
  - go_inv. apply list_elem_of_singleton in Hrc as ->. cbn in Hvh.
    rewrite elem_of_sort_stable, elem_of_app in Hvh. destruct Hvh as [Hvh|Hvh].
    + eapply elem_of_go_map in Hvh as (h & _ & Hh); [|exact E]. cbn beta in Hh. go_inv.
      do 4 eexists. split; [exact Hh|].
      destruct (host_routes (host_maps mo) h secureHost) eqn:Er; cbn; [by eapply host_routes_model|].
      by intros r ?%elem_of_nil.
    + eapply elem_of_go_flat_map in Hvh as (h & zs & _ & Hh & Hz); [|exact E0]. cbn beta in Hh.
      case_match; [go_inv; by apply elem_of_nil in Hz|].
      destruct (host_routes (host_maps mo) h port) eqn:Er; go_inv; [|by apply elem_of_nil in Hz].
      apply list_elem_of_singleton in Hz as ->. do 4 eexists. split; [eassumption|].
      by eapply host_routes_model.
  - case_match; go_inv; [|by apply elem_of_nil in Hrc].
    apply list_elem_of_singleton in Hrc as ->. by apply elem_of_nil in Hvh.
Qed.

End Routes.

(** ** TLS and TCP *)

(** The keys of the passthrough map are clusters of TLS backends. *)
Definition keys_from (mo : model.Model) (m : gmap string tlsPassthroughBackend) : Prop :=
  ∀ key, is_Some (m !! key) → ∃ b, b ∈ tls_backends mo ∧ backend_cluster b = Ok key.

Lemma passthrough_keys mo m :
  tlsPassthroughBackendsToHostnames (model.m_TLS mo) = Ok m → keys_from mo m.
Proof.
  intros H. refine (go_foldl_inv (keys_from mo) _ _ _ _ _ _ H); [|intros m0 l m1 Hl H0 H1].
  { intros key. rewrite lookup_empty. by intros [? ?]. }
  refine (go_foldl_inv (keys_from mo) _ _ _ _ H0 _ H1). intros m2 r m3 Hr H2 H3.
  refine (go_foldl_inv (keys_from mo) _ _ _ _ H2 _ H3). intros m4 b m5 Hb H4 H5 key.
  unfold add_passthrough in H5. go_inv. rewrite lookup_insert_is_Some.
  intros [<-|[_ ?]]; [|by apply H4].
  exists b. split; [|done]. apply list_elem_of_bind. exists l. split; [|done].
  apply list_elem_of_bind. by exists r.
Qed.

Lemma yields_passthrough mo :
  model.model_ok mo → yields (tlsPassthroughBackendsToHostnames (model.m_TLS mo)) (λ _, True).
Proof.
  intros Hok. apply yields_foldl; [done|]. eapply Forall_impl; [exact (model.ok_TLS _ Hok)|].
  intros l Hl m _. apply yields_foldl; [done|]. eapply Forall_impl; [exact Hl|].
  intros r Hr m' _. apply yields_foldl; [done|]. eapply Forall_impl; [exact Hr|].
  intros b Hb m'' _. unfold add_passthrough.
  eapply yields_bind; [by apply yields_backend_cluster|]. intros. by apply yields_Ok.
Qed.

Lemma tcp_cluster_backend routes :
  tcp_cluster_of routes ≠ "" →
  ∃ r b, r ∈ routes ∧ b ∈ model.tcpr_Backends r ∧ backend_cluster b = Ok (tcp_cluster_of routes).
Proof.
  induction routes as [|r routes IH]; cbn; [done|].
  destruct (model.tcpr_Backends r) as [|b bs] eqn:E.
  - intros H. destruct (IH H) as (r' & b & ? & ? & ?). exists r', b. split_and!; [by right|done..].
  - destruct (model.b_Port b) as [p|] eqn:Ep; [|done]. intros _. exists r, b. split_and!; [by left|rewrite E; by left|].
    unfold backend_cluster, backend_port. by rewrite Ep.
Qed.

(** ** Totality *)

Section Totality.
Context {infra : Infra} {pb : Proto} {range : MapRange}.
Context (hops : Z) (label : string) (d : defaultTranslator) (mo : model.Model).

Lemma yields_NewVirtualHost rs h redirect port :
  Forall model.route_ok rs → yields (NewVirtualHostWithDefaults rs (host_param d h redirect port)) (λ _, True).
Proof.
  intros Hok. unfold NewVirtualHostWithDefaults, NewVirtualHost. apply yields_bind with (Forall is_Some).
  { case_match; [apply yields_envoyHTTPSRoutes|]. rewrite envoyHTTPRoutes_grouped.
    by apply yields_grouped_routes. }
  intros us Hus. eapply yields_bind; [by apply yields_sort_routes|]. intros l _. cbn.
  destruct (String.eqb h wildCard); by apply yields_Ok.
Qed.

Lemma model_routes_ok rs : model.model_ok mo → model_routes mo rs → Forall model.route_ok rs.
Proof.
  intros Hok Hrs. apply Forall_forall. intros r Hr. destruct (Hrs r Hr) as (l & Hl & Hrl).
  eapply Forall_forall in Hl; [|exact (model.ok_HTTP _ Hok)]. by eapply Forall_forall in Hrl; [|exact Hl].
Qed.

Lemma side_hosts_listeners port hs :
  portHostName (host_maps mo) !! port = Some hs → ∃ l0, index (model.m_HTTP mo) 0 = Ok l0.
Proof.
  rewrite host_maps_entries, (proj1 (host_maps_spec (entries mo))). unfold entries.
  destruct (model.m_HTTP mo) as [|l0 ls]; [done|]. by exists l0.
Qed.

Lemma yields_side port :
  model.model_ok mo → yields (side_configurations d mo (host_maps mo) port) (Forall (λ _, True)).
Proof.
  intros Hok. unfold side_configurations. destruct (portHostName _ !! port) as [hs|] eqn:Ep;
    [|case_match; apply yields_Ok; by repeat constructor].
  destruct (side_hosts_listeners _ _ Ep) as [l0 Hl0]. cbv zeta.
  apply yields_bind with (Forall (λ _, True)).
  { apply yields_map, Forall_true. intros h. rewrite Hl0. cbn [mbind go_mbind].
    apply yields_NewVirtualHost.
    destruct (host_routes (host_maps mo) h secureHost) eqn:Er; [|constructor].
    by eapply model_routes_ok, host_routes_model. }
  intros redirects _. apply yields_bind with (Forall (λ _, True)).
  { apply yields_flat_map, Forall_true. intros h. case_match; [by apply yields_Ok|].
    destruct (host_routes (host_maps mo) h port) eqn:Er; [|by apply yields_Ok].
    rewrite Hl0. cbn [mbind go_mbind]. eapply yields_bind.
    - apply yields_NewVirtualHost. by eapply model_routes_ok, host_routes_model.
    - intros vh _. apply yields_Ok. by repeat constructor. }
  intros plain _. apply yields_Ok. by repeat constructor.
Qed.

Lemma yields_Translate : model.model_ok mo → yields (Translate hops label d mo) (λ _, True).
Proof.
  intros Hok. apply yields_bind with (λ _, True); [|intros; by apply yields_Ok].
  unfold getResources. apply yields_bind with (λ _, True).
  { unfold getListener. case_match; [by apply yields_Ok|].
    eapply yields_bind; [by apply yields_passthrough|]. intros. by apply yields_Ok. }
  intros ls _. apply yields_bind with (λ _, True); [|intros; by apply yields_Ok].
  apply yields_bind with (Forall (λ _, True)); [|intros; by apply yields_Ok].
  apply yields_flat_map, Forall_forall. intros port _. by apply yields_side.
Qed.

End Totality.

(** ** Orders *)

(** Lexicographic order on lists of strings of one length. *)
Fixpoint slex (k1 k2 : list string) : bool :=
  match k1, k2 with
  | x :: k1', y :: k2' => if negb (String.eqb x y) then str_ltb x y else slex k1' k2'
  | _, _ => false
  end.

Lemma slex_asym k1 k2 : slex k1 k2 = true → slex k2 k1 = false.
Proof.
  revert k2. induction k1 as [|x k1 IH]; intros [|y k2]; cbn [slex]; try done.
  rewrite (String.eqb_sym y x). destruct (String.eqb x y); cbn [negb]; [apply IH|apply str_ltb_asym].
Qed.

Lemma slex_le_trans k1 k2 k3 :
  length k1 = length k2 → length k2 = length k3 →
  slex k2 k1 = false → slex k3 k2 = false → slex k3 k1 = false.
Proof.
  revert k2 k3. induction k1 as [|x k1 IH]; intros [|y k2] [|z k3] H1 H2; try done. cbn [slex].
  destruct (String.eqb_spec y x), (String.eqb_spec z y), (String.eqb_spec z x); cbn [negb]; subst;
    try done; try (intros A B; by eapply str_le_trans).
  - apply IH; cbn in *; lia.
  - intros A B. exfalso. by destruct n; apply str_le_antisym.
Qed.

Lemma slex_eq k1 k2 :
  length k1 = length k2 → slex k1 k2 = false → slex k2 k1 = false → k1 = k2.
Proof.
  revert k2. induction k1 as [|x k1 IH]; intros [|y k2] Hlen; try done. cbn [slex].
  rewrite (String.eqb_sym y x). destruct (String.eqb_spec x y) as [->|Hne]; cbn [negb]; intros A B.
  - f_equal. apply IH; [|done..]. cbn in Hlen. lia.
  - destruct Hne. by apply str_le_antisym.
Qed.

Definition service_key (s : DService) : list string :=
  [ds_Namespace s; ds_Name s; default "" (head (ds_Ports s))].

Lemma service_less_slex a b : service_less a b = slex (service_key a) (service_key b).
Proof.
  unfold service_less, service_key. cbn [slex]. repeat (case_match; [done|]).
  match goal with |- str_ltb ?x ?y = _ => destruct (String.eqb_spec x y) as [->|] end; [|done].
  apply str_ltb_irrefl.
Qed.

Lemma service_less_asym a b : service_less a b = true → service_less b a = false.
Proof. rewrite !service_less_slex. apply slex_asym. Qed.
Lemma service_le_trans a b c :
  sorted_le service_less a b → sorted_le service_less b c → sorted_le service_less a c.
Proof. cbn. rewrite !service_less_slex. by apply slex_le_trans. Qed.

Lemma Zltb_asym a b : Z.ltb a b = true → Z.ltb b a = false.
Proof. rewrite Z.ltb_lt, Z.ltb_ge. lia. Qed.
Lemma Zle_trans' a b c : sorted_le Z.ltb a b → sorted_le Z.ltb b c → sorted_le Z.ltb a c.
Proof. cbn. rewrite !Z.ltb_ge. lia. Qed.
#[local] Hint Resolve service_less_asym service_le_trans Zltb_asym Zle_trans' : go.

(** ** Determinism *)

Lemma bind_Permutation' {A B} (f g : A → list B) l1 l2 :
  l1 ≡ₚ l2 → (∀ x, f x ≡ₚ g x) → l1 ≫= f ≡ₚ l2 ≫= g.
Proof.
  intros Hl Hf. trans (l2 ≫= f); [by rewrite Hl|].
  clear Hl l1. induction l2 as [|x l IH]; [done|]. rewrite !bind_cons. by rewrite Hf, IH.
Qed.

Definition colon_free (s : string) : Prop := ContainsChar s ":" = false.

(** Kubernetes names have no colon and no slash. *)
Record names_ok (mo : model.Model) : Prop := {
  no_backends : ∀ b, b ∈ http_backends mo ++ tls_backends mo ++ tcp_backends mo →
    colon_free (model.b_Namespace b) ∧ colon_free (model.b_Name b);
  no_secrets : ∀ l s, l ∈ model.m_HTTP mo → s ∈ elems (model.hl_TLS l) → secret_ok s
}.

Definition triple_ok (t : string * string * string) : Prop := colon_free t.1.1 ∧ colon_free t.1.2.

Lemma triple_name_inj t1 t2 :
  triple_ok t1 → triple_ok t2 → triple_name t1 = triple_name t2 → t1 = t2.
Proof.
  destruct t1 as [[ns1 n1] p1], t2 as [[ns2 n2] p2]. intros [H1 H2] [H3 H4] H. cbn in *.
  unfold getClusterName in H. apply (str_sep_inj ":") in H as [-> H]; [|done..].
  by apply (str_sep_inj ":") in H as [-> ->].
Qed.

Section Determinism.
Context {infra : Infra} {laws : InfraLaws} {pb : Proto}.
Context (r1 r2 : MapRange) (d : defaultTranslator) (mo : model.Model).

Lemma services_of_Permutation (m : gmap string (gmap string (list string))) :
  @services_of r1 m ≡ₚ @services_of r2 m.
Proof.
  apply bind_Permutation'; [apply map_keys_ranges|]. intros ns. cbv zeta.
  by rewrite (map_keys_ranges r1 r2).
Qed.

Lemma elem_of_services_of (r : MapRange) m x :
  x ∈ @services_of r m ↔
  ∃ v, m !! ds_Namespace x = Some v ∧ v !! ds_Name x = Some (ds_Ports x).
Proof.
  unfold services_of. rewrite list_elem_of_bind. split.
  - intros (ns & Hx & Hns). apply elem_of_map_keys in Hns as [v Hv]. cbv zeta in Hx. rewrite Hv in Hx. cbn in Hx.
    apply list_elem_of_fmap in Hx as (name & -> & [ps Hps]%elem_of_map_keys). cbn. exists v.
    by rewrite Hps.
  - intros (v & Hv & Hps). exists (ds_Namespace x). cbv zeta. rewrite Hv. cbn. split.
    + apply list_elem_of_fmap. exists (ds_Name x). rewrite Hps. cbn. split; [by destruct x|].
      apply elem_of_map_keys. by rewrite Hps.
    + apply elem_of_map_keys. by rewrite Hv.
Qed.

Lemma getBackendServices_det : @getBackendServices infra r1 mo = @getBackendServices infra r2 mo.
Proof using Type.
  apply sort_stable_unique; eauto with go; [apply services_of_Permutation|].
  intros x y (v & Hv & Hx)%elem_of_services_of (w & Hw & Hy)%elem_of_services_of H1 H2.
  cbn in H1, H2. rewrite service_less_slex in H1, H2.
  pose proof (slex_eq (service_key x) (service_key y) eq_refl H2 H1) as [= E1 E2 _].
  destruct x as [n ns ps], y as [n' ns' ps']. cbn in *. subst. congruence.
Qed.

Lemma getServices_det : @getServices r1 d mo = @getServices r2 d mo.
Proof using Type.
  unfold getServices.
  assert (sort_stable Z.ltb (@map_keys r1 _ _ _ _ (listener_ports mo)) =
          sort_stable Z.ltb (@map_keys r2 _ _ _ _ (listener_ports mo))) as ->; [|done].
  apply sort_stable_unique; eauto with go; [apply map_keys_ranges|].
  intros x y _ _. cbn. rewrite !Z.ltb_ge. lia.
Qed.

Lemma triples_Permutation (m : gmap string (gmap string (list string))) :
  @triples r1 m ≡ₚ @triples r2 m.
Proof.
  apply bind_Permutation'; [apply map_keys_ranges|]. intros ns. cbv zeta.
  apply bind_Permutation'; [apply map_keys_ranges|done].
Qed.

Abbreviation triple := (string * string * string)%type.

(** The state of the loops, when names identify triples: [hs] are the HTTP
    triples seen, [ts] the others. *)
Record values_inv (hs ts : list triple) (st : gmap string XDSResource * list string) : Prop := {
  vi_NoDup : NoDup st.2;
  vi_bound : ∀ c, c ∈ st.2 ↔ is_Some (st.1 !! c);
  vi_names : ∀ c, c ∈ st.2 ↔ ∃ t, t ∈ hs ++ ts ∧ triple_name t = c;
  vi_http : ∀ t, t ∈ hs →
    st.1 !! triple_name t = Some (NewHTTPCluster (triple_name t) (triple_service t) (http_mutators d mo t));
  vi_tcp : ∀ t, t ∈ ts → t ∉ hs →
    st.1 !! triple_name t = Some (NewTCPClusterWithDefaults (triple_name t) (triple_service t) [])
}.

Lemma values_inv_http hs st t :
  Forall triple_ok (hs ++ [t]) → t ∉ hs → values_inv hs [] st →
  values_inv (hs ++ [t]) [] (add_http_cluster d mo st t).
Proof using laws.
  intros Hok Ht [H1 H2 H3 H4 _].
  assert (Hinj : ∀ t', t' ∈ hs → triple_name t' ≠ triple_name t).
  { intros t' Ht' E. apply Ht. apply triple_name_inj in E as ->; [done|..];
      (eapply Forall_forall; [exact Hok|set_solver]). }
  rewrite app_nil_r in H3.
  assert (Hfresh : triple_name t ∉ st.2). { rewrite H3. intros (t' & Ht' & E). by apply (Hinj t'). }
  split; cbn.
  - apply NoDup_app. split_and!; [done|set_solver|apply NoDup_singleton].
  - intros c. rewrite elem_of_app, list_elem_of_singleton, H2, lookup_insert_is_Some.
    destruct (decide (triple_name t = c)); naive_solver.
  - intros c. rewrite app_nil_r, elem_of_app, list_elem_of_singleton, H3. setoid_rewrite elem_of_app.
    setoid_rewrite list_elem_of_singleton. naive_solver.
  - intros t' [Ht'| ->%list_elem_of_singleton]%elem_of_app; [|by rewrite lookup_insert_eq].
    rewrite lookup_insert_ne; [by apply H4|]. intros E. by apply (Hinj t').
  - by intros t' ?%elem_of_nil.
Qed.

Lemma values_inv_tcp hs ts st t :
  Forall triple_ok (hs ++ ts ++ [t]) → values_inv hs ts st →
  values_inv hs (ts ++ [t]) (add_tcp_cluster st t).
Proof using laws.
  intros Hok [H1 H2 H3 H4 H5].
  assert (Hinj : ∀ t', t' ∈ hs ++ ts → triple_name t' = triple_name t → t' = t).
  { intros t' Ht' E. apply triple_name_inj in E as ->; [done|..];
      (eapply Forall_forall; [exact Hok|set_solver]). }
  unfold add_tcp_cluster. destruct (st.1 !! triple_name t) eqn:E.
  - assert (t ∈ hs ++ ts) as Ht.
    { assert (Hc : triple_name t ∈ st.2) by (rewrite H2, E; by eexists).
      apply H3 in Hc as (t' & Ht' & Hn). by rewrite <-(Hinj t' Ht' Hn). }
    split; [done..| |done|].
    + intros c. rewrite H3. setoid_rewrite elem_of_app. setoid_rewrite elem_of_app. set_solver.
    + intros t' [?| ->%list_elem_of_singleton]%elem_of_app Hn; apply H5; set_solver.
  - assert (Hfresh : triple_name t ∉ st.2) by (rewrite H2, E; by intros [? ?]).
    assert (Hne : ∀ t', t' ∈ hs ++ ts → triple_name t ≠ triple_name t').
    { intros t' Ht' En. apply Hfresh. rewrite En. apply H3. by exists t'. }
    split; cbn.
    + apply NoDup_app. split_and!; [done|set_solver|apply NoDup_singleton].
    + intros c. rewrite elem_of_app, list_elem_of_singleton, H2, lookup_insert_is_Some.
      destruct (decide (triple_name t = c)); naive_solver.
    + intros c. rewrite (assoc_L (++)), elem_of_app, list_elem_of_singleton, H3.
      setoid_rewrite (elem_of_app (hs ++ ts)). setoid_rewrite list_elem_of_singleton. naive_solver.
    + intros t' Ht'. rewrite lookup_insert_ne; [by apply H4|]. apply Hne. set_solver.
    + intros t' [Ht'| ->%list_elem_of_singleton]%elem_of_app Hn; [|by rewrite lookup_insert_eq].
      rewrite lookup_insert_ne; [by apply H5|]. apply Hne. set_solver.
Qed.

Lemma values_inv_loops hs ts :
  Forall triple_ok (hs ++ ts) → NoDup hs →
  values_inv hs ts (foldl add_tcp_cluster (foldl (add_http_cluster d mo) (∅, []) hs) ts).
Proof using laws.
  intros Hok Hnd. induction ts as [|t ts IH] using rev_ind.
  - rewrite app_nil_r in Hok. cbn [foldl].
    induction hs as [|h hs IHh] using rev_ind.
    + split; cbn; [constructor|..]; try (by intros t ?%elem_of_nil); intros c;
        rewrite ?lookup_empty; (split; [by intros ?%elem_of_nil|]).
      * by intros [? ?].
      * by intros (? & ?%elem_of_nil & _).
    + rewrite foldl_app. apply NoDup_app in Hnd as (Hnd & Hd & _).
      apply values_inv_http; [done|intros Hin; by apply (Hd h Hin); left|].
      apply IHh; [by apply Forall_app in Hok as [? _]|done].
  - rewrite foldl_app. apply values_inv_tcp; [done|]. apply IH.
    rewrite (assoc_L (++)) in Hok. by apply Forall_app in Hok as [? _].
Qed.

(** The triples of the three loops are those of backends of the model. *)
Lemma model_triples_ok (r : MapRange) :
  names_ok mo → Forall triple_ok (@all_triples infra mo r).
Proof using laws.
  intros Hn. apply Forall_forall. intros t Hin.
  apply (elem_of_all_triples mo) in Hin as (b & Hb & Ht).
  unfold triple_of in Ht. destruct (model.b_Port b); [|done]. injection Ht as <-.
  by apply (no_backends _ Hn).
Qed.

Lemma envoyClusters_values (r : MapRange) :
  names_ok mo →
  values_inv (@triples r (getNamespaceNamePortsMapForHTTP mo))
    (@triples r (getNamespaceNamePortsMapForTLS mo) ++ @triples r (getNamespaceNamePortsMapForTCP mo))
    (@envoyClusters infra pb r d mo).
Proof using laws.
  intros Hn. unfold envoyClusters. cbv zeta. rewrite <-foldl_app. apply values_inv_loops.
  - pose proof (model_triples_ok r Hn) as H. unfold all_triples in H. by rewrite <-(assoc_L (++)) in H.
  - apply NoDup_triples. unfold getNamespaceNamePortsMapForHTTP. rewrite merge_http_backends.
    apply merge_backends_ok, ports_ok_empty.
Qed.

Lemma getClusters_det : names_ok mo → @getClusters infra pb r1 d mo = @getClusters infra pb r2 d mo.
Proof using laws.
  intros Hn. pose proof (envoyClusters_values r1 Hn) as V1. pose proof (envoyClusters_values r2 Hn) as V2.
  assert (Hh : ∀ t, t ∈ @triples r1 (getNamespaceNamePortsMapForHTTP mo) ↔
                    t ∈ @triples r2 (getNamespaceNamePortsMapForHTTP mo))
    by (intros; by rewrite triples_Permutation).
  assert (Ht : ∀ t, t ∈ @triples r1 (getNamespaceNamePortsMapForTLS mo) ++
                        @triples r1 (getNamespaceNamePortsMapForTCP mo) ↔
                    t ∈ @triples r2 (getNamespaceNamePortsMapForTLS mo) ++
                        @triples r2 (getNamespaceNamePortsMapForTCP mo))
    by (intros; by rewrite !elem_of_app, !(triples_Permutation)).
  unfold getClusters. cbv zeta.
  assert (Hp : (@envoyClusters infra pb r1 d mo).2 ≡ₚ (@envoyClusters infra pb r2 d mo).2).
  { apply NoDup_Permutation; [apply V1|apply V2|]. intros c.
    rewrite (vi_names _ _ _ V1), (vi_names _ _ _ V2). setoid_rewrite elem_of_app.
    setoid_rewrite Hh. by setoid_rewrite Ht. }
  rewrite (sort_strings_perm _ _ Hp). apply list_fmap_ext. intros i c Hc%list_elem_of_lookup_2.
  rewrite elem_of_sort_strings in Hc. apply (vi_names _ _ _ V2) in Hc as (t & Hin & <-).
  destruct (decide (t ∈ @triples r2 (getNamespaceNamePortsMapForHTTP mo))) as [H|H].
  - rewrite (vi_http _ _ _ V2) by done. by rewrite (vi_http _ _ _ V1) by (by apply Hh).
  - apply elem_of_app in Hin as [?|Hin]; [done|]. rewrite (vi_tcp _ _ _ V2) by done.
    by rewrite (vi_tcp _ _ _ V1); [|by apply Ht|by rewrite Hh].
Qed.

End Determinism.

Lemma tlsSecretsToHostnames_keys ls s :
  is_Some (tlsSecretsToHostnames ls !! s) → ∃ l, l ∈ ls ∧ s ∈ elems (model.hl_TLS l).
Proof.
  unfold tlsSecretsToHostnames.
  induction ls as [|l ls IH] using rev_ind; [cbn; rewrite lookup_empty; by intros [? ?]|].
  rewrite foldl_app. cbn [foldl]. set (m := foldl _ ∅ ls) in *.
  assert (Hin : ∀ ss (m : gmap model.TLSSecret (list string)), is_Some (foldl (λ m s, <[s := default [] (m !! s) ++ [model.hl_Hostname l]]> m) m ss !! s)
    → is_Some (m !! s) ∨ s ∈ ss).
  { induction ss as [|s' ss IHs]; intros m'; cbn [foldl]; [by left|].
    intros [H|H]%IHs; [|right; by right]. apply lookup_insert_is_Some in H as [->|[_ H]]; [|by left].
    right. by left. }
  intros [H|H]%Hin.
  - destruct (IH H) as (l' & ? & ?). exists l'. set_solver.
  - exists l. set_solver.
Qed.

Lemma NewVirtualHost_name `{!Infra} (d : defaultTranslator) (h : string) (rs : list model.HTTPRoute) redirect port vh :
  NewVirtualHost rs (host_param d h redirect port) = Ok vh → vh_Name vh = h.
Proof.
  unfold NewVirtualHost. intros Hvh. go_inv. cbn in E1. unfold wildCard in E1.
  destruct (String.eqb_spec h "*") as [->|]; cbn in E1; by injection E1 as <-.
Qed.

(** *** Virtual hosts of a side *)

Lemma vh_less_asym a b : vh_less a b = true → vh_less b a = false.
Proof. apply str_ltb_asym. Qed.
Lemma vh_le_trans a b c : sorted_le vh_less a b → sorted_le vh_less b c → sorted_le vh_less a c.
Proof. apply str_le_trans. Qed.

Section Hosts.
Context {infra : Infra} {laws : InfraLaws}.
Context (d : defaultTranslator) (mo : model.Model) (st : HostMaps).

Lemma redirect_hosts_names hosts vhs :
  redirect_hosts d mo st hosts = Ok vhs → vh_Name <$> vhs = hosts.
Proof using Type.
  intros Hvhs. apply go_map_Ok in Hvhs. induction Hvhs as [|h vh hs vhs Hh _ IH]; [done|].
  rewrite fmap_cons, IH. f_equal. go_inv. by eapply NewVirtualHost_name.
Qed.

Lemma plain_host_name port h vhs :
  match host_routes st h port with
  | None => Ok []
  | Some routes =>
      l0 ← index (model.m_HTTP mo) 0;
      vh ← NewVirtualHostWithDefaults routes (host_param d h false (model.hl_Port l0));
      Ok [vh]
  end = Ok vhs → vhs = [] ∨ ∃ vh, vhs = [vh] ∧ vh_Name vh = h.
Proof using Type.
  destruct (host_routes st h port); [|intros [= <-]; by left]. intros Hvhs. right.
  apply bind_Ok in Hvhs as (l0 & _ & Hvhs). apply bind_Ok in Hvhs as (vh & Hvh & [= <-]).
  exists vh. split; [done|]. by eapply NewVirtualHost_name.
Qed.

Lemma plain_hosts_names port redirected hosts vhs :
  plain_hosts d mo st port redirected hosts = Ok vhs →
  vh_Name <$> vhs `sublist_of` filter (λ h, port = insecureHost → h ∉ redirected) hosts.
Proof using Type.
  unfold plain_hosts.
  revert vhs. induction hosts as [|h hs IH]; intros vhs Hvhs; cbn [go_flat_map] in Hvhs; [by go_inv|].
  apply bind_Ok in Hvhs as (xs & Hxs & Hvhs). apply bind_Ok in Hvhs as (ys & Hys & [= <-]).
  rewrite fmap_app. specialize (IH _ Hys). rewrite filter_cons.
  destruct (String.eqb port insecureHost && bool_decide (h ∈ redirected)) eqn:Hb.
  - injection Hxs as <-. apply andb_true_iff in Hb as [Hp%String.eqb_eq Hin%bool_decide_eq_true].
    rewrite decide_False; [done|]. intros Hn. by apply Hn.
  - rewrite decide_True.
    + apply plain_host_name in Hxs as [->|(vh & -> & <-)]; [by apply sublist_cons|by apply sublist_skip].
    + intros -> Hin. rewrite String.eqb_refl in Hb. cbn in Hb. by apply bool_decide_eq_false in Hb.
Qed.

Lemma side_names_NoDup port redirected hosts redirects plain :
  (port ≠ insecureHost → redirected = []) → NoDup redirected → NoDup hosts →
  redirect_hosts d mo st redirected = Ok redirects →
  plain_hosts d mo st port redirected hosts = Ok plain →
  NoDup (vh_Name <$> redirects ++ plain).
Proof using Type.
  intros Hport Hr Hh H1 H2. rewrite fmap_app, (redirect_hosts_names _ _ H1).
  apply plain_hosts_names in H2 as Hsub. apply NoDup_app. split_and!; [done| |].
  - intros h Hin Hp. eapply elem_of_sublist in Hsub as Hf; [|exact Hp].
    apply list_elem_of_filter in Hf as [Hf _].
    destruct (decide (port = insecureHost)) as [->|Hne]; [by apply Hf|].
    rewrite (Hport Hne) in Hin. by apply elem_of_nil in Hin.
  - refine (sublist_NoDup _ _ _ Hsub). by apply NoDup_filter.
Qed.

End Hosts.

(** *** Ports *)

Lemma listener_ports_lookup mo p :
  is_Some (listener_ports mo !! p) ↔
  ∃ q, q ∈ (model.hl_Port <$> model.m_HTTP mo) ++ (model.tl_Port <$> model.m_TLS mo) ++
           (model.tcpl_Port <$> model.m_TCP mo) ∧ q ≠ 0%Z ∧ u16 q = p.
Proof.
  unfold listener_ports. cbv zeta. rewrite <-!foldl_app.
  set (qs := _ ++ _ ++ _).
  assert (Hgen : ∀ m : gmap Z unit, is_Some (foldl add_port m qs !! p) ↔
    is_Some (m !! p) ∨ ∃ q, q ∈ qs ∧ q ≠ 0%Z ∧ u16 q = p).
  { induction qs as [|q qs IH]; intros m; cbn [foldl]; [set_solver|]. rewrite IH. unfold add_port.
    case_bool_decide as Hq; [rewrite lookup_insert_is_Some'|]; set_solver. }
  rewrite Hgen, lookup_empty. split; [|by right]. by intros [[? ?]|?].
Qed.

Lemma Z_sorted_strict l : StronglySorted (sorted_le Z.ltb) l → NoDup l → StronglySorted Z.lt l.
Proof.
  induction 1 as [|x l _ IH Hx]; [constructor|]. intros [Hnin Hnd]%NoDup_cons. constructor; [by apply IH|].
  apply Forall_forall. intros y Hy. eapply Forall_forall in Hx; [|exact Hy]. cbn in Hx.
  apply Z.ltb_ge in Hx. assert (x ≠ y) by (by intros ->). lia.
Qed.

(** *** Services *)

Lemma NoDup_services_of `{!MapRange} (m : gmap string (gmap string (list string))) : NoDup (services_of m).
Proof.
  apply NoDup_bind'; [apply NoDup_map_keys|..].
  - intros ns _. apply NoDup_fmap_2; [by intros ? ? [=]|apply NoDup_map_keys].
  - intros x y z _ _ (n & -> & _)%list_elem_of_fmap (n' & Heq & _)%list_elem_of_fmap. congruence.
Qed.

(** Sorted services that their namespace and name identify. *)
Lemma services_strict l :
  StronglySorted (sorted_le service_less) l →
  (∀ x y, x ∈ l → y ∈ l → ds_Namespace x = ds_Namespace y → ds_Name x = ds_Name y → x = y) →
  NoDup l →
  StronglySorted (λ a b, slex [ds_Namespace a; ds_Name a] [ds_Namespace b; ds_Name b] = true) l.
Proof.
  induction 1 as [|x l _ IH Hx]; intros Hid Hnd; [constructor|]. apply NoDup_cons in Hnd as [Hnin Hnd].
  constructor; [apply IH; [|done]; intros; apply Hid; [by right|by right|done..]|].
  apply Forall_forall. intros y Hy. eapply Forall_forall in Hx; [|exact Hy]. cbn in Hx.
  unfold service_less in Hx. cbn [slex].
  rewrite (String.eqb_sym (ds_Namespace x)), (String.eqb_sym (ds_Name x)).
  destruct (String.eqb_spec (ds_Namespace y) (ds_Namespace x)) as [Ens|Ens]; cbn [negb] in *.
  - destruct (String.eqb_spec (ds_Name y) (ds_Name x)) as [En|En]; cbn [negb] in *.
    + destruct Hnin. rewrite (Hid x y); [done|by left|by right|done..].
    + by apply str_ltb_total.
  - by apply str_ltb_total.
Qed.

(** The configuration has the name and namespace of the translator. *)
Lemma Translate_key `{!Infra, !Proto, !MapRange} hops label d mo dec :
  Translate hops label d mo = Ok dec → dec_Namespace dec = t_namespace d ∧ dec_Name dec = t_name d.
Proof. unfold Translate. intros (res & _ & [= <-])%bind_Ok. done. Qed.

(** ** Theorems *)

(** C1: the whole pipeline is free of panics: for a Gateway and routes that
    satisfy the schema of the Gateway API, and whose request mirrors all name a
    port (the schema demands one of mirrors to Services only), ingestion returns a
    model and translating that model returns a configuration. *)
Theorem pipeline_total `{!Infra, !Proto, !MapRange} hops label d input :
  ingestion.valid_input input → ingestion.mirrors_have_ports input →
  ∃ mo dec, ingestion.GatewayAPI input = Ok mo ∧ Translate hops label d mo = Ok dec.
Proof.
  intros Hv Hp. destruct (ingestion.yields_GatewayAPI input Hv Hp) as (mo & Hmo & Hok).
  destruct (yields_Translate hops label d mo Hok) as (dec & Hdec & _). by exists mo, dec.
Qed.

(** C5: the configuration does not depend on the order in which Go iterates over
    maps: for names without colons and slashes (as Kubernetes names are), any two
    iteration orders give the same result. *)
Theorem Translate_deterministic `{!Infra, !InfraLaws, !Proto} (r1 r2 : MapRange) hops label d mo :
  names_ok mo →
  @Translate _ _ r1 hops label d mo = @Translate _ _ r2 hops label d mo.
Proof.
  intros Hn. unfold Translate, getResources.
  assert (Hl : @getListener _ _ r1 hops d mo = @getListener _ _ r2 hops d mo).
  { unfold getListener. case_match; [done|].
    destruct (tlsPassthroughBackendsToHostnames _) as [pts|]; cbn; [|done].
    do 2 f_equal. apply newListenerWithDefaults_det. intros s Hs.
    apply tlsSecretsToHostnames_keys in Hs as (l & ? & ?). by eapply no_secrets. }
  rewrite Hl, (getBackendServices_det r1 r2), (getServices_det r1 r2), (getClusters_det r1 r2) by done.
  done.
Qed.


(** in every route configuration the virtual hosts are sorted by name and no
    two have the same name, although a host may occur in many routes and on both
    sides: Envoy rejects configurations with repeated domains. *)
Theorem route_configurations_hosts `{!Infra, !InfraLaws} d mo rcs rc :
  route_configurations d mo = Ok rcs → rc ∈ rcs →
  StronglySorted (λ a b, str_ltb (vh_Name a) (vh_Name b) = true) (rc_VirtualHosts rc).
Proof.
  intros Hrcs Hrc. eapply elem_of_go_flat_map in Hrc as (port & cs & _ & Hside & Hrc); [|exact Hrcs].
  unfold side_configurations in Hside. destruct (portHostName _ !! port) as [hs|]; cbv zeta in Hside.
  - apply bind_Ok in Hside as (redirects & H1 & Hside). apply bind_Ok in Hside as (plain & H2 & [= <-]).
    apply list_elem_of_singleton in Hrc as ->. cbn [rc_VirtualHosts]. apply sorted_strict.
    + apply (sort_stable_sorted vh_less); [apply vh_less_asym|apply vh_le_trans].
    + rewrite sort_stable_Permutation. eapply side_names_NoDup; [| | |exact H1|exact H2].
      * intros Hp. by rewrite (proj2 (String.eqb_neq _ _) Hp).
      * case_match; [apply Unique_NoDup|constructor].
      * apply Unique_NoDup.
  - case_match; injection Hside as <-; [|by apply elem_of_nil in Hrc].
    apply list_elem_of_singleton in Hrc as ->. constructor.
Qed.

(** the frontend service lists the ports of the HTTP, TLS and TCP listeners
    (cut to 16 bits), each once and in increasing order; there is no list when
    there is no port. *)
Theorem getServices_ports `{!MapRange} d mo :
  ∃ ports, getServices d mo = [mkServiceListener (t_name d) (t_namespace d) ports] ∧
    ports ≠ Some [] ∧ StronglySorted Z.lt (elems ports) ∧
    (∀ p, p ∈ elems ports → (0 ≤ p < 2 ^ 16)%Z) ∧
    ∀ p, p ∈ elems ports ↔
      ∃ q, q ∈ (model.hl_Port <$> model.m_HTTP mo) ++ (model.tl_Port <$> model.m_TLS mo) ++
               (model.tcpl_Port <$> model.m_TCP mo) ∧ q ≠ 0%Z ∧ u16 q = p.
Proof.
  unfold getServices. cbv zeta. set (l := sort_stable Z.ltb _).
  assert (Hel : ∀ p, p ∈ l ↔ is_Some (listener_ports mo !! p)).
  { intros p. unfold l. by rewrite elem_of_sort_stable, elem_of_map_keys. }
  assert (Hl : elems (if length l =? 0 then None else Some l) = l) by (by destruct l).
  eexists. split; [reflexivity|]. rewrite Hl. split_and!.
  - by destruct l.
  - apply Z_sorted_strict; [apply sort_stable_sorted; eauto with go|].
    unfold l. rewrite sort_stable_Permutation. apply NoDup_map_keys.
  - intros p (q & _ & _ & <-)%Hel%listener_ports_lookup. apply u16_range.
  - intros p. rewrite Hel. apply listener_ports_lookup.
Qed.

(** C28: the backend services are sorted by namespace and name, without repeats,
    and are exactly the services of the HTTP backends (request mirrors included),
    the TLS backends and the TCP backends of the model, each with all its ports,
    sorted and without repeats.  The backends of UDP routes are not among them. *)
Theorem getBackendServices_spec `{!Infra, !InfraLaws, !MapRange} mo :
  StronglySorted (λ a b, slex [ds_Namespace a; ds_Name a] [ds_Namespace b; ds_Name b] = true)
    (getBackendServices mo) ∧
  ∀ x, x ∈ getBackendServices mo ↔
    ds_Ports x ≠ [] ∧ strictly_sorted (ds_Ports x) ∧
    ∀ p, p ∈ ds_Ports x ↔
      ∃ b, b ∈ http_backends mo ++ tls_backends mo ++ tcp_backends mo ∧
           triple_of b = Some (ds_Namespace x, ds_Name x, p).
Proof.
  set (m := getNamespaceNamePortsMap mo).
  assert (Em : m = foldl merge_backend ∅ (http_backends mo ++ tls_backends mo ++ tcp_backends mo)).
  { unfold m, getNamespaceNamePortsMap. by rewrite merge_tcp_backends, merge_tls_backends,
      merge_http_backends, !foldl_app. }
  assert (Hok : ports_ok m) by (rewrite Em; apply merge_backends_ok, ports_ok_empty).
  assert (Hp : ∀ ns name p, p ∈ ports_of m ns name ↔
    ∃ b, b ∈ http_backends mo ++ tls_backends mo ++ tcp_backends mo ∧ triple_of b = Some (ns, name, p)).
  { intros ns name p. rewrite Em, ports_of_backends. pose proof (ports_of_empty ns name p). naive_solver. }
  assert (Hin : ∀ x, x ∈ getBackendServices mo ↔
    ∃ v, m !! ds_Namespace x = Some v ∧ v !! ds_Name x = Some (ds_Ports x)).
  { intros x. unfold getBackendServices. by rewrite elem_of_sort_stable, elem_of_services_of. }
  split.
  - apply services_strict.
    + apply sort_stable_sorted; eauto with go.
    + intros [n ns ps] [n' ns' ps'] (v & Hv & Hx)%Hin (w & Hw & Hy)%Hin E1 E2. cbn in *. congruence.
    + unfold getBackendServices. rewrite sort_stable_Permutation. apply NoDup_services_of.
  - intros [n ns ps]. rewrite Hin. cbn. setoid_rewrite <-Hp. unfold ports_of. split.
    + intros (v & Hv & Hps). rewrite Hv. cbn. rewrite Hps. cbn.
      destruct (Hok _ _ _ _ Hv Hps). done.
    + intros (Hne & Hs & Hel). destruct (m !! ns) as [v|] eqn:Ev; cbn in Hel.
      * exists v. split; [done|]. destruct (v !! n) as [ps'|] eqn:Eps; cbn in Hel.
        -- f_equal. symmetry. apply strictly_sorted_ext; [done|by eapply Hok|done].
        -- destruct ps as [|p ps]; [done|]. assert (p ∈ @nil string) as Hnil by (apply Hel; left).
           by apply elem_of_nil in Hnil.
      * rewrite lookup_empty in Hel. cbn in Hel. destruct ps as [|p ps]; [done|].
        assert (p ∈ @nil string) as Hnil by (apply Hel; left). by apply elem_of_nil in Hnil.
Qed.

(** ** A concrete model *)

Definition ex_translator : defaultTranslator :=
  mkTranslator "cfg" "default" "secrets" true false true 60 true false.

Definition ex_model : model.Model :=
  model.mkModel
    [model.mkHTTPListener "web" [] "" 80 "example.com" None ex_routes None None false;
     model.mkHTTPListener "tls" [] "" 443 "example.org" (Some [model.mkTLSSecret "cert" "default"])
       ex_routes None None false]
    [model.mkTLSListener "pass" [] "" 8443 "*" [model.mkTLSRoute "" ["a.com"] [ex_backend "four"]] None None]
    [model.mkTCPListener "tcp" 9000 [] [model.mkTCPRoute [ex_backend "five"]] None] [].

Example ex_services :
  @getServices forward_range ex_translator ex_model =
    [mkServiceListener "cfg" "default" (Some [80%Z; 443%Z; 8443%Z; 9000%Z])].
Proof. vm_compute. reflexivity. Qed.

Lemma ex_model_names : names_ok ex_model.
Proof.
  split.
  - apply (proj1 (Forall_forall _ _)). repeat (apply Forall_cons_2; [split; vm_compute; reflexivity|]).
    constructor.
  - intros l s Hl Hs.
    assert (Hall : Forall (λ l, Forall secret_ok (elems (model.hl_TLS l))) (model.m_HTTP ex_model)).
    { repeat (apply Forall_cons_2; [repeat constructor|]); constructor. }
    eapply Forall_forall in Hall; [|exact Hl]. by eapply Forall_forall in Hs; [|exact Hall].
Qed.

(** A Gateway whose route mirrors to a Service. *)
Definition ex_mirror : ingestion.Input :=
  ingestion.ex_mirror_input (ingestion.ex_mirror_filter None None (Some 80%Z)).

Lemma pipeline_total_witness :
  ∃ mo dec, ingestion.GatewayAPI ex_mirror = Ok mo ∧
    @Translate reference_infra reference_proto forward_range 0 "label" ex_translator mo = Ok dec.
Proof.
  apply pipeline_total.
  - apply ingestion.ex_mirror_input_valid, ingestion.ex_mirror_filter_valid. right. by eexists.
  - split; [|constructor]. apply Forall_singleton. unfold ingestion.http_mirrors_have_ports. cbn.
    do 2 apply Forall_singleton. intros _ ref [= <-]. by eexists.
Defined.

(** Without a port the translation panics: the schema admits a mirror to a
    ServiceImport that names none, ingestion passes the nil port on, and the
    translation of the route dereferences it. *)
Theorem portless_mirror_panics :
  let input := ingestion.ex_mirror_input (ingestion.ex_mirror_filter (Some "ServiceImport") None None) in
  ingestion.valid_input input ∧
  ∃ mo, ingestion.GatewayAPI input = Ok mo ∧
    @Translate reference_infra reference_proto forward_range 0 "label" ex_translator mo = Panic NilDeref.
Proof.
  split.
  - apply ingestion.ex_mirror_input_valid, ingestion.ex_mirror_filter_valid. by left.
  - eexists. split; [vm_compute; reflexivity|]. vm_compute. reflexivity.
Qed.

Lemma Translate_deterministic_witness :
  @Translate reference_infra reference_proto forward_range 0 "label" ex_translator ex_model =
  @Translate reference_infra reference_proto backward_range 0 "label" ex_translator ex_model.
Proof.
  apply (@Translate_deterministic reference_infra reference_infra_laws). exact ex_model_names.
Defined.


Definition ex_configurations : list RouteConfiguration :=
  match @route_configurations reference_infra ex_translator ex_model with Ok l => l | Panic _ => [] end.

(** The insecure side redirects the secure host and serves the other one. *)
Example ex_configuration_hosts :
  (λ rc, (rc_Name rc, vh_Name <$> rc_VirtualHosts rc)) <$> ex_configurations =
  [("listener-insecure", ["example.com"; "example.org"]); ("listener-secure", ["example.org"])].
Proof. vm_compute. reflexivity. Qed.

Lemma route_configurations_hosts_witness :
  StronglySorted (λ a b, str_ltb (vh_Name a) (vh_Name b) = true)
    (rc_VirtualHosts (default (mkRouteConfiguration "" []) (head ex_configurations))).
Proof.
  apply (@route_configurations_hosts reference_infra reference_infra_laws ex_translator ex_model
    ex_configurations); [vm_compute; reflexivity|by left].
Defined.

Lemma getBackendServices_spec_witness :
  let l := @getBackendServices reference_infra forward_range ex_model in
  StronglySorted (λ a b, slex [ds_Namespace a; ds_Name a] [ds_Namespace b; ds_Name b] = true) l ∧
  ∀ x, x ∈ l ↔
    ds_Ports x ≠ [] ∧ strictly_sorted (ds_Ports x) ∧
    ∀ p, p ∈ ds_Ports x ↔
      ∃ b, b ∈ http_backends ex_model ++ tls_backends ex_model ++ tcp_backends ex_model ∧
           triple_of b = Some (ds_Namespace x, ds_Name x, p).
Proof. apply (@getBackendServices_spec reference_infra reference_infra_laws). Defined.

End translation_facts.
