(* ===== verification/FrontTranslators.v ===== *)
(** * The translator for Gateways

    [Module gateway_api]: src/pkg/model/translation/gateway-api/translator.go.
    It wraps the default translator and adds the Service and the Endpoints that
    expose the proxy; the record types of those are shared with the translator
    for Ingresses. *)

From S2P Require Import Prelude GoStrings ApiTypes Model Hostnames Envoy VirtualHost Listeners Translator TranslatorFacts.
Import k8s.

Import translation.

(** ** The Kubernetes objects of both translators *)

Record ServicePort := mkServicePort {
  sp_Name : string; sp_Port : Z; sp_TargetPort : option Z; sp_Protocol : string; sp_NodePort : Z }.

Record FrontService := mkFrontService {
  fs_Name : string;
  fs_Namespace : string;
  fs_Labels : gmap string string;
  fs_Annotations : gmap string string;
  fs_OwnerReferences : list OwnerReference;
  fs_Type : string;
  fs_Ports : list ServicePort
}.

Record FrontEndpoints := mkFrontEndpoints {
  fe_Name : string;
  fe_Namespace : string;
  fe_Labels : gmap string string;
  fe_OwnerReferences : list OwnerReference;
  fe_Subsets : list (list string * list Z)
}.

(** The results of [Translate], or its error. *)
Abbreviation TranslateResult :=
  (option DolphinEnvoyConfig * FrontService * FrontEndpoints + string)%type.

Definition dummySubsets : list (list string * list Z) := [(["192.192.192.192"], [9999%Z])].

Definition set_OwnerReferences (dec : DolphinEnvoyConfig) (refs : list OwnerReference)
  : DolphinEnvoyConfig :=
  mkDEC (dec_Name dec) (dec_Namespace dec) (dec_Labels dec) refs (dec_BackendServices dec)
    (dec_Services dec) (dec_Resources dec).

Module gateway_api.

Definition dolphinGatewayPrefix : string := "dolphin-gateway-".
Definition owningGatewayLabel : string := "io.dolphin.gateway/owning-gateway".

Record translator := mkTranslator {
  tr_SecretNameSpace : string;
  tr_idleTimeoutSeconds : Z;
  tr_enableIpv4 : bool;
  tr_enableIpv6 : bool
}.

(** The part of a DolphinGatewayClassConfig that is read. *)
Record DolphinGatewayClassConfig := mkDGCC { dgcc_ServiceType : string }.

(** [mergeMap] with a map on the left: the right map wins. *)
Definition mergeMap (left right : gmap string string) : gmap string string := right ∪ left.

Definition toServiceType (cfg : option DolphinGatewayClassConfig) : string :=
  match cfg with
  | Some c => if String.eqb (dgcc_ServiceType c) ServiceTypeNodePort then ServiceTypeNodePort
              else ServiceTypeLoadBalancer
  | None => ServiceTypeLoadBalancer
  end.

(** The variables that [addListener] assigns. *)
Record Collected := mkCollected {
  c_source : option model.FullyQualifiedResource;
  c_ports : list Z;
  c_labels : gmap string string;
  c_annotations : gmap string string
}.

(** What the four loops pass to [addListener]. *)
Definition listener_args : Type :=
  list model.FullyQualifiedResource * Z * option model.Infrastructure.

Definition addListener (c : Collected) (l : listener_args) : Collected :=
  let '(sources, port, infra) := l in
  let source :=
    match c_source c, sources with
    | None, src :: _ => if negb (String.eqb (model.fqr_Name src) "") then Some src else None
    | s, _ => s
    end in
  mkCollected source (c_ports c ++ [port])
    (match infra with Some i => mergeMap (c_labels c) (model.inf_Labels i) | None => c_labels c end)
    (match infra with
     | Some i => mergeMap (c_annotations c) (model.inf_Annotations i)
     | None => c_annotations c
     end).

Definition all_listeners (m : model.Model) : list listener_args :=
  ((λ l, (model.hl_Sources l, model.hl_Port l, model.hl_Infrastructure l)) <$> model.m_HTTP m) ++
  ((λ l, (model.tl_Sources l, model.tl_Port l, model.tl_Infrastructure l)) <$> model.m_TLS m) ++
  ((λ l, (model.tcpl_Sources l, model.tcpl_Port l, model.tcpl_Infrastructure l)) <$> model.m_TCP m) ++
  ((λ l, (model.udpl_Sources l, model.udpl_Port l, model.udpl_Infrastructure l)) <$> model.m_UDP m).

Definition collect (m : model.Model) : Collected :=
  foldl addListener (mkCollected None [] ∅ ∅) (all_listeners m).

Definition owner (resource : model.FullyQualifiedResource) : OwnerReference :=
  mkOwnerReference "gateway.networking.k8s.io/v1" (model.fqr_Kind resource)
    (model.fqr_Name resource) (model.fqr_UID resource) (Some true).

Section Range.
Context {infra : Infra} {pb : Proto} {range : MapRange} (hops : Z) (label : string).

Definition getService (resource : model.FullyQualifiedResource) (allPorts : list Z)
    (labels annotations : gmap string string) (cfg : option DolphinGatewayClassConfig)
  : FrontService :=
  let uniquePorts : gmap Z unit := foldl (λ m p, <[p := tt]> m) ∅ allPorts in
  let sortedPorts := sort_stable Z.ltb (map_keys uniquePorts) in
  mkFrontService (helper.Shorten (dolphinGatewayPrefix +:+ model.fqr_Name resource))
    (model.fqr_Namespace resource)
    (mergeMap {[ owningGatewayLabel := helper.Shorten (model.fqr_Name resource) ]} labels)
    annotations [owner resource] (toServiceType cfg)
    ((λ p, mkServicePort ("port-" +:+ Itoa p) (i32 p) (Some (i32 p)) "TCP" 0) <$> sortedPorts).

Definition getEndpoints (resource : model.FullyQualifiedResource) : FrontEndpoints :=
  mkFrontEndpoints (helper.Shorten (dolphinGatewayPrefix +:+ model.fqr_Name resource))
    (model.fqr_Namespace resource)
    {[ owningGatewayLabel := helper.Shorten (model.fqr_Name resource) ]} [owner resource] dummySubsets.

Definition envoy_translator (t : translator) (source : model.FullyQualifiedResource)
  : defaultTranslator :=
  translation.mkTranslator (dolphinGatewayPrefix +:+ model.fqr_Name source)
    (model.fqr_Namespace source) (tr_SecretNameSpace t) false false true (tr_idleTimeoutSeconds t)
    (tr_enableIpv4 t) (tr_enableIpv6 t).

Definition Translate (t : translator) (mo : option model.Model)
    (dgccfg : list (option DolphinGatewayClassConfig)) : go TranslateResult :=
  match mo with
  | None => Ok (inr "model is nil")
  | Some m =>
      let c := collect m in
      match c_source c with
      | None => Ok (inr "model source can't be empty")
      | Some source =>
          let cfg := mjoin (head dgccfg) in
          let svc := getService source (c_ports c) (c_labels c) (c_annotations c) cfg in
          if (length (model.m_HTTP m) =? 0) && (length (model.m_TLS m) =? 0) &&
             (length (model.m_TCP m) =? 0)
          then Ok (inl (None, svc, getEndpoints source))
          else
            dec ← translation.Translate hops label (envoy_translator t source) m;
            Ok (inl (Some (set_OwnerReferences dec [owner source]), svc, getEndpoints source))
      end
  end.

End Range.

(** ** Lemmas *)

(** The source is that of the first listener whose first source is named. *)
Definition named_source (l : listener_args) : option model.FullyQualifiedResource :=
  match l.1.1 with
  | src :: _ => if negb (String.eqb (model.fqr_Name src) "") then Some src else None
  | [] => None
  end.

Lemma collect_spec ls c :
  let c' := foldl addListener c ls in
  c_source c' = match c_source c with Some s => Some s | None => head (omap named_source ls) end ∧
  c_ports c' = c_ports c ++ ((λ l, l.1.2) <$> ls).
Proof.
  revert c. induction ls as [|[[srcs port] inf] ls IH]; intros c; cbn zeta.
  - cbn. rewrite app_nil_r. by destruct (c_source c).
  - cbn [foldl]. destruct (IH (addListener c (srcs, port, inf))) as [-> ->]. cbn. split.
    + destruct (c_source c); [done|]. unfold named_source. cbn. destruct srcs as [|src srcs]; [done|].
      by destruct (negb _).
    + by rewrite <-(assoc_L (++)).
Qed.

Lemma unique_ports_lookup (ps : list Z) p :
  is_Some (foldl (λ (m : gmap Z unit) p, <[p := tt]> m) ∅ ps !! p) ↔ p ∈ ps.
Proof.
  assert (Hgen : ∀ m : gmap Z unit,
    is_Some (foldl (λ (m : gmap Z unit) p, <[p := tt]> m) m ps !! p) ↔ is_Some (m !! p) ∨ p ∈ ps).
  { induction ps as [|q ps IH]; intros m; cbn [foldl]; [set_solver|].
    rewrite IH, lookup_insert_is_Some'. set_solver. }
  rewrite Hgen, lookup_empty. split; [by intros [[? ?]|?]|by right].
Qed.

Lemma sorted_ports_spec `{!MapRange} (ps : list Z) :
  let l := sort_stable Z.ltb (map_keys (foldl (λ (m : gmap Z unit) p, <[p := tt]> m) ∅ ps)) in
  StronglySorted Z.lt l ∧ ∀ p, p ∈ l ↔ p ∈ ps.
Proof.
  cbv zeta. split.
  - apply translation_facts.Z_sorted_strict.
    + apply sort_stable_sorted; [apply translation_facts.Zltb_asym|apply translation_facts.Zle_trans'].
    + rewrite sort_stable_Permutation. apply NoDup_map_keys.
  - intros p. by rewrite elem_of_sort_stable, elem_of_map_keys, unique_ports_lookup.
Qed.

(** ** Theorems *)

(** C37: the outcomes of translating a Gateway's model.  It is an error exactly
    when no listener has a named source; otherwise the first such source owns a
    Service and Endpoints of the same name, of at most 63 bytes, the Service has
    one TCP port per distinct listener port (UDP listeners included), in
    increasing order, and there is an Envoy configuration exactly when there is
    an HTTP, TLS or TCP listener: the default translator's, owned by the source. *)
Theorem Translate_outcome `{!Infra, !Proto, !MapRange} hops label t m dgccfg :
  model.model_ok m →
  ∃ res, Translate hops label t (Some m) dgccfg = Ok res ∧
    match head (omap named_source (all_listeners m)) with
    | None => res = inr "model source can't be empty"
    | Some source =>
        ∃ dec svc ep ports, res = inl (dec, svc, ep) ∧
          fs_Name svc = fe_Name ep ∧ len (fs_Name svc) ≤ 63 ∧
          fs_OwnerReferences svc = [owner source] ∧ fe_OwnerReferences ep = [owner source] ∧
          sp_Port <$> fs_Ports svc = i32 <$> ports ∧ StronglySorted Z.lt ports ∧
          (∀ p, p ∈ ports ↔ p ∈ ((λ l, l.1.2) <$> all_listeners m)) ∧
          (is_Some dec ↔ model.m_HTTP m ≠ [] ∨ model.m_TLS m ≠ [] ∨ model.m_TCP m ≠ []) ∧
          (∀ d, dec = Some d → ∃ d0,
             translation.Translate hops label (envoy_translator t source) m = Ok d0 ∧
             d = set_OwnerReferences d0 [owner source])
    end.
Proof.
  intros Hok. unfold Translate. cbv zeta.
  destruct (collect_spec (all_listeners m) (mkCollected None [] ∅ ∅)) as [Hs Hp].
  fold (collect m) in Hs, Hp. cbn in Hs, Hp. rewrite Hs, Hp.
  destruct (head (omap named_source (all_listeners m))) as [source|]; [|by eexists].
  assert (Hlen : ∀ s, len (helper.Shorten s) ≤ 63) by apply helper.len_Shorten.
  destruct (sorted_ports_spec ((λ l, l.1.2) <$> all_listeners m)) as [Hsort Hel].
  assert (Hif : (length (model.m_HTTP m) =? 0) && (length (model.m_TLS m) =? 0) &&
     (length (model.m_TCP m) =? 0) = true ↔ ¬ (model.m_HTTP m ≠ [] ∨ model.m_TLS m ≠ [] ∨ model.m_TCP m ≠ [])).
  { rewrite !andb_true_iff, !Nat.eqb_eq, !length_zero_iff_nil.
    destruct (model.m_HTTP m), (model.m_TLS m), (model.m_TCP m); naive_solver. }
  destruct (_ && _ && _) eqn:E.
  - eexists. split; [done|]. do 4 eexists. split; [done|]. split; [done|]. split; [apply Hlen|].
    split; [done|]. split; [done|]. split; [cbn; by rewrite <-list_fmap_compose|]. split; [exact Hsort|].
    split; [exact Hel|]. split; [|done]. split; [by intros [? ?]|].
    intros Hne. by destruct (proj1 Hif eq_refl Hne).
  - destruct (translation_facts.yields_Translate hops label (envoy_translator t source) m Hok)
      as (dec & Hdec & _).
    rewrite Hdec. cbn [mbind go_mbind]. eexists. split; [done|]. do 4 eexists. split; [done|].
    split; [done|]. split; [apply Hlen|]. split; [done|]. split; [done|].
    split; [cbn; by rewrite <-list_fmap_compose|]. split; [exact Hsort|]. split; [exact Hel|].
    split; [|by intros d [= <-]; eexists]. split; [|by eexists]. intros _.
    destruct (model.m_HTTP m), (model.m_TLS m), (model.m_TCP m); try done; naive_solver.
Qed.

(** A Gateway with an HTTP and a UDP listener on the same port and a TCP one. *)
Definition ex_source : model.FullyQualifiedResource :=
  model.mkFQR "gw" "default" "gateway.networking.k8s.io" "v1" "Gateway" "uid".

Definition ex_gateway_model : model.Model :=
  model.mkModel [model.mkHTTPListener "web" [ex_source] "" 443 "*" None [] None None false] []
    [model.mkTCPListener "tcp" 80 [ex_source] [] None]
    [model.mkUDPListener "udp" 443 [ex_source] [] None].

Lemma Translate_outcome_witness :
  model.model_ok ex_gateway_model ∧
  ∃ res, @Translate reference_infra reference_proto forward_range 0 "label"
      (mkTranslator "secrets" 60 true false) (Some ex_gateway_model) [] = Ok res ∧
    ∃ dec svc ep, res = inl (dec, svc, ep) ∧ fs_Name svc = fe_Name ep.
Proof.
  assert (Hok : model.model_ok ex_gateway_model) by (split; repeat constructor).
  split; [exact Hok|].
  destruct (@Translate_outcome reference_infra reference_proto forward_range 0%Z "label"
    (mkTranslator "secrets" 60 true false) ex_gateway_model [] Hok)
    as (res & Hres & dec & svc & ep & ports & Heq & Hname & _).
  exists res. split; [exact Hres|]. exists dec, svc, ep. split; [exact Heq|exact Hname].
Defined.

End gateway_api.
