(* ===== verification/Annotations.v ===== *)
(** * Ingress annotations (src/pkg/ingress/annotations/annotations.go)

    [Module strconv] and [Module time]: [strconv.ParseInt] in base 10 at 32
    bits, [strconv.ParseBool] and [time.ParseDuration], its float64 arithmetic
    on fractions included (the Standard Library's SpecFloat at 53 bits).
    [Module annotations]: the annotations of an Ingress as typed options.  The
    function [annotation.Get] of the infra repository is a parameter. *)

From S2P Require Import Prelude GoStrings.
From Stdlib Require Import Ascii SpecFloat.

Definition is_digit (c : ascii) : bool :=
  let n := N_of_ascii c in (48 <=? n)%N && (n <=? 57)%N.
Definition digit_val (c : ascii) : Z := (Z.of_N (N_of_ascii c) - 48)%Z.

Module strconv.

(** The digits of a decimal number, most significant first: [None] on the first
    byte that is no digit. *)
Fixpoint digits_val (acc : Z) (s : string) : option Z :=
  match s with
  | "" => Some acc
  | String c s' => if is_digit c then digits_val (acc * 10 + digit_val c) s' else None
  end.

(** [ParseUint(s, 10, _)] before its range check: at least one digit. *)
Definition ParseDigits (s : string) : option Z :=
  match s with "" => None | _ => digits_val 0 s end.

(** [ParseInt(s, 10, 32)]: an optional sign, digits, and the range of int32.
    [None] stands for the errors. *)
Definition ParseInt32 (s : string) : option Z :=
  let '(neg, s') :=
    match s with
    | String "-" t => (true, t)
    | String "+" t => (false, t)
    | _ => (false, s)
    end in
  un ← ParseDigits s';
  if neg then (if bool_decide (un ≤ 2 ^ 31)%Z then Some (- un)%Z else None)
  else (if bool_decide (un < 2 ^ 31)%Z then Some un else None).

Definition ParseBool (s : string) : option bool :=
  if bool_decide (s ∈ ["1"; "t"; "T"; "true"; "TRUE"; "True"]) then Some true
  else if bool_decide (s ∈ ["0"; "f"; "F"; "false"; "FALSE"; "False"]) then Some false
  else None.

End strconv.

Module time.

(** A [time.Duration] is an int64 of nanoseconds. *)
Definition unitMap (u : string) : option Z :=
  if String.eqb u "ns" then Some 1%Z
  else if bool_decide (u ∈ ["us"; "µs"; "μs"]) then Some (10 ^ 3)%Z
  else if String.eqb u "ms" then Some (10 ^ 6)%Z
  else if String.eqb u "s" then Some (10 ^ 9)%Z
  else if String.eqb u "m" then Some (60 * 10 ^ 9)%Z
  else if String.eqb u "h" then Some (3600 * 10 ^ 9)%Z
  else None.

(** [leadingInt]: the value of the leading digits and the rest, [None] when it
    exceeds 1<<63. *)
Fixpoint leadingInt (x : Z) (s : string) : option (Z * string) :=
  match s with
  | String c s' =>
      if is_digit c then
        if bool_decide (x > 2 ^ 63 / 10)%Z then None
        else let x' := (x * 10 + digit_val c)%Z in
             if bool_decide (x' > 2 ^ 63)%Z then None else leadingInt x' s'
      else Some (x, s)
  | "" => Some (x, "")
  end.

(** The float64 operations. *)
Definition float_of (z : Z) : spec_float := binary_normalize 53 1024 z 0 false.
Definition fmul : spec_float → spec_float → spec_float := SFmul 53 1024.
Definition fdiv : spec_float → spec_float → spec_float := SFdiv 53 1024.

(** [uint64(f)] for the finite non-negative values that occur. *)
Definition float_trunc (f : spec_float) : Z :=
  match f with
  | S754_finite _ m e => Z.shiftl (Zpos m) e
  | _ => 0%Z
  end.

(** [leadingFraction]: digits that no longer fit in 63 bits are skipped. *)
Fixpoint leadingFraction (x : Z) (scale : spec_float) (overflow : bool) (s : string)
  : Z * spec_float * string :=
  match s with
  | String c s' =>
      if is_digit c then
        if overflow then leadingFraction x scale true s'
        else if bool_decide (x > (2 ^ 63 - 1) / 10)%Z then leadingFraction x scale true s'
        else let y := (x * 10 + digit_val c)%Z in
             if bool_decide (y > 2 ^ 63)%Z then leadingFraction x scale true s'
             else leadingFraction y (fmul scale (float_of 10)) false s'
      else (x, scale, s)
  | "" => (x, scale, "")
  end.

(** The unit: the bytes up to the next digit or dot. *)
Fixpoint cut_unit (s : string) : string * string :=
  match s with
  | String c s' =>
      if Ascii.eqb c "." || is_digit c then ("", s)
      else let '(u, rest) := cut_unit s' in (String c u, rest)
  | "" => ("", "")
  end.

(** One number with its unit: its value in nanoseconds and the rest. *)
Definition parse_term (s : string) : option (Z * string) :=
  match s with
  | "" => None
  | String c _ =>
      if negb (Ascii.eqb c "." || is_digit c) then None else
      '(v, s1) ← leadingInt 0 s;
      let pre := negb (len s =? len s1) in
      let '(f, scale, s2, post) :=
        match s1 with
        | String "." t =>
            let '(f, scale, t') := leadingFraction 0 (float_of 1) false t in
            (f, scale, t', negb (len t =? len t'))
        | _ => (0%Z, float_of 1, s1, false)
        end in
      if negb pre && negb post then None else
      let '(u, s3) := cut_unit s2 in
      if String.eqb u "" then None else
      unit ← unitMap u;
      if bool_decide (v > 2 ^ 63 / unit)%Z then None else
      let v' := (v * unit)%Z in
      if bool_decide (f > 0)%Z then
        let v'' := (v' + float_trunc (fmul (float_of f) (fdiv (float_of unit) scale)))%Z in
        if bool_decide (v'' > 2 ^ 63)%Z then None else Some (v'', s3)
      else Some (v', s3)
  end.

(** The loop; each turn consumes at least a byte, so [len s] turns are enough
    ([parse_terms_fuel]). *)
Fixpoint parse_terms (fuel : nat) (d : Z) (s : string) : option Z :=
  match s with
  | "" => Some d
  | _ =>
      match fuel with
      | 0 => None
      | S fuel' =>
          '(v, s') ← parse_term s;
          let d' := ((d + v) mod 2 ^ 64)%Z in
          if bool_decide (d' > 2 ^ 63)%Z then None else parse_terms fuel' d' s'
      end
  end.

Definition ParseDuration (s : string) : option Z :=
  let '(neg, s') :=
    match s with
    | String "-" t => (true, t)
    | String "+" t => (false, t)
    | _ => (false, s)
    end in
  if String.eqb s' "0" then Some 0%Z
  else if String.eqb s' "" then None
  else
    d ← parse_terms (len s') 0 s';
    if neg then Some (- d)%Z
    else if bool_decide (d > 2 ^ 63 - 1)%Z then None else Some d.

Example ParseDuration_examples :
  ParseDuration <$> ["5s"; "1h30m"; "1.5h"; "-.5s"; "10"; "3 s"; ""; "1µs"; "0.1ms"] =
  [Some 5000000000%Z; Some 5400000000000%Z; Some 5400000000000%Z; Some (-500000000)%Z; None; None;
   None; Some 1000%Z; Some 100000%Z].
Proof. vm_compute. reflexivity. Qed.

Lemma len_String c s : len (String c s) = S (len s).
Proof. done. Qed.

(** Every step of the parser returns a suffix that is no longer. *)
Lemma leadingInt_len s x v s' : leadingInt x s = Some (v, s') → len s' ≤ len s.
Proof.
  revert x. induction s as [|c s IH]; intros x; cbn [leadingInt]; [by intros [= <- <-]|].
  destruct (is_digit c); [|by intros [= <- <-]].
  repeat case_bool_decide; [done..|]. intros ?%IH. rewrite len_String. lia.
Qed.

Lemma leadingFraction_len s x scale o f scale' s' :
  leadingFraction x scale o s = (f, scale', s') → len s' ≤ len s.
Proof.
  revert x scale o. induction s as [|c s IH]; intros x scale o; cbn [leadingFraction];
    [by intros [= <- <- <-]|].
  destruct (is_digit c); [|by intros [= <- <- <-]].
  destruct o; repeat case_bool_decide; intros Hf; apply IH in Hf; rewrite len_String; lia.
Qed.

Lemma cut_unit_len s u s' : cut_unit s = (u, s') → len s' + len u = len s.
Proof.
  revert u. induction s as [|c s IH]; intros u; cbn [cut_unit]; [by intros [= <- <-]|].
  destruct (_ || _); [by intros [= <- <-]|].
  destruct (cut_unit s) as [u0 r]. intros [= <- <-]. rewrite !len_String. specialize (IH u0 eq_refl). lia.
Qed.

Lemma parse_term_len s v s' : parse_term s = Some (v, s') → len s' < len s.
Proof.
  destruct s as [|c0 s0]; [done|]. unfold parse_term.
  generalize (String c0 s0) as s. intros s. destruct (negb _); [done|]. clear c0 s0.
  destruct (leadingInt 0 s) as [[v1 s1]|] eqn:E1; [|done]. apply leadingInt_len in E1. cbn [mbind option_bind].
  assert (Hmid : ∀ f scale s2 post,
    len s2 ≤ len s1 →
    (if negb (negb (len s =? len s1)) && negb post then None else
      let '(u, s3) := cut_unit s2 in
      if String.eqb u "" then None else
      unit ← unitMap u;
      if bool_decide (v1 > 2 ^ 63 / unit)%Z then None else
      let v' := (v1 * unit)%Z in
      if bool_decide (f > 0)%Z then
        let v'' := (v' + float_trunc (fmul (float_of f) (fdiv (float_of unit) scale)))%Z in
        if bool_decide (v'' > 2 ^ 63)%Z then None else Some (v'', s3)
      else Some (v', s3)) = Some (v, s') → len s' < len s).
  { intros f scale s2 post Hs2. destruct (_ && _); [done|].
    destruct (cut_unit s2) as [u s3] eqn:Eu. apply cut_unit_len in Eu.
    destruct (String.eqb u "") eqn:Hu; [done|]. apply String.eqb_neq in Hu.
    assert (0 < len u) by (destruct u; [done|rewrite len_String; lia]).
    destruct (unitMap u); [|done]. cbn [mbind option_bind]. cbv zeta.
    repeat case_bool_decide; intros [= <- <-]; lia. }
  destruct s1 as [|c t]; [by apply Hmid|].
  destruct c as [[] [] [] [] [] [] [] []]; try by apply Hmid.
  destruct (leadingFraction 0 _ _ t) as [[f scale] t'] eqn:Ef. apply leadingFraction_len in Ef.
  apply Hmid. rewrite len_String. lia.
Qed.

Lemma parse_terms_fuel n m d s :
  len s ≤ n → len s ≤ m → parse_terms n d s = parse_terms m d s.
Proof.
  revert m d s. induction n as [|n IH]; intros m d [|c s] Hn Hm; [by destruct m|rewrite len_String in Hn; lia|by destruct m|].
  destruct m as [|m]; [rewrite len_String in Hm; lia|]. cbn [parse_terms].
  destruct (parse_term (String c s)) as [[v s']|] eqn:E; [|done]. apply parse_term_len in E.
  cbn [mbind option_bind]. cbv zeta. case_bool_decide; [done|]. rewrite len_String in *. apply IH; lia.
Qed.

End time.

(** ** The annotation lookup of the infra repository *)

(** [annotation.Get(obj, key, aliases...)]. *)
Class Annotation := annotation_Get : gmap string string → string → list string → option string.

(** The value of the key, or of the first alias present. *)
Class AnnotationLaws `{!Annotation} : Prop := {
  Get_key : ∀ m k l v, m !! k = Some v → annotation_Get m k l = Some v;
  Get_alias : ∀ m k a l, m !! k = None → annotation_Get m k (a :: l) = annotation_Get m a l;
  Get_absent : ∀ m k, m !! k = None → annotation_Get m k [] = None
}.

Definition reference_annotation : Annotation := λ m k l, head (omap (m !!.) (k :: l)).

#[global] Instance reference_annotation_laws : @AnnotationLaws reference_annotation.
Proof.
  split; unfold annotation_Get, reference_annotation.
  - intros m k l v H. cbn. by rewrite H.
  - intros m k a l H. cbn. by rewrite H.
  - intros m k H. cbn. by rewrite H.
Qed.

Module annotations.

Definition Prefix : string := "dolphin.io".
Definition IngressPrefix : string := "ingress.dolphin.io".
Definition LBModeAnnotation : string := IngressPrefix +:+ "/loadbalancer-mode".
Definition LBModeAnnotationAlias : string := Prefix +:+ ".ingress" +:+ "/loadbalancer-mode".
Definition ServiceTypeAnnotation : string := IngressPrefix +:+ "/service-type".
Definition ServiceTypeAnnotationAlias : string := Prefix +:+ ".ingress" +:+ "/service-type".
Definition SecureNodePortAnnotation : string := IngressPrefix +:+ "/secure-node-port".
Definition SecureNodePortAnnotationAlias : string := Prefix +:+ ".ingress" +:+ "/secure-node-port".
Definition InsecureNodePortAnnotation : string := IngressPrefix +:+ "/insecure-node-port".
Definition InsecureNodePortAnnotationAlias : string := Prefix +:+ ".ingress" +:+ "/insecure-node-port".
Definition TLSPassthroughAnnotation : string := IngressPrefix +:+ "/tls-passthrough".
Definition TLSPassthroughAnnotationAlias : string := Prefix +:+ ".ingress" +:+ "/tls-passthrough".
Definition RequestTimeoutAnnotation : string := IngressPrefix +:+ "/request-timeout".
Definition ForceHTTPSAnnotation : string := IngressPrefix +:+ "/force-https".
Definition HostListenerPortAnnotation : string := IngressPrefix +:+ "/host-listener-port".

Definition enabled : string := "enabled".
Definition disabled : string := "disabled".

Definition LoadbalancerModeDedicated : string := "dedicated".
Definition LoadbalancerModeShared : string := "shared".

Section Get.
Context {ann : Annotation}.

(** The argument of each function is the annotation map of the Ingress. *)
Definition GetAnnotationIngressLoadbalancerMode (ingress : gmap string string) : string :=
  default "" (annotation_Get ingress LBModeAnnotation [LBModeAnnotationAlias]).

Definition GetAnnotationTLSPassthroughEnabled (ingress : gmap string string) : bool :=
  match annotation_Get ingress TLSPassthroughAnnotation [TLSPassthroughAnnotationAlias] with
  | None => false
  | Some val => if String.eqb val enabled then true else default false (strconv.ParseBool val)
  end.

Definition GetAnnotationServiceType (ingress : gmap string string) : string :=
  default "LoadBalancer" (annotation_Get ingress ServiceTypeAnnotation [ServiceTypeAnnotationAlias]).

(** A port annotation: absent, an error, or the parsed integer as a uint32. *)
Definition parse_port (val : option string) : option Z + unit :=
  match val with
  | None => inl None
  | Some v => match strconv.ParseInt32 v with Some i => inl (Some (u32 i)) | None => inr tt end
  end.

Definition GetAnnotationSecureNodePort (ingress : gmap string string) : option Z + unit :=
  parse_port (annotation_Get ingress SecureNodePortAnnotation [SecureNodePortAnnotationAlias]).

Definition GetAnnotationInsecureNodePort (ingress : gmap string string) : option Z + unit :=
  parse_port (annotation_Get ingress InsecureNodePortAnnotation [InsecureNodePortAnnotationAlias]).

Definition GetAnnotationHostListenerPort (ingress : gmap string string) : option Z + unit :=
  parse_port (annotation_Get ingress HostListenerPortAnnotation []).

Definition GetAnnotationRequestTimeout (ingress : gmap string string) : option Z + unit :=
  match annotation_Get ingress RequestTimeoutAnnotation [] with
  | None => inl None
  | Some val => match time.ParseDuration val with Some d => inl (Some d) | None => inr tt end
  end.

Definition GetAnnotationForceHTTPSEnabled (ingress : gmap string string) : option bool :=
  val ← annotation_Get ingress ForceHTTPSAnnotation [];
  if String.eqb val enabled then Some true
  else if String.eqb val disabled then Some false
  else strconv.ParseBool val.

End Get.

End annotations.
