(* ===== verification/IngressIngestion.v ===== *)
(** * Ingress ingestion (src/pkg/model/ingestion/ingress.go)

    [Module networkingv1]: the Kubernetes Ingress as the code reads it.
    [Module ingress_ingestion]: [Ingress] builds the HTTP listeners of an
    Ingress and [IngressPassthrough] its TLS listeners.  Both build a map from
    hostname to listener in loops and return its values in key order; the
    theorems compare the loops with a reference that gives the listener of a
    hostname directly. *)

From S2P Require Import Prelude GoStrings Model Hostnames Annotations.

Module networkingv1.

Record ServiceBackendPort := mkServiceBackendPort { sbp_Name : string; sbp_Number : Z }.
Record IngressServiceBackend := mkIngressServiceBackend {
  isb_Name : string; isb_Port : ServiceBackendPort }.

(** A resource backend has no service. *)
Record IngressBackend := mkIngressBackend { ib_Service : option IngressServiceBackend }.

Record HTTPIngressPath := mkHTTPIngressPath {
  hip_Path : string;
  hip_PathType : option string;
  hip_Backend : IngressBackend
}.

Record IngressRule := mkIngressRule {
  ir_Host : string; ir_HTTP : option (list HTTPIngressPath) }.
Record IngressTLS := mkIngressTLS { it_Hosts : list string; it_SecretName : string }.

Record Ingress := mkIngress {
  ing_Name : string;
  ing_Namespace : string;
  ing_UID : string;
  ing_Annotations : gmap string string;
  ing_DefaultBackend : option IngressBackend;
  ing_Rules : list IngressRule;
  ing_TLS : list IngressTLS
}.

Definition PathTypeExact : string := "Exact".
Definition PathTypePrefix : string := "Prefix".
Definition PathTypeImplementationSpecific : string := "ImplementationSpecific".

End networkingv1.

Import networkingv1.

Module ingress_ingestion.

Section Ingestion.
Context {ann : Annotation} {range : MapRange}.

Definition sourceResource (ing : Ingress) : model.FullyQualifiedResource :=
  model.mkFQR (ing_Name ing) (ing_Namespace ing) "" "v1" "Ingress" (ing_UID ing).

Definition getService (ing : Ingress) : option model.Service :=
  if negb (String.eqb (annotations.GetAnnotationServiceType (ing_Annotations ing)) "NodePort")
  then None
  else
    let secure :=
      match annotations.GetAnnotationSecureNodePort (ing_Annotations ing) with
      | inl p => p | inr _ => None end in
    let insecure :=
      match annotations.GetAnnotationInsecureNodePort (ing_Annotations ing) with
      | inl p => p | inr _ => None end in
    Some (model.mkService "NodePort" insecure secure).

Definition appendValuesInKeyOrder {T} (listenerMap : gmap string T) (appendSlice : list T) : list T :=
  appendSlice ++ omap (listenerMap !!.) (sort_strings (map_keys listenerMap)).

(** ** HTTP listeners *)

Definition requestTimeout (ing : Ingress) (defaultRequestTimeout : Z) : model.Timeout :=
  let request := if bool_decide (defaultRequestTimeout ≠ 0%Z) then Some defaultRequestTimeout else None in
  model.mkTimeout
    (match annotations.GetAnnotationRequestTimeout (ing_Annotations ing) with
     | inl (Some v) => Some v
     | _ => request
     end) None.

(** The backend of a service of the Ingress's namespace. *)
Definition serviceBackend (ing : Ingress) (service : IngressServiceBackend) : model.Backend :=
  let port := isb_Port service in
  model.mkBackend (isb_Name service) (ing_Namespace ing)
    (Some (model.mkBackendPort
       (if bool_decide (sbp_Number port ≠ 0%Z) then u32 (sbp_Number port) else 0%Z)
       (if negb (String.eqb (sbp_Name port) "") then sbp_Name port else "")))
    None None.

Definition ingressRoute (pathMatch : model.StringMatch) (backend : model.Backend)
    (timeout : model.Timeout) : model.HTTPRoute :=
  model.mkHTTPRoute "" [] pathMatch [] [] None [backend] [] None None None None None None [] false
    timeout.

Definition pathMatch (pathType path : string) : model.StringMatch :=
  if String.eqb pathType PathTypeExact then model.mkStringMatch "" path ""
  else if String.eqb pathType PathTypePrefix then model.mkStringMatch path "" ""
  else if String.eqb pathType PathTypeImplementationSpecific then model.mkStringMatch "" "" path
  else model.emptyMatch.

Definition pathRoute (ing : Ingress) (timeout : model.Timeout) (path : HTTPIngressPath)
  : go model.HTTPRoute :=
  pathType ← deref (hip_PathType path);
  service ← deref (ib_Service (hip_Backend path));
  Ok (ingressRoute (pathMatch pathType (hip_Path path)) (serviceBackend ing service) timeout).

Definition emptyListener : model.HTTPListener :=
  model.mkHTTPListener "" [] "" 0 "" None [] None None false.

(** The map after the default backend. *)
Definition defaultListenerMap (ing : Ingress) (insecureListenerPort : Z) (timeout : model.Timeout)
  : go (gmap string model.HTTPListener) :=
  match ing_DefaultBackend ing with
  | None => Ok ∅
  | Some b =>
      service ← deref (ib_Service b);
      Ok {[ "*" := model.mkHTTPListener "" (helper.AddSource [] (sourceResource ing)) ""
              insecureListenerPort "*" None
              [ingressRoute model.emptyMatch (serviceBackend ing service) timeout]
              (getService ing) None false ]}
  end.

Definition ruleHost (rule : IngressRule) : string :=
  if negb (String.eqb (ir_Host rule) "") then ir_Host rule else "*".

Definition listenerName (ing : Ingress) (host : string) : string :=
  "ing-" +:+ ing_Name ing +:+ "-" +:+ ing_Namespace ing +:+ "-" +:+ host.

(** One turn of the loop over the rules. *)
Definition addRule (ing : Ingress) (insecureListenerPort : Z) (timeout : model.Timeout)
    (insecureListenerMap : gmap string model.HTTPListener) (rule : IngressRule)
  : go (gmap string model.HTTPListener) :=
  let host := ruleHost rule in
  let ok := bool_decide (is_Some (insecureListenerMap !! host)) in
  let l := default emptyListener (insecureListenerMap !! host) in
  match ir_HTTP rule with
  | None => Ok insecureListenerMap
  | Some paths =>
      routes ← go_map (pathRoute ing timeout) paths;
      Ok (<[host :=
        model.mkHTTPListener (if ok then model.hl_Name l else listenerName ing host)
          (helper.AddSource (model.hl_Sources l) (sourceResource ing)) (model.hl_Address l)
          insecureListenerPort host (model.hl_TLS l) (model.hl_Routes l ++ routes)
          (if length paths =? 0 then model.hl_Service l else getService ing)
          (model.hl_Infrastructure l) (model.hl_ForceHTTPtoHTTPSRedirect l)]> insecureListenerMap)
  end.

Definition insecureListeners (ing : Ingress) (insecureListenerPort : Z) (timeout : model.Timeout)
  : go (gmap string model.HTTPListener) :=
  m ← defaultListenerMap ing insecureListenerPort timeout;
  go_foldl (addRule ing insecureListenerPort timeout) m (ing_Rules ing).

Definition forceHTTPs (ing : Ingress) (enforcedHTTPS : bool) : bool :=
  match annotations.GetAnnotationForceHTTPSEnabled (ing_Annotations ing) with
  | None => enforcedHTTPS
  | Some b => b
  end.

(** What both assignments to a [TLS] field store, if anything. *)
Definition tlsSecret (ing : Ingress) (defaultSecretNamespace defaultSecretName : string)
    (tlsConfig : IngressTLS) : option (list model.TLSSecret) :=
  if negb (String.eqb (it_SecretName tlsConfig) "")
  then Some [model.mkTLSSecret (it_SecretName tlsConfig) (ing_Namespace ing)]
  else if negb (String.eqb defaultSecretNamespace "") && negb (String.eqb defaultSecretName "")
  then Some [model.mkTLSSecret defaultSecretName defaultSecretNamespace]
  else None.

Definition secureCopy (l : model.HTTPListener) (host : string) (secureListenerPort : Z)
    (secret : option (list model.TLSSecret)) (service : option model.Service) (force : bool)
  : model.HTTPListener :=
  model.mkHTTPListener (model.hl_Name l) (model.hl_Sources l) (model.hl_Address l)
    secureListenerPort host (match secret with Some s => Some s | None => model.hl_TLS l end)
    (model.hl_Routes l) service (model.hl_Infrastructure l) force.

(** One turn of the inner loop over the hosts of the TLS configurations. *)
Definition addTLSHost (ing : Ingress) (defaultSecretNamespace defaultSecretName : string)
    (force : bool) (secureListenerPort : Z) (insecureListenerMap : gmap string model.HTTPListener)
    (secureListenerMap : gmap string model.HTTPListener) (th : IngressTLS * string)
  : gmap string model.HTTPListener :=
  let '(tlsConfig, host) := th in
  let found :=
    match secureListenerMap !! host with
    | Some l => Some l
    | None => match insecureListenerMap !! host with
              | Some l => Some l
              | None => insecureListenerMap !! "*"
              end
    end in
  match found with
  | None => secureListenerMap
  | Some l =>
      let secret := tlsSecret ing defaultSecretNamespace defaultSecretName tlsConfig in
      let m := <[host := secureCopy l host secureListenerPort secret (getService ing) force]>
                 secureListenerMap in
      match insecureListenerMap !! "*" with
      | Some defaultListener =>
          <[host := secureCopy defaultListener host secureListenerPort secret
                      (model.hl_Service defaultListener)
                      (model.hl_ForceHTTPtoHTTPSRedirect defaultListener)]> m
      | None => m
      end
  end.

(** The pairs the two nested loops visit, in order. *)
Definition tlsHosts (ing : Ingress) : list (IngressTLS * string) :=
  ing_TLS ing ≫= λ c, (λ h, (c, h)) <$> it_Hosts c.

Definition Ingress (ing : Ingress) (defaultSecretNamespace defaultSecretName : string)
    (enforcedHTTPS : bool) (insecureListenerPort secureListenerPort defaultRequestTimeout : Z)
  : go (list model.HTTPListener) :=
  insecureListenerMap ←
    insecureListeners ing insecureListenerPort (requestTimeout ing defaultRequestTimeout);
  let secureListenerMap :=
    foldl (addTLSHost ing defaultSecretNamespace defaultSecretName (forceHTTPs ing enforcedHTTPS)
             secureListenerPort insecureListenerMap) ∅ (tlsHosts ing) in
  Ok (appendValuesInKeyOrder secureListenerMap (appendValuesInKeyOrder insecureListenerMap [])).

(** ** TLS passthrough listeners *)

Definition emptyTLSListener : model.TLSListener :=
  model.mkTLSListener "" [] "" 0 "" [] None None.

(** The route of a path, none when the path is not the root. *)
Definition passthroughRoute (ing : networkingv1.Ingress) (path : HTTPIngressPath)
  : go (list model.TLSRoute) :=
  if negb (String.eqb (hip_Path path) "/") then Ok []
  else service ← deref (ib_Service (hip_Backend path));
       Ok [model.mkTLSRoute "" [] [serviceBackend ing service]].

Definition addPassthroughRule (ing : networkingv1.Ingress)
    (tlsListenerMap : gmap string model.TLSListener) (rule : IngressRule)
  : go (gmap string model.TLSListener) :=
  if String.eqb (ir_Host rule) "" then Ok tlsListenerMap
  else
    let host := ir_Host rule in
    let ok := bool_decide (is_Some (tlsListenerMap !! host)) in
    let l := default emptyTLSListener (tlsListenerMap !! host) in
    match ir_HTTP rule with
    | None => Ok tlsListenerMap
    | Some paths =>
        routes ← go_flat_map (passthroughRoute ing) paths;
        let allRoutes := model.tl_Routes l ++ routes in
        if length allRoutes =? 0 then Ok tlsListenerMap
        else Ok (<[host :=
          model.mkTLSListener (if ok then model.tl_Name l else listenerName ing host)
            (helper.AddSource (model.tl_Sources l) (sourceResource ing)) (model.tl_Address l) 443
            host allRoutes (if length routes =? 0 then model.tl_Service l else getService ing)
            (model.tl_Infrastructure l)]> tlsListenerMap)
    end.

Definition IngressPassthrough (ing : networkingv1.Ingress) : go (list model.TLSListener) :=
  tlsListenerMap ← go_foldl (addPassthroughRule ing) ∅ (ing_Rules ing);
  Ok (appendValuesInKeyOrder tlsListenerMap []).

End Ingestion.

(** ** The reference

    What the API server guarantees of an Ingress: every path has a type, and a rule
    with an HTTP part has a path. *)
Record admitted_ingress (ing : networkingv1.Ingress) : Prop := {
  admitted_types : Forall (λ r, Forall (λ p, is_Some (hip_PathType p)) (default [] (ir_HTTP r))) (ing_Rules ing);
  admitted_nonempty : Forall (λ r, ir_HTTP r ≠ Some []) (ing_Rules ing)
}.

(** What it does not guarantee, and the code relies on: every backend is a Service.
    A backend may also be a resource ([resource_backend_panics] below). *)
Record service_backends (ing : networkingv1.Ingress) : Prop := {
  backends_default : ∀ b, ing_DefaultBackend ing = Some b → is_Some (ib_Service b);
  backends_rules :
    Forall (λ r, Forall (λ p, is_Some (ib_Service (hip_Backend p))) (default [] (ir_HTTP r))) (ing_Rules ing)
}.

(** The Ingresses that the theorems below are about: admitted, and all their
    backends are Services. *)
Definition service_path (p : HTTPIngressPath) : Prop :=
  is_Some (hip_PathType p) ∧ is_Some (ib_Service (hip_Backend p)).

Record service_ingress (ing : networkingv1.Ingress) : Prop := {
  si_default : ∀ b, ing_DefaultBackend ing = Some b → is_Some (ib_Service b);
  si_rules : Forall (λ r, Forall service_path (default [] (ir_HTTP r))) (ing_Rules ing);
  si_nonempty : Forall (λ r, ir_HTTP r ≠ Some []) (ing_Rules ing)
}.

Lemma service_ingress_iff ing : service_ingress ing ↔ admitted_ingress ing ∧ service_backends ing.
Proof.
  assert (Hp : Forall (λ r, Forall service_path (default [] (ir_HTTP r))) (ing_Rules ing) ↔
    Forall (λ r, Forall (λ p, is_Some (hip_PathType p)) (default [] (ir_HTTP r))) (ing_Rules ing) ∧
    Forall (λ r, Forall (λ p, is_Some (ib_Service (hip_Backend p))) (default [] (ir_HTTP r))) (ing_Rules ing)).
  { rewrite <-Forall_and. unfold service_path. split; intros H; (eapply Forall_impl; [exact H|]); intros r; cbn;
      by rewrite Forall_and. }
  split.
  - intros [H1 [H2 H3]%Hp H4]. by split; split.
  - intros [[H1 H2] [H3 H4]]. split; [done|by apply Hp|done].
Qed.

Section Reference.
Context {ann : Annotation} (ing : networkingv1.Ingress).

(** The paths of the rules for a host, in the order of the rules. *)
Definition hostPaths (rules : list IngressRule) (host : string) : list HTTPIngressPath :=
  rules ≫= λ r, if bool_decide (ruleHost r = host) then default [] (ir_HTTP r) else [].

Definition hasRule (rules : list IngressRule) (host : string) : bool :=
  existsb (λ r, bool_decide (ruleHost r = host ∧ is_Some (ir_HTTP r))) rules.

Definition hasDefault (host : string) : bool :=
  bool_decide (host = "*" ∧ is_Some (ing_DefaultBackend ing)).

Definition defaultRoutes (timeout : model.Timeout) (host : string) : list model.HTTPRoute :=
  if hasDefault host
  then match ing_DefaultBackend ing ≫= ib_Service with
       | Some s => [ingressRoute model.emptyMatch (serviceBackend ing s) timeout]
       | None => []
       end
  else [].

Definition pathRoutes (timeout : model.Timeout) (p : HTTPIngressPath) : list model.HTTPRoute :=
  match pathRoute ing timeout p with Ok r => [r] | Panic _ => [] end.

(** The insecure listener of a host. *)
Definition listenerOf (port : Z) (timeout : model.Timeout) (rules : list IngressRule)
    (host : string) : option model.HTTPListener :=
  if hasDefault host || hasRule rules host then
    Some (model.mkHTTPListener (if hasDefault host then "" else listenerName ing host)
      [sourceResource ing] "" port host None
      (defaultRoutes timeout host ++ (hostPaths rules host ≫= pathRoutes timeout))
      (if hasDefault host || negb (length (hostPaths rules host) =? 0) then getService ing else None)
      None false)
  else None.

(** ** Lemmas: the loop over the rules *)

Lemma pathRoute_pure timeout paths :
  Forall service_path paths →
  go_map (pathRoute ing timeout) paths = Ok (paths ≫= pathRoutes timeout).
Proof.
  induction 1 as [|p paths [[t Ht] [s Hs]] _ IH]; [done|].
  cbn [go_map]. rewrite IH, bind_cons. unfold pathRoutes, pathRoute. by rewrite Ht, Hs.
Qed.

Lemma hostPaths_app r1 r2 h : hostPaths (r1 ++ r2) h = hostPaths r1 h ++ hostPaths r2 h.
Proof. apply bind_app. Qed.

Lemma hasRule_paths rules h : hasRule rules h = false → hostPaths rules h = [].
Proof.
  induction rules as [|r rules IH]; [done|]. unfold hasRule, hostPaths in *. cbn [existsb].
  rewrite bind_cons, orb_false_iff. intros [Hr Hrs]. rewrite (IH Hrs), app_nil_r.
  apply bool_decide_eq_false in Hr. case_bool_decide; [|done]. destruct (ir_HTTP r); naive_solver.
Qed.

Lemma AddSource_idem s : helper.AddSource [s] s = [s].
Proof. unfold helper.AddSource. cbn. by rewrite bool_decide_true. Qed.

(** A turn of the loop updates the listener of the rule's host only. *)
Lemma addRule_listenerOf port timeout before r m :
  Forall service_path (default [] (ir_HTTP r)) →
  (∀ h, m !! h = listenerOf port timeout before h) →
  yields (addRule ing port timeout m r)
    (λ m', ∀ h, m' !! h = listenerOf port timeout (before ++ [r]) h).
Proof.
  intros Hr Hm. unfold addRule.
  assert (Hother : ∀ h, ruleHost r ≠ h ∨ ir_HTTP r = None →
    listenerOf port timeout (before ++ [r]) h = listenerOf port timeout before h).
  { intros h Hh. unfold listenerOf.
    assert (hasRule (before ++ [r]) h = hasRule before h) as ->.
    { unfold hasRule. rewrite existsb_app. cbn. rewrite bool_decide_false, !orb_false_r; [done|].
      intros [? [? ?]]. destruct Hh; [done|congruence]. }
    assert (hostPaths (before ++ [r]) h = hostPaths before h) as ->; [|done].
    rewrite hostPaths_app. unfold hostPaths at 2. rewrite bind_cons, app_nil_r.
    case_bool_decide; [|by rewrite app_nil_r]. destruct Hh as [?| ->]; [done|by rewrite app_nil_r]. }
  destruct (ir_HTTP r) as [paths|] eqn:Hhttp.
  2: { apply yields_Ok. intros h. rewrite Hother by auto. apply Hm. }
  cbn in Hr. rewrite (pathRoute_pure timeout paths Hr). cbn [mbind go_mbind]. apply yields_Ok. intros h.
  destruct (decide (ruleHost r = h)) as [<-|Hne].
  2: { rewrite lookup_insert_ne by done. rewrite Hother by auto. apply Hm. }
  rewrite lookup_insert_eq, Hm. clear Hother Hm m. set (h := ruleHost r).
  assert (Hrule : hasRule (before ++ [r]) h = true).
  { unfold hasRule. rewrite existsb_app. cbn. rewrite bool_decide_true, orb_true_r by (split; [done|by rewrite Hhttp]). done. }
  assert (Hpaths : hostPaths (before ++ [r]) h = hostPaths before h ++ paths).
  { rewrite hostPaths_app. unfold hostPaths at 2. rewrite bind_cons, app_nil_r, bool_decide_true, Hhttp by done. done. }
  unfold listenerOf. rewrite Hrule, Hpaths, orb_true_r, bind_app, length_app.
  destruct (hasDefault h || hasRule before h) eqn:Hb; cbn [default is_Some].
  - rewrite bool_decide_true by done. cbn. rewrite AddSource_idem, (assoc_L (++)). do 2 f_equal.
    destruct paths; cbn; [by rewrite Nat.add_0_r|].
    by rewrite (proj2 (Nat.eqb_neq (_ + _) 0)), orb_true_r by lia.
  - rewrite bool_decide_false by (intros [? [=]]). apply orb_false_iff in Hb as [Hd Hb].
    unfold defaultRoutes. rewrite Hd, (hasRule_paths _ _ Hb). cbn. by destruct paths.
Qed.

Lemma rules_listenerOf port timeout rules before m :
  Forall (λ r, Forall service_path (default [] (ir_HTTP r))) rules →
  (∀ h, m !! h = listenerOf port timeout before h) →
  yields (go_foldl (addRule ing port timeout) m rules)
    (λ m', ∀ h, m' !! h = listenerOf port timeout (before ++ rules) h).
Proof.
  intros Hrules. revert before m. induction Hrules as [|r rules Hr _ IH]; intros before m Hm.
  - rewrite app_nil_r. by apply yields_Ok.
  - cbn [go_foldl]. eapply yields_bind; [by apply addRule_listenerOf|]. intros m' Hm'.
    rewrite cons_middle, (assoc_L (++)). by apply IH.
Qed.

Lemma insecureListeners_listenerOf port timeout :
  service_ingress ing →
  yields (insecureListeners ing port timeout)
    (λ m, ∀ h, m !! h = listenerOf port timeout (ing_Rules ing) h).
Proof.
  intros [Hd Hr _]. unfold insecureListeners.
  apply yields_bind with (λ m, ∀ h, m !! h = listenerOf port timeout [] h).
  - unfold defaultListenerMap, listenerOf, defaultRoutes, hasDefault, hasRule.
    destruct (ing_DefaultBackend ing) as [b|] eqn:Hb.
    + destruct (Hd b eq_refl) as [s Hs]. rewrite Hs. cbn. apply yields_Ok. intros h.
      rewrite Hs. destruct (decide (h = "*")) as [->|Hne].
      * rewrite lookup_singleton_eq, bool_decide_true by done. done.
      * rewrite lookup_singleton_ne, bool_decide_false by naive_solver. done.
    + apply yields_Ok. intros h. by rewrite lookup_empty, bool_decide_false by (by intros [? [? ?]]).
  - intros m Hm. by apply (rules_listenerOf port timeout _ []).
Qed.

(** ** Lemmas: the loops over the TLS configurations *)

(** The TLS configurations that name a host, in order. *)
Definition mentions (ths : list (IngressTLS * string)) (host : string) : list IngressTLS :=
  fst <$> filter (λ th, th.2 = host) ths.

Section Secure.
Context (dns dname : string) (force : bool) (port : Z).

Abbreviation secret := (tlsSecret ing dns dname).

(** The secure listener of a host, given the insecure ones.  When there is a
    listener for all hosts it is a copy of that one, with the secret of the last
    configuration that names the host; otherwise it is a copy of the listener of
    the host itself, with the last secret. *)
Definition secureOf (insecure : string → option model.HTTPListener)
    (ths : list (IngressTLS * string)) (host : string) : option model.HTTPListener :=
  match insecure "*" with
  | Some d =>
      c ← last (mentions ths host);
      Some (secureCopy d host port (secret c) (model.hl_Service d)
              (model.hl_ForceHTTPtoHTTPSRedirect d))
  | None =>
      l ← insecure host;
      _ ← last (mentions ths host);
      Some (secureCopy l host port (last (omap secret (mentions ths host))) (getService ing) force)
  end.

Lemma mentions_snoc ths c h h' :
  mentions (ths ++ [(c, h)]) h' = mentions ths h' ++ if decide (h = h') then [c] else [].
Proof.
  unfold mentions. rewrite filter_app, fmap_app. f_equal. rewrite filter_cons. cbn.
  by destruct (decide (h = h')).
Qed.

Lemma addTLSHost_secureOf ins ths m th :
  (∀ h, m !! h = secureOf (ins !!.) ths h) →
  ∀ h, addTLSHost ing dns dname force port ins m th !! h = secureOf (ins !!.) (ths ++ [th]) h.
Proof.
  destruct th as [c host]. intros Hm h. unfold addTLSHost. rewrite (Hm host).
  assert (Hother : host ≠ h → m !! h = secureOf (ins !!.) (ths ++ [(c, host)]) h).
  { intros Hne. rewrite Hm. unfold secureOf. rewrite mentions_snoc, decide_False, app_nil_r by done. done. }
  unfold secureOf at 1. destruct (ins !! "*") as [d|] eqn:Hd.
  - assert (Hput : ∀ l, <[host:=secureCopy d host port (secret c) (model.hl_Service d)
        (model.hl_ForceHTTPtoHTTPSRedirect d)]> (<[host:=l]> m) !! h =
        secureOf (ins !!.) (ths ++ [(c, host)]) h).
    { intros l. rewrite insert_insert_eq. destruct (decide (host = h)) as [<-|Hne];
        [|by rewrite lookup_insert_ne, Hother by done].
      rewrite lookup_insert_eq. unfold secureOf. by rewrite Hd, mentions_snoc, decide_True, last_snoc by done. }
    destruct (last _); cbn; [apply Hput|]. destruct (ins !! host); apply Hput.
  - destruct (ins !! host) as [l|] eqn:Hl; cbn.
    2: { destruct (decide (host = h)) as [<-|Hne]; [|by apply Hother]. rewrite Hm. unfold secureOf.
         by rewrite Hd, Hl. }
    assert (Hput : ∀ x, secureCopy x host port (secret c) (getService ing) force =
        secureCopy l host port (last (omap secret (mentions ths host ++ [c]))) (getService ing) force →
        <[host:=secureCopy x host port (secret c) (getService ing) force]> m !! h =
        secureOf (ins !!.) (ths ++ [(c, host)]) h).
    { intros x Hx. rewrite Hx. destruct (decide (host = h)) as [<-|Hne];
        [|by rewrite lookup_insert_ne, Hother by done].
      rewrite lookup_insert_eq. unfold secureOf.
      by rewrite Hd, Hl, mentions_snoc, decide_True, last_snoc by done. }
    destruct (last (mentions ths host)) as [c'|] eqn:Hlast; cbn; apply Hput.
    + unfold secureCopy. cbn. f_equal. rewrite omap_app. cbn.
      destruct (secret c); [by rewrite last_snoc|]. by rewrite app_nil_r.
    + apply last_None in Hlast as ->. cbn. by destruct (secret c).
Qed.

Lemma foldl_secureOf ins ths h :
  foldl (addTLSHost ing dns dname force port ins) ∅ ths !! h = secureOf (ins !!.) ths h.
Proof.
  revert h. induction ths as [|th ths IH] using rev_ind; intros h.
  - cbn. rewrite lookup_empty. unfold secureOf, mentions. cbn.
    destruct (ins !! "*"); [done|]. by destruct (ins !! h).
  - rewrite foldl_app. cbn [foldl]. by apply addTLSHost_secureOf.
Qed.

End Secure.

(** ** Lemmas: the loop over the passthrough rules *)

(** The root paths of the rules for a host. *)
Definition passthroughRoutes (p : HTTPIngressPath) : list model.TLSRoute :=
  match passthroughRoute ing p with Ok rs => rs | Panic _ => [] end.

Definition namedPaths (rules : list IngressRule) (host : string) : list HTTPIngressPath :=
  rules ≫= λ r, if bool_decide (ir_Host r = host) then default [] (ir_HTTP r) else [].

(** The passthrough listener of a host: none without a host or without a route. *)
Definition passthroughOf (rules : list IngressRule) (host : string) : option model.TLSListener :=
  let routes := namedPaths rules host ≫= passthroughRoutes in
  if String.eqb host "" || (length routes =? 0) then None
  else Some (model.mkTLSListener (listenerName ing host) [sourceResource ing] "" 443 host routes
               (getService ing) None).

Lemma passthroughRoute_pure paths :
  Forall service_path paths →
  go_flat_map (passthroughRoute ing) paths = Ok (paths ≫= passthroughRoutes).
Proof.
  intros Hp. apply go_flat_map_pure. intros p Hin. unfold passthroughRoutes, passthroughRoute.
  destruct (negb _); [done|]. eapply Forall_forall in Hp as [_ [s Hs]]; [|exact Hin]. by rewrite Hs.
Qed.

Lemma namedPaths_app r1 r2 h : namedPaths (r1 ++ r2) h = namedPaths r1 h ++ namedPaths r2 h.
Proof. apply bind_app. Qed.

Lemma addPassthroughRule_passthroughOf before r m :
  Forall service_path (default [] (ir_HTTP r)) →
  (∀ h, m !! h = passthroughOf before h) →
  yields (addPassthroughRule ing m r) (λ m', ∀ h, m' !! h = passthroughOf (before ++ [r]) h).
Proof.
  intros Hr Hm. unfold addPassthroughRule.
  assert (Hother : ∀ h, namedPaths [r] h ≫= passthroughRoutes = [] →
    passthroughOf (before ++ [r]) h = passthroughOf before h).
  { intros h Hh. unfold passthroughOf. rewrite namedPaths_app, bind_app, Hh. by rewrite app_nil_r. }
  destruct (String.eqb (ir_Host r) "") eqn:Hempty.
  { apply String.eqb_eq in Hempty. apply yields_Ok. intros h. rewrite Hm.
    destruct (decide (h = "")) as [->|Hne]; [done|]. symmetry. apply Hother. unfold namedPaths.
    rewrite bind_cons, bool_decide_false by congruence. done. }
  assert (Hone : ∀ h, namedPaths [r] h = if bool_decide (ir_Host r = h) then default [] (ir_HTTP r) else []).
  { intros h. unfold namedPaths. by rewrite bind_cons, app_nil_r. }
  destruct (ir_HTTP r) as [paths|] eqn:Hhttp.
  2: { apply yields_Ok. intros h. rewrite Hm. symmetry. apply Hother. rewrite Hone. by case_bool_decide. }
  cbn in Hr. rewrite (passthroughRoute_pure paths Hr). cbn [mbind go_mbind]. cbv zeta.
  set (routes := paths ≫= passthroughRoutes).
  assert (Hprev : model.tl_Routes (default emptyTLSListener (m !! ir_Host r)) =
    namedPaths before (ir_Host r) ≫= passthroughRoutes).
  { rewrite Hm. unfold passthroughOf. rewrite Hempty. cbn [orb].
    by destruct (namedPaths before (ir_Host r) ≫= passthroughRoutes). }
  assert (Hhere : passthroughOf (before ++ [r]) (ir_Host r) =
    let all := model.tl_Routes (default emptyTLSListener (m !! ir_Host r)) ++ routes in
    if length all =? 0 then None
    else Some (model.mkTLSListener (listenerName ing (ir_Host r)) [sourceResource ing] "" 443
                 (ir_Host r) all (getService ing) None)).
  { unfold passthroughOf. rewrite namedPaths_app, Hone, bool_decide_true by done. cbn [default].
    rewrite bind_app, Hprev. cbv zeta. by rewrite Hempty. }
  cbv zeta in Hhere. destruct (length _ =? 0) eqn:Hlen.
  - apply yields_Ok. intros h. destruct (decide (h = ir_Host r)) as [->|Hne].
    + rewrite Hhere, Hm. unfold passthroughOf. rewrite <-Hprev.
      apply Nat.eqb_eq, length_zero_iff_nil, app_eq_nil in Hlen as [-> _]. by rewrite orb_true_r.
    + rewrite Hm, Hother; [done|]. rewrite Hone, bool_decide_false by congruence. done.
  - apply yields_Ok. intros h. destruct (decide (h = ir_Host r)) as [->|Hne].
    2: { rewrite lookup_insert_ne, Hm by done. symmetry. apply Hother. rewrite Hone, bool_decide_false by congruence. done. }
    rewrite lookup_insert_eq, Hhere, Hm. unfold passthroughOf in Hprev |- *. rewrite Hempty in *. cbn [orb] in *.
    destruct (length (namedPaths before (ir_Host r) ≫= passthroughRoutes) =? 0) eqn:Hl0.
    + cbn. rewrite Hm in Hlen. unfold passthroughOf in Hlen. rewrite Hempty, Hl0 in Hlen. cbn in Hlen.
      by rewrite Hlen.
    + cbn. rewrite AddSource_idem. by destruct (length routes =? 0).
Qed.

Lemma passthrough_passthroughOf rules before m :
  Forall (λ r, Forall service_path (default [] (ir_HTTP r))) rules →
  (∀ h, m !! h = passthroughOf before h) →
  yields (go_foldl (addPassthroughRule ing) m rules)
    (λ m', ∀ h, m' !! h = passthroughOf (before ++ rules) h).
Proof.
  intros Hrules. revert before m. induction Hrules as [|r rules Hr _ IH]; intros before m Hm.
  - rewrite app_nil_r. by apply yields_Ok.
  - cbn [go_foldl]. eapply yields_bind; [by apply addPassthroughRule_passthroughOf|]. intros m' Hm'.
    rewrite cons_middle, (assoc_L (++)). by apply IH.
Qed.

End Reference.

(** ** Lemmas: values in key order *)

Section Values.
Context {range : MapRange} {T : Type} (key : T → string) (m : gmap string T).
Context (Hkey : ∀ h l, m !! h = Some l → key l = h).

Lemma elem_of_values l : l ∈ omap (m !!.) (sort_strings (map_keys m)) ↔ m !! key l = Some l.
Proof using Hkey.
  rewrite list_elem_of_omap. split.
  - intros (h & _ & Hh). by rewrite (Hkey h l Hh).
  - intros Hl. exists (key l). split; [|done].
    rewrite sort_strings_Permutation. by apply elem_of_map_keys.
Qed.

Lemma values_sorted :
  StronglySorted (λ a b, str_ltb (key a) (key b) = true) (omap (m !!.) (sort_strings (map_keys m))).
Proof using Hkey.
  set (ks := sort_strings (map_keys m)).
  assert (Hks : StronglySorted (λ a b, str_ltb a b = true) ks).
  { apply (sorted_strict id).
    - apply sort_stable_sorted; eauto with go.
    - rewrite list_fmap_id. unfold ks. rewrite sort_strings_Permutation. apply NoDup_map_keys. }
  clearbody ks. induction Hks as [|k ks Hks IH Hk]; [constructor|]. cbn.
  destruct (m !! k) as [l|] eqn:Hl; [|exact IH]. constructor; [exact IH|].
  apply Forall_forall. intros y (k' & Hk' & Hy)%list_elem_of_omap.
  rewrite (Hkey k l Hl), (Hkey k' y Hy). eapply Forall_forall in Hk; [|exact Hk']. exact Hk.
Qed.

End Values.

Lemma listenerOf_Hostname {ann : Annotation} ing port timeout rules h l :
  listenerOf ing port timeout rules h = Some l → model.hl_Hostname l = h.
Proof. unfold listenerOf. case_match; [|done]. by intros [= <-]. Qed.

Lemma secureOf_Hostname {ann : Annotation} ing dns dname force port ins ths h l :
  secureOf ing dns dname force port ins ths h = Some l → model.hl_Hostname l = h.
Proof.
  unfold secureOf. intros Hl.
  destruct (ins "*"); [|destruct (ins h); [|done]]; cbn in Hl;
    destruct (last (mentions ths h)); by simplify_eq/=.
Qed.

Lemma passthroughOf_Hostname {ann : Annotation} ing rules h l :
  passthroughOf ing rules h = Some l → model.tl_Hostname l = h.
Proof. unfold passthroughOf. cbv zeta. case_match; [done|]. by intros [= <-]. Qed.

(** The insecure listeners of an Ingress by host, and the secure ones. *)
Definition insecureOf {ann : Annotation} (ing : networkingv1.Ingress) (insecurePort defaultTimeout : Z)
  : string → option model.HTTPListener :=
  listenerOf ing insecurePort (requestTimeout ing defaultTimeout) (ing_Rules ing).

Lemma yields_Ingress {ann : Annotation} {range : MapRange} ing dns dname enforced ip sp timeout :
  service_ingress ing →
  yields (Ingress ing dns dname enforced ip sp timeout) (λ ls, ∃ ins sec, ls = ins ++ sec ∧
    StronglySorted (λ a b, str_ltb (model.hl_Hostname a) (model.hl_Hostname b) = true) ins ∧
    StronglySorted (λ a b, str_ltb (model.hl_Hostname a) (model.hl_Hostname b) = true) sec ∧
    (∀ l, l ∈ ins ↔ insecureOf ing ip timeout (model.hl_Hostname l) = Some l) ∧
    (∀ l, l ∈ sec ↔ secureOf ing dns dname (forceHTTPs ing enforced) sp
       (insecureOf ing ip timeout) (tlsHosts ing) (model.hl_Hostname l) = Some l)).
Proof.
  intros Hv. unfold Ingress. eapply yields_bind; [by apply insecureListeners_listenerOf|].
  intros m Hm. cbv zeta. apply yields_Ok. unfold appendValuesInKeyOrder.
  set (secs := foldl _ ∅ _).
  assert (Hsecs : ∀ h, secs !! h = secureOf ing dns dname (forceHTTPs ing enforced) sp
      (insecureOf ing ip timeout) (tlsHosts ing) h).
  { intros h. unfold secs. rewrite foldl_secureOf. unfold secureOf, insecureOf. by rewrite !Hm. }
  clearbody secs. rewrite app_nil_l.
  assert (Hk1 : ∀ h l, m !! h = Some l → model.hl_Hostname l = h).
  { intros h l. rewrite Hm. apply listenerOf_Hostname. }
  assert (Hk2 : ∀ h l, secs !! h = Some l → model.hl_Hostname l = h).
  { intros h l. rewrite Hsecs. apply secureOf_Hostname. }
  do 2 eexists. split; [done|]. split; [by apply values_sorted|]. split; [by apply values_sorted|].
  split; intros l.
  - rewrite (elem_of_values model.hl_Hostname) by done. by rewrite Hm.
  - rewrite (elem_of_values model.hl_Hostname) by done. by rewrite Hsecs.
Qed.

(** What translation needs of the listeners. *)
Definition translatable {ann : Annotation} (ing : networkingv1.Ingress) (l : model.HTTPListener) : Prop :=
  model.hl_Sources l = [sourceResource ing] ∧ model.hl_Service l = getService ing ∧
  Forall model.route_ok (model.hl_Routes l).

Lemma ingressRoute_ok ing s pm timeout : model.route_ok (ingressRoute pm (serviceBackend ing s) timeout).
Proof. split; cbn; [|done|constructor]. constructor; [by eexists|constructor]. Qed.

Lemma pathRoutes_ok ing timeout p : Forall model.route_ok (pathRoutes ing timeout p).
Proof.
  unfold pathRoutes, pathRoute. destruct (hip_PathType p), (ib_Service (hip_Backend p)); cbn; try constructor.
  - apply ingressRoute_ok.
  - constructor.
Qed.

Lemma hasRule_nonempty rules h :
  Forall (λ r, ir_HTTP r ≠ Some []) rules → hasRule rules h = true → hostPaths rules h ≠ [].
Proof.
  induction 1 as [|r rules Hr _ IH]; [done|]. unfold hasRule, hostPaths in *. cbn [existsb].
  rewrite bind_cons, orb_true_iff. intros [[Hh [ps Hps]]%bool_decide_eq_true|Hrs].
  - rewrite bool_decide_true, Hps by done. cbn. destruct ps; [by rewrite Hps in Hr|done].
  - intros [_ E]%app_eq_nil. by apply IH.
Qed.

Lemma insecureOf_translatable {ann : Annotation} ing port timeout h l :
  service_ingress ing → insecureOf ing port timeout h = Some l → translatable ing l.
Proof.
  intros [_ _ Hne]. unfold insecureOf, listenerOf.
  destruct (hasDefault ing h || hasRule _ h) eqn:Hor; [|done]. intros [= <-]. split; [done|]. cbn. split.
  - destruct (hasDefault ing h); [done|]. cbn in Hor |- *.
    apply hasRule_nonempty in Hor; [|done]. by destruct (hostPaths _ h).
  - apply Forall_app. split.
    + unfold defaultRoutes. destruct (hasDefault ing h); [|constructor].
      destruct (_ ≫= _); [|constructor]. constructor; [apply ingressRoute_ok|constructor].
    + apply Forall_forall. intros r (p & Hr & _)%list_elem_of_bind.
      pose proof (pathRoutes_ok ing (requestTimeout ing timeout) p) as Hok.
      by eapply Forall_forall in Hok.
Qed.

Lemma secureOf_translatable {ann : Annotation} ing dns dname force port ins ths h l :
  (∀ h l, ins h = Some l → translatable ing l) →
  secureOf ing dns dname force port ins ths h = Some l → translatable ing l.
Proof.
  intros Hins. unfold secureOf. destruct (ins "*") as [d|] eqn:Hd.
  - destruct (last _); [|done]. intros [= <-]. exact (Hins _ _ Hd).
  - destruct (ins h) as [l0|] eqn:Hl; [|done]. cbn. destruct (last (mentions ths h)); [|done].
    intros [= <-]. destruct (Hins _ _ Hl) as (H1 & _ & H3). done.
Qed.

Lemma yields_translatable {ann : Annotation} {range : MapRange} ing dns dname enforced ip sp timeout :
  service_ingress ing →
  yields (Ingress ing dns dname enforced ip sp timeout) (Forall (translatable ing)).
Proof.
  intros Hv. eapply yields_mono; [|by apply yields_Ingress].
  intros ls (ins & sec & -> & _ & _ & Hins & Hsec). apply Forall_app. split; apply Forall_forall; intros l Hl.
  - eapply insecureOf_translatable; [done|]. by apply Hins.
  - eapply secureOf_translatable; [|by apply Hsec]. intros ? ?. by apply insecureOf_translatable.
Qed.

Lemma yields_IngressPassthrough {ann : Annotation} {range : MapRange} ing :
  service_ingress ing →
  yields (IngressPassthrough ing) (λ ls,
    StronglySorted (λ a b, str_ltb (model.tl_Hostname a) (model.tl_Hostname b) = true) ls ∧
    ∀ l, l ∈ ls ↔ passthroughOf ing (ing_Rules ing) (model.tl_Hostname l) = Some l).
Proof.
  intros [_ Hr _]. unfold IngressPassthrough.
  eapply yields_bind; [apply (passthrough_passthroughOf ing (ing_Rules ing) [] ∅ Hr)|].
  - intros h. rewrite lookup_empty. unfold passthroughOf. cbn. by rewrite orb_true_r.
  - intros m Hm. apply yields_Ok. unfold appendValuesInKeyOrder. rewrite app_nil_l.
    assert (Hk : ∀ h l, m !! h = Some l → model.tl_Hostname l = h).
    { intros h l. rewrite Hm. apply passthroughOf_Hostname. }
    split; [by apply values_sorted|]. intros l.
    rewrite (elem_of_values model.tl_Hostname) by done. by rewrite Hm.
Qed.

(** ** Theorems *)

(** C18: the loops of [Ingress] compute, for every host, the listener of the
    reference: on an admitted Ingress the call returns the insecure listeners and
    then the secure ones, each group strictly sorted by hostname.  The insecure
    listener of a host has the default route first (for all hosts) and then the
    routes of all the paths of all the rules for the host, in order; the secure
    ones are copies of insecure ones with the secret of a TLS configuration. *)
Theorem Ingress_listeners {ann : Annotation} {range : MapRange} ing dns dname enforced ip sp timeout :
  service_ingress ing →
  ∃ ins sec, Ingress ing dns dname enforced ip sp timeout = Ok (ins ++ sec) ∧
    StronglySorted (λ a b, str_ltb (model.hl_Hostname a) (model.hl_Hostname b) = true) ins ∧
    StronglySorted (λ a b, str_ltb (model.hl_Hostname a) (model.hl_Hostname b) = true) sec ∧
    (∀ l, l ∈ ins ↔
       listenerOf ing ip (requestTimeout ing timeout) (ing_Rules ing) (model.hl_Hostname l) = Some l) ∧
    (∀ l, l ∈ sec ↔
       secureOf ing dns dname (forceHTTPs ing enforced) sp
         (listenerOf ing ip (requestTimeout ing timeout) (ing_Rules ing)) (tlsHosts ing)
         (model.hl_Hostname l) = Some l).
Proof.
  intros (ls & Hls & ins & sec & -> & H)%(yields_Ingress ing dns dname enforced ip sp timeout).
  by exists ins, sec.
Qed.

(** a listener for all hosts shadows the rules of the TLS hosts.  When the
    Ingress has a default backend or a rule without a host, every listener on
    the secure port has the routes of the listener for all hosts only, also for a
    host with rules of its own, and none redirects to HTTPS, whatever the
    annotation and the option say. *)
Theorem Ingress_default_shadows {ann : Annotation} {range : MapRange}
    ing dns dname enforced ip sp timeout ls d l :
  Ingress ing dns dname enforced ip sp timeout = Ok ls → service_ingress ing → ip ≠ sp →
  listenerOf ing ip (requestTimeout ing timeout) (ing_Rules ing) "*" = Some d →
  l ∈ ls → model.hl_Port l = sp →
  model.hl_Routes l = model.hl_Routes d ∧ model.hl_ForceHTTPtoHTTPSRedirect l = false.
Proof.
  intros Hls Hv Hne Hd Hl Hport.
  destruct (yields_Ingress ing dns dname enforced ip sp timeout Hv)
    as (ls' & Hls' & ins & sec & -> & _ & _ & Hins & Hsec).
  rewrite Hls in Hls'. injection Hls' as ->. apply elem_of_app in Hl as [Hl|Hl].
  - apply Hins in Hl. unfold insecureOf, listenerOf in Hl. case_match; [|done].
    injection Hl as Hl. rewrite <-Hl in Hport. cbn in Hport. congruence.
  - apply Hsec in Hl. unfold secureOf, insecureOf in Hl. rewrite Hd in Hl.
    destruct (last _); [|done]. injection Hl as Hl. rewrite <-Hl. split; [done|]. cbn.
    unfold listenerOf in Hd. case_match; [|done]. by injection Hd as <-.
Qed.

(** [IngressPassthrough] returns on an admitted Ingress, and its listeners
    are those of the reference, strictly sorted by hostname: one on port 443 per
    non-empty host with at least one root path, with a route per root path. *)
Theorem IngressPassthrough_listeners {ann : Annotation} {range : MapRange} ing :
  service_ingress ing →
  ∃ ls, IngressPassthrough ing = Ok ls ∧
    StronglySorted (λ a b, str_ltb (model.tl_Hostname a) (model.tl_Hostname b) = true) ls ∧
    ∀ l, l ∈ ls ↔ passthroughOf ing (ing_Rules ing) (model.tl_Hostname l) = Some l.
Proof. intros (ls & Hls & H)%yields_IngressPassthrough. by exists ls. Qed.

(** ** A concrete Ingress *)

Definition ex_service (name : string) : IngressBackend :=
  mkIngressBackend (Some (mkIngressServiceBackend name (mkServiceBackendPort "" 8080))).

Definition ex_path (path name : string) : HTTPIngressPath :=
  mkHTTPIngressPath path (Some PathTypePrefix) (ex_service name).

(** Two rules for one host, one for all hosts, and TLS for the first host. *)
Definition ex_ingress : networkingv1.Ingress :=
  mkIngress "web" "default" "uid"
    {[ annotations.ServiceTypeAnnotation := "NodePort";
       annotations.SecureNodePortAnnotation := "30443";
       annotations.InsecureNodePortAnnotation := "none" ]}
    None
    [mkIngressRule "a.com" (Some [ex_path "/" "one"]);
     mkIngressRule "" (Some [ex_path "/" "two"]);
     mkIngressRule "a.com" (Some [ex_path "/x" "three"; ex_path "/" "four"])]
    [mkIngressTLS ["a.com"] "cert"].

Lemma ex_ingress_valid : service_ingress ex_ingress.
Proof.
  split; [done| |]; repeat (apply Forall_cons_2; [|]); try apply Forall_nil_2; try done;
    cbn; repeat (apply Forall_cons_2; [|]); try apply Forall_nil_2; split; by eexists.
Qed.

(** The API server also admits an Ingress with a resource backend, and its
    ingestion panics: the Service is read before the check that there is one. *)
Definition ex_resource_ingress : networkingv1.Ingress :=
  mkIngress "web" "default" "uid" ∅ None
    [mkIngressRule "a.com" (Some [mkHTTPIngressPath "/" (Some PathTypePrefix) (mkIngressBackend None)])] [].

Example resource_backend_panics :
  admitted_ingress ex_resource_ingress ∧
  @Ingress reference_annotation forward_range ex_resource_ingress "" "" true 80 443 0 = Panic NilDeref.
Proof.
  split; [|vm_compute; reflexivity].
  split; apply Forall_singleton; [apply Forall_singleton; by eexists|discriminate].
Qed.

Definition ex_listeners : list model.HTTPListener :=
  match @Ingress reference_annotation forward_range ex_ingress "" "" true 80 443 0 with
  | Ok ls => ls
  | Panic _ => []
  end.

(** On TLS, a.com serves the route of the rule without a host and not its own. *)
Example ex_ingress_listeners :
  (λ l, (model.hl_Hostname l, model.hl_Port l,
         (model.hl_Routes l) ≫= λ r, model.b_Name <$> model.r_Backends r)) <$> ex_listeners =
  [("*", 80%Z, ["two"]); ("a.com", 80%Z, ["one"; "three"; "four"]); ("a.com", 443%Z, ["two"])].
Proof. vm_compute. reflexivity. Qed.

Lemma Ingress_listeners_witness :
  service_ingress ex_ingress ∧
  ∃ ins sec, @Ingress reference_annotation forward_range ex_ingress "" "" true 80 443 0 = Ok (ins ++ sec).
Proof.
  split; [exact ex_ingress_valid|].
  destruct (@Ingress_listeners reference_annotation forward_range ex_ingress "" "" true 80 443 0
    ex_ingress_valid) as (ins & sec & H & _).
  exists ins, sec. exact H.
Defined.

Definition ex_secure : model.HTTPListener := default emptyListener (last ex_listeners).

Definition ex_default : model.HTTPListener := default emptyListener (head ex_listeners).

Lemma Ingress_default_shadows_witness :
  model.hl_Routes ex_secure = model.hl_Routes ex_default ∧
  model.hl_ForceHTTPtoHTTPSRedirect ex_secure = false.
Proof.
  apply (@Ingress_default_shadows reference_annotation forward_range ex_ingress "" "" true 80 443 0
    ex_listeners).
  - vm_compute. reflexivity.
  - exact ex_ingress_valid.
  - discriminate.
  - vm_compute. reflexivity.
  - right. right. left.
  - vm_compute. reflexivity.
Defined.

Lemma IngressPassthrough_listeners_witness :
  ∃ ls, @IngressPassthrough reference_annotation forward_range ex_ingress = Ok ls ∧
    ∀ l, l ∈ ls ↔
      @passthroughOf reference_annotation ex_ingress (ing_Rules ex_ingress) (model.tl_Hostname l) = Some l.
Proof.
  destruct (@IngressPassthrough_listeners reference_annotation forward_range ex_ingress
    ex_ingress_valid) as (ls & H & _ & Hel).
  exists ls. split; [exact H|exact Hel].
Defined.

End ingress_ingestion.
