(* ===== verification/IngressTranslator.v ===== *)
(** * The translators for Ingresses (src/pkg/model/translation/ingress)

    [Module ingress]: dedicated_ingress.go and shared_ingress.go.  The dedicated
    translator wraps the default one for the listeners of a single Ingress and
    adds the Service and the Endpoints that expose the proxy; the shared one is
    the default translator with fixed options.  [dedicatedModel] is how
    src/pkg/ingress/ingress_reconcile.go builds the model it translates. *)

From S2P Require Import Prelude GoStrings ApiTypes Model Hostnames Envoy VirtualHost Listeners Translator TranslatorFacts FrontTranslators Annotations IngressIngestion.
Import k8s.

Import translation.

Module ingress.

Definition dolphinIngressPrefix : string := "dolphin-ingress".
Definition dolphinIngressLabelKey : string := "dolphin.io/ingress".

Record DedicatedIngressTranslator := mkDedicated {
  dt_secretsNamespace : string;
  dt_enforceHTTPs : bool;
  dt_useProxyProtocol : bool;
  dt_idleTimeoutSeconds : Z
}.

Definition NewSharedIngressTranslator (name namespace secretsNamespace : string)
    (enforceHTTPs useProxyProtocol : bool) (idleTimeoutSeconds : Z) : defaultTranslator :=
  translation.mkTranslator name namespace secretsNamespace enforceHTTPs useProxyProtocol false
    idleTimeoutSeconds true false.

(** [corev1.SchemeGroupVersion.String()] is ["v1"]. *)
Definition ingressOwner (resource : model.FullyQualifiedResource) : OwnerReference :=
  mkOwnerReference "v1" "Ingress" (model.fqr_Name resource) (model.fqr_UID resource) (Some true).

Definition ingressName (resource : model.FullyQualifiedResource) : string :=
  dolphinIngressPrefix +:+ "-" +:+ model.fqr_Name resource.

Definition nodePort (port : option Z) : Z :=
  match port with Some p => i32 p | None => 0 end.

(** The type of the Service and the node ports of its two ports. *)
Definition serviceExposure (service : option model.Service) : string * Z * Z :=
  match service with
  | Some s =>
      if String.eqb (model.ms_Type s) ServiceTypeNodePort
      then (ServiceTypeNodePort, nodePort (model.ms_InsecureNodePort s),
            nodePort (model.ms_SecureNodePort s))
      else (ServiceTypeLoadBalancer, 0%Z, 0%Z)
  | None => (ServiceTypeLoadBalancer, 0%Z, 0%Z)
  end.

Definition getDedicatedService (resource : model.FullyQualifiedResource)
    (service : option model.Service) : FrontService :=
  let '(serviceType, insecure, secure) := serviceExposure service in
  mkFrontService (ingressName resource) (model.fqr_Namespace resource)
    {[ dolphinIngressLabelKey := "true" ]} ∅ [ingressOwner resource] serviceType
    [mkServicePort "http" 80 None "TCP" insecure; mkServicePort "https" 443 None "TCP" secure].

Definition getDedicatedEndpoints (resource : model.FullyQualifiedResource) : FrontEndpoints :=
  mkFrontEndpoints (ingressName resource) (model.fqr_Namespace resource)
    {[ dolphinIngressLabelKey := "true" ]} [ingressOwner resource] dummySubsets.

(** The resource and the service of the first listener: the TLS ones are used
    only when there is no HTTP one. *)
Definition firstListener (m : model.Model)
  : go (model.FullyQualifiedResource * option model.Service) :=
  match model.m_HTTP m with
  | [] => l ← index (model.m_TLS m) 0;
          source ← index (model.tl_Sources l) 0;
          Ok (source, model.tl_Service l)
  | l :: _ => source ← index (model.hl_Sources l) 0;
              Ok (source, model.hl_Service l)
  end.

Definition set_Name (dec : DolphinEnvoyConfig) (name : string) : DolphinEnvoyConfig :=
  mkDEC name (dec_Namespace dec) (dec_Labels dec) (dec_OwnerReferences dec)
    (dec_BackendServices dec) (dec_Services dec) (dec_Resources dec).

Definition dedicated_translator (d : DedicatedIngressTranslator)
    (source : model.FullyQualifiedResource) : defaultTranslator :=
  translation.mkTranslator (ingressName source) (model.fqr_Namespace source)
    (dt_secretsNamespace d) (dt_enforceHTTPs d) (dt_useProxyProtocol d) false
    (dt_idleTimeoutSeconds d) true false.

Section Range.
Context {infra : Infra} {pb : Proto} {range : MapRange} (hops : Z) (label : string).

Definition TranslateDedicated (d : DedicatedIngressTranslator) (mo : option model.Model)
  : go TranslateResult :=
  match mo with
  | None => Ok (inr "model source can't be empty")
  | Some m =>
      if (length (model.m_HTTP m) =? 0) && (length (model.m_TLS m) =? 0)
      then Ok (inr "model source can't be empty")
      else
        '(source, service) ← firstListener m;
        cec ← translation.Translate hops label (dedicated_translator d source) m;
        let cecName := dolphinIngressPrefix +:+ "-" +:+ model.fqr_Namespace source +:+ "-" +:+
                       model.fqr_Name source in
        Ok (inl (Some (set_Name cec cecName), getDedicatedService source service,
                 getDedicatedEndpoints source))
  end.

End Range.

(** ** The model of a dedicated Ingress *)

Record ReconcilerOptions := mkReconcilerOptions {
  ro_defaultSecretNamespace : string;
  ro_defaultSecretName : string;
  ro_enforcedHTTPS : bool;
  ro_hostNetworkEnabled : bool;
  ro_defaultRequestTimeout : Z
}.

Definition defaultPassthroughPort : Z := 443.
Definition defaultInsecureHTTPPort : Z := 80.
Definition defaultSecureHTTPPort : Z := 443.
Definition defaultHostNetworkListenerPort : Z := 8080.

Definition getDedicatedListenerPorts {ann : Annotation} (r : ReconcilerOptions)
    (ing : networkingv1.Ingress) : Z * Z * Z :=
  if negb (ro_hostNetworkEnabled r)
  then (defaultPassthroughPort, defaultInsecureHTTPPort, defaultSecureHTTPPort)
  else
    let port :=
      match annotations.GetAnnotationHostListenerPort (networkingv1.ing_Annotations ing) with
      | inl (Some p) => if bool_decide (p = 0%Z) then defaultHostNetworkListenerPort else p
      | _ => defaultHostNetworkListenerPort
      end in
    (port, port, port).

Definition dedicatedModel {ann : Annotation} {range : MapRange} (r : ReconcilerOptions)
    (ing : networkingv1.Ingress) : go model.Model :=
  let '(_, insecureHTTPPort, secureHTTPPort) := getDedicatedListenerPorts r ing in
  if annotations.GetAnnotationTLSPassthroughEnabled (networkingv1.ing_Annotations ing)
  then tls ← ingress_ingestion.IngressPassthrough ing; Ok (model.mkModel [] tls [] [])
  else http ← ingress_ingestion.Ingress ing (ro_defaultSecretNamespace r) (ro_defaultSecretName r)
                (ro_enforcedHTTPS r) insecureHTTPPort secureHTTPPort (ro_defaultRequestTimeout r);
       Ok (model.mkModel http [] [] []).

(** ** Lemmas *)

Lemma i32_u32 z : (- 2 ^ 31 ≤ z < 2 ^ 31)%Z → i32 (u32 z) = z.
Proof.
  intros Hz. unfold i32, u32. rewrite Z.mod_mod by lia.
  destruct (decide (0 ≤ z)%Z).
  - rewrite Z.mod_small by lia. case_bool_decide; lia.
  - assert (z mod 2 ^ 32 = z + 2 ^ 32)%Z as ->.
    { rewrite <-(Z.mod_add _ 1) by lia. apply Z.mod_small. lia. }
    case_bool_decide; lia.
Qed.

Lemma digits_val_nonneg s acc n :
  (0 ≤ acc)%Z → strconv.digits_val acc s = Some n → (0 ≤ n)%Z.
Proof.
  revert acc. induction s as [|c s IH]; intros acc Ha; cbn [strconv.digits_val]; [by intros [= <-]|].
  destruct (is_digit c) eqn:Hc; [|done]. apply IH. unfold is_digit, digit_val in *.
  apply andb_true_iff in Hc as [Hc _]. apply N.leb_le in Hc. lia.
Qed.

Lemma ParseInt32_range s z : strconv.ParseInt32 s = Some z → (- 2 ^ 31 ≤ z < 2 ^ 31)%Z.
Proof.
  unfold strconv.ParseInt32. destruct (match s with "" => _ | _ => _ end) as [neg s'].
  destruct (strconv.ParseDigits s') as [un|] eqn:E; [|done]. cbn [mbind option_bind].
  assert (0 ≤ un)%Z.
  { unfold strconv.ParseDigits in E. destruct s'; [done|]. by eapply digits_val_nonneg; [|exact E]. }
  destruct neg; case_bool_decide; intros [= <-]; lia.
Qed.

(** The node port of the Service is the integer of the annotation, 0 (chosen by
    the cluster) when it is absent or not an int32. *)
Definition annotated_port (val : option string) : Z :=
  default 0%Z (val ≫= strconv.ParseInt32).

Lemma nodePort_annotated val :
  nodePort (match annotations.parse_port val with inl p => p | inr _ => None end) = annotated_port val.
Proof.
  unfold annotations.parse_port, annotated_port. destruct val as [v|]; [|done]. cbn.
  destruct (strconv.ParseInt32 v) as [z|] eqn:E; [|done]. cbn.
  by apply ParseInt32_range, i32_u32 in E.
Qed.

(** What the dedicated translator needs of a model: the listeners are those of
    one Ingress. *)
Definition dedicated_ok {ann : Annotation} (ing : networkingv1.Ingress) (m : model.Model) : Prop :=
  model.model_ok m ∧ Forall (ingress_ingestion.translatable ing) (model.m_HTTP m) ∧
  Forall (λ l, model.tl_Sources l = [ingress_ingestion.sourceResource ing] ∧
               model.tl_Service l = ingress_ingestion.getService ing) (model.m_TLS m).

Lemma passthroughRoutes_ok ing p :
  Forall (λ r, Forall model.backend_ok (model.tr_Backends r)) (ingress_ingestion.passthroughRoutes ing p).
Proof.
  unfold ingress_ingestion.passthroughRoutes, ingress_ingestion.passthroughRoute.
  destruct (negb _); [constructor|]. destruct (networkingv1.ib_Service _); cbn; [|constructor].
  constructor; [|constructor]. constructor; [by eexists|constructor].
Qed.

Lemma passthroughOf_ok {ann : Annotation} ing h l :
  ingress_ingestion.passthroughOf ing (networkingv1.ing_Rules ing) h = Some l →
  Forall (λ r, Forall model.backend_ok (model.tr_Backends r)) (model.tl_Routes l).
Proof.
  unfold ingress_ingestion.passthroughOf. cbv zeta. case_match; [done|]. intros [= <-]. cbn.
  apply Forall_forall. intros rt (p & Hrt & _)%list_elem_of_bind.
  exact (proj1 (Forall_forall _ _) (passthroughRoutes_ok ing p) rt Hrt).
Qed.

Lemma yields_dedicatedModel {ann : Annotation} {range : MapRange} r ing :
  ingress_ingestion.service_ingress ing → yields (dedicatedModel r ing) (dedicated_ok ing).
Proof.
  intros Hv. unfold dedicatedModel. destruct (getDedicatedListenerPorts r ing) as [[? ip] sp].
  destruct (annotations.GetAnnotationTLSPassthroughEnabled _).
  - eapply yields_bind; [by apply ingress_ingestion.yields_IngressPassthrough|].
    intros tls [_ Htls]. apply yields_Ok.
    assert (Hall : ∀ l, l ∈ tls → model.tl_Sources l = [ingress_ingestion.sourceResource ing] ∧
      model.tl_Service l = ingress_ingestion.getService ing ∧
      Forall (λ r, Forall model.backend_ok (model.tr_Backends r)) (model.tl_Routes l)).
    { intros l Hl%Htls. pose proof (passthroughOf_ok _ _ _ Hl) as Hroutes.
      unfold ingress_ingestion.passthroughOf in Hl. cbv zeta in Hl.
      case_match; [done|]. injection Hl as Hl. rewrite <-Hl in Hroutes |- *. done. }
    split; [|split; [constructor|]].
    + split; try constructor. apply Forall_forall. intros l Hl. by apply Hall.
    + apply Forall_forall. intros l Hl. cbn in Hl. destruct (Hall l Hl) as (? & ? & _). done.
  - eapply yields_bind; [by apply ingress_ingestion.yields_translatable|].
    intros http Hh. apply yields_Ok. split; [|split; [exact Hh|constructor]].
    split; try constructor. eapply Forall_impl; [exact Hh|]. intros l (_ & _ & H3). exact H3.
Qed.

Lemma firstListener_ok {ann : Annotation} ing m :
  dedicated_ok ing m → model.m_HTTP m ≠ [] ∨ model.m_TLS m ≠ [] →
  firstListener m = Ok (ingress_ingestion.sourceResource ing, ingress_ingestion.getService ing).
Proof.
  intros (_ & Hh & Ht) Hne. unfold firstListener. destruct (model.m_HTTP m) as [|l ls].
  - destruct (model.m_TLS m) as [|l ls]; [by destruct Hne|].
    apply Forall_cons in Ht as [[Hs Hsvc] _]. cbn. by rewrite Hs, Hsvc.
  - apply Forall_cons in Hh as [(Hs & Hsvc & _) _]. cbn. by rewrite Hs, Hsvc.
Qed.

(** The outcomes of the dedicated translator on the model of an Ingress. *)
Lemma TranslateDedicated_ok {infra : Infra} {pb : Proto} {range : MapRange} {ann : Annotation}
    hops label d ing m :
  dedicated_ok ing m →
  (model.m_HTTP m = [] ∧ model.m_TLS m = [] ∧
     TranslateDedicated hops label d (Some m) = Ok (inr "model source can't be empty")) ∨
  ((model.m_HTTP m ≠ [] ∨ model.m_TLS m ≠ []) ∧
   let source := ingress_ingestion.sourceResource ing in
   ∃ dec, translation.Translate hops label (dedicated_translator d source) m = Ok dec ∧
     TranslateDedicated hops label d (Some m) =
       Ok (inl (Some (set_Name dec (dolphinIngressPrefix +:+ "-" +:+ networkingv1.ing_Namespace ing +:+
                                    "-" +:+ networkingv1.ing_Name ing)),
                getDedicatedService source (ingress_ingestion.getService ing),
                getDedicatedEndpoints source))).
Proof.
  intros Hok. unfold TranslateDedicated. destruct (_ && _) eqn:Hempty.
  { left. by apply andb_true_iff in Hempty as
      [?%Nat.eqb_eq%length_zero_iff_nil ?%Nat.eqb_eq%length_zero_iff_nil]. }
  right. assert (Hne : model.m_HTTP m ≠ [] ∨ model.m_TLS m ≠ []).
  { destruct (model.m_HTTP m), (model.m_TLS m); naive_solver. }
  split; [exact Hne|]. cbv zeta. rewrite (firstListener_ok ing m Hok Hne). destruct Hok as [Hok _].
  destruct (translation_facts.yields_Translate hops label
    (dedicated_translator d (ingress_ingestion.sourceResource ing)) m Hok) as (dec & Hdec & _).
  exists dec. split; [exact Hdec|]. cbn [mbind go_mbind]. by rewrite Hdec.
Qed.

(** ** Theorems *)

(** C25: building the resources of a dedicated Ingress does not panic on an admitted
    Ingress whose backends are all Services (on a resource backend it does).  It is an error exactly when the Ingress yields no listener;
    otherwise the Service, the Endpoints and the Envoy configuration have the
    names under which the controller looks them up and deletes them, and the
    Service is a NodePort one exactly when the annotation asks for it, with the
    annotated ports (0 for an absent or unreadable annotation). *)
Theorem dedicated_pipeline {infra : Infra} {pb : Proto} {range : MapRange} {ann : Annotation}
    hops label d r ing :
  ingress_ingestion.admitted_ingress ing → ingress_ingestion.service_backends ing →
  ∃ m res, dedicatedModel r ing = Ok m ∧ TranslateDedicated hops label d (Some m) = Ok res ∧
    match res with
    | inr _ => model.m_HTTP m = [] ∧ model.m_TLS m = []
    | inl (dec, svc, ep) =>
        let name := "dolphin-ingress-" +:+ networkingv1.ing_Name ing in
        let get := annotation_Get (networkingv1.ing_Annotations ing) in
        (model.m_HTTP m ≠ [] ∨ model.m_TLS m ≠ []) ∧
        dec_Name <$> dec = Some ("dolphin-ingress-" +:+ networkingv1.ing_Namespace ing +:+ "-" +:+
                                 networkingv1.ing_Name ing) ∧
        fs_Name svc = name ∧ fs_Namespace svc = networkingv1.ing_Namespace ing ∧
        fe_Name ep = name ∧ fe_Namespace ep = networkingv1.ing_Namespace ing ∧
        if String.eqb (annotations.GetAnnotationServiceType (networkingv1.ing_Annotations ing)) "NodePort"
        then fs_Type svc = "NodePort" ∧
          sp_NodePort <$> fs_Ports svc =
            [annotated_port (get annotations.InsecureNodePortAnnotation
                               [annotations.InsecureNodePortAnnotationAlias]);
             annotated_port (get annotations.SecureNodePortAnnotation
                               [annotations.SecureNodePortAnnotationAlias])]
        else fs_Type svc = "LoadBalancer" ∧ sp_NodePort <$> fs_Ports svc = [0%Z; 0%Z]
    end.
Proof.
  intros Ha Hb. assert (Hv : ingress_ingestion.service_ingress ing) by by apply ingress_ingestion.service_ingress_iff.
  apply (yields_dedicatedModel r) in Hv as (m & Hm & Hok). exists m.
  destruct (TranslateDedicated_ok hops label d ing m Hok) as [(H1 & H2 & Hres)|(Hne & dec & _ & Hres)];
    eexists; (split; [exact Hm|]); (split; [exact Hres|]); [done|]. cbv zeta.
  split; [exact Hne|]. split; [done|]. unfold getDedicatedService, ingress_ingestion.getService.
  destruct (String.eqb (annotations.GetAnnotationServiceType _) _); cbn [negb]; [|done].
  unfold serviceExposure. cbn [model.ms_Type model.ms_InsecureNodePort model.ms_SecureNodePort].
  change (String.eqb "NodePort" ServiceTypeNodePort) with true. cbv iota.
  unfold annotations.GetAnnotationInsecureNodePort, annotations.GetAnnotationSecureNodePort.
  rewrite !nodePort_annotated. done.
Qed.

Lemma dedicated_pipeline_witness :
  ingress_ingestion.service_ingress ingress_ingestion.ex_ingress ∧
  ∃ m res, @dedicatedModel reference_annotation forward_range
      (mkReconcilerOptions "" "" true false 0) ingress_ingestion.ex_ingress = Ok m ∧
    @TranslateDedicated reference_infra reference_proto forward_range 0 "label"
      (mkDedicated "secrets" true false 60) (Some m) = Ok res.
Proof.
  split; [exact ingress_ingestion.ex_ingress_valid|].
  destruct (proj1 (ingress_ingestion.service_ingress_iff _) ingress_ingestion.ex_ingress_valid) as [Ha Hb].
  destruct (@dedicated_pipeline reference_infra reference_proto forward_range reference_annotation 0%Z
    "label" (mkDedicated "secrets" true false 60) (mkReconcilerOptions "" "" true false 0)
    ingress_ingestion.ex_ingress Ha Hb) as (m & res & H1 & H2 & _).
  exists m, res. split; [exact H1|exact H2].
Defined.

End ingress.
