(* ===== verification/ApiServer.v ===== *)
(** * The API server

    The reconcilers talk to the Kubernetes API server through the client of
    controller-runtime, which is not part of the repository.  [Class Client] has
    the calls the code makes, over an abstract world; [Class ClientLaws] states
    what their documentation promises, in terms of [stored], the object a world
    holds under a key.  Every call may fail.  [reference_client] is a concrete
    client over finite maps whose calls succeed.

    [Module api] also has the monad [R] of the reconcilers: the world is threaded
    through, a Go error stops the computation, and a panic is one of [go]. *)

From S2P Require Import Prelude GoStrings ApiTypes Helpers Translator FrontTranslators IngressIngestion.
Import k8s gatewayv1.
Import translation.

Create HintDb framed.

Module api.

(** ** Objects *)

Record PortStatus := mkPortStatus { ps_Port : Z; ps_Protocol : string; ps_Error : option string }.

(** corev1.LoadBalancerIngress and networkingv1.IngressLoadBalancerIngress. *)
Record LoadBalancerIngress := mkLBI {
  lbi_IP : string; lbi_Hostname : string; lbi_IPMode : option string; lbi_Ports : list PortStatus }.
Record IngressLoadBalancerIngress := mkILBI {
  ilbi_IP : string; ilbi_Hostname : string; ilbi_Ports : list PortStatus }.

(** An Ingress with the parts ingestion does not read. *)
Record IngressObject := mkIngressObject {
  io_ing : networkingv1.Ingress;
  io_Labels : gmap string string;
  io_ClassName : option string;
  io_Deleted : bool;
  io_Status : slice IngressLoadBalancerIngress
}.

Record IngressClassObject := mkIngressClassObject {
  ico_Name : string; ico_Annotations : gmap string string }.

Record ServiceObject := mkServiceObject {
  so_svc : FrontService;
  so_LoadBalancerClass : option string;
  so_Status : slice LoadBalancerIngress
}.

Record EndpointsObject := mkEndpointsObject {
  eo_ep : FrontEndpoints; eo_Annotations : gmap string string }.

Record DECObject := mkDECObject {
  do_dec : DolphinEnvoyConfig; do_Annotations : gmap string string }.

Record DGCCObject := mkDGCCObject {
  dgo_key : NamespacedName; dgo_cfg : gateway_api.DolphinGatewayClassConfig }.

(** A CiliumEnvoyConfig is an unstructured object: the values of its spec are
    JSON texts. *)
Record CECObject := mkCECObject {
  ceo_Name : string;
  ceo_Namespace : string;
  ceo_Spec : gmap string string;
  ceo_OwnerReferences : list OwnerReference
}.

Inductive Kind :=
| KIngress | KIngressClass | KService | KEndpoints | KDEC
| KGateway | KGatewayClass | KHTTPRoute | KGRPCRoute | KTLSRoute | KTCPRoute | KUDPRoute
| KReferenceGrant | KListenerSet | KBackendTLSPolicy
| KNamespace | KNode | KSecret | KConfigMap | KServiceImport | KDGCC | KCEC.

#[export] Instance Kind_eq_dec : EqDecision Kind.
Proof. solve_decision. Defined.

Definition object (k : Kind) : Type :=
  match k with
  | KIngress => IngressObject
  | KIngressClass => IngressClassObject
  | KService => ServiceObject
  | KEndpoints => EndpointsObject
  | KDEC => DECObject
  | KGateway => Gateway
  | KGatewayClass => GatewayClass
  | KHTTPRoute => HTTPRoute
  | KGRPCRoute => GRPCRoute
  | KTLSRoute => TLSRoute
  | KTCPRoute => TCPRoute
  | KUDPRoute => UDPRoute
  | KReferenceGrant => ReferenceGrant
  | KListenerSet => ListenerSet
  | KBackendTLSPolicy => BackendTLSPolicy
  | KNamespace => Namespace
  | KNode => ObjectMeta
  | KSecret => Secret
  | KConfigMap => ConfigMap
  | KServiceImport => namespaces.ServiceImport
  | KDGCC => DGCCObject
  | KCEC => CECObject
  end.

Definition ingressKey (ing : networkingv1.Ingress) : NamespacedName :=
  mkNamespacedName (networkingv1.ing_Namespace ing) (networkingv1.ing_Name ing).

Definition key {k : Kind} : object k → NamespacedName :=
  match k with
  | KIngress => λ o, ingressKey (io_ing o)
  | KIngressClass => λ o, mkNamespacedName "" (ico_Name o)
  | KService => λ o, mkNamespacedName (fs_Namespace (so_svc o)) (fs_Name (so_svc o))
  | KEndpoints => λ o, mkNamespacedName (fe_Namespace (eo_ep o)) (fe_Name (eo_ep o))
  | KDEC => λ o, mkNamespacedName (dec_Namespace (do_dec o)) (dec_Name (do_dec o))
  | KGateway => λ o, ObjectKey (gw_meta o)
  | KGatewayClass => λ o, mkNamespacedName "" (om_Name (gc_meta o))
  | KHTTPRoute | KGRPCRoute | KTLSRoute | KTCPRoute | KUDPRoute => λ o, ObjectKey (rt_meta o)
  | KReferenceGrant => λ o, mkNamespacedName (rg_Namespace o) (rg_Name o)
  | KListenerSet => λ o, ObjectKey (lst_meta o)
  | KBackendTLSPolicy => λ o, ObjectKey (btp_meta o)
  | KNamespace => λ o, mkNamespacedName "" (om_Name (ns_meta o))
  | KNode => λ o, mkNamespacedName "" (om_Name o)
  | KSecret => λ o, ObjectKey (sec_meta o)
  | KConfigMap => λ o, ObjectKey (cm_meta o)
  | KServiceImport => λ o, ObjectKey (namespaces.si_meta o)
  | KDGCC => dgo_key
  | KCEC => λ o, mkNamespacedName (ceo_Namespace o) (ceo_Name o)
  end.

(** ** Statuses *)

Definition with_gw_Status (gw : Gateway) (s : GatewayStatus) : Gateway :=
  mkGateway (gw_meta gw) (gw_gvk gw) (gw_GatewayClassName gw) (gw_Listeners gw)
    (gw_Infrastructure gw) (gw_AllowedListeners gw) s.

Definition with_gc_Status (gc : GatewayClass) (conds : list Condition) (features : list string)
  : GatewayClass :=
  mkGatewayClass (gc_meta gc) (gc_ControllerName gc) (gc_ParametersRef gc) conds features.

Definition with_Parents {Rule} (r : Route Rule) (parents : list RouteParentStatus) : Route Rule :=
  mkRoute (rt_meta r) (rt_ParentRefs r) (rt_Hostnames r) (rt_Rules r) parents.

Definition with_lst_Status (ls : ListenerSet) (s : ListenerSetStatus) : ListenerSet :=
  mkListenerSet (lst_meta ls) (lst_Kind ls) (lst_ParentRef ls) (lst_Listeners ls) s.

Definition with_Ancestors (p : BackendTLSPolicy) (l : list PolicyAncestorStatus)
  : BackendTLSPolicy :=
  mkBackendTLSPolicy (btp_meta p) (btp_TargetRefs p) (btp_CACertificateRefs p)
    (btp_WellKnownCACertificates p) l.

Definition set_Status (o : IngressObject) (s : slice IngressLoadBalancerIngress) : IngressObject :=
  mkIngressObject (io_ing o) (io_Labels o) (io_ClassName o) (io_Deleted o) s.

(** The first object with the status of the second.  The reconcilers write no
    other status. *)
Definition with_status {k : Kind} : object k → object k → object k :=
  match k with
  | KIngress => λ o s, set_Status o (io_Status s)
  | KGateway => λ o s, with_gw_Status o (gw_Status s)
  | KGatewayClass => λ o s, with_gc_Status o (gc_Conditions s) (gc_SupportedFeatures s)
  | KHTTPRoute | KGRPCRoute | KTLSRoute | KTCPRoute | KUDPRoute => λ o s, with_Parents o (rt_Parents s)
  | KListenerSet => λ o s, with_lst_Status o (lst_Status s)
  | KBackendTLSPolicy => λ o s, with_Ancestors o (btp_Ancestors s)
  | _ => λ o _, o
  end.

Lemma key_with_status {k} (o s : object k) : key (with_status o s) = key o.
Proof. by destruct k. Qed.

(** ** The client *)

Inductive ApiError :=
| NotFound
| Forbidden (namespaceTerminating : bool)
| OtherError (msg : string).

Class Client := {
  World : Type;
  stored : ∀ k : Kind, World → NamespacedName → option (object k);
  cl_Get : ∀ k : Kind, NamespacedName → World → object k + ApiError;
  (** [List] with options that select some of the objects. *)
  cl_List : ∀ k : Kind, (object k → bool) → World → list (object k) + ApiError;
  (** [controllerutil.CreateOrUpdate] and [CreateOrPatch]. *)
  cl_CreateOrUpdate : ∀ k : Kind, object k → (object k → object k) → World →
    World * option ApiError;
  cl_Create : ∀ k : Kind, object k → World → World * option ApiError;
  cl_Update : ∀ k : Kind, object k → World → World * option ApiError;
  cl_Delete : ∀ k : Kind, NamespacedName → World → World * option ApiError;
  cl_UpdateStatus : ∀ k : Kind, object k → World → World * option ApiError;
  (** [Status().Patch] with the changes from a second object. *)
  cl_PatchStatus : ∀ k : Kind, object k → object k → World → World * option ApiError;
  (** [controllerutil.SetControllerReference]: the new owner references. *)
  cl_SetControllerReference : ∀ k : Kind, object k → list OwnerReference → list OwnerReference + string
}.

(** All objects but those in [F] are as before. *)
Definition frame {client : Client} (F : Kind → NamespacedName → Prop) (w w' : World) : Prop :=
  ∀ k n, ¬ F k n → stored k w' n = stored k w n.

Definition only (k : Kind) (n : NamespacedName) : Kind → NamespacedName → Prop :=
  λ k' n', k' = k ∧ n' = n.

Class ClientLaws {client : Client} : Prop := {
  Get_found : ∀ k n w o, cl_Get k n w = inl o → stored k w n = Some o;
  Get_NotFound : ∀ k n w, cl_Get k n w = inr NotFound → stored k w n = None;
  stored_key : ∀ k n w o, stored k w n = Some o → key o = n;
  (** A list has the stored objects that are selected, each once. *)
  List_spec : ∀ k sel w l o, cl_List k sel w = inl l →
    o ∈ l ↔ stored k w (key o) = Some o ∧ sel o = true;
  List_NoDup : ∀ k sel w l, cl_List k sel w = inl l → NoDup (key <$> l);
  (** The object is fetched if it exists, mutated, and created or updated. *)
  CreateOrUpdate_done : ∀ k o f w w', cl_CreateOrUpdate k o f w = (w', None) →
    stored k w' (key o) = Some (f (default o (stored k w (key o))));
  CreateOrUpdate_frame : ∀ k o f w w' e, cl_CreateOrUpdate k o f w = (w', e) →
    frame (only k (key o)) w w';
  (** Only what does not exist is created, only what exists is updated.  An update
      of a DolphinEnvoyConfig, which has no status, replaces all of it. *)
  Create_done : ∀ k (o : object k) w w', cl_Create k o w = (w', None) →
    stored k w (key o) = None ∧ stored k w' (key o) = Some o;
  Create_frame : ∀ k (o : object k) w w' e, cl_Create k o w = (w', e) → frame (only k (key o)) w w';
  Update_done : ∀ (o : object KDEC) w w', cl_Update KDEC o w = (w', None) →
    is_Some (stored KDEC w (key o)) ∧ stored KDEC w' (key o) = Some o;
  Update_frame : ∀ k (o : object k) w w' e, cl_Update k o w = (w', e) → frame (only k (key o)) w w';
  Delete_done : ∀ k n w w', cl_Delete k n w = (w', None) → stored k w' n = None;
  Delete_frame : ∀ k n w w' e, cl_Delete k n w = (w', e) → frame (only k n) w w';
  (** An update of the status leaves the rest of the stored object alone. *)
  UpdateStatus_kept : ∀ k (o : object k) w w' e, cl_UpdateStatus k o w = (w', e) →
    ∃ s : object k, stored k w' (key o) = (λ o', with_status o' s) <$> stored k w (key o);
  UpdateStatus_done : ∀ k (o : object k) w w', cl_UpdateStatus k o w = (w', None) →
    stored k w' (key o) = (λ o', with_status o' o) <$> stored k w (key o);
  UpdateStatus_frame : ∀ k (o : object k) w w' e, cl_UpdateStatus k o w = (w', e) →
    frame (only k (key o)) w w';
  PatchStatus_kept : ∀ k (o from : object k) w w' e, cl_PatchStatus k o from w = (w', e) →
    ∃ s : object k, stored k w' (key o) = (λ o', with_status o' s) <$> stored k w (key o);
  PatchStatus_done : ∀ k (o from : object k) w w', cl_PatchStatus k o from w = (w', None) →
    stored k w (key o) = Some from → stored k w' (key o) = Some (with_status from o);
  PatchStatus_frame : ∀ k (o from : object k) w w' e, cl_PatchStatus k o from w = (w', e) →
    frame (only k (key o)) w w';
  (** The reference to the owner has its kind, name and UID, not its status. *)
  SetControllerReference_status : ∀ k (o s : object k) refs,
    cl_SetControllerReference k (with_status o s) refs = cl_SetControllerReference k o refs
}.

(** ** The monad of the reconcilers *)

Inductive error := Api (e : ApiError) | Msg (s : string).

Section Monad.
Context {client : Client}.

Definition R (A : Type) : Type := World → go (World * (A + error)).

#[export] Instance R_mret : MRet R := λ A a w, Ok (w, inl a).
#[export] Instance R_mbind : MBind R := λ A B f m w,
  match m w with
  | Ok (w', inl a) => f a w'
  | Ok (w', inr e) => Ok (w', inr e)
  | Panic p => Panic p
  end.

Lemma R_bind_eq {A B} (m : R A) (f : A → R B) w :
  (m ≫= f) w =
  match m w with
  | Ok (w', inl a) => f a w'
  | Ok (w', inr e) => Ok (w', inr e)
  | Panic p => Panic p
  end.
Proof. done. Qed.

(** A pure computation that may panic. *)
Definition lift {A} (m : go A) : R A := λ w,
  match m with Ok a => Ok (w, inl a) | Panic p => Panic p end.

Definition fail {A} (e : error) : R A := λ w, Ok (w, inr e).

(** A call that reads. *)
Definition read {A} (f : World → A + ApiError) : R A := λ w,
  match f w with inl a => Ok (w, inl a) | inr e => Ok (w, inr (Api e)) end.

(** A computation that reads, and may panic. *)
Definition query {A} (f : World → go A) : R A := λ w,
  match f w with Ok a => Ok (w, inl a) | Panic p => Panic p end.

(** [fmt.Errorf] with %w: what is wrapped can still be told. *)
Definition wrap (prefix : string) (e : error) : error :=
  match e with Api e => Api e | Msg s => Msg (prefix +:+ s) end.

(** A call that writes. *)
Definition write (f : World → World * option ApiError) : R unit := λ w,
  let '(w', e) := f w in
  match e with None => Ok (w', inl tt) | Some e => Ok (w', inr (Api e)) end.

(** The result of a call, its error as a value. *)
Definition attempt {A} (m : R A) : R (A + error) := λ w,
  match m w with
  | Ok (w', r) => Ok (w', inl r)
  | Panic p => Panic p
  end.

(** A call whose error is wrapped. *)
Definition wrapping {A} (prefix : string) (m : R A) : R A :=
  r ← attempt m;
  match r with
  | inl a => mret a
  | inr e => fail (wrap prefix e)
  end.

(** [Get] where the caller handles [IsNotFound] itself. *)
Definition get_opt (k : Kind) (n : NamespacedName) : R (option (object k)) := λ w,
  match cl_Get k n w with
  | inl o => Ok (w, inl (Some o))
  | inr NotFound => Ok (w, inl None)
  | inr e => Ok (w, inr (Api e))
  end.

(** A loop whose body computes one value per element. *)
Fixpoint R_fold {A S} (f : S → A → R S) (s : S) (l : list A) : R S :=
  match l with
  | [] => mret s
  | x :: l' => f s x ≫= λ s', R_fold f s' l'
  end.

(** ** Reasoning *)

(** Whatever the outcome, only objects in [F] change. *)
Definition framed (F : Kind → NamespacedName → Prop) {A} (m : R A) : Prop :=
  ∀ w w' r, m w = Ok (w', r) → frame F w w'.

Lemma frame_refl F w : frame F w w.
Proof. done. Qed.

Lemma frame_trans F w1 w2 w3 : frame F w1 w2 → frame F w2 w3 → frame F w1 w3.
Proof. intros H1 H2 k n Hn. rewrite (H2 k n Hn). by apply H1. Qed.

Lemma frame_mono (F G : Kind → NamespacedName → Prop) w w' :
  (∀ k n, F k n → G k n) → frame F w w' → frame G w w'.
Proof. intros HFG H k n Hn. apply H. intros HF. by apply Hn, HFG. Qed.

Lemma framed_ret F {A} (a : A) : framed F (mret a : R A).
Proof. intros w w' r [= <- <-]. apply frame_refl. Qed.

Lemma framed_fail F {A} e : framed F (fail e : R A).
Proof. intros w w' r [= <- <-]. apply frame_refl. Qed.

Lemma framed_lift F {A} (m : go A) : framed F (lift m).
Proof. intros w w' r. unfold lift. destruct m; [intros [= <- <-]; apply frame_refl|done]. Qed.

Lemma framed_read F {A} (f : World → A + ApiError) : framed F (read f).
Proof. intros w w' r. unfold read. destruct (f w); intros [= <- <-]; apply frame_refl. Qed.

Lemma framed_query F {A} (f : World → go A) : framed F (query f).
Proof. intros w w' r. unfold query. destruct (f w); [intros [= <- <-]; apply frame_refl|done]. Qed.

Lemma framed_get_opt F k n : framed F (get_opt k n).
Proof.
  intros w w' r. unfold get_opt. destruct (cl_Get k n w) as [o|[]]; intros [= <- <-]; apply frame_refl.
Qed.

Lemma framed_bind F {A B} (m : R A) (f : A → R B) :
  framed F m → (∀ a, framed F (f a)) → framed F (m ≫= f).
Proof.
  intros Hm Hf w w' r. rewrite R_bind_eq. destruct (m w) as [[w1 [a|e]]|] eqn:E; [| |done].
  - intros H. eapply frame_trans; [by eapply Hm|by eapply Hf].
  - intros [= <- <-]. by eapply Hm.
Qed.

(** The same, where the second half may use what the first one returned. *)
Lemma framed_bind_post F {A B} (Q : A → Prop) (m : R A) (f : A → R B) :
  framed F m → (∀ w w' a, m w = Ok (w', inl a) → Q a) → (∀ a, Q a → framed F (f a)) →
  framed F (m ≫= f).
Proof.
  intros Hm HQ Hf w w' r. rewrite R_bind_eq. destruct (m w) as [[w1 [a|e]]|] eqn:E; [| |done].
  - intros H. eapply frame_trans; [by eapply Hm|]. eapply Hf; [by eapply HQ|exact H].
  - intros [= <- <-]. by eapply Hm.
Qed.

Lemma framed_mono (F G : Kind → NamespacedName → Prop) {A} (m : R A) :
  (∀ k n, F k n → G k n) → framed F m → framed G m.
Proof. intros HFG Hm w w' r H. eapply frame_mono; [exact HFG|by eapply Hm]. Qed.

Lemma framed_write (F : Kind → NamespacedName → Prop) f :
  (∀ w w' e, f w = (w', e) → frame F w w') → framed F (write f).
Proof.
  intros Hf w w' r. unfold write. destruct (f w) as [w1 [e|]] eqn:E; intros [= <- <-]; by eapply Hf.
Qed.

Lemma framed_attempt F {A} (m : R A) : framed F m → framed F (attempt m).
Proof.
  intros Hm w w' r. unfold attempt. destruct (m w) as [[w1 r1]|] eqn:E; [|done].
  intros [= <- <-]. by eapply Hm.
Qed.

Lemma framed_wrapping F {A} prefix (m : R A) : framed F m → framed F (wrapping prefix m).
Proof.
  intros H. apply framed_bind; [by apply framed_attempt|]. intros [?|?]; [apply framed_ret|apply framed_fail].
Qed.

Lemma framed_fold F {A S} (f : S → A → R S) s l :
  (∀ s x, framed F (f s x)) → framed F (R_fold f s l).
Proof.
  intros Hf. revert s. induction l as [|x l IH]; intros s; [apply framed_ret|].
  apply framed_bind; [apply Hf|done].
Qed.

(** A computation that returned came through both halves of a bind. *)
Lemma R_bind_inl {A B} (m : R A) (f : A → R B) w w'' b :
  (m ≫= f) w = Ok (w'', inl b) → ∃ a w', m w = Ok (w', inl a) ∧ f a w' = Ok (w'', inl b).
Proof.
  rewrite R_bind_eq. destruct (m w) as [[w' [a|e]]|]; [|done..]. intros H. by exists a, w'.
Qed.

Lemma wrapping_inl {A} prefix (m : R A) w w' a :
  wrapping prefix m w = Ok (w', inl a) ↔ m w = Ok (w', inl a).
Proof.
  unfold wrapping. rewrite R_bind_eq. unfold attempt. destruct (m w) as [[w1 [b|e]]|]; cbn; naive_solver.
Qed.

Lemma wrapping_run {A} prefix (m : R A) w w' res :
  wrapping prefix m w = Ok (w', res) → ∃ res', m w = Ok (w', res').
Proof.
  unfold wrapping. rewrite R_bind_eq. unfold attempt. destruct (m w) as [[w1 r]|]; [|done].
  destruct r; intros [= <- _]; eauto.
Qed.

Lemma write_inl (f : World → World * option ApiError) w w' u :
  write f w = Ok (w', inl u) ↔ f w = (w', None).
Proof. unfold write. destruct u, (f w) as [w1 [e|]]; naive_solver. Qed.

(** No panic from worlds in [I], which is kept. *)
Definition safe (I : World → Prop) {A} (m : R A) : Prop :=
  ∀ w, I w → ∃ w' r, m w = Ok (w', r) ∧ I w'.

Lemma safe_ret I {A} (a : A) : safe I (mret a : R A).
Proof. intros w Hw. by do 2 eexists. Qed.

Lemma safe_fail I {A} e : safe I (fail e : R A).
Proof. intros w Hw. by do 2 eexists. Qed.

Lemma safe_read I {A} (f : World → A + ApiError) : safe I (read f).
Proof. intros w Hw. unfold read. destruct (f w); by do 2 eexists. Qed.

Lemma safe_get_opt I k n : safe I (get_opt k n).
Proof. intros w Hw. unfold get_opt. destruct (cl_Get k n w) as [o|[]]; by do 2 eexists. Qed.

Lemma safe_lift I {A} (m : go A) : returns m → safe I (lift m).
Proof. intros [a ->] w Hw. by do 2 eexists. Qed.

Lemma safe_bind I {A B} (m : R A) (f : A → R B) :
  safe I m → (∀ a, safe I (f a)) → safe I (m ≫= f).
Proof.
  intros Hm Hf w Hw. destruct (Hm w Hw) as (w' & [a|e] & E & Hw'); rewrite R_bind_eq, E.
  - by apply Hf.
  - by do 2 eexists.
Qed.

Lemma safe_attempt I {A} (m : R A) : safe I m → safe I (attempt m).
Proof.
  intros Hm w Hw. destruct (Hm w Hw) as (w' & r & E & Hw'). unfold attempt. rewrite E.
  by do 2 eexists.
Qed.

Lemma safe_write (I : World → Prop) f :
  (∀ w w' e, I w → f w = (w', e) → I w') → safe I (write f).
Proof.
  intros Hf w Hw. unfold write. destruct (f w) as [w1 e] eqn:E.
  pose proof (Hf _ _ _ Hw E). destruct e; by do 2 eexists.
Qed.

Lemma safe_fold I {A S} (P : S → Prop) (f : S → A → R S) s l :
  (∀ s x, x ∈ l → P s → ∀ w, I w → ∃ w' r, f s x w = Ok (w', r) ∧ I w' ∧
     ∀ s', r = inl s' → P s') →
  P s → ∀ w, I w → ∃ w' r, R_fold f s l w = Ok (w', r) ∧ I w' ∧ ∀ s', r = inl s' → P s'.
Proof.
  intros Hf. revert s. induction l as [|x l IH]; intros s Hs w Hw.
  - do 2 eexists. split; [done|]. split; [done|]. by intros ? [= <-].
  - cbn [R_fold]. rewrite R_bind_eq.
    destruct (Hf s x (list_elem_of_here _ _) Hs w Hw) as (w' & [s'|e] & -> & Hw' & HP).
    + apply IH; [|by apply HP|done]. intros s1 y Hy. apply Hf. by right.
    + by do 2 eexists.
Qed.

(** A computation that returns from every world, with a result in [Q] unless it is
    an error. *)
Definition total {A} (Q : A → Prop) (m : R A) : Prop :=
  ∀ w, ∃ w' r, m w = Ok (w', r) ∧ ∀ a, r = inl a → Q a.

Lemma total_ret {A} (Q : A → Prop) a : Q a → total Q (mret a : R A).
Proof. intros Ha w. do 2 eexists. split; [done|]. by intros ? [= <-]. Qed.

Lemma total_fail {A} (Q : A → Prop) e : total Q (fail e : R A).
Proof. intros w. by do 2 eexists. Qed.

Lemma total_read {A} (Q : A → Prop) (f : World → A + ApiError) : (∀ w a, f w = inl a → Q a) → total Q (read f).
Proof. intros Hf w. unfold read. destruct (f w) eqn:E; do 2 eexists; (split; [done|]); naive_solver. Qed.

Lemma total_query {A} (Q : A → Prop) (f : World → go A) : (∀ w, yields (f w) Q) → total Q (query f).
Proof.
  intros Hf w. unfold query. destruct (Hf w) as (a & -> & Ha). do 2 eexists. split; [done|]. by intros ? [= <-].
Qed.

(** Without a postcondition. *)
Abbreviation returning m := (total (λ _, True) m).

Lemma returning_read {A} (f : World → A + ApiError) : returning (read f).
Proof. by apply total_read. Qed.

Lemma total_get_opt k n : total (λ _, True) (get_opt k n).
Proof. intros w. unfold get_opt. destruct (cl_Get k n w) as [o|[]]; by do 2 eexists. Qed.

Lemma total_write f : total (λ _, True) (write f).
Proof. intros w. unfold write. destruct (f w) as [w' [e|]]; by do 2 eexists. Qed.

Lemma total_mono {A} (P Q : A → Prop) (m : R A) : (∀ a, P a → Q a) → total P m → total Q m.
Proof. intros HPQ Hm w. destruct (Hm w) as (w' & r & E & H). exists w', r. naive_solver. Qed.

Lemma total_bind {A B} (P : A → Prop) (Q : B → Prop) (m : R A) (f : A → R B) :
  total P m → (∀ a, P a → total Q (f a)) → total Q (m ≫= f).
Proof.
  intros Hm Hf w. rewrite R_bind_eq. destruct (Hm w) as (w' & [a|e] & -> & Ha).
  - by apply Hf, Ha.
  - by do 2 eexists.
Qed.

Lemma total_attempt {A} (P : A → Prop) (m : R A) :
  total P m → total (λ r, ∀ a, r = inl a → P a) (attempt m).
Proof.
  intros Hm w. unfold attempt. destruct (Hm w) as (w' & r & -> & Ha). do 2 eexists. split; [done|]. by intros ? [= <-].
Qed.

Lemma returning_attempt {A} (m : R A) : returning m → returning (attempt m).
Proof. intros Hm. eapply total_mono; [|by apply total_attempt]. done. Qed.

Lemma returning_bind {A B} (Q : B → Prop) (m : R A) (f : A → R B) :
  returning m → (∀ a, total Q (f a)) → total Q (m ≫= f).
Proof. intros Hm Hf. by eapply total_bind. Qed.

Lemma total_wrapping {A} (P : A → Prop) prefix (m : R A) : total P m → total P (wrapping prefix m).
Proof.
  intros Hm. eapply total_bind; [by apply total_attempt|]. intros [a|e] H; [by apply total_ret, H|apply total_fail].
Qed.

Lemma total_fold {A S} (P : S → Prop) (f : S → A → R S) s l :
  P s → (∀ s x, x ∈ l → P s → total P (f s x)) → total P (R_fold f s l).
Proof.
  revert s. induction l as [|x l IH]; intros s Hs Hf; [by apply total_ret|]. cbn [R_fold].
  eapply total_bind; [apply Hf; [by left|done]|]. intros s' Hs'. apply IH; [done|]. intros ? ? ?. apply Hf. by right.
Qed.

(** *** Calls of the client *)

Section Calls.
Context {laws : ClientLaws}.

Lemma framed_CreateOrUpdate (F : Kind → NamespacedName → Prop) k (o : object k) f :
  F k (key o) → framed F (write (cl_CreateOrUpdate k o f)).
Proof using laws.
  intros HF. apply framed_mono with (only k (key o)); [by intros ? ? [-> ->]|].
  apply framed_write. intros w w' e. apply CreateOrUpdate_frame.
Qed.

Lemma framed_Create (F : Kind → NamespacedName → Prop) k (o : object k) :
  F k (key o) → framed F (write (cl_Create k o)).
Proof using laws.
  intros HF. apply framed_mono with (only k (key o)); [by intros ? ? [-> ->]|].
  apply framed_write. intros w w' e. apply Create_frame.
Qed.

Lemma framed_Update (F : Kind → NamespacedName → Prop) k (o : object k) :
  F k (key o) → framed F (write (cl_Update k o)).
Proof using laws.
  intros HF. apply framed_mono with (only k (key o)); [by intros ? ? [-> ->]|].
  apply framed_write. intros w w' e. apply Update_frame.
Qed.

Lemma framed_Delete (F : Kind → NamespacedName → Prop) k n :
  F k n → framed F (write (cl_Delete k n)).
Proof using laws.
  intros HF. apply framed_mono with (only k n); [by intros ? ? [-> ->]|].
  apply framed_write. intros w w' e. apply Delete_frame.
Qed.

Lemma framed_UpdateStatus (F : Kind → NamespacedName → Prop) k (o : object k) :
  F k (key o) → framed F (write (cl_UpdateStatus k o)).
Proof using laws.
  intros HF. apply framed_mono with (only k (key o)); [by intros ? ? [-> ->]|].
  apply framed_write. intros w w' e. apply UpdateStatus_frame.
Qed.

Lemma framed_PatchStatus (F : Kind → NamespacedName → Prop) k (o from : object k) :
  F k (key o) → framed F (write (cl_PatchStatus k o from)).
Proof using laws.
  intros HF. apply framed_mono with (only k (key o)); [by intros ? ? [-> ->]|].
  apply framed_write. intros w w' e. apply PatchStatus_frame.
Qed.

End Calls.

End Monad.

Abbreviation returning m := (total (λ _, True) m).

#[export] Hint Resolve framed_ret framed_fail framed_lift framed_read framed_query framed_get_opt framed_bind
  framed_attempt framed_wrapping framed_fold : framed.
#[export] Hint Resolve total_ret total_fail total_query total_get_opt total_write : framed.
#[export] Hint Resolve safe_ret safe_fail safe_read safe_get_opt safe_attempt : framed.

(** ** A concrete client *)

Inductive any_object := AnyObject (k : Kind) (o : object k).

(** The objects; the first one under a kind and key is stored. *)
Abbreviation RefWorld := (list any_object).

(** A world with one more object. *)
Definition add_object (k : Kind) (o : object k) (w : RefWorld) : RefWorld := AnyObject k o :: w.

Definition as_kind (k : Kind) (a : any_object) : option (object k) :=
  match a with
  | AnyObject k' o => match decide (k' = k) with
                      | left e => Some (eq_rect k' object o k e)
                      | right _ => None
                      end
  end.

#[local] Arguments as_kind : simpl never.

Definition of_kind (k : Kind) (w : RefWorld) : list (object k) := omap (as_kind k) w.

Definition ref_stored (k : Kind) (w : RefWorld) (n : NamespacedName) : option (object k) :=
  List.find (λ o, bool_decide (key o = n)) (of_kind k w).

Definition ref_CreateOrUpdate (k : Kind) (o : object k) (f : object k → object k) (w : RefWorld)
  : RefWorld * option ApiError :=
  let o' := f (default o (ref_stored k w (key o))) in
  if decide (key o' = key o) then (add_object k o' w, None)
  else (w, Some (OtherError "MutateFn cannot mutate object name and/or object namespace")).

Definition ref_UpdateStatus (k : Kind) (o : object k) (w : RefWorld) : RefWorld * option ApiError :=
  match ref_stored k w (key o) with
  | Some o' => (add_object k (with_status o' o) w, None)
  | None => (w, Some NotFound)
  end.

Definition ref_Create (k : Kind) (o : object k) (w : RefWorld) : RefWorld * option ApiError :=
  match ref_stored k w (key o) with
  | Some _ => (w, Some (OtherError "already exists"))
  | None => (add_object k o w, None)
  end.

(** The status is kept. *)
Definition ref_Update (k : Kind) (o : object k) (w : RefWorld) : RefWorld * option ApiError :=
  match ref_stored k w (key o) with
  | Some o' => (add_object k (with_status o o') w, None)
  | None => (w, Some NotFound)
  end.

Definition ref_List (k : Kind) (sel : object k → bool) (w : RefWorld) : list (object k) :=
  List.filter sel (omap (ref_stored k w) (remove_dups (key <$> of_kind k w))).

Definition ref_Delete (k : Kind) (n : NamespacedName) (w : RefWorld) : RefWorld :=
  List.filter (λ a, match as_kind k a with
                    | Some o => bool_decide (key o ≠ n)
                    | None => true
                    end) w.

Definition ref_owner (k : Kind) : object k → OwnerReference :=
  match k with
  | KIngress => λ o, mkOwnerReference "networking.k8s.io/v1" "Ingress"
                       (networkingv1.ing_Name (io_ing o)) (networkingv1.ing_UID (io_ing o)) (Some true)
  | _ => λ o, mkOwnerReference "v1" "Service" (nn_Name (key o)) "" (Some true)
  end.

Definition reference_client : Client := {|
  World := RefWorld;
  stored := ref_stored;
  cl_Get := λ k n w, match ref_stored k w n with Some o => inl o | None => inr NotFound end;
  cl_List := λ k sel w, inl (ref_List k sel w);
  cl_CreateOrUpdate := ref_CreateOrUpdate;
  cl_Create := ref_Create;
  cl_Update := ref_Update;
  cl_Delete := λ k n w, (ref_Delete k n w, None);
  cl_UpdateStatus := ref_UpdateStatus;
  cl_PatchStatus := λ k o _, ref_UpdateStatus k o;
  cl_SetControllerReference := λ k o refs,
    if existsb (λ r, default false (or_Controller r)) refs then inr "already owned"
    else inl (refs ++ [ref_owner k o])
|}.

Lemma as_kind_own k (o : object k) : as_kind k (AnyObject k o) = Some o.
Proof.
  unfold as_kind. destruct (decide (k = k)) as [e|]; [|done]. by rewrite (proof_irrel e eq_refl).
Qed.

Lemma as_kind_other k k' (o : object k) : k' ≠ k → as_kind k' (AnyObject k o) = None.
Proof. intros Hk. unfold as_kind. destruct (decide (k = k')); [by subst|done]. Qed.

Lemma ref_stored_elem k w n o : ref_stored k w n = Some o → o ∈ of_kind k w ∧ key o = n.
Proof.
  intros [Ho Hk]%find_some. split; [by apply list_elem_of_In|]. by apply bool_decide_eq_true in Hk.
Qed.

Lemma ref_stored_key k w n o : ref_stored k w n = Some o → key o = n.
Proof. by intros [_ ?]%ref_stored_elem. Qed.

Lemma ref_stored_add k (o : object k) w : ref_stored k (add_object k o w) (key o) = Some o.
Proof.
  unfold ref_stored, of_kind, add_object. cbn [omap list_omap]. rewrite as_kind_own. cbn.
  by rewrite bool_decide_true.
Qed.

Lemma ref_frame_add k (o : object k) w :
  @frame reference_client (only k (key o)) w (add_object k o w).
Proof.
  intros k' n Hn. cbn. unfold ref_stored, of_kind, add_object. cbn [omap list_omap].
  destruct (decide (k' = k)) as [->|Hk]; [|by rewrite as_kind_other].
  rewrite as_kind_own. cbn. rewrite bool_decide_false; [done|]. intros <-. by apply Hn.
Qed.

Lemma ref_stored_delete k n k' n' w :
  ref_stored k' (ref_Delete k n w) n' =
  if decide (k' = k ∧ n' = n) then None else ref_stored k' w n'.
Proof.
  unfold ref_stored, of_kind. induction w as [|[k1 o] w IH]; cbn [omap list_omap ref_Delete List.filter].
  { by case_decide. }
  fold (ref_Delete k n w). destruct (decide (k1 = k)) as [->|H1].
  - rewrite as_kind_own. destruct (decide (key o = n)) as [Ho|Ho].
    + rewrite bool_decide_false by naive_solver. rewrite IH. case_decide as Hd; [done|].
      destruct (decide (k' = k)) as [->|Hk']; [|by rewrite as_kind_other]. rewrite as_kind_own. cbn.
      rewrite bool_decide_false; naive_solver.
    + rewrite bool_decide_true by done. cbn [omap list_omap].
      destruct (decide (k' = k)) as [->|Hk']; [|by rewrite as_kind_other]. rewrite as_kind_own. cbn.
      case_bool_decide; [|done]. rewrite decide_False; naive_solver.
  - rewrite (as_kind_other k1 k) by done. cbn [omap list_omap].
    destruct (decide (k' = k1)) as [->|Hk']; [|by rewrite as_kind_other]. rewrite as_kind_own. cbn.
    case_bool_decide; [|done]. rewrite decide_False; naive_solver.
Qed.

Lemma ref_UpdateStatus_stored k (o : object k) w :
  ref_stored k (ref_UpdateStatus k o w).1 (key o) =
  (λ o', with_status o' o) <$> ref_stored k w (key o).
Proof.
  unfold ref_UpdateStatus. destruct (ref_stored k w (key o)) as [o'|] eqn:E; [|done]. cbn.
  rewrite <-(ref_stored_key _ _ _ _ E), <-(key_with_status o' o). apply ref_stored_add.
Qed.

Lemma ref_UpdateStatus_frame k (o : object k) w :
  @frame reference_client (only k (key o)) w (ref_UpdateStatus k o w).1.
Proof.
  unfold ref_UpdateStatus. destruct (ref_stored k w (key o)) as [o'|] eqn:E.
  - rewrite <-(ref_stored_key _ _ _ _ E), <-(key_with_status o' o). apply ref_frame_add.
  - apply (@frame_refl reference_client).
Qed.

Lemma NoDup_omap {A B} (f : A → option B) (g : B → A) l :
  (∀ a b, f a = Some b → g b = a) → NoDup l → NoDup (g <$> omap f l).
Proof.
  intros Hg. induction 1 as [|a l Ha Hl IH]; cbn; [constructor|].
  destruct (f a) as [b|] eqn:E; [|done]. cbn. constructor; [|done].
  rewrite (Hg _ _ E), list_elem_of_fmap. intros (b' & -> & (a' & Ha' & Hf)%list_elem_of_omap).
  apply Ha. by rewrite (Hg _ _ Hf).
Qed.

Lemma NoDup_fmap_filter {A B} (f : A → B) (p : A → bool) l :
  NoDup (f <$> l) → NoDup (f <$> List.filter p l).
Proof.
  induction l as [|a l IH]; cbn; [done|]. intros [Ha Hl]%NoDup_cons. destruct (p a); [|by apply IH].
  cbn. constructor; [|by apply IH]. rewrite list_elem_of_fmap. intros (b & Hb & Hin).
  apply list_elem_of_In, filter_In in Hin as [Hin%list_elem_of_In _]. apply Ha. rewrite Hb.
  by apply list_elem_of_fmap_2.
Qed.

Lemma ref_List_spec k sel w o :
  o ∈ ref_List k sel w ↔ ref_stored k w (key o) = Some o ∧ sel o = true.
Proof.
  unfold ref_List. rewrite list_elem_of_In, filter_In, <-list_elem_of_In, list_elem_of_omap. split.
  - intros [(n & _ & Hn) ?]. by rewrite (ref_stored_key _ _ _ _ Hn).
  - intros [Ho ?]. split; [|done]. exists (key o). split; [|done].
    apply elem_of_remove_dups, list_elem_of_fmap_2. by apply ref_stored_elem in Ho as [? _].
Qed.

Lemma ref_Update_DEC (o : object KDEC) w w' :
  ref_Update KDEC o w = (w', None) →
  is_Some (ref_stored KDEC w (key o)) ∧ ref_stored KDEC w' (key o) = Some o.
Proof.
  unfold ref_Update. destruct (ref_stored KDEC w (key o)) as [o'|]; [|done]. intros [= <-].
  split; [by eexists|apply (ref_stored_add KDEC o)].
Qed.

#[export] Instance reference_client_laws : @ClientLaws reference_client.
Proof.
  split; cbn.
  - intros k n w o. by destruct (ref_stored k w n); intros [= <-].
  - intros k n w. by destruct (ref_stored k w n).
  - intros k n w o. apply ref_stored_key.
  - intros k sel w l o [= <-]. apply ref_List_spec.
  - intros k sel w l [= <-]. apply NoDup_fmap_filter, NoDup_omap; [|apply NoDup_remove_dups].
    intros n o. apply ref_stored_key.
  - intros k o f w w'. unfold ref_CreateOrUpdate. cbv zeta. destruct (decide _) as [Hk|]; [|done].
    intros [= <-]. etransitivity; [|apply ref_stored_add]. by rewrite Hk.
  - intros k o f w w' e. unfold ref_CreateOrUpdate. cbv zeta. destruct (decide _) as [Hk|].
    + intros [= <- <-]. set (o' := f _) in *. rewrite <-Hk. apply ref_frame_add.
    + intros [= <- <-]. apply (@frame_refl reference_client).
  - intros k o w w'. unfold ref_Create. destruct (ref_stored k w (key o)); [done|]. intros [= <-].
    split; [done|apply ref_stored_add].
  - intros k o w w' e. unfold ref_Create. destruct (ref_stored k w (key o)); intros [= <- <-].
    + apply (@frame_refl reference_client).
    + apply ref_frame_add.
  - exact ref_Update_DEC.
  - intros k o w w' e. unfold ref_Update. destruct (ref_stored k w (key o)) as [o'|]; intros [= <- <-].
    + rewrite <-(key_with_status o o'). apply ref_frame_add.
    + apply (@frame_refl reference_client).
  - intros k n w w' [= <-]. rewrite ref_stored_delete. by rewrite decide_True.
  - intros k n w w' e [= <- <-] k' n' Hn. cbn. rewrite ref_stored_delete, decide_False; [done|].
    exact Hn.
  - intros k o w w' e Hu. exists o. rewrite <-ref_UpdateStatus_stored. by rewrite Hu.
  - intros k o w w' Hu. rewrite <-ref_UpdateStatus_stored. by rewrite Hu.
  - intros k o w w' e Hu. pose proof (ref_UpdateStatus_frame k o w) as H. by rewrite Hu in H.
  - intros k o from w w' e Hu. exists o. rewrite <-ref_UpdateStatus_stored. by rewrite Hu.
  - intros k o from w w' Hu Hs. pose proof (ref_UpdateStatus_stored k o w) as H.
    rewrite Hu, Hs in H. exact H.
  - intros k o from w w' e Hu. pose proof (ref_UpdateStatus_frame k o w) as H. by rewrite Hu in H.
  - by intros [] o s refs.
Qed.

End api.
