(* ===== verification/EnvoyConfig.v ===== *)
(** * The L7 load balancer controller (src/pkg/dolphinenvoyconfig)

    A Service that asks for it, by an annotation or by one of its ports, gets a
    DolphinEnvoyConfig with an Envoy listener, a route configuration and a cluster
    of its own ([Module dolphinenvoyconfig]): envoy_config.go builds it,
    annotations.go has the mutators, envoy_reconcile.go the reconcile loop.
    [l7_Reconcile_converges] says what a run leaves: the configuration of a Service
    that asks for it, resource by resource ([l7_stored]), and none otherwise; a
    second run changes nothing. *)

From S2P Require Import Prelude GoStrings ApiTypes Envoy Listeners Translator FrontTranslators ApiServer.
Import k8s envoy_api api.
Import translation.

(** The generated enumeration of load balancer policies of the Envoy API, and the
    generated [DeepEqual] of DolphinEnvoyConfig. *)
Class EnvoyConfigLib := {
  Cluster_LbPolicy_value : string → option Z;
  DeepEqual : DECObject → DECObject → bool
}.

(** The spec of a DolphinEnvoyConfig. *)
Definition dec_Spec (d : DolphinEnvoyConfig) : list DService * list ServiceListener * list XDSResource :=
  (dec_BackendServices d, dec_Services d, dec_Resources d).

Class EnvoyConfigLibLaws `{!EnvoyConfigLib} : Prop := {
  LbPolicy_ROUND_ROBIN : Cluster_LbPolicy_value "ROUND_ROBIN" = Some 0%Z;
  DeepEqual_spec : ∀ a b, DeepEqual a b = true → dec_Spec (do_dec a) = dec_Spec (do_dec b)
}.

Module dolphinenvoyconfig.

Definition ServicePrefix : string := "service.dolphin.io".
Definition lbEnabledAnnotation : string := ServicePrefix +:+ "/lb-l7".
Definition lbModeAnnotation : string := ServicePrefix +:+ "/lb-l7-algorithm".
Definition dolphinEnvoyLBPrefix : string := "dolphin-envoy-lb".
(** [envoy_config_cluster_v3.Cluster_ROUND_ROBIN]. *)
Definition Cluster_ROUND_ROBIN : Z := 0.

Record envoyconfigReconciler := mkEnvoyconfigReconciler {
  er_l7LoadBalancerAlg : string;
  er_l7LoadBalancerPorts : list string;
  er_retries : Z;
  er_maxIdleTimeout : Z
}.

Definition newenvoyconfigReconciler (defaultAlgorithm : string) (ports : list string)
    (maxRetries idleTimeoutSeconds : Z) : envoyconfigReconciler :=
  mkEnvoyconfigReconciler defaultAlgorithm ports maxRetries idleTimeoutSeconds.

(** ** annotations.go *)

Definition isLBProtocolAnnotationEnabled (svc : ServiceObject) : bool :=
  String.eqb (default "" (fs_Annotations (so_svc svc) !! lbEnabledAnnotation)) "enabled".

Definition getLBProtocolModelAnnotation (svc : ServiceObject) : string :=
  default "" (fs_Annotations (so_svc svc) !! lbModeAnnotation).

Definition grpcHttpConnectionManagerMutator (h : HttpConnectionManager) : HttpConnectionManager :=
  mkHttpConnectionManager (hcm_StatPrefix h) (hcm_RouteConfigName h) (hcm_UseRemoteAddress h)
    (hcm_SkipXffAppend h) (hcm_HttpFilters h) ["websocket"] (hcm_MaxStreamDuration h)
    (hcm_StreamIdleTimeout h) (hcm_XffNumTrustedHops h) (hcm_InternalAddressConfig h).

Section Controller.
Context {pb : Proto} {lib : EnvoyConfigLib}.

(** A name that the enumeration does not have reads as zero from the map. *)
Definition lbModeClusterMutator (svc : ServiceObject) (c : Cluster) : Cluster :=
  let lbMode := getLBProtocolModelAnnotation svc in
  if String.eqb lbMode "" then c
  else listeners.WithClusterLbPolicy (default 0%Z (Cluster_LbPolicy_value (ToUpper lbMode))) c.

(** ** envoy_config.go *)

Definition getName (svc : ServiceObject) : string :=
  Join [fs_Namespace (so_svc svc); fs_Name (so_svc svc)] "/".

(** The error of [proto.Marshal]. *)
Definition marshalError : error := Msg "proto: cannot marshal".

Definition marshalled (typeURL : string) (m : Message) : XDSResource + error :=
  match Marshal m with
  | Some b => inl (Some (mkAny typeURL b))
  | None => inr marshalError
  end.

Definition connectionManager (svc : ServiceObject) : HttpConnectionManager :=
  grpcHttpConnectionManagerMutator
    (mkHttpConnectionManager (getName svc) (getName svc) true false
       [("envoy.filters.http.router", toAny M_Router)] [] None None 0 None).

Definition getConnectionManager (svc : ServiceObject) : XDSResource + error :=
  marshalled envoy.HttpConnectionManagerTypeURL (M_HttpConnectionManager (connectionManager svc)).

Definition listener (svc : ServiceObject) (hcm : XDSResource) : Listener :=
  mkListener (getName svc) None
    [mkFilterChain (Some (mkFilterChainMatch "raw_buffer" []))
       [("envoy.filters.network.http_connection_manager", hcm)] None]
    [("envoy.filters.listener.tls_inspector", toAny M_TlsInspector)] [].

(** An error of the connection manager is dropped, and the resource has no Any. *)
Definition getListenerResource (svc : ServiceObject) : XDSResource + error :=
  match getConnectionManager svc with
  | inr _ => inl None
  | inl defaultHttpConnectionManager =>
      marshalled envoy.ListenerTypeURL (M_Listener (listener svc defaultHttpConnectionManager))
  end.

Definition getVirtualHost (svc : ServiceObject) : VirtualHost :=
  mkVirtualHost (getName svc) ["*"]
    [Some (mkRoute (mkRouteMatch (PS_Prefix "/") [] [])
       (Act_Route (mkRouteAction (CS_Cluster (getName svc)) (Some 0%Z) None None "" [] None)) noChanges)].

Definition getRouteConfigResource (svc : ServiceObject) : XDSResource + error :=
  marshalled envoy.RouteTypeURL
    (M_RouteConfiguration (mkRouteConfiguration (getName svc) [getVirtualHost svc])).

Definition cluster (r : envoyconfigReconciler) (svc : ServiceObject) : Cluster :=
  lbModeClusterMutator svc
    (mkCluster (getName svc)
       {[ listeners.httpProtocolOptionsType :=
            toAny (M_HttpProtocolOptions (mkHttpProtocolOptions (Some UseDownstreamProtocol)
                     (Some (er_maxIdleTimeout r)))) ]}
       None (Some 5%Z)
       (default Cluster_ROUND_ROBIN (Cluster_LbPolicy_value (ToUpper (er_l7LoadBalancerAlg r))))
       (Some (mkOutlierDetection true (Some 2%Z))) None).

Definition getClustersResource (r : envoyconfigReconciler) (svc : ServiceObject)
  : list XDSResource + error :=
  match marshalled envoy.ClusterTypeURL (M_Cluster (cluster r svc)) with
  | inl c => inl [c]
  | inr e => inr e
  end.

Definition getResources (r : envoyconfigReconciler) (svc : ServiceObject) : list XDSResource + error :=
  match getListenerResource svc with
  | inr e => inr e
  | inl listener =>
      match getRouteConfigResource svc with
      | inr e => inr e
      | inl routeConfig =>
          match getClustersResource r svc with
          | inr e => inr e
          | inl clusters => inl (listener :: routeConfig :: clusters)
          end
      end
  end.

(** The name of the configuration of a Service. *)
Definition configKey (svc : ServiceObject) : NamespacedName :=
  mkNamespacedName (fs_Namespace (so_svc svc)) ("dolphin-envoy-lb" +:+ "-" +:+ fs_Name (so_svc svc)).

Definition getEnvoyConfigFroService (r : envoyconfigReconciler) (svc : ServiceObject)
  : DolphinEnvoyConfig + error :=
  match getResources r svc with
  | inr e => inr e
  | inl resources =>
      inl (mkDEC (nn_Name (configKey svc)) (nn_Namespace (configKey svc)) ∅ [] []
             [mkServiceListener (fs_Name (so_svc svc)) (fs_Namespace (so_svc svc)) None] resources)
  end.

(** ** envoy_reconcile.go *)

Definition getServiceFrontendPort (port : ServicePort) : string :=
  if negb (Z.eqb (sp_Port port) 0) then Itoa (sp_Port port)
  else if negb (Z.eqb (sp_NodePort port) 0) then Itoa (sp_NodePort port)
  else sp_Name port.

Definition hasAnyPort (svc : ServiceObject) (ports : list string) : bool :=
  existsb (λ p, existsb (λ port, String.eqb p (getServiceFrontendPort port)) (fs_Ports (so_svc svc))) ports.

Section Reconcile.
Context {client : Client} (r : envoyconfigReconciler).

(** The spec of one configuration with the metadata of another. *)
Definition with_Spec (existing : DECObject) (d : DolphinEnvoyConfig) : DECObject :=
  let e := do_dec existing in
  mkDECObject (mkDEC (dec_Name e) (dec_Namespace e) (dec_Labels e) (dec_OwnerReferences e)
    (dec_BackendServices d) (dec_Services d) (dec_Resources d)) (do_Annotations existing).

(** What the controller wants to be stored, owned by the Service. *)
Definition desiredConfig (svc : ServiceObject) : DECObject + error :=
  match getEnvoyConfigFroService r svc with
  | inr e => inr (wrap "failed to get DolphinEnvoyConfig for service: " e)
  | inl desired =>
      match cl_SetControllerReference KService svc (dec_OwnerReferences desired) with
      | inr e => inr (wrap "failed to set owner reference: " (Msg e))
      | inl refs => inl (mkDECObject (set_OwnerReferences desired refs) ∅)
      end
  end.

Definition createOrUpdateDolphinEnvoyConfig (svc : ServiceObject) : R unit :=
  desired ← (λ w, Ok (w, desiredConfig svc)) : R DECObject;
  existing ← wrapping " failed to lookup DolphinEnvoyConfig: " (get_opt KDEC (key (k := KDEC) desired));
  match existing with
  | Some existing =>
      if DeepEqual desired existing then mret tt
      else wrapping "failed to update DolphinEnvoyConfig for service: "
             (write (cl_Update KDEC (with_Spec existing (do_dec desired))))
  | None =>
      wrapping "failed to create DolphinEnvoyConfig for service: " (write (cl_Create KDEC desired))
  end.

Definition deleteEnvoyConfig (svc : ServiceObject) : R unit :=
  existing ← wrapping "failed to lookup DolphinEnvoyConfig: " (get_opt KDEC (configKey svc));
  match existing with
  | None => mret tt
  | Some _ =>
      wrapping "failed to delete DolphinEnvoyConfig for service: " (write (cl_Delete KDEC (configKey svc)))
  end.

Definition Reconcile (req : NamespacedName) : R unit :=
  svc ← get_opt KService req;
  match svc with
  | None => mret tt
  | Some svc =>
      if isLBProtocolAnnotationEnabled svc || hasAnyPort svc (er_l7LoadBalancerPorts r)
      then createOrUpdateDolphinEnvoyConfig svc
      else deleteEnvoyConfig svc
  end.

(** ** What a run leaves *)

Context {liblaws : EnvoyConfigLibLaws} {laws : ClientLaws}.

(** Whether a Service is to have a configuration. *)
Definition wanted (svc : ServiceObject) : bool :=
  isLBProtocolAnnotationEnabled svc || hasAnyPort svc (er_l7LoadBalancerPorts r).

Definition spec_of (d : DECObject) := dec_Spec (do_dec d).

Lemma desired_key svc d : desiredConfig svc = inl d → key (k := KDEC) d = configKey svc.
Proof using Type.
  unfold desiredConfig, getEnvoyConfigFroService. destruct (getResources r svc) as [res|e]; [|done].
  destruct (cl_SetControllerReference _ _ _); [|done]. by intros [= <-].
Qed.

Lemma with_Spec_same existing d : spec_of existing = dec_Spec d → with_Spec existing d = existing.
Proof using Type. destruct existing as [[] ?], d. unfold spec_of, dec_Spec, with_Spec. cbn. by intros [= -> -> ->]. Qed.

(** A configuration is stored with the wanted spec: a new one as it is wanted, an
    old one with its metadata kept. *)
Definition settled (svc : ServiceObject) (w w' : World) : Prop :=
  ∃ d, desiredConfig svc = inl d ∧
    stored KDEC w' (configKey svc) =
      Some (match stored KDEC w (configKey svc) with Some e => with_Spec e (do_dec d) | None => d end).

Lemma get_opt_found k n w w' o :
  get_opt k n w = Ok (w', inl o) → w' = w ∧ stored k w n = o.
Proof using laws.
  unfold get_opt. destruct (cl_Get k n w) as [o'|[]] eqn:E; intros [= <- <-]; split; try done.
  - by apply Get_found.
  - by apply Get_NotFound.
Qed.

Lemma wrapped_get prefix n w :
  ∃ res, wrapping prefix (get_opt KDEC n) w = Ok (w, res) ∧
    ∀ o, res = inl o → stored KDEC w n = o.
Proof using laws.
  unfold wrapping. rewrite R_bind_eq. unfold attempt.
  assert (Hg : ∃ r0, get_opt KDEC n w = Ok (w, r0))
    by (unfold get_opt; destruct (cl_Get KDEC n w) as [o|[]]; by eexists).
  destruct Hg as [r0 Eg]. rewrite Eg. destruct r0 as [o|e]; eexists; (split; [done|]); [|done].
  intros o' [= <-]. by apply (get_opt_found _ _ _ _ _ Eg).
Qed.

Lemma wrapped_write prefix f w :
  wrapping prefix (write f) w =
  Ok ((f w).1, match (f w).2 with None => inl tt | Some e => inr (wrap prefix (Api e)) end).
Proof using Type. unfold wrapping. rewrite R_bind_eq. unfold attempt, write. by destruct (f w) as [w' [e|]]. Qed.

Lemma createOrUpdate_spec svc w :
  ∃ w' res, createOrUpdateDolphinEnvoyConfig svc w = Ok (w', res) ∧
    frame (only KDEC (configKey svc)) w w' ∧ (res = inl tt → settled svc w w').
Proof using laws liblaws.
  unfold createOrUpdateDolphinEnvoyConfig. rewrite R_bind_eq.
  destruct (desiredConfig svc) as [d|e] eqn:Ed; [|by do 2 eexists; split_and!].
  pose proof (desired_key _ _ Ed) as Hk. rewrite Hk, R_bind_eq.
  destruct (wrapped_get " failed to lookup DolphinEnvoyConfig: " (configKey svc) w) as (res & -> & Hg).
  destruct res as [o|e]; [|by do 2 eexists; split_and!]. specialize (Hg o eq_refl).
  destruct o as [existing|].
  - destruct (DeepEqual d existing) eqn:Eq.
    { exists w, (inl tt). split_and!; [done..|]. intros _. exists d. split; [done|]. rewrite Hg.
      rewrite with_Spec_same; [done|]. symmetry. by apply DeepEqual_spec. }
    rewrite wrapped_write. pose proof (stored_key _ _ _ _ Hg) as Hke.
    assert (Hku : key (k := KDEC) (with_Spec existing (do_dec d)) = configKey svc) by by rewrite <-Hke.
    destruct (cl_Update _ _ w) as [w' e] eqn:Eu. do 2 eexists. split; [done|].
    pose proof (Update_frame _ _ _ _ _ Eu) as Hf. rewrite Hku in Hf. split; [done|].
    destruct e; [done|]. intros _. exists d. split; [done|]. rewrite Hg, <-Hku. by eapply Update_done.
  - rewrite wrapped_write. destruct (cl_Create _ _ w) as [w' e] eqn:Eu. do 2 eexists. split; [done|].
    pose proof (Create_frame _ _ _ _ _ Eu) as Hf. rewrite Hk in Hf. split; [done|].
    destruct e; [done|]. intros _. exists d. split; [done|]. rewrite Hg, <-Hk. by eapply Create_done.
Qed.

Lemma delete_spec svc w :
  ∃ w' res, deleteEnvoyConfig svc w = Ok (w', res) ∧
    frame (only KDEC (configKey svc)) w w' ∧ (res = inl tt → stored KDEC w' (configKey svc) = None).
Proof using laws.
  unfold deleteEnvoyConfig. rewrite R_bind_eq.
  destruct (wrapped_get "failed to lookup DolphinEnvoyConfig: " (configKey svc) w) as (res & -> & Hg).
  destruct res as [[o|]|e]; [|by do 2 eexists; split_and!; eauto|by do 2 eexists; split_and!].
  rewrite wrapped_write. destruct (cl_Delete _ _ w) as [w' e] eqn:Eu. do 2 eexists. split; [done|].
  split; [by eapply Delete_frame|]. destruct e; [done|]. intros _. by eapply Delete_done.
Qed.

(** The name of the configuration of the Service of a request. *)
Definition requestKey (req : NamespacedName) : NamespacedName :=
  mkNamespacedName (nn_Namespace req) ("dolphin-envoy-lb-" +:+ nn_Name req).

Lemma Reconcile_spec req w :
  ∃ w' res, Reconcile req w = Ok (w', res) ∧ frame (only KDEC (requestKey req)) w w' ∧
    (res = inl tt →
     match stored KService w req with
     | None => ∀ k n, stored k w' n = stored k w n
     | Some svc => if wanted svc then settled svc w w' else stored KDEC w' (requestKey req) = None
     end).
Proof using laws liblaws.
  unfold Reconcile. rewrite R_bind_eq. unfold get_opt.
  destruct (cl_Get KService req w) as [svc|e] eqn:E.
  - apply Get_found in E. rewrite E. pose proof (stored_key _ _ _ _ E) as Hk.
    assert (Hc : requestKey req = configKey svc) by by rewrite <-Hk. rewrite Hc. fold (wanted svc).
    destruct (wanted svc); [apply createOrUpdate_spec|apply delete_spec].
  - destruct e; do 2 eexists; split_and!; try done. intros _. by rewrite (Get_NotFound _ _ _ E).
Qed.

Lemma Reconcile_idempotent req w w1 w2 :
  Reconcile req w = Ok (w1, inl tt) → Reconcile req w1 = Ok (w2, inl tt) →
  ∀ k n, stored k w2 n = stored k w1 n.
Proof using laws liblaws.
  intros H1 H2. destruct (Reconcile_spec req w) as (w1' & res & E1 & F1 & S1).
  rewrite H1 in E1. injection E1 as <- <-. specialize (S1 eq_refl).
  destruct (Reconcile_spec req w1) as (w2' & res & E2 & F2 & S2).
  rewrite H2 in E2. injection E2 as <- <-. specialize (S2 eq_refl).
  rewrite (F1 KService) in S2 by by intros [? _]. intros k n.
  destruct (stored KService w req) as [svc|] eqn:Es; [|by apply S2].
  destruct (decide (k = KDEC ∧ n = requestKey req)) as [[-> ->]|Hn]; [|by apply F2].
  pose proof (stored_key _ _ _ _ Es) as Hk. assert (Hc : requestKey req = configKey svc) by by rewrite <-Hk.
  rewrite Hc in S1, S2 |- *. destruct (wanted svc); [|by rewrite S1, S2].
  destruct S1 as (d & Hd & S1), S2 as (d' & Hd' & S2). rewrite Hd in Hd'. injection Hd' as <-.
  rewrite S2, S1. f_equal. apply with_Spec_same. by destruct (stored KDEC w (configKey svc)) as [[[] ?]|].
Qed.

(** ** The specification *)

(** The text by which a port of a Service is looked for: its number, or its node
    port, or its name. *)
Definition port_text (p : ServicePort) (text : string) : Prop :=
  sp_Port p ≠ 0%Z ∧ text = Itoa (sp_Port p) ∨
  sp_Port p = 0%Z ∧ sp_NodePort p ≠ 0%Z ∧ text = Itoa (sp_NodePort p) ∨
  sp_Port p = 0%Z ∧ sp_NodePort p = 0%Z ∧ text = sp_Name p.

(** A Service asks for L7 load balancing by its annotation or by one of its ports. *)
Definition asks_for_l7 (svc : ServiceObject) : Prop :=
  fs_Annotations (so_svc svc) !! "service.dolphin.io/lb-l7" = Some "enabled" ∨
  ∃ p text, p ∈ fs_Ports (so_svc svc) ∧ port_text p text ∧ text ∈ er_l7LoadBalancerPorts r.

(** The number of a load balancer policy, by its name in any case; 0 (round robin)
    for a name that the enumeration does not have. *)
Definition policy_number (name : string) : Z := default 0%Z (Cluster_LbPolicy_value (ToUpper name)).

(** The policy: that of the annotation if it is there, and otherwise the default. *)
Definition l7_policy (svc : ServiceObject) : Z :=
  match fs_Annotations (so_svc svc) !! "service.dolphin.io/lb-l7-algorithm" with
  | None | Some "" => policy_number (er_l7LoadBalancerAlg r)
  | Some name => policy_number name
  end.

Definition resource_is (url : string) (m : Message) (x : XDSResource) : Prop :=
  ∃ b, Marshal m = Some b ∧ x = Some (mkAny url b).

(** The listener sends what it accepts through a connection manager with the route
    configuration of this name; it is missing if the manager cannot be encoded. *)
Definition l7_listener (n : string) (x : XDSResource) : Prop :=
  let hcm := mkHttpConnectionManager n n true false [("envoy.filters.http.router", toAny M_Router)]
    ["websocket"] None None 0 None in
  match Marshal (M_HttpConnectionManager hcm) with
  | None => x = None
  | Some b =>
      resource_is envoy.ListenerTypeURL (M_Listener (mkListener n None
        [mkFilterChain (Some (mkFilterChainMatch "raw_buffer" []))
           [("envoy.filters.network.http_connection_manager", Some (mkAny envoy.HttpConnectionManagerTypeURL b))] None]
        [("envoy.filters.listener.tls_inspector", toAny M_TlsInspector)] [])) x
  end.

(** The route configuration sends every request to the cluster of this name. *)
Definition l7_routes (n : string) : RouteConfiguration :=
  mkRouteConfiguration n [mkVirtualHost n ["*"]
    [Some (mkRoute (mkRouteMatch (PS_Prefix "/") [] [])
       (Act_Route (mkRouteAction (CS_Cluster n) (Some 0%Z) None None "" [] None)) noChanges)]].

Definition l7_cluster (n : string) (policy : Z) : Cluster :=
  mkCluster n
    {[ listeners.httpProtocolOptionsType :=
         toAny (M_HttpProtocolOptions (mkHttpProtocolOptions (Some UseDownstreamProtocol) (Some (er_maxIdleTimeout r)))) ]}
    None (Some 5%Z) policy (Some (mkOutlierDetection true (Some 2%Z))) None.

(** The configuration that is stored for a Service, field by field: its listener,
    route configuration and cluster are all named after the Service; a new one is
    owned by the Service, an old one keeps its metadata. *)
Record l7_stored (svc : ServiceObject) (old : option DECObject) (new : DECObject) : Prop := {
  l7_services : dec_Services (do_dec new) = [mkServiceListener (fs_Name (so_svc svc)) (fs_Namespace (so_svc svc)) None];
  l7_backends : dec_BackendServices (do_dec new) = [];
  l7_resources :
    let n := fs_Namespace (so_svc svc) +:+ "/" +:+ fs_Name (so_svc svc) in
    ∃ l rc c, dec_Resources (do_dec new) = [l; rc; c] ∧ l7_listener n l ∧
      resource_is envoy.RouteTypeURL (M_RouteConfiguration (l7_routes n)) rc ∧
      resource_is envoy.ClusterTypeURL (M_Cluster (l7_cluster n (l7_policy svc))) c;
  l7_metadata :
    match old with
    | Some e =>
        dec_Labels (do_dec new) = dec_Labels (do_dec e) ∧ do_Annotations new = do_Annotations e ∧
        dec_OwnerReferences (do_dec new) = dec_OwnerReferences (do_dec e)
    | None =>
        dec_Labels (do_dec new) = ∅ ∧ do_Annotations new = ∅ ∧
        cl_SetControllerReference KService svc [] = inl (dec_OwnerReferences (do_dec new))
    end
}.

Lemma frontend_port_text p text : getServiceFrontendPort p = text ↔ port_text p text.
Proof using Type.
  unfold getServiceFrontendPort, port_text.
  destruct (Z.eqb_spec (sp_Port p) 0), (Z.eqb_spec (sp_NodePort p) 0); cbn [negb]; naive_solver.
Qed.

Lemma wanted_iff svc : wanted svc = true ↔ asks_for_l7 svc.
Proof using Type.
  unfold wanted, asks_for_l7, isLBProtocolAnnotationEnabled, hasAnyPort. rewrite orb_true_iff. f_equiv.
  - change lbEnabledAnnotation with "service.dolphin.io/lb-l7". rewrite String.eqb_eq.
    destruct (_ !! _) as [v|]; cbn; naive_solver.
  - rewrite existsb_exists. setoid_rewrite existsb_exists. setoid_rewrite String.eqb_eq.
    setoid_rewrite <-list_elem_of_In. setoid_rewrite <-frontend_port_text. naive_solver.
Qed.

Lemma cluster_l7 svc :
  cluster r svc = l7_cluster (fs_Namespace (so_svc svc) +:+ "/" +:+ fs_Name (so_svc svc)) (l7_policy svc).
Proof using Type.
  unfold cluster, l7_cluster, lbModeClusterMutator, getLBProtocolModelAnnotation, l7_policy, policy_number.
  change lbModeAnnotation with "service.dolphin.io/lb-l7-algorithm".
  destruct (_ !! _) as [[|a v]|]; done.
Qed.

Lemma marshalled_is url m x : marshalled url m = inl x → resource_is url m x.
Proof using Type. unfold marshalled, resource_is. destruct (Marshal m) as [b|]; [|done]. intros [= <-]. by exists b. Qed.

Lemma listener_l7 svc x :
  getListenerResource svc = inl x → l7_listener (fs_Namespace (so_svc svc) +:+ "/" +:+ fs_Name (so_svc svc)) x.
Proof using Type.
  unfold getListenerResource, getConnectionManager, l7_listener, marshalled at 1. cbv zeta.
  change (connectionManager svc) with
    (mkHttpConnectionManager (fs_Namespace (so_svc svc) +:+ "/" +:+ fs_Name (so_svc svc))
       (fs_Namespace (so_svc svc) +:+ "/" +:+ fs_Name (so_svc svc)) true false
       [("envoy.filters.http.router", toAny M_Router)] ["websocket"] None None 0 None).
  destruct (Marshal (M_HttpConnectionManager _)) as [b|]; [|by intros [= <-]]. apply marshalled_is.
Qed.

Lemma settled_stored svc w w' :
  settled svc w w' →
  ∃ new, stored KDEC w' (configKey svc) = Some new ∧ l7_stored svc (stored KDEC w (configKey svc)) new.
Proof using Type.
  intros (d & Hd & Hs). eexists. split; [exact Hs|]. clear Hs.
  unfold desiredConfig, getEnvoyConfigFroService, getResources in Hd.
  destruct (getListenerResource svc) as [l|] eqn:El; [|done].
  destruct (getRouteConfigResource svc) as [rc|] eqn:Er; [|done]. unfold getClustersResource in Hd.
  destruct (marshalled envoy.ClusterTypeURL _) as [c|] eqn:Ec; [|done].
  destruct (cl_SetControllerReference _ _ _) as [refs|] eqn:Eo; [|done]. injection Hd as <-.
  assert (Hres : let n := fs_Namespace (so_svc svc) +:+ "/" +:+ fs_Name (so_svc svc) in
    ∃ l' rc' c', [l; rc; c] = [l'; rc'; c'] ∧ l7_listener n l' ∧
      resource_is envoy.RouteTypeURL (M_RouteConfiguration (l7_routes n)) rc' ∧
      resource_is envoy.ClusterTypeURL (M_Cluster (l7_cluster n (l7_policy svc))) c').
  { exists l, rc, c. rewrite <-cluster_l7. split_and!; [done|by apply listener_l7|by apply marshalled_is in Er|].
    by apply marshalled_is. }
  destruct (stored KDEC w (configKey svc)) as [e|]; split; cbn; done.
Qed.

(** C20: a run of the L7 load balancer controller returns and changes nothing but
    the configuration of its Service.  Unless it ends in an error, it leaves for a
    Service that asks for it (by the annotation or by one of its ports) a
    configuration with exactly the listener, route configuration and cluster of
    [l7_stored], and deletes the configuration of a Service that does not ask; a
    Service that is gone changes nothing.  A second run that ends without an error
    leaves every object as it is. *)
Theorem l7_Reconcile_converges req w :
  ∃ w' res, Reconcile req w = Ok (w', res) ∧ frame (only KDEC (requestKey req)) w w' ∧
    (res = inl tt →
     match stored KService w req with
     | None => ∀ k n, stored k w' n = stored k w n
     | Some svc =>
         (asks_for_l7 svc → ∃ new, stored KDEC w' (requestKey req) = Some new ∧
            l7_stored svc (stored KDEC w (requestKey req)) new) ∧
         (¬ asks_for_l7 svc → stored KDEC w' (requestKey req) = None)
     end ∧
     ∀ w2, Reconcile req w' = Ok (w2, inl tt) → ∀ k n, stored k w2 n = stored k w' n).
Proof using laws liblaws.
  destruct (Reconcile_spec req w) as (w' & res & E & F & S). exists w', res. split_and!; [done..|].
  intros ->. split; [|intros w2; by apply (Reconcile_idempotent req w w')]. specialize (S eq_refl).
  destruct (stored KService w req) as [svc|] eqn:Es; [|done]. rewrite <-wanted_iff.
  pose proof (stored_key _ _ _ _ Es) as Hk. assert (Hc : requestKey req = configKey svc) by by rewrite <-Hk.
  rewrite Hc in S |- *. destruct (wanted svc); split; intros; try done. by apply settled_stored.
Qed.

End Reconcile.

End Controller.

(** ** An example *)

#[local] Instance Any_eq_dec : EqDecision Any.
Proof. solve_decision. Defined.
#[local] Instance DService_eq_dec : EqDecision DService.
Proof. solve_decision. Defined.
#[local] Instance ServiceListener_eq_dec : EqDecision ServiceListener.
Proof. solve_decision. Defined.

Definition reference_lib : EnvoyConfigLib := {|
  Cluster_LbPolicy_value := λ s,
    if String.eqb s "ROUND_ROBIN" then Some 0%Z else if String.eqb s "LEAST_REQUEST" then Some 1%Z else None;
  DeepEqual := λ a b, bool_decide (dec_Spec (do_dec a) = dec_Spec (do_dec b))
|}.

#[local] Instance reference_lib_laws : @EnvoyConfigLibLaws reference_lib.
Proof. split; [done|]. intros a b H. by apply bool_decide_eq_true in H. Qed.

Definition web : ServiceObject :=
  mkServiceObject (mkFrontService "web" "ns" ∅ {[ lbEnabledAnnotation := "enabled"; lbModeAnnotation := "least_request" ]}
    [] "ClusterIP" [mkServicePort "http" 80 None "TCP" 0]) None None.

Definition l7 : envoyconfigReconciler := newenvoyconfigReconciler "round_robin" ["8080"] 10 60.

Definition webRequest : NamespacedName := mkNamespacedName "ns" "web".

(** The Service is given a cluster with the policy of its annotation. *)
Lemma web_policy : cl_LbPolicy (@cluster reference_proto reference_lib l7 web) = 1%Z.
Proof. reflexivity. Qed.

(** A run for the Service stores its configuration. *)
Lemma l7_Reconcile_converges_witness :
  ∃ w', @Reconcile reference_proto reference_lib reference_client l7 webRequest [AnyObject KService web] =
      Ok (w', inl tt) ∧ is_Some (@stored reference_client KDEC w' (requestKey webRequest)).
Proof.
  destruct (@l7_Reconcile_converges reference_proto reference_lib reference_client l7 reference_lib_laws
    reference_client_laws webRequest [AnyObject KService web]) as (w' & res & E & _ & S).
  exists w'. assert (res = inl tt) as -> by (vm_compute in E; congruence). split; [exact E|].
  destruct (S eq_refl) as [[Hask _] _]. destruct Hask as (new & Hnew & _); [by left|]. eexists. exact Hnew.
Defined.

End dolphinenvoyconfig.
