(* ===== verification/IngressReconcile.v ===== *)
(** * The Ingress reconciler (src/pkg/ingress)

    ingress_reconcile.go, helpers.go and the reconciler of ingress.go, over the
    abstract API server of [ApiServer].  A reconcile run is a computation in the
    monad [api.R]: it threads the world, stops at the first error, and may panic.
    The theorems say what a run leaves in the world and which worlds make it
    panic. *)

From S2P Require Import Prelude GoStrings ApiTypes Model Hostnames Envoy Translator TranslatorFacts.
From S2P Require Import FrontTranslators Annotations IngressIngestion IngressTranslator ApiServer.
Import k8s.
Import api.
Import translation.

Module ingress_reconcile.

Definition dolphinIngressClassName : string := "dolphin".
Definition AnnotationIsDefaultIngressClass : string := "ingressclass.kubernetes.io/is-default-class".

Record ingressReconciler := mkReconciler {
  rc_enforcedHTTPS : bool;
  rc_lbAnnotationPrefixes : list string;
  rc_sharedLBServiceName : string;
  rc_dolphinNamespace : string;
  rc_defaultLoadbalancerMode : string;
  rc_defaultSecretNamespace : string;
  rc_defaultSecretName : string;
  rc_defaultRequestTimeout : Z;
  rc_hostNetworkEnabled : bool;
  rc_hostNetworkSharedPort : Z;
  rc_sharedTranslator : defaultTranslator;
  rc_dedicatedTranslator : ingress.DedicatedIngressTranslator
}.

(** The options for host networking and the request timeout stay zero. *)
Definition newIngressReconciler (dolphinNamespace : string) (enforceHTTPS useProxyProtocol : bool)
    (secretsNamespace : string) (lbAnnotationPrefixes : list string)
    (sharedLBServiceName defaultLoadbalancerMode defaultSecretNamespace defaultSecretName : string)
    (proxyIdleTimeoutSeconds : Z) : ingressReconciler :=
  mkReconciler enforceHTTPS lbAnnotationPrefixes sharedLBServiceName dolphinNamespace
    defaultLoadbalancerMode defaultSecretNamespace defaultSecretName 0 false 0
    (ingress.NewSharedIngressTranslator sharedLBServiceName dolphinNamespace secretsNamespace
       enforceHTTPS useProxyProtocol proxyIdleTimeoutSeconds)
    (ingress.mkDedicated secretsNamespace enforceHTTPS useProxyProtocol proxyIdleTimeoutSeconds).

Definition rc_options (r : ingressReconciler) : ingress.ReconcilerOptions :=
  ingress.mkReconcilerOptions (rc_defaultSecretNamespace r) (rc_defaultSecretName r)
    (rc_enforcedHTTPS r) (rc_hostNetworkEnabled r) (rc_defaultRequestTimeout r).

(** ** Merging maps *)

Definition atLeastOnePrefixMatch (s : string) (prefixes : list string) : bool :=
  existsb (HasPrefix s) prefixes.

Definition mergeMap (src dst : gmap string string) (prefixes : list string) : gmap string string :=
  if decide (src = ∅) then dst
  else filter (λ kv, atLeastOnePrefixMatch kv.1 prefixes = true) src ∪ dst.

Definition propagateIngressAnnotationsAndLabels (r : ingressReconciler) (ing : IngressObject)
    (svc : FrontService) : FrontService :=
  if 0 <? length (rc_lbAnnotationPrefixes r) then
    mkFrontService (fs_Name svc) (fs_Namespace svc)
      (mergeMap (fs_Labels svc) (io_Labels ing) (rc_lbAnnotationPrefixes r))
      (mergeMap (fs_Annotations svc) (networkingv1.ing_Annotations (io_ing ing))
         (rc_lbAnnotationPrefixes r))
      (fs_OwnerReferences svc) (fs_Type svc) (fs_Ports svc)
  else svc.

(** ** Which Ingresses are managed *)

Definition ingressClassName (ing : IngressObject) : option string :=
  match networkingv1.ing_Annotations (io_ing ing) !! "kubernetes.io/ingress.class" with
  | Some className => Some className
  | None => io_ClassName ing
  end.

(** [None] is the error of [ParseBool]. *)
Definition isIngressClassMarkedAsDefault (cls : IngressClassObject) : option bool :=
  match ico_Annotations cls !! AnnotationIsDefaultIngressClass with
  | Some val => strconv.ParseBool val
  | None => Some false
  end.

Definition convertToNetworkV1IngressLoadBalancerIngress (lbIngresses : slice LoadBalancerIngress)
  : slice IngressLoadBalancerIngress :=
  (fmap (M:=list) (λ i, mkILBI (lbi_IP i) (lbi_Hostname i) (lbi_Ports i))) <$> lbIngresses.

Section Reconcile.
Context {client : Client} {infra : Infra} {pb : Proto} {range : MapRange} {ann : Annotation}.
Context (hops : Z) (label : string) (r : ingressReconciler).

Definition isEffectiveLoadbalancerModeDedicated (ing : IngressObject) : bool :=
  let value := annotations.GetAnnotationIngressLoadbalancerMode
                 (networkingv1.ing_Annotations (io_ing ing)) in
  if String.eqb value annotations.LoadbalancerModeDedicated then true
  else if String.eqb value annotations.LoadbalancerModeShared then false
  else String.eqb (rc_defaultLoadbalancerMode r) annotations.LoadbalancerModeDedicated.

(** Every error of the lookup counts as "not the default". *)
Definition isDolphinDefaultIngressController : R bool :=
  res ← attempt (read (cl_Get KIngressClass (mkNamespacedName "" dolphinIngressClassName)));
  match res with
  | inl cls => mret (default false (isIngressClassMarkedAsDefault cls))
  | inr _ => mret false
  end.

(** The log line dereferences the class name before it is compared with nil. *)
Definition isdolphinManagedIngress (ing : IngressObject) : R bool :=
  let ingClsName := ingressClassName ing in
  logged ← lift (deref ingClsName);
  if String.eqb logged dolphinIngressClassName then mret true
  else if String.eqb logged "" then isDolphinDefaultIngressController
  else mret false.

(** ** Writing objects *)

Definition mutateDEC (desired cur : DECObject) : DECObject :=
  let d := do_dec desired in
  mkDECObject
    (mkDEC (dec_Name (do_dec cur)) (dec_Namespace (do_dec cur))
       (mergeMap (dec_Labels (do_dec cur)) (dec_Labels d) []) (dec_OwnerReferences d)
       (dec_BackendServices d) (dec_Services d) (dec_Resources d))
    (mergeMap (do_Annotations cur) (do_Annotations desired) []).

Definition createOrUpdateDolphinEnvoyConfig (desired : DECObject) : R unit :=
  write (cl_CreateOrUpdate KDEC desired (mutateDEC desired)).

Definition mutateService (desired cur : ServiceObject) : ServiceObject :=
  let d := so_svc desired in
  mkServiceObject
    (mkFrontService (fs_Name (so_svc cur)) (fs_Namespace (so_svc cur))
       (mergeMap (fs_Labels (so_svc cur)) (fs_Labels d) [])
       (mergeMap (fs_Annotations (so_svc cur)) (fs_Annotations d) [])
       (fs_OwnerReferences d) (fs_Type d) (fs_Ports d))
    (so_LoadBalancerClass cur) (so_Status cur).

Definition createOrUpdateService (desired : ServiceObject) : R unit :=
  write (cl_CreateOrUpdate KService desired (mutateService desired)).

Definition mutateEndpoints (desired cur : EndpointsObject) : EndpointsObject :=
  let d := eo_ep desired in
  mkEndpointsObject
    (mkFrontEndpoints (fe_Name (eo_ep cur)) (fe_Namespace (eo_ep cur))
       (mergeMap (fe_Labels (eo_ep cur)) (fe_Labels d) []) (fe_OwnerReferences d) (fe_Subsets d))
    (mergeMap (eo_Annotations cur) (eo_Annotations desired) []).

Definition createOrUpdateEndpoints (desired : EndpointsObject) : R unit :=
  write (cl_CreateOrUpdate KEndpoints desired (mutateEndpoints desired)).

Definition tryDeletingResource (k : Kind) (n : NamespacedName) : R unit :=
  o ← get_opt k n;
  match o with
  | None => mret tt
  | Some _ => write (cl_Delete k n)
  end.

(** ** Dedicated mode *)

Definition dedicatedName (n : NamespacedName) : NamespacedName :=
  mkNamespacedName (nn_Namespace n) ("dolphin-ingress-" +:+ nn_Name n).
Definition dedicatedDECName (n : NamespacedName) : NamespacedName :=
  mkNamespacedName (nn_Namespace n) ("dolphin-ingress-" +:+ nn_Namespace n +:+ "-" +:+ nn_Name n).

Definition buildDedicatedResources (ing : IngressObject)
  : R (DECObject * ServiceObject * EndpointsObject) :=
  m ← lift (ingress.dedicatedModel (rc_options r) (io_ing ing));
  res ← lift (ingress.TranslateDedicated hops label (rc_dedicatedTranslator r) (Some m));
  match res with
  | inr e => fail (Msg e)
  | inl (decp, svc, ep) =>
      dec ← lift (deref decp);
      match cl_SetControllerReference KIngress ing (dec_OwnerReferences dec) with
      | inr e => fail (Msg e)
      | inl refs =>
          mret (mkDECObject (set_OwnerReferences dec refs) ∅,
                mkServiceObject (propagateIngressAnnotationsAndLabels r ing svc) None None,
                mkEndpointsObject ep ∅)
      end
  end.

Definition createOrUpdateDedicatedResources (ing : IngressObject) : R unit :=
  '(dec, svc, ep) ← buildDedicatedResources ing;
  _ ← createOrUpdateDolphinEnvoyConfig dec;
  _ ← createOrUpdateService svc;
  createOrUpdateEndpoints ep.

(** The resources are in a map: the order of the deletions is open. *)
Definition dedicatedResources (n : NamespacedName) : gmap nat (Kind * NamespacedName) :=
  {[ 0 := (KService, dedicatedName n); 1 := (KEndpoints, dedicatedName n);
     2 := (KDEC, dedicatedDECName n) ]}.

Definition tryCleanupDedicatedResources (n : NamespacedName) : R unit :=
  R_fold (λ _ i,
    match dedicatedResources n !! i with
    | Some (k, name) => tryDeletingResource k name
    | None => mret tt
    end) tt (map_keys (dedicatedResources n)).

(** ** Shared mode *)

Definition getSharedListenerPorts : Z * Z * Z :=
  if negb (rc_hostNetworkEnabled r)
  then (ingress.defaultPassthroughPort, ingress.defaultInsecureHTTPPort, ingress.defaultSecureHTTPPort)
  else
    let port := if (0 <? rc_hostNetworkSharedPort r)%Z then rc_hostNetworkSharedPort r
                else ingress.defaultHostNetworkListenerPort in
    (port, port, port).

Definition ingress_less (a b : IngressObject) : bool :=
  str_ltb (nn_String (ingressKey (io_ing a))) (nn_String (ingressKey (io_ing b))).

Definition addSharedIngress (m : model.Model) (item : IngressObject) : R model.Model :=
  managed ← isdolphinManagedIngress item;
  if negb managed || isEffectiveLoadbalancerModeDedicated item || io_Deleted item then mret m
  else
    let '(_, insecureHTTPPort, secureHTTPPort) := getSharedListenerPorts in
    if annotations.GetAnnotationTLSPassthroughEnabled (networkingv1.ing_Annotations (io_ing item))
    then tls ← lift (ingress_ingestion.IngressPassthrough (io_ing item));
         mret (model.mkModel (model.m_HTTP m) (model.m_TLS m ++ tls) (model.m_TCP m) (model.m_UDP m))
    else http ← lift (ingress_ingestion.Ingress (io_ing item) (rc_defaultSecretNamespace r)
                        (rc_defaultSecretName r) (rc_enforcedHTTPS r) insecureHTTPPort
                        secureHTTPPort (rc_defaultRequestTimeout r));
         mret (model.mkModel (model.m_HTTP m ++ http) (model.m_TLS m) (model.m_TCP m) (model.m_UDP m)).

Definition buildSharedResources : R DECObject :=
  items ← read (cl_List KIngress (λ _, true));
  m ← R_fold addSharedIngress (model.mkModel [] [] [] []) (sort_stable ingress_less items);
  dec ← lift (translation.Translate hops label (rc_sharedTranslator r) m);
  mret (mkDECObject dec ∅).

Definition createOrUpdateSharedResources : R unit :=
  dec ← buildSharedResources; createOrUpdateDolphinEnvoyConfig dec.

Definition tryCleanupSharedResources : R unit :=
  dec ← buildSharedResources; createOrUpdateDolphinEnvoyConfig dec.

(** ** Status *)

Definition tryCleanupIngressStatus (ing : IngressObject) : R unit :=
  write (cl_UpdateStatus KIngress (set_Status ing (Some []))).

Definition updateIngressLoadbalancerStatus (ing : IngressObject) : R unit :=
  let name := if isEffectiveLoadbalancerModeDedicated ing
              then dedicatedName (ingressKey (io_ing ing))
              else mkNamespacedName (rc_dolphinNamespace r) (rc_sharedLBServiceName r) in
  svc ← get_opt KService name;
  match svc with
  | None => mret tt
  | Some s => write (cl_UpdateStatus KIngress
                (set_Status ing (convertToNetworkV1IngressLoadBalancerIngress (so_Status s))))
  end.

(** ** Reconcile *)

Definition isNamespaceTerminating (e : error) : bool :=
  match e with Api (Forbidden true) => true | _ => false end.

(** Whether to go on with the status. *)
Definition reconcileMode (req : NamespacedName) (ing : IngressObject) : R bool :=
  if isEffectiveLoadbalancerModeDedicated ing then
    res ← attempt (createOrUpdateDedicatedResources ing);
    match res with
    | inr e => if isNamespaceTerminating e then mret false else fail e
    | inl _ => _ ← tryCleanupSharedResources; mret true
    end
  else
    _ ← createOrUpdateSharedResources;
    _ ← tryCleanupDedicatedResources req;
    mret true.

Definition Reconcile (req : NamespacedName) : R unit :=
  found ← get_opt KIngress req;
  match found with
  | None => tryCleanupSharedResources
  | Some ing =>
      if io_Deleted ing then mret tt
      else
        managed ← isdolphinManagedIngress ing;
        if negb managed then
          _ ← tryCleanupSharedResources;
          _ ← tryCleanupDedicatedResources req;
          _ ← attempt (tryCleanupIngressStatus ing);
          mret tt
        else
          go_on ← reconcileMode req ing;
          if (go_on : bool) then updateIngressLoadbalancerStatus ing else mret tt
  end.

End Reconcile.

(** ** Lemmas: merging without prefixes *)

Lemma mergeMap_nil src dst : mergeMap src dst [] = dst.
Proof.
  unfold mergeMap. destruct (decide _); [done|].
  assert (filter (λ kv : string * string, atLeastOnePrefixMatch kv.1 [] = true) src = ∅) as ->.
  { apply map_empty. intros k. apply map_lookup_filter_None_2. right. by intros v _. }
  by rewrite (left_id_L ∅ (∪)).
Qed.

(** ** Lemmas: what a run may change *)

Section Facts.
Context {client : Client} {laws : ClientLaws}.
Context {infra : Infra} {pb : Proto} {range : MapRange} {ann : Annotation}.
Context (hops : Z) (label : string) (r : ingressReconciler).

Definition shared_key : NamespacedName :=
  mkNamespacedName (t_namespace (rc_sharedTranslator r)) (t_name (rc_sharedTranslator r)).

(** The dedicated resources of a request, the shared configuration, and the
    Ingress itself. *)
Definition owned (req : NamespacedName) (k : Kind) (n : NamespacedName) : Prop :=
  match k with
  | KIngress => n = req
  | KService | KEndpoints => n = dedicatedName req
  | KDEC => n = dedicatedDECName req ∨ n = shared_key
  | _ => False
  end.

Lemma framed_managed F ing : framed F (isdolphinManagedIngress ing).
Proof.
  apply framed_bind; [apply framed_lift|]. intros c. repeat case_match; try apply framed_ret.
  apply framed_bind; [apply framed_attempt, framed_read|]. intros [?|?]; apply framed_ret.
Qed.

(** Looking at an Ingress of the list does not fail, but it may panic. *)
Lemma addSharedIngress_no_error m ing w :
  (∃ w' m', addSharedIngress r m ing w = Ok (w', inl m')) ∨ ∃ p, addSharedIngress r m ing w = Panic p.
Proof.
  assert (Hman : (∃ w' b, isdolphinManagedIngress ing w = Ok (w', inl b)) ∨
                 ∃ p, isdolphinManagedIngress ing w = Panic p).
  { unfold isdolphinManagedIngress. rewrite R_bind_eq. destruct (ingressClassName ing) as [c|]; cbn [lift deref].
    - left. repeat case_match; try by do 2 eexists.
      unfold isDolphinDefaultIngressController. rewrite R_bind_eq. unfold attempt, read.
      destruct (cl_Get _ _ _); by do 2 eexists.
    - right. by eexists. }
  unfold addSharedIngress. rewrite R_bind_eq.
  destruct Hman as [(w' & b & ->)|(p & ->)]; [|right; by exists p].
  destruct (_ || _); [left; by do 2 eexists|]. destruct (getSharedListenerPorts r) as [[? ip] sp].
  destruct (annotations.GetAnnotationTLSPassthroughEnabled _); rewrite R_bind_eq; unfold lift.
  - destruct (ingress_ingestion.IngressPassthrough _); [left; by do 2 eexists|right; by eexists].
  - destruct (ingress_ingestion.Ingress _ _ _ _ _ _ _); [left; by do 2 eexists|right; by eexists].
Qed.

Lemma framed_addShared F m ing : framed F (addSharedIngress r m ing).
Proof.
  apply framed_bind; [apply framed_managed|]. intros managed. destruct (_ || _); [apply framed_ret|].
  destruct (getSharedListenerPorts r) as [[? ip] sp].
  destruct (annotations.GetAnnotationTLSPassthroughEnabled _);
    (apply framed_bind; [apply framed_lift|intros; apply framed_ret]).
Qed.

Lemma framed_buildShared F : framed F (buildSharedResources hops label r).
Proof.
  apply framed_bind; [apply framed_read|]. intros items.
  apply framed_bind; [apply framed_fold; intros; apply framed_addShared|]. intros m.
  apply framed_bind; [apply framed_lift|]. intros dec. apply framed_ret.
Qed.

Lemma buildShared_key w w' dec :
  buildSharedResources hops label r w = Ok (w', inl dec) → key (k:=KDEC) dec = shared_key.
Proof.
  intros (items & w1 & _ & H)%R_bind_inl. apply R_bind_inl in H as (m & w2 & _ & H).
  apply R_bind_inl in H as (d & w3 & Hd & [= <- <-]). unfold lift in Hd.
  destruct (translation.Translate _ _ _ _) eqn:E; [|done]. injection Hd as -> ->.
  apply translation_facts.Translate_key in E as [E1 E2]. unfold shared_key. cbn. by rewrite E1, E2.
Qed.

Lemma framed_cleanupShared (F : Kind → NamespacedName → Prop) :
  F KDEC shared_key → framed F (tryCleanupSharedResources hops label r).
Proof using laws.
  intros HF. apply framed_bind_post with (λ dec, key (k:=KDEC) dec = shared_key).
  - apply framed_buildShared.
  - intros w w' dec. apply buildShared_key.
  - intros dec Hk. apply framed_CreateOrUpdate. by rewrite Hk.
Qed.

Lemma framed_tryDeleting (F : Kind → NamespacedName → Prop) k n :
  F k n → framed F (tryDeletingResource k n).
Proof using laws.
  intros HF. apply framed_bind; [apply framed_get_opt|]. intros [o|]; [by apply framed_Delete|apply framed_ret].
Qed.

Lemma framed_cleanupDedicated (F : Kind → NamespacedName → Prop) n :
  F KService (dedicatedName n) → F KEndpoints (dedicatedName n) → F KDEC (dedicatedDECName n) →
  framed F (tryCleanupDedicatedResources n).
Proof using laws.
  intros H1 H2 H3. apply framed_fold. intros _ i.
  destruct (dedicatedResources n !! i) as [[k name]|] eqn:E; [|apply framed_ret].
  apply framed_tryDeleting. unfold dedicatedResources in E.
  repeat (apply lookup_insert_Some in E as [[_ [= <- <-]]|[_ E]]; [done|]).
  by apply lookup_singleton_Some in E as [_ [= <- <-]].
Qed.

(** *** Dedicated resources *)

(** The desired objects of a dedicated Ingress, computed without the world. *)
Record desired_ok (ing : IngressObject) (dec : DECObject) (svc : ServiceObject)
    (ep : EndpointsObject) : Prop := {
  desired_dec : key (k:=KDEC) dec = dedicatedDECName (ingressKey (io_ing ing));
  desired_svc : key (k:=KService) svc = dedicatedName (ingressKey (io_ing ing));
  desired_ep : key (k:=KEndpoints) ep = dedicatedName (ingressKey (io_ing ing))
}.

Lemma buildDedicated_outcome ing :
  ingress_ingestion.service_ingress (io_ing ing) →
  ∃ res, (∀ w, buildDedicatedResources hops label r ing w = Ok (w, res)) ∧
    ∀ dec svc ep, res = inl (dec, svc, ep) → desired_ok ing dec svc ep.
Proof.
  intros (m & Hm & Hok)%(ingress.yields_dedicatedModel (rc_options r)).
  destruct (ingress.TranslateDedicated_ok hops label (rc_dedicatedTranslator r) _ m Hok)
    as [(_ & _ & Hres)|(_ & dec & Hdec & Hres)].
  - exists (inr (Msg "model source can't be empty")). split; [|done]. intros w.
    unfold buildDedicatedResources. rewrite Hm, R_bind_eq. cbn [lift]. rewrite R_bind_eq, Hres. done.
  - apply translation_facts.Translate_key in Hdec as [Hns _].
    destruct (cl_SetControllerReference KIngress ing (dec_OwnerReferences dec)) as [refs|e] eqn:Href.
    + eexists (inl _). split.
      * intros w. unfold buildDedicatedResources. rewrite Hm, R_bind_eq. cbn [lift].
        rewrite R_bind_eq, Hres. cbn [lift]. rewrite R_bind_eq. cbn [lift deref]. cbv beta iota.
        change (dec_OwnerReferences (ingress.set_Name dec _)) with (dec_OwnerReferences dec).
        rewrite Href. done.
      * intros ? ? ? [= <- <- <-]. split; cbn.
        -- unfold dedicatedDECName. cbn. by rewrite Hns.
        -- unfold propagateIngressAnnotationsAndLabels, ingress.getDedicatedService.
           destruct (ingress.serviceExposure _) as [[? ?] ?]. by case_match.
        -- done.
    + exists (inr (Msg e)). split; [|done]. intros w.
      unfold buildDedicatedResources. rewrite Hm, R_bind_eq. cbn [lift].
      rewrite R_bind_eq, Hres. cbn [lift]. rewrite R_bind_eq. cbn [lift deref]. cbv beta iota.
      change (dec_OwnerReferences (ingress.set_Name dec _)) with (dec_OwnerReferences dec).
      rewrite Href. done.
Qed.

Lemma framed_dedicated (F : Kind → NamespacedName → Prop) ing :
  ingress_ingestion.service_ingress (io_ing ing) →
  F KService (dedicatedName (ingressKey (io_ing ing))) →
  F KEndpoints (dedicatedName (ingressKey (io_ing ing))) →
  F KDEC (dedicatedDECName (ingressKey (io_ing ing))) →
  framed F (createOrUpdateDedicatedResources hops label r ing).
Proof using laws.
  intros Hv H1 H2 H3. destruct (buildDedicated_outcome ing Hv) as (res & Hrun & Hkeys).
  apply framed_bind_post with (λ t, desired_ok ing t.1.1 t.1.2 t.2).
  - intros w w' x. rewrite Hrun. intros [= <- <-]. apply frame_refl.
  - intros w w' [[dec svc] ep]. rewrite Hrun. intros [= _ ->]. cbn. by apply Hkeys.
  - intros [[dec svc] ep] [Hd Hs He]. cbn in Hd, Hs, He.
    apply framed_bind; [apply framed_CreateOrUpdate; cbn; by rewrite Hd|]. intros _.
    apply framed_bind; [apply framed_CreateOrUpdate; cbn; by rewrite Hs|]. intros _.
    apply framed_CreateOrUpdate. cbn. by rewrite He.
Qed.

Lemma framed_updateStatus (F : Kind → NamespacedName → Prop) ing :
  F KIngress (ingressKey (io_ing ing)) → framed F (updateIngressLoadbalancerStatus r ing).
Proof using laws.
  intros HF. apply framed_bind; [apply (framed_get_opt F KService)|].
  intros [s|]; [by apply framed_UpdateStatus|apply framed_ret].
Qed.

Lemma framed_mode req ing :
  ingress_ingestion.service_ingress (io_ing ing) → ingressKey (io_ing ing) = req →
  framed (owned req) (reconcileMode hops label r req ing).
Proof using laws.
  intros Hv <-. unfold reconcileMode. destruct (isEffectiveLoadbalancerModeDedicated r ing).
  - apply framed_bind; [apply framed_attempt, framed_dedicated; cbn; auto|]. intros [u|e].
    + apply framed_bind; [apply framed_cleanupShared; cbn; auto|]. intros _. apply framed_ret.
    + case_match; [apply framed_ret|apply framed_fail].
  - apply framed_bind; [apply framed_cleanupShared; cbn; auto|]. intros _.
    apply framed_bind; [apply framed_cleanupDedicated; cbn; auto|]. intros _. apply framed_ret.
Qed.

(** What a request may change, once the Ingress is known. *)
Lemma framed_found req ing :
  ingress_ingestion.service_ingress (io_ing ing) → ingressKey (io_ing ing) = req →
  framed (owned req)
    (managed ← isdolphinManagedIngress ing;
     if negb managed then
       _ ← tryCleanupSharedResources hops label r;
       _ ← tryCleanupDedicatedResources req;
       _ ← attempt (tryCleanupIngressStatus ing);
       mret tt
     else
       go_on ← reconcileMode hops label r req ing;
       if (go_on : bool) then updateIngressLoadbalancerStatus r ing else mret tt).
Proof using laws.
  intros Hv Hk. apply framed_bind; [apply framed_managed|]. intros managed. destruct (negb managed).
  - apply framed_bind; [apply framed_cleanupShared; cbn; auto|]. intros _.
    apply framed_bind; [apply framed_cleanupDedicated; cbn; auto|]. intros _.
    apply framed_bind; [apply framed_attempt, framed_UpdateStatus; by rewrite <-Hk|].
    intros _. apply framed_ret.
  - apply framed_bind; [by apply framed_mode|]. intros [].
    + apply framed_updateStatus. by rewrite <-Hk.
    + apply framed_ret.
Qed.

(** *** What a successful write leaves *)

Lemma write_CreateOrUpdate k (o : object k) f w w' :
  write (cl_CreateOrUpdate k o f) w = Ok (w', inl tt) →
  stored k w' (key o) = Some (f (default o (stored k w (key o)))) ∧ frame (only k (key o)) w w'.
Proof using laws.
  unfold write. destruct (cl_CreateOrUpdate k o f w) as [w1 [e|]] eqn:E; [done|]. intros [= <-].
  split; [by apply CreateOrUpdate_done|by eapply CreateOrUpdate_frame].
Qed.

Lemma key_default k (o : object k) w : key (default o (stored k w (key o))) = key o.
Proof using laws. destruct (stored k w (key o)) eqn:E; [by apply stored_key in E|done]. Qed.

Lemma mutateDEC_dec desired cur :
  key (k:=KDEC) cur = key (k:=KDEC) desired → do_dec (mutateDEC desired cur) = do_dec desired.
Proof.
  intros [= Hns Hn]. unfold mutateDEC. cbn. rewrite mergeMap_nil, Hn, Hns. by destruct (do_dec desired).
Qed.

Lemma mutateService_svc desired cur :
  key (k:=KService) cur = key (k:=KService) desired → so_svc (mutateService desired cur) = so_svc desired.
Proof.
  intros [= Hns Hn]. unfold mutateService. cbn. rewrite !mergeMap_nil, Hn, Hns. by destruct (so_svc desired).
Qed.

Lemma mutateEndpoints_ep desired cur :
  key (k:=KEndpoints) cur = key (k:=KEndpoints) desired →
  eo_ep (mutateEndpoints desired cur) = eo_ep desired.
Proof.
  intros [= Hns Hn]. unfold mutateEndpoints. cbn. rewrite !mergeMap_nil, Hn, Hns. by destruct (eo_ep desired).
Qed.

(** The three dedicated objects as desired; the load balancer class and the
    status of the Service, which others set, as they were. *)
Definition dedicated_stored (req : NamespacedName) (dec : DECObject) (svc : ServiceObject)
    (ep : EndpointsObject) (w w' : World) : Prop :=
  do_dec <$> stored KDEC w' (dedicatedDECName req) = Some (do_dec dec) ∧
  so_svc <$> stored KService w' (dedicatedName req) = Some (so_svc svc) ∧
  eo_ep <$> stored KEndpoints w' (dedicatedName req) = Some (eo_ep ep) ∧
  ∀ s, stored KService w (dedicatedName req) = Some s →
    ∃ s', stored KService w' (dedicatedName req) = Some s' ∧
      so_LoadBalancerClass s' = so_LoadBalancerClass s ∧ so_Status s' = so_Status s.

Lemma dedicated_stored_frame req dec svc ep w w1 w2 F :
  dedicated_stored req dec svc ep w w1 → frame F w1 w2 →
  ¬ F KDEC (dedicatedDECName req) → ¬ F KService (dedicatedName req) →
  ¬ F KEndpoints (dedicatedName req) → dedicated_stored req dec svc ep w w2.
Proof. unfold dedicated_stored. intros Hs HF H1 H2 H3. by rewrite !HF. Qed.

Lemma dedicated_success ing w w' :
  ingress_ingestion.service_ingress (io_ing ing) →
  createOrUpdateDedicatedResources hops label r ing w = Ok (w', inl tt) →
  ∃ dec svc ep, buildDedicatedResources hops label r ing w = Ok (w, inl (dec, svc, ep)) ∧
    dedicated_stored (ingressKey (io_ing ing)) dec svc ep w w'.
Proof using laws.
  intros Hv H. destruct (buildDedicated_outcome ing Hv) as (res & Hrun & Hkeys).
  apply R_bind_inl in H as ([[dec svc] ep] & w0 & H0 & H). rewrite Hrun in H0. injection H0 as -> ->.
  destruct (Hkeys dec svc ep eq_refl) as [Kd Ks Ke]. exists dec, svc, ep. split; [apply Hrun|].
  apply R_bind_inl in H as ([] & w1 & H1 & H). apply R_bind_inl in H as ([] & w2 & H2 & H3).
  apply write_CreateOrUpdate in H1 as [S1 F1], H2 as [S2 F2], H3 as [S3 F3].
  pose proof (key_default KDEC dec w0) as D1. pose proof (key_default KService svc w1) as D2.
  pose proof (key_default KEndpoints ep w2) as D3. rewrite ?Kd, ?Ks, ?Ke in *.
  assert (Hw1 : stored KService w1 (dedicatedName (ingressKey (io_ing ing))) =
                stored KService w0 (dedicatedName (ingressKey (io_ing ing)))) by (by apply F1; intros [? _]).
  assert (Hsvc : stored KService w' (dedicatedName (ingressKey (io_ing ing))) =
                 stored KService w2 (dedicatedName (ingressKey (io_ing ing)))) by (by apply F3; intros [? _]).
  split_and!.
  - rewrite (F3 KDEC), (F2 KDEC) by (by intros [? _]). rewrite S1. cbn. f_equal. apply mutateDEC_dec. etrans; [exact D1|by rewrite Kd].
  - rewrite Hsvc, S2. cbn. f_equal. apply mutateService_svc. etrans; [exact D2|by rewrite Ks].
  - rewrite S3. cbn. f_equal. apply mutateEndpoints_ep. etrans; [exact D3|by rewrite Ke].
  - intros s Hs. rewrite Hw1, Hs in S2. rewrite Hsvc, S2. by eexists.
Qed.

(** *** Deletions *)

Lemma tryDeleting_done k n w w' :
  tryDeletingResource k n w = Ok (w', inl tt) → stored k w' n = None ∧ frame (only k n) w w'.
Proof using laws.
  intros (o & w1 & H1 & H2)%R_bind_inl. unfold get_opt in H1.
  destruct (cl_Get k n w) as [o'|[]] eqn:E; try done; injection H1 as <- <-.
  - unfold write in H2. destruct (cl_Delete k n w) as [w2 [e|]] eqn:Ed; [done|]. injection H2 as <-.
    split; [by eapply Delete_done|by eapply Delete_frame].
  - injection H2 as <-. split; [by apply Get_NotFound|apply frame_refl].
Qed.

Lemma tryDeleting_keeps k n w w' k' n' :
  tryDeletingResource k n w = Ok (w', inl tt) → stored k' w n' = None → stored k' w' n' = None.
Proof using laws.
  intros [H1 H2]%tryDeleting_done Hn. destruct (decide (k' = k)) as [->|Hk].
  - destruct (decide (n' = n)) as [->|Hne]; [done|]. rewrite H2; [done|]. by intros [_ ?].
  - rewrite H2; [done|]. by intros [? _].
Qed.

Lemma cleanup_gone (res : gmap nat (Kind * NamespacedName)) l w w' :
  R_fold (λ _ i, match res !! i with
                 | Some (k, name) => tryDeletingResource k name
                 | None => mret tt
                 end) tt l w = Ok (w', inl tt) →
  (∀ k n, stored k w n = None → stored k w' n = None) ∧
  ∀ i k n, i ∈ l → res !! i = Some (k, n) → stored k w' n = None.
Proof using laws.
  revert w. induction l as [|j l IH]; intros w H; cbn [R_fold] in H.
  - injection H as <-. split; [done|]. intros i k n Hi. by apply elem_of_nil in Hi.
  - apply R_bind_inl in H as ([] & w1 & H1 & H2). destruct (IH w1 H2) as [Hkeep Hgone]. split.
    + intros k n Hn. apply Hkeep. destruct (res !! j) as [[k' n']|].
      * by eapply tryDeleting_keeps.
      * by injection H1 as <-.
    + intros i k n Hi Hr. apply elem_of_cons in Hi as [->|Hi]; [|by eapply Hgone].
      rewrite Hr in H1. apply tryDeleting_done in H1 as [H1 _]. by apply Hkeep.
Qed.

Lemma cleanupDedicated_gone req w w' :
  tryCleanupDedicatedResources req w = Ok (w', inl tt) →
  stored KService w' (dedicatedName req) = None ∧ stored KEndpoints w' (dedicatedName req) = None ∧
  stored KDEC w' (dedicatedDECName req) = None.
Proof using laws.
  intros [_ Hgone]%cleanup_gone.
  split_and!; [eapply (Hgone 0)|eapply (Hgone 1)|eapply (Hgone 2)]; try done;
    apply elem_of_map_keys; by eexists.
Qed.

(** *** Panics *)

(** Every stored Ingress is admitted, has only Services for backends, and names a
    class.  The API server demands neither of the last two. *)
Definition world_ok (w : World) : Prop :=
  ∀ n o, stored KIngress w n = Some o →
    ingress_ingestion.admitted_ingress (io_ing o) ∧ ingress_ingestion.service_backends (io_ing o) ∧
    is_Some (ingressClassName o).

Lemma world_ok_stored w n o :
  world_ok w → stored KIngress w n = Some o →
  ingress_ingestion.service_ingress (io_ing o) ∧ is_Some (ingressClassName o).
Proof.
  intros Hw Ho. destruct (Hw n o Ho) as (Ha & Hb & Hc). split; [|done]. by apply ingress_ingestion.service_ingress_iff.
Qed.

Lemma world_ok_frame F w w' :
  world_ok w → (∀ n, ¬ F KIngress n) → frame F w w' → world_ok w'.
Proof. intros Hw HF Hf n o. rewrite Hf by apply HF. apply Hw. Qed.

Lemma safe_managed I ing :
  is_Some (ingressClassName ing) → safe I (isdolphinManagedIngress ing).
Proof.
  intros [c Hc]. unfold isdolphinManagedIngress. rewrite Hc.
  apply safe_bind; [apply safe_lift; by eexists|]. intros x. repeat case_match; try apply safe_ret.
  apply safe_bind; [apply safe_attempt, safe_read|]. intros [?|?]; apply safe_ret.
Qed.

Lemma model_ok_app_HTTP m http :
  model.model_ok m → Forall (λ l, Forall model.route_ok (model.hl_Routes l)) http →
  model.model_ok (model.mkModel (model.m_HTTP m ++ http) (model.m_TLS m) (model.m_TCP m) (model.m_UDP m)).
Proof. intros [] ?. split; cbn; try done. by apply Forall_app. Qed.

Lemma model_ok_app_TLS m tls :
  model.model_ok m →
  Forall (λ l, Forall (λ r, Forall model.backend_ok (model.tr_Backends r)) (model.tl_Routes l)) tls →
  model.model_ok (model.mkModel (model.m_HTTP m) (model.m_TLS m ++ tls) (model.m_TCP m) (model.m_UDP m)).
Proof. intros [] ?. split; cbn; try done. by apply Forall_app. Qed.

Lemma addShared_ok m ing w :
  model.model_ok m → ingress_ingestion.service_ingress (io_ing ing) → is_Some (ingressClassName ing) →
  world_ok w →
  ∃ w' res, addSharedIngress r m ing w = Ok (w', res) ∧ world_ok w' ∧
    ∀ m', res = inl m' → model.model_ok m'.
Proof.
  intros Hm Hv Hc Hw. unfold addSharedIngress. rewrite R_bind_eq.
  destruct (safe_managed world_ok ing Hc w Hw) as (w1 & [managed|e] & -> & Hw1).
  2: { by do 2 eexists. }
  destruct (_ || _).
  { do 2 eexists. split; [done|]. split; [done|]. by intros ? [= <-]. }
  destruct (getSharedListenerPorts r) as [[? ip] sp].
  destruct (annotations.GetAnnotationTLSPassthroughEnabled _).
  - destruct (ingress_ingestion.yields_IngressPassthrough _ Hv) as (tls & Htls & _ & Hel).
    rewrite R_bind_eq, Htls. cbn [lift]. do 2 eexists. split; [done|]. split; [done|].
    intros ? [= <-]. apply model_ok_app_TLS; [done|]. apply Forall_forall. intros l Hl.
    by eapply ingress.passthroughOf_ok, Hel.
  - destruct (ingress_ingestion.yields_translatable (io_ing ing) (rc_defaultSecretNamespace r)
      (rc_defaultSecretName r) (rc_enforcedHTTPS r) ip sp (rc_defaultRequestTimeout r) Hv)
      as (http & Hhttp & Hall).
    rewrite R_bind_eq, Hhttp. cbn [lift]. do 2 eexists. split; [done|]. split; [done|].
    intros ? [= <-]. apply model_ok_app_HTTP; [done|]. eapply Forall_impl; [exact Hall|].
    by intros l (_ & _ & H3).
Qed.

Lemma safe_cleanupShared : safe world_ok (tryCleanupSharedResources hops label r).
Proof using laws.
  intros w Hw. unfold tryCleanupSharedResources, buildSharedResources. rewrite !R_bind_eq. unfold read.
  destruct (cl_List KIngress (λ _, true) w) as [items|e] eqn:El.
  2: { by do 2 eexists. }
  rewrite R_bind_eq.
  destruct (safe_fold world_ok model.model_ok (addSharedIngress r) (model.mkModel [] [] [] [])
    (sort_stable ingress_less items)) with w as (w1 & [m|e] & -> & Hw1 & Hm).
  - intros m o Ho%elem_of_sort_stable Hm w1 Hw1. destruct (world_ok_stored _ _ _ Hw (proj1 (proj1 (List_spec _ _ _ _ _ El) Ho))) as [Hv Hc].
    by apply addShared_ok.
  - by repeat constructor.
  - exact Hw.
  - rewrite R_bind_eq.
    destruct (translation_facts.yields_Translate hops label (rc_sharedTranslator r) m (Hm m eq_refl))
      as (dec & -> & _).
    cbn [lift]. apply safe_write; [|done]. intros w2 w3 e' Hw2 Hcu.
    eapply world_ok_frame; [exact Hw2| |by eapply CreateOrUpdate_frame]. by intros n [? _].
  - by do 2 eexists.
Qed.

Lemma safe_tryDeleting k n : k ≠ KIngress → safe world_ok (tryDeletingResource k n).
Proof using laws.
  intros Hk. apply safe_bind; [apply safe_get_opt|]. intros [o|]; [|apply safe_ret].
  apply safe_write. intros w w' e Hw Hd. eapply world_ok_frame; [exact Hw| |by eapply Delete_frame].
  by intros n' [? _].
Qed.

Lemma safe_cleanupDedicated req : safe world_ok (tryCleanupDedicatedResources req).
Proof using laws.
  intros w Hw. destruct (safe_fold world_ok (λ _ : unit, True) (λ _ i,
    match dedicatedResources req !! i with
    | Some (k, name) => tryDeletingResource k name
    | None => mret tt
    end) tt (map_keys (dedicatedResources req))) with w as (w' & x & Hrun & Hw' & _); [|done..|by do 2 eexists].
  intros [] j _ _ w1 Hw1. destruct (dedicatedResources req !! j) as [[k n]|] eqn:E.
  - destruct (safe_tryDeleting k n) with w1 as (w2 & y & -> & Hw2); [|done|by do 2 eexists].
    intros ->. unfold dedicatedResources in E.
    by repeat (apply lookup_insert_Some in E as [[_ ?]|[_ E]]; [done|]); apply lookup_singleton_Some in E as [_ ?].
  - by do 2 eexists.
Qed.

Lemma safe_UpdateStatus o : safe world_ok (write (cl_UpdateStatus KIngress o)).
Proof using laws.
  apply safe_write. intros w w' e Hw Hu n o' Ho'.
  destruct (decide (n = key (k:=KIngress) o)) as [->|Hne].
  - destruct (UpdateStatus_kept _ _ _ _ _ Hu) as [st Hst]. rewrite Hst in Ho'.
    destruct (stored KIngress w _) as [o0|] eqn:E; [|done]. injection Ho' as <-. exact (Hw _ _ E).
  - rewrite (UpdateStatus_frame _ _ _ _ _ Hu) in Ho'; [by eapply Hw|]. by intros [_ ?].
Qed.

Lemma safe_dedicated ing :
  ingress_ingestion.service_ingress (io_ing ing) →
  safe world_ok (createOrUpdateDedicatedResources hops label r ing).
Proof using laws.
  intros Hv. destruct (buildDedicated_outcome ing Hv) as (res & Hrun & _). apply safe_bind.
  - intros w Hw. rewrite Hrun. by do 2 eexists.
  - intros [[dec svc] ep].
    assert (Hcu : ∀ k (o : object k) f, k ≠ KIngress → safe world_ok (write (cl_CreateOrUpdate k o f))).
    { intros k o f Hk. apply safe_write. intros w w' e Hw Hc.
      eapply world_ok_frame; [exact Hw| |by eapply CreateOrUpdate_frame]. by intros n [? _]. }
    apply safe_bind; [by apply Hcu|]. intros _. apply safe_bind; [by apply Hcu|]. intros _. by apply Hcu.
Qed.

Lemma safe_found req ing :
  ingress_ingestion.service_ingress (io_ing ing) → is_Some (ingressClassName ing) →
  safe world_ok
    (managed ← isdolphinManagedIngress ing;
     if negb managed then
       _ ← tryCleanupSharedResources hops label r;
       _ ← tryCleanupDedicatedResources req;
       _ ← attempt (tryCleanupIngressStatus ing);
       mret tt
     else
       go_on ← reconcileMode hops label r req ing;
       if (go_on : bool) then updateIngressLoadbalancerStatus r ing else mret tt).
Proof using laws.
  intros Hv Hc. apply safe_bind; [by apply safe_managed|]. intros managed. destruct (negb managed).
  - apply safe_bind; [apply safe_cleanupShared|]. intros _.
    apply safe_bind; [apply safe_cleanupDedicated|]. intros _.
    apply safe_bind; [apply safe_attempt, safe_UpdateStatus|]. intros _. apply safe_ret.
  - apply safe_bind.
    + unfold reconcileMode. destruct (isEffectiveLoadbalancerModeDedicated r ing).
      * apply safe_bind; [by apply safe_attempt, safe_dedicated|]. intros [u|e].
        -- apply safe_bind; [apply safe_cleanupShared|]. intros _. apply safe_ret.
        -- case_match; [apply safe_ret|apply safe_fail].
      * apply safe_bind; [apply safe_cleanupShared|]. intros _.
        apply safe_bind; [apply safe_cleanupDedicated|]. intros _. apply safe_ret.
    + intros []; [|apply safe_ret]. apply safe_bind; [apply (safe_get_opt world_ok KService)|].
      intros [sv|]; [apply safe_UpdateStatus|apply safe_ret].
Qed.

End Facts.

(** ** Theorems *)

Section Theorems.
Context {client : Client} {laws : ClientLaws}.
Context {infra : Infra} {pb : Proto} {range : MapRange} {ann : Annotation}.
Context (hops : Z) (label : string) (r : ingressReconciler).

(** C15: when every stored Ingress is admitted, has only Services for backends and
    names a class (the API server demands neither of the last two), no reconcile run
    panics, whichever of its calls to the API server fail, and the run leaves a
    world of the same kind. *)
Theorem Reconcile_total req w :
  world_ok w → ∃ w' res, Reconcile hops label r req w = Ok (w', res) ∧ world_ok w'.
Proof using laws.
  intros Hw. unfold Reconcile. rewrite R_bind_eq. unfold get_opt.
  destruct (cl_Get KIngress req w) as [ing|[]] eqn:E; try by do 2 eexists.
  - apply Get_found in E. destruct (world_ok_stored _ _ _ Hw E) as [Hv Hc]. destruct (io_Deleted ing); [by do 2 eexists|].
    by apply safe_found.
  - by apply safe_cleanupShared.
Qed.

(** C16: a run changes nothing but the dedicated Service, Endpoints and Envoy
    configuration of its Ingress, the shared Envoy configuration, and the Ingress
    itself, also when it fails half way; the Ingress has only Services for
    backends. *)
Theorem Reconcile_frame req w w' res :
  (∀ o, stored KIngress w req = Some o → ingress_ingestion.service_ingress (io_ing o)) →
  Reconcile hops label r req w = Ok (w', res) →
  ∀ k n, ¬ owned r req k n → stored k w' n = stored k w n.
Proof using laws.
  intros Hv. unfold Reconcile. rewrite R_bind_eq. unfold get_opt.
  destruct (cl_Get KIngress req w) as [ing|[]] eqn:E; try by intros [= <- <-].
  - apply Get_found in E. destruct (io_Deleted ing); [by intros [= <- <-]|].
    intros Hrun. eapply framed_found; [by apply Hv|by apply stored_key in E|exact Hrun].
  - intros Hrun. eapply framed_cleanupShared; [cbn; by right|exact Hrun].
Qed.

(** C6: after a successful run for a managed Ingress in dedicated mode, the three
    dedicated objects are stored as the translator wants them, and the load
    balancer class and status that others set on the Service are kept; the one
    other way to succeed is that the namespace is being deleted. *)
Theorem Reconcile_dedicated req ing w w' :
  cl_Get KIngress req w = inl ing → ingress_ingestion.service_ingress (io_ing ing) →
  io_Deleted ing = false → ingressClassName ing = Some dolphinIngressClassName →
  isEffectiveLoadbalancerModeDedicated r ing = true → dedicatedDECName req ≠ shared_key r →
  Reconcile hops label r req w = Ok (w', inl tt) →
  (∃ dec svc ep, buildDedicatedResources hops label r ing w = Ok (w, inl (dec, svc, ep)) ∧
     dedicated_stored req dec svc ep w w') ∨
  ∃ w1, createOrUpdateDedicatedResources hops label r ing w = Ok (w1, inr (Api (Forbidden true))).
Proof using laws.
  intros Hget Hv Hdel Hcls Hmode Hne. unfold Reconcile. rewrite R_bind_eq. unfold get_opt.
  rewrite Hget, Hdel. unfold isdolphinManagedIngress. rewrite Hcls, !R_bind_eq. cbn [lift deref].
  rewrite String.eqb_refl. cbn [negb mret R_mret]. cbv beta iota.
  unfold reconcileMode. rewrite Hmode, !R_bind_eq. unfold attempt.
  pose proof (Get_found _ _ _ _ Hget) as Hkey%stored_key. cbn in Hkey. subst req.
  destruct (createOrUpdateDedicatedResources hops label r ing w) as [[w1 [[]|e]]|] eqn:E; [| |done].
  - intros H. left. destruct (dedicated_success hops label r ing w w1 Hv E) as (dec & svc & ep & Hb & Hs).
    exists dec, svc, ep. split; [exact Hb|]. rewrite R_bind_eq in H.
    destruct (tryCleanupSharedResources hops label r w1) as [[w2 [[]|e]]|] eqn:Es; [|done..].
    apply (dedicated_stored_frame _ _ _ _ _ w2 _ (only KIngress (ingressKey (io_ing ing)))).
    + apply (dedicated_stored_frame _ _ _ _ _ w1 _ (only KDEC (shared_key r))).
      * exact Hs.
      * by eapply framed_cleanupShared; [|exact Es].
      * by intros [_ ?].
      * by intros [? _].
      * by intros [? _].
    + by eapply framed_updateStatus; [|exact H].
    + by intros [? _].
    + by intros [? _].
    + by intros [? _].
  - destruct (isNamespaceTerminating e) eqn:Ht; [|done]. intros _. right. exists w1.
    by destruct e as [[|[]|]|].
Qed.

(** after a successful run for an Ingress of another class, its dedicated
    Service, Endpoints and Envoy configuration are gone. *)
Theorem Reconcile_unmanaged req ing c w w' :
  cl_Get KIngress req w = inl ing → io_Deleted ing = false →
  ingressClassName ing = Some c → c ≠ dolphinIngressClassName → c ≠ "" →
  Reconcile hops label r req w = Ok (w', inl tt) →
  stored KService w' (dedicatedName req) = None ∧ stored KEndpoints w' (dedicatedName req) = None ∧
  stored KDEC w' (dedicatedDECName req) = None.
Proof using laws.
  intros Hget Hdel Hcls Hc1 Hc2. unfold Reconcile. rewrite R_bind_eq. unfold get_opt.
  rewrite Hget, Hdel. unfold isdolphinManagedIngress. rewrite Hcls, !R_bind_eq. cbn [lift deref].
  rewrite (proj2 (String.eqb_neq _ _) Hc1), (proj2 (String.eqb_neq _ _) Hc2). cbn [negb].
  intros H. apply R_bind_inl in H as ([] & w1 & _ & H). apply R_bind_inl in H as ([] & w2 & H2 & H).
  apply R_bind_inl in H as (x & w3 & H3 & [= <-]).
  assert (Hf : frame (only KIngress (ingressKey (io_ing ing))) w2 w3).
  { eapply framed_attempt; [|exact H3]. by apply framed_UpdateStatus. }
  rewrite !Hf by (by intros [? _]). by eapply cleanupDedicated_gone.
Qed.

(** an Ingress without a class crashes the controller: the run for it panics,
    and so does the run for any Ingress that has been deleted, since it rebuilds
    the shared configuration from all Ingresses. *)
Theorem classless_Ingress_panics req ing w l :
  cl_List KIngress (λ _, true) w = inl l → ing ∈ l → ingressClassName ing = None → io_Deleted ing = false →
  (cl_Get KIngress req w = inl ing → Reconcile hops label r req w = Panic NilDeref) ∧
  (cl_Get KIngress req w = inr NotFound → ∃ p, Reconcile hops label r req w = Panic p).
Proof.
  intros Hl Hin Hcls Hdel. split; intros Hget; unfold Reconcile; rewrite R_bind_eq; unfold get_opt; rewrite Hget.
  - rewrite Hdel. unfold isdolphinManagedIngress. by rewrite Hcls, !R_bind_eq.
  - unfold tryCleanupSharedResources, buildSharedResources. rewrite !R_bind_eq. unfold read. rewrite Hl, R_bind_eq.
    assert (Hin' : ing ∈ sort_stable ingress_less l) by (by apply elem_of_sort_stable).
    generalize (model.mkModel [] [] [] []) as m. clear Hl Hget Hin. revert w.
    induction (sort_stable ingress_less l) as [|x l' IH]; intros w m; [by apply elem_of_nil in Hin'|].
    cbn [R_fold]. rewrite R_bind_eq. apply elem_of_cons in Hin' as [<-|Hin'].
    + unfold addSharedIngress, isdolphinManagedIngress. rewrite Hcls, !R_bind_eq. by exists NilDeref.
    + destruct (addSharedIngress_no_error r m x w) as [(w' & m' & ->)|(p & ->)]; [by apply IH|by exists p].
Qed.

End Theorems.

(** propagation goes the wrong way round.  With prefixes configured, a Service
    without annotations gets all the annotations of the Ingress, whatever their
    prefix, and on every label without a configured prefix it gets what the
    Ingress has: its own label [dolphin.io/ingress] is lost. *)
Theorem propagate_reversed r ing svc :
  rc_lbAnnotationPrefixes r ≠ [] → fs_Annotations svc = ∅ → fs_Labels svc ≠ ∅ →
  let svc' := propagateIngressAnnotationsAndLabels r ing svc in
  fs_Annotations svc' = networkingv1.ing_Annotations (io_ing ing) ∧
  ∀ k, atLeastOnePrefixMatch k (rc_lbAnnotationPrefixes r) = false →
    fs_Labels svc' !! k = io_Labels ing !! k.
Proof.
  intros Hp Ha Hl. cbv zeta. unfold propagateIngressAnnotationsAndLabels.
  destruct (rc_lbAnnotationPrefixes r) as [|x ps] eqn:E; [done|]. cbn [length Nat.ltb Nat.leb fs_Annotations fs_Labels].
  split.
  - unfold mergeMap. by rewrite decide_True.
  - intros k Hk. unfold mergeMap. rewrite decide_False by done. apply lookup_union_r.
    apply map_lookup_filter_None_2. right. intros v _ Hc. cbn [fst] in Hc. congruence.
Qed.

(** ** A concrete world *)

Definition ex_reconciler : ingressReconciler :=
  newIngressReconciler "dolphin" true false "secrets" ["lb."] "shared" "dedicated" "" "" 60.

Definition ex_object (class : option string) : IngressObject :=
  mkIngressObject ingress_ingestion.ex_ingress {[ "team" := "a" ]} class false None.

Definition ex_req : NamespacedName := mkNamespacedName "default" "web".

(** The Service already exists, with an address. *)
Definition ex_world (class : option string) : RefWorld :=
  add_object KIngress (ex_object class)
    (add_object KService
       (mkServiceObject (mkFrontService "dolphin-ingress-web" "default" ∅ ∅ [] "LoadBalancer" [])
          (Some "io.lb") (Some [mkLBI "10.0.0.1" "" None []])) []).

Abbreviation ex_run := (@Reconcile reference_client reference_infra reference_proto forward_range
  reference_annotation 0%Z "label" ex_reconciler ex_req).

Definition ex_after (class : option string) : RefWorld :=
  match ex_run (ex_world class) with Ok (w, _) => w | Panic _ => ex_world class end.

(** The address of the Service is copied to the status, and the labels of the
    Service are those of the Ingress. *)
Example ex_reconciled :
  io_Status <$> ref_stored KIngress (ex_after (Some "dolphin")) ex_req = Some (Some [mkILBI "10.0.0.1" "" []]) ∧
  (λ s, (fs_Labels (so_svc s), so_LoadBalancerClass s)) <$>
     ref_stored KService (ex_after (Some "dolphin")) (dedicatedName ex_req) =
  Some ({[ "team" := "a" ]}, Some "io.lb").
Proof. vm_compute. done. Qed.

Lemma ex_world_ok : @world_ok reference_client (ex_world (Some "dolphin")).
Proof.
  intros n o Ho. apply ref_stored_elem in Ho as [Ho _]. vm_compute in Ho.
  apply list_elem_of_singleton in Ho as ->.
  destruct (proj1 (ingress_ingestion.service_ingress_iff _) ingress_ingestion.ex_ingress_valid) as [Ha Hb].
  split_and!; [exact Ha|exact Hb|by eexists].
Qed.

Lemma Reconcile_total_witness :
  ∃ w' res, ex_run (ex_world (Some "dolphin")) = Ok (w', res) ∧ @world_ok reference_client w'.
Proof. apply (@Reconcile_total reference_client reference_client_laws). exact ex_world_ok. Defined.

Lemma Reconcile_frame_witness :
  ref_stored KIngressClass (ex_after (Some "dolphin")) (mkNamespacedName "" "dolphin") =
  ref_stored KIngressClass (ex_world (Some "dolphin")) (mkNamespacedName "" "dolphin").
Proof.
  apply (@Reconcile_frame reference_client reference_client_laws reference_infra reference_proto
    forward_range reference_annotation 0%Z "label" ex_reconciler ex_req _ _ (inl tt)).
  - intros o Ho. exact (proj1 (world_ok_stored _ _ _ ex_world_ok Ho)).
  - vm_compute. reflexivity.
  - intros H. exact H.
Defined.

Lemma Reconcile_dedicated_witness :
  (∃ dec svc ep,
     @buildDedicatedResources reference_client reference_infra reference_proto forward_range
       reference_annotation 0%Z "label" ex_reconciler (ex_object (Some "dolphin"))
       (ex_world (Some "dolphin")) = Ok (ex_world (Some "dolphin"), inl (dec, svc, ep)) ∧
     @dedicated_stored reference_client ex_req dec svc ep (ex_world (Some "dolphin"))
       (ex_after (Some "dolphin"))) ∨
  ∃ w1, @createOrUpdateDedicatedResources reference_client reference_infra reference_proto
    forward_range reference_annotation 0%Z "label" ex_reconciler (ex_object (Some "dolphin"))
    (ex_world (Some "dolphin")) = Ok (w1, inr (Api (Forbidden true))).
Proof.
  apply (@Reconcile_dedicated reference_client reference_client_laws); try (vm_compute; reflexivity).
  - exact ingress_ingestion.ex_ingress_valid.
  - vm_compute. discriminate.
Defined.

Lemma Reconcile_unmanaged_witness :
  ref_stored KService (ex_after (Some "nginx")) (dedicatedName ex_req) = None ∧
  ref_stored KEndpoints (ex_after (Some "nginx")) (dedicatedName ex_req) = None ∧
  ref_stored KDEC (ex_after (Some "nginx")) (dedicatedDECName ex_req) = None.
Proof.
  apply (@Reconcile_unmanaged reference_client reference_client_laws reference_infra reference_proto
    forward_range reference_annotation 0%Z "label" ex_reconciler ex_req (ex_object (Some "nginx"))
    "nginx" (ex_world (Some "nginx"))); try (vm_compute; reflexivity); discriminate.
Defined.

Lemma classless_Ingress_panics_witness :
  ex_run (ex_world None) = Panic NilDeref.
Proof.
  apply (@classless_Ingress_panics reference_client reference_infra reference_proto forward_range
    reference_annotation 0%Z "label" ex_reconciler ex_req (ex_object None) (ex_world None)
    [ex_object None]); try (vm_compute; reflexivity). left.
Defined.

Lemma propagate_reversed_witness :
  let svc' := propagateIngressAnnotationsAndLabels ex_reconciler (ex_object None)
    (mkFrontService "s" "default" {[ "dolphin.io/ingress" := "true" ]} ∅ [] "LoadBalancer" []) in
  fs_Annotations svc' = networkingv1.ing_Annotations ingress_ingestion.ex_ingress ∧
  ∀ k, atLeastOnePrefixMatch k ["lb."] = false →
    fs_Labels svc' !! k = ({[ "team" := "a" ]} : gmap string string) !! k.
Proof. apply propagate_reversed; discriminate || reflexivity. Defined.

End ingress_reconcile.
