(* ===== verification/Status.v ===== *)
(** * Status conditions of the Gateway API controllers

    [Module cmp]: [cmp.Equal] with the transition times of conditions ignored,
    as every reconciler compares an old status with a new one.  [Module status]:
    src/pkg/gateway_api/status.go and gateway_status.go, the conditions of
    Gateways, listeners and ListenerSets.  [Module certs]: the PEM checks of
    helpers/certs.go and gateway_api/helpers.go.

    The clock enters as a class: the conditions that one run sets carry one time.
    No decision depends on it. *)

From S2P Require Import Prelude GoStrings ApiTypes Helpers ApiServer.
Import k8s gatewayv1 api.

(** [time.Now()] during a run. *)
Class Clock := { now : Z }.

Module cmp.

(** [cmpopts.IgnoreFields(metav1.Condition{}, "LastTransitionTime")]: a condition
    with the field that is not compared cleared. *)
Definition untimed (c : Condition) : Condition :=
  mkCondition (cond_Type c) (cond_Status c) (cond_Reason c) (cond_Message c)
    (cond_ObservedGeneration c) 0.

(** Types of statuses that have conditions in them. *)
Class Untimed (S : Type) := { strip : S → S; strip_eq_dec :: EqDecision S }.

#[global] Instance untimed_listener : Untimed ListenerStatus :=
  {| strip := λ s, mkListenerStatus (lstat_Name s) (lstat_SupportedKinds s)
                     (untimed <$> lstat_Conditions s) (lstat_AttachedRoutes s) |}.
#[global] Instance untimed_gateway : Untimed GatewayStatus :=
  {| strip := λ s, mkGatewayStatus (gs_Addresses s) (untimed <$> gs_Conditions s)
                     (strip <$> gs_Listeners s) (gs_AttachedListenerSets s) |}.
#[global] Instance untimed_listenerset : Untimed ListenerSetStatus :=
  {| strip := λ s, mkListenerSetStatus (untimed <$> lss_Conditions s) (strip <$> lss_Listeners s) |}.
#[global] Instance untimed_parents : Untimed (list RouteParentStatus) :=
  {| strip := fmap (λ p, mkRouteParentStatus (rps_ParentRef p) (rps_ControllerName p)
                           (untimed <$> rps_Conditions p)) |}.
#[global] Instance untimed_ancestors : Untimed (list PolicyAncestorStatus) :=
  {| strip := fmap (λ p, mkPolicyAncestorStatus (pas_AncestorRef p) (pas_ControllerName p)
                           (untimed <$> pas_Conditions p)) |}.

Definition Equal {S} `{!Untimed S} (a b : S) : bool := bool_decide (strip a = strip b).

Lemma Equal_refl {S} `{!Untimed S} (a : S) : Equal a a = true.
Proof. by apply bool_decide_eq_true. Qed.

End cmp.

Module status.

Definition newCondition (conditionType status reason msg : string)
    (lastTransitionTime observedGeneration : Z) : Condition :=
  mkCondition conditionType status reason msg observedGeneration lastTransitionTime.

(** The same code as [helpers.MergeConditions] and [helpers.ConditionChanged]. *)
Definition merge (existingConditions updates : list Condition) : list Condition :=
  conditions.MergeConditions existingConditions updates.

Definition conditionChanged (a b : Condition) : bool := conditions.ConditionChanged a b.

Definition pruneRouteParentStatuses (parents : list RouteParentStatus)
    (currentParentRefs : list ParentReference) (controllerName : string) : list RouteParentStatus :=
  List.filter (λ parentStatus,
    negb (String.eqb (rps_ControllerName parentStatus) controllerName) ||
    existsb (λ ref, bool_decide (ref = rps_ParentRef parentStatus)) currentParentRefs) parents.

Section Clock.
Context {clock : Clock}.

Definition generation (gw : Gateway) : Z := om_Generation (gw_meta gw).

Definition gatewayStatusAcceptedCondition (gw : Gateway) (accepted : bool) (msg : string) : Condition :=
  if accepted
  then mkCondition ConditionAccepted ConditionTrue ConditionAccepted msg (generation gw) now
  else mkCondition ConditionAccepted ConditionFalse GatewayReasonNoResources msg (generation gw) now.

Definition with_Conditions (s : GatewayStatus) (conds : list Condition) : GatewayStatus :=
  mkGatewayStatus (gs_Addresses s) conds (gs_Listeners s) (gs_AttachedListenerSets s).

Definition setGatewayAccepted (gw : Gateway) (accepted : bool) (msg : string) : Gateway :=
  with_gw_Status gw (with_Conditions (gw_Status gw)
    (merge (gs_Conditions (gw_Status gw)) [gatewayStatusAcceptedCondition gw accepted msg])).

Definition gatewayListenerAcceptedCondition (gw : Gateway) (ready : bool) (msg : string) : Condition :=
  if ready
  then mkCondition ConditionAccepted ConditionTrue ConditionAccepted msg (generation gw) now
  else mkCondition ConditionAccepted ConditionFalse ReasonPending msg (generation gw) now.

Definition gwStsAcpCondition (gw : Gateway) (accepted : bool) (msg : string) : Condition :=
  if accepted
  then mkCondition ConditionAccepted ConditionTrue ReasonAccepted msg (generation gw) now
  else mkCondition ConditionAccepted ConditionFalse GatewayReasonNoResources msg (generation gw) now.

Definition listenerAcceptedCondition (generation : Z) (ready : bool) (reason msg : string) : Condition :=
  mkCondition ConditionAccepted (if ready then ConditionTrue else ConditionFalse) reason msg generation now.

Definition listenerProgrammedCondition (generation : Z) (ready : bool) (reason msg : string) : Condition :=
  mkCondition ConditionProgrammed (if ready then ConditionTrue else ConditionFalse) reason msg generation now.

Definition with_lss_Conditions (ls : ListenerSet) (conds : list Condition) : ListenerSet :=
  with_lst_Status ls (mkListenerSetStatus conds (lss_Listeners (lst_Status ls))).

Definition setListenerSetAccepted (ls : ListenerSet) (accepted : bool) (msg reason : string) : ListenerSet :=
  with_lss_Conditions ls (merge (lss_Conditions (lst_Status ls))
    [mkCondition ConditionAccepted (if accepted then ConditionTrue else ConditionFalse) reason msg
       (om_Generation (lst_meta ls)) now]).

Definition gwStsReadyCondition (gw : Gateway) (scheduled : bool) (msg : string) : Condition :=
  if scheduled
  then mkCondition ConditionReady ConditionTrue GatewayReasonReady msg (generation gw) now
  else mkCondition ConditionReady ConditionFalse GatewayReasonNoResources msg (generation gw) now.

Definition gwStsProgrmCondition (gw : Gateway) (ready : bool) (msg : string) : Condition :=
  if ready
  then mkCondition ConditionProgrammed ConditionTrue ReasonAccepted msg (generation gw) now
  else mkCondition ConditionProgrammed ConditionFalse GatewayReasonListenersNotReady msg (generation gw) now.

Definition setGatewayProgrammed (gw : Gateway) (ready : bool) (msg : string) : Gateway :=
  with_gw_Status gw (with_Conditions (gw_Status gw)
    (merge (gs_Conditions (gw_Status gw)) [gwStsProgrmCondition gw ready msg])).

Definition gatewayListenerInvalidRouteKinds (gw : Gateway) (msg : string) : Condition :=
  mkCondition ConditionResolvedRefs ConditionTrue ListenerReasonInvalidRouteKinds msg (generation gw) now.

Definition gatewayListenerProgrammedCondition (gw : Gateway) (ready : bool) (msg : string) : Condition :=
  if ready
  then mkCondition ConditionProgrammed ConditionTrue ConditionProgrammed msg (generation gw) now
  else mkCondition ConditionProgrammed ConditionFalse ReasonPending msg (generation gw) now.

Definition setListenerSetProgrammed (ls : ListenerSet) (programmed : bool) (msg reason : string) : ListenerSet :=
  with_lss_Conditions ls (merge (lss_Conditions (lst_Status ls))
    [mkCondition ConditionProgrammed (if programmed then ConditionTrue else ConditionFalse) reason msg
       (om_Generation (lst_meta ls)) now]).

End Clock.

(** ** Lemmas *)

(** The condition of a type that a list of conditions reports: the first one. *)
Definition find_cond (t : string) (conds : list Condition) : option Condition :=
  List.find (λ c, String.eqb (cond_Type c) t) conds.

Lemma find_cond_cons t c l :
  find_cond t (c :: l) = if String.eqb (cond_Type c) t then Some c else find_cond t l.
Proof. done. Qed.

#[global] Arguments find_cond : simpl never.

Lemma merge_existing_find l u t l' :
  conditions.merge_existing l u = Some l' →
  is_Some (find_cond (cond_Type u) l) ∧
  find_cond t l' = if String.eqb (cond_Type u) t
                   then (λ c, conditions.merge_one c u) <$> find_cond t l else find_cond t l.
Proof.
  revert l'. induction l as [|c l IH]; intros l' H; [done|]. cbn in H. rewrite !find_cond_cons.
  destruct (String.eqb_spec (cond_Type c) (cond_Type u)) as [E|E].
  - injection H as <-. split; [done|]. rewrite find_cond_cons, conditions.cond_Type_merge_one, E.
    by destruct (String.eqb _ _).
  - destruct (conditions.merge_existing l u) as [l1|]; [|done]. injection H as <-.
    destruct (IH _ eq_refl) as [H1 H2]. split; [done|]. rewrite find_cond_cons, H2.
    destruct (String.eqb_spec (cond_Type c) t) as [<-|]; [|done].
    rewrite (proj2 (String.eqb_neq _ _)); done.
Qed.

Lemma merge_existing_None_find l u :
  conditions.merge_existing l u = None → find_cond (cond_Type u) l = None.
Proof.
  induction l as [|c l IH]; [done|]. cbn. rewrite find_cond_cons. destruct (String.eqb _ _); [done|].
  destruct (conditions.merge_existing l u); [done|]. auto.
Qed.

Lemma find_cond_app t l1 l2 :
  find_cond t (l1 ++ l2) = match find_cond t l1 with Some c => Some c | None => find_cond t l2 end.
Proof. induction l1 as [|c l1 IH]; [done|]. cbn. rewrite !find_cond_cons. by destruct (String.eqb _ _). Qed.

(** Merging one update: the condition of its type is brought up to date, the
    others are kept. *)
Lemma find_merge_one t l u :
  find_cond t (merge l [u]) =
  if String.eqb (cond_Type u) t then Some (from_option (λ c, conditions.merge_one c u) u (find_cond t l))
  else find_cond t l.
Proof.
  unfold merge, conditions.MergeConditions. cbn.
  destruct (conditions.merge_existing l u) as [l'|] eqn:E; cbn.
  - destruct (merge_existing_find _ _ t _ E) as [[c Hc] H]. rewrite app_nil_r, H.
    destruct (String.eqb_spec (cond_Type u) t) as [<-|]; [by rewrite Hc|done].
  - rewrite find_cond_app. destruct (String.eqb_spec (cond_Type u) t) as [<-|Ht].
    + rewrite (merge_existing_None_find _ _ E), find_cond_cons. by rewrite String.eqb_refl.
    + destruct (find_cond t l); [done|]. rewrite find_cond_cons. by rewrite (proj2 (String.eqb_neq _ _)).
Qed.

(** A condition that reports the same as another one (the time aside). *)
Definition reports (c u : Condition) : Prop :=
  cond_Type c = cond_Type u ∧ conditions.ConditionChanged c u = false.

Lemma find_merge_reports l u :
  ∃ c, find_cond (cond_Type u) (merge l [u]) = Some c ∧ reports c u.
Proof.
  rewrite find_merge_one, String.eqb_refl. eexists. split; [done|].
  destruct (find_cond (cond_Type u) l) as [c|] eqn:E; cbn.
  - split; [|apply conditions.merge_one_settled]. rewrite conditions.cond_Type_merge_one.
    apply find_some in E as [_ E]. by apply String.eqb_eq.
  - split; [done|apply conditions.ConditionChanged_refl].
Qed.

Lemma find_merge_other l u t : t ≠ cond_Type u → find_cond t (merge l [u]) = find_cond t l.
Proof. intros Ht. rewrite find_merge_one. rewrite (proj2 (String.eqb_neq _ _)); done. Qed.

Lemma reports_Status c u : reports c u → cond_Status c = cond_Status u ∧ cond_Reason c = cond_Reason u ∧
  cond_Message c = cond_Message u ∧ cond_ObservedGeneration c = cond_ObservedGeneration u.
Proof.
  intros [_ H]. unfold conditions.ConditionChanged in H. rewrite !orb_false_iff, !negb_false_iff in H.
  destruct H as [[[H1 H2] H3] H4]. rewrite String.eqb_eq in H1, H2, H3. rewrite Z.eqb_eq in H4. done.
Qed.

End status.

Module certs.

(** [pem.Decode]: what follows the first PEM block, or no block. *)
Class Pem := { pem_Decode : string → option string }.

(** "The remainder of the input": what follows a block is shorter than the data. *)
Class PemLaws {pem : Pem} : Prop := {
  pem_Decode_rest : ∀ b rest, pem_Decode b = Some rest → len rest < len b
}.

Section Pem.
Context {pem : Pem}.

(** helpers/certs.go: one block is enough. *)
Definition IsValidPemFormat (b : string) : bool :=
  if Nat.eqb (len b) 0 then false
  else match pem_Decode b with
       | None => false
       | Some rest => if Nat.eqb (len rest) 0 then true else true
       end.

(** gateway_api/helpers.go: the whole of the data is blocks.  The recursion is
    cut off by fuel: no answer when it runs out. *)
Fixpoint isValidPemFormat_loop (fuel : nat) (b : string) : option bool :=
  match fuel with
  | O => None
  | S fuel =>
      if Nat.eqb (len b) 0 then Some false
      else match pem_Decode b with
           | None => Some false
           | Some rest => if Nat.eqb (len rest) 0 then Some true else isValidPemFormat_loop fuel rest
           end
  end.

Definition isValidPemFormat (b : string) : bool :=
  default false (isValidPemFormat_loop (S (len b)) b).

(** Data that is a sequence of one or more blocks. *)
Inductive blocks : string → Prop :=
| blocks_last b rest : pem_Decode b = Some rest → len rest = 0 → len b ≠ 0 → blocks b
| blocks_more b rest : pem_Decode b = Some rest → blocks rest → len b ≠ 0 → blocks b.

Context {laws : PemLaws}.

Lemma isValidPemFormat_loop_spec fuel b :
  len b < fuel → ∃ r, isValidPemFormat_loop fuel b = Some r ∧ (r = true ↔ blocks b).
Proof using laws.
  revert b. induction fuel as [|fuel IH]; intros b Hb; [lia|]. cbn.
  destruct (Nat.eqb_spec (len b) 0) as [E|E].
  { exists false. split; [done|]. split; [done|]. by inversion 1. }
  destruct (pem_Decode b) as [rest|] eqn:Ed.
  2: { exists false. split; [done|]. split; [done|]. inversion 1; congruence. }
  pose proof (pem_Decode_rest _ _ Ed). destruct (Nat.eqb_spec (len rest) 0) as [Er|Er].
  { exists true. split; [done|]. split; [|done]. intros _. by eapply blocks_last. }
  destruct (IH rest ltac:(lia)) as (r & -> & Hr). exists r. split; [done|]. rewrite Hr. split.
  - intros Hrest. by eapply blocks_more.
  - by inversion 1; simplify_eq.
Qed.

(** the recursion over the blocks of a certificate ends, with fuel for one
    turn per byte, and accepts exactly the data that is a sequence of PEM blocks;
    the check of CA certificates accepts all of that. *)
Theorem isValidPemFormat_terminates b :
  isValidPemFormat_loop (S (len b)) b = Some (isValidPemFormat b) ∧
  (isValidPemFormat b = true ↔ blocks b) ∧
  (isValidPemFormat b = true → IsValidPemFormat b = true).
Proof using laws.
  unfold isValidPemFormat. destruct (isValidPemFormat_loop_spec (S (len b)) b ltac:(lia)) as (r & E & Hr).
  rewrite E. cbn [default]. split_and!; [done|done|]. rewrite Hr. unfold IsValidPemFormat.
  intros Hb. destruct Hb as [? ? Ed _ Hl|? ? Ed _ Hl]; rewrite Ed, (proj2 (Nat.eqb_neq _ _)) by done;
    by destruct (Nat.eqb _ 0).
Qed.

End Pem.

(** A toy encoding for examples: every block is the same. *)
Definition toy_block : string := "-----END;".
Definition toy_pem : Pem := {| pem_Decode := λ b,
  if HasPrefix b toy_block then Some (TrimPrefix b toy_block) else None |}.

#[export] Instance toy_pem_laws : @PemLaws toy_pem.
Proof.
  split. intros b rest. cbn. destruct (HasPrefix b toy_block) eqn:E; [|done].
  apply HasPrefix_spec in E as [u ->]. rewrite TrimPrefix_app. intros [= <-]. rewrite len_app.
  unfold toy_block. cbn. lia.
Qed.

Lemma isValidPemFormat_terminates_witness :
  let b := toy_block +:+ toy_block in
  @isValidPemFormat_loop toy_pem (S (len b)) b = Some (@isValidPemFormat toy_pem b) ∧
  (@isValidPemFormat toy_pem b = true ↔ @blocks toy_pem b) ∧
  (@isValidPemFormat toy_pem b = true → @IsValidPemFormat toy_pem b = true).
Proof. apply (@isValidPemFormat_terminates toy_pem toy_pem_laws). Defined.

End certs.
