(* ===== verification/RouteChecker.v ===== *)
(** * Route checks (src/pkg/gateway_api/routechecker)

    The checks a route goes through before it is attached to a Gateway.  They are
    written against the interface [Input] of input.go: [Class Input] has its
    methods over the state of an implementation, [Class InputLaws] what the checks
    need of it.  A check reads the API server, changes the conditions that the
    input collects, and says whether the next check runs, or fails; it may panic.

    [Module routechecker]: input.go, conditions.go, hostnames.go, route_checks.go
    and gateway_checkers.go. *)

From S2P Require Import Prelude GoStrings ApiTypes Model Hostnames Helpers Translator FrontTranslators ApiServer Status.
Import k8s gatewayv1 api types namespaces referencegrants.

(** The text of an error that the API server returns for an object. *)
Class ApiErrorText := { ErrorText : Kind → NamespacedName → ApiError → string }.

(** The scheme of the client: which optional kinds it knows, and the annotation
    [mcsapicontrollers.DerivedServiceAnnotation]. *)
Class Scheme := {
  HasServiceImportSupport : bool;
  HasListenerSetSupport : bool;
  DerivedServiceAnnotation : string
}.

Module routechecker.

Definition controllerName : string := "io.dolphin/gateway-controller".

(** [fmt]'s %q, for names without special characters. *)
Definition quote (s : string) : string :=
  let q := String (Ascii.ascii_of_nat 34) "" in q +:+ s +:+ q.

Definition merge (existingConditions updates : list Condition) : list Condition :=
  conditions.MergeConditions existingConditions updates.
Definition conditionChanged (a b : Condition) : bool := conditions.ConditionChanged a b.

(** ** hostnames.go *)

Definition toStringSlice (s : list string) : list string := s.

Definition computeHostsForListener (listener : Listener) (hostnames : list string) : list string :=
  helper.ComputeHosts (toStringSlice hostnames) (l_Hostname listener).

Definition computeHosts (gw : Gateway) (hostnames : list string) : list string :=
  foldl (λ hosts listener, hosts ++ computeHostsForListener listener hostnames) [] (gw_Listeners gw).

Definition GetAllListenerHostNames (listeners : list Listener) : list string :=
  omap l_Hostname listeners.

(** ** input.go *)

Record ListenerOwner := mkListenerOwner { lo_Listeners : list Listener; lo_Namespace : string }.

(** A condition as the checks write it; the input fills in the rest. *)
Definition cond (type status reason message : string) : Condition :=
  mkCondition type status reason message 0 0.

Section Checks.
Context {client : Client} {errors : ApiErrorText} {scheme : Scheme} {selectors : LabelSelectors}.

(** The namespaces a selector selects; none if it does not parse. *)
Definition list_namespaces (selector : option LabelSelector) : World → list Namespace + ApiError :=
  cl_List KNamespace (λ ns, default false (selector_matches selector (om_Labels (ns_meta ns)))).

(** The rules of a route, as their backend references, and the rest of the
    interface.  A nil Gateway or ListenerOwner is [None]; of their errors the
    checks use the text. *)
Class Input (S : Type) := {
  GetRules : S → list (list BackendRef);
  GetNamespace : S → string;
  GetGVK : S → GroupVersionKind;
  GetGrants : S → list ReferenceGrant;
  GetGateway : ParentReference → World → S → S * (option Gateway + string);
  GetHostnames : S → list string;
  GetListenerOwner : ParentReference → World → S → S * (option ListenerOwner + string);
  GetValidProtocols : S → list string;
  SetParentCondition : ParentReference → Condition → S → S;
  SetAllParentCondition : Condition → S → S
}.

Definition ResolveListenerOwner (w : World) (parent : ParentReference) (defaultNamespace : string)
  : ListenerOwner + string :=
  let n := mkNamespacedName (NamespaceDerefOr (pr_Namespace parent) defaultNamespace) (pr_Name parent) in
  if IsListenerSet parent then
    match cl_Get KListenerSet n w with
    | inl ls => inl (mkListenerOwner (listenerset.ListenerEntryToListener <$> lst_Listeners ls)
                       (om_Namespace (lst_meta ls)))
    | inr NotFound => inr ("listenerset " +:+ quote (pr_Name parent) +:+ " does not exist: " +:+
                           ErrorText KListenerSet n NotFound)
    | inr e => inr ("error while getting listenerset: " +:+ ErrorText KListenerSet n e)
    end
  else
    match cl_Get KGateway n w with
    | inl gw => inl (mkListenerOwner (gw_Listeners gw) (om_Namespace (gw_meta gw)))
    | inr NotFound => inr ("gateway " +:+ quote (pr_Name parent) +:+ " does not exist: " +:+
                           ErrorText KGateway n NotFound)
    | inr e => inr ("error while getting gateway: " +:+ ErrorText KGateway n e)
    end.

(** A check: the new state of the input, and whether to continue, or an error. *)
Definition CheckRuleFunc (S : Type) : Type := World → S → go (S * (bool + error)).
Definition CheckGatewayFunc (S : Type) : Type := World → S → ParentReference → go (S * (bool + error)).

Section Input.
Context {S : Type} {input : Input S}.

(** ** route_checks.go *)

Definition refs (s : S) : list BackendRef := concat (GetRules s).

Definition notPermitted : Condition :=
  cond ConditionResolvedRefs ConditionFalse ReasonRefNotPermitted
    "Cross namespace references are not allowed".

Definition crossNamespace (s : S) (be : BackendRef) : bool :=
  let ns := NamespaceDerefOr (bor_Namespace (br_ref be)) (GetNamespace s) in
  negb (String.eqb ns (GetNamespace s)) &&
  negb (IsBackendReferenceAllowed (GetNamespace s) (br_ref be) (GetGVK s) (GetGrants s)).

Definition CheckAgainstCrossNamespaceBackendReferences : CheckRuleFunc S := λ w s,
  let '(s', continueChecks) :=
    foldl (λ st be, if crossNamespace st.1 be then (SetAllParentCondition notPermitted st.1, false) else st)
      (s, true) (refs s) in
  Ok (s', inl continueChecks).

(** The body of the loop of [CheckBackendIsService]. *)
Definition backendIsService (st : S * bool) (be : BackendRef) : go (S * bool) :=
  if negb (IsService (br_ref be)) then
    kind ← deref (bor_Kind (br_ref be));
    Ok (SetAllParentCondition (cond ConditionResolvedRefs ConditionFalse RouteReasonInvalidKind
          ("Unsupported backend kind " +:+ kind)) st.1, false)
  else match bor_Port (br_ref be) with
       | None => Ok (SetAllParentCondition (cond ConditionResolvedRefs ConditionFalse
                   RouteReasonInvalidKind "Must have port for Service reference") st.1, false)
       | Some _ => Ok st
       end.

Definition CheckBackendIsService : CheckRuleFunc S := λ w s,
  '(s', continueChecks) ← go_foldl backendIsService (s, true) (refs s);
  Ok (s', inl continueChecks).

Fixpoint existingServices (w : World) (s : S) (l : list BackendRef) : S * (bool + error) :=
  match l with
  | [] => (s, inl true)
  | be :: l' =>
      let n := mkNamespacedName (NamespaceDerefOr (bor_Namespace (br_ref be)) (GetNamespace s))
                 (bor_Name (br_ref be)) in
      match cl_Get KService n w with
      | inl _ => existingServices w s l'
      | inr NotFound =>
          existingServices w (SetAllParentCondition (cond ConditionResolvedRefs ConditionFalse
            RouteReasonBackendNotFound (ErrorText KService n NotFound)) s) l'
      | inr e => (s, inr (Api e))
      end
  end.

Definition CheckBackendIsExistingService : CheckRuleFunc S := λ w s,
  Ok (existingServices w s (refs s)).

(** The body of the loop of [CheckBackend]. *)
Definition backendKind (parentRef : ParentReference) (st : S * bool) (be : BackendRef) : go (S * bool) :=
  if negb (IsService (br_ref be)) && negb (IsServiceImport (br_ref be)) then
    kind ← deref (bor_Kind (br_ref be));
    Ok (SetParentCondition parentRef (cond ConditionResolvedRefs ConditionFalse RouteReasonInvalidKind
          ("Unsupported backend kind " +:+ kind)) st.1, false)
  else match bor_Port (br_ref be) with
       | None => Ok (SetParentCondition parentRef (cond ConditionResolvedRefs ConditionFalse
                   RouteReasonInvalidKind "Must have port for backend object reference") st.1, false)
       | Some _ => Ok st
       end.

Definition CheckBackend : CheckGatewayFunc S := λ w s parentRef,
  '(s', continueChecks) ← go_foldl (backendKind parentRef) (s, true) (refs s);
  Ok (s', inl continueChecks).

(** The first backend that is a ServiceImport decides. *)
Definition CheckHasServiceImportSupport : CheckGatewayFunc S := λ w s parentRef,
  if existsb (λ be, IsServiceImport (br_ref be)) (refs s)
  then if negb HasServiceImportSupport
       then Ok (SetParentCondition parentRef (cond ConditionResolvedRefs ConditionFalse
              RouteReasonBackendNotFound
              ("Attempt to reference a ServiceImport backend while " +:+
               "the corresponding CRD is not installed, " +:+
               "please restart the cilium-operator if the CRD is already installed")) s, inl false)
       else Ok (s, inl true)
  else Ok (s, inl true).

Definition checkBackendServicePort (svc : ServiceObject) (be : BackendRef) : option string :=
  match bor_Port (br_ref be) with
  | None => None
  | Some port =>
      if existsb (λ p, Z.eqb (sp_Port p) port) (fs_Ports (so_svc svc)) then None
      else Some ("Service port " +:+ Itoa port +:+ " could not be resolved for backend " +:+
                 fs_Namespace (so_svc svc) +:+ "/" +:+ fs_Name (so_svc svc))
  end.

Definition getServiceImport (w : World) (n : NamespacedName) : ServiceImport + string :=
  match cl_Get KServiceImport n w with inl si => inl si | inr e => inr (ErrorText KServiceImport n e) end.

Definition backendNotFound (message : string) : Condition :=
  cond ConditionResolvedRefs ConditionFalse RouteReasonBackendNotFound message.

Fixpoint existingServices_V2 (w : World) (parentRef : ParentReference) (s : S) (l : list BackendRef)
  : go (S * (bool + error)) :=
  match l with
  | [] => Ok (s, inl true)
  | be :: l' =>
      let ns := NamespaceDerefOr (bor_Namespace (br_ref be)) (GetNamespace s) in
      svcName ← GetBackendServiceName DerivedServiceAnnotation HasServiceImportSupport
                  (getServiceImport w) ns (br_ref be);
      match svcName with
      | inr err => existingServices_V2 w parentRef (SetParentCondition parentRef (backendNotFound err) s) l'
      | inl svcName =>
          let n := mkNamespacedName ns svcName in
          match cl_Get KService n w with
          | inr NotFound =>
              existingServices_V2 w parentRef
                (SetParentCondition parentRef (backendNotFound (ErrorText KService n NotFound)) s) l'
          | inr e => Ok (s, inr (Api e))
          | inl svc =>
              match checkBackendServicePort svc be with
              | Some err => existingServices_V2 w parentRef (SetParentCondition parentRef (backendNotFound err) s) l'
              | None => existingServices_V2 w parentRef s l'
              end
          end
      end
  end.

Definition CheckBackendIsExistingService_V2 : CheckGatewayFunc S := λ w s parentRef,
  existingServices_V2 w parentRef s (refs s).

Definition CheckAgainstCrossNamespaceBackendReferences_V2 : CheckGatewayFunc S := λ w s parentRef,
  let '(s', continueChecks) :=
    foldl (λ st be, if crossNamespace st.1 be
                    then (SetParentCondition parentRef notPermitted st.1, false) else st)
      (s, true) (refs s) in
  Ok (s', inl continueChecks).

(** ** gateway_checkers.go *)

Definition rejected (reason message : string) : Condition :=
  cond ConditionAccepted ConditionFalse reason message.

(** What every check does first: fetch the Gateway, and stop if that fails. *)
Definition with_gateway (w : World) (s : S) (parentRef : ParentReference)
    (k : S → option Gateway → go (S * (bool + error))) : go (S * (bool + error)) :=
  match GetGateway parentRef w s with
  | (s, inr err) =>
      Ok (SetParentCondition parentRef (rejected ("Invalid" +:+ gvk_Kind (GetGVK s)) err) s, inl false)
  | (s, inl gw) => k s gw
  end.

Definition kindAllowed (routeGVK : GroupVersionKind) (kind : RouteGroupKind) : bool :=
  nil_or (rgk_Group kind) (gvk_Group routeGVK) && String.eqb (rgk_Kind kind) (gvk_Kind routeGVK).

(** The listener restricts the kinds of routes, and to other ones. *)
Definition kindRestricted (routeGVK : GroupVersionKind) (listener : Listener) : bool :=
  match l_AllowedRoutes listener with
  | None => false
  | Some ar => negb (Nat.eqb (length (elems (ar_Kinds ar))) 0) &&
               negb (existsb (kindAllowed routeGVK) (elems (ar_Kinds ar)))
  end.

Definition CheckGatewayRouteKindAllowed : CheckGatewayFunc S := λ w s parentRef,
  with_gateway w s parentRef (λ s gw,
    gw ← deref gw;
    let routeGVK := GetGVK s in
    if existsb (kindRestricted routeGVK) (gw_Listeners gw)
    then Ok (SetParentCondition parentRef (rejected RouteReasonNotAllowedByListeners
           (gvk_Kind routeGVK +:+
            " is not allowed to attach to this Gateway due to route kind restrictions")) s, inl false)
    else Ok (s, inl true)).

Definition CheckGatewayMatchingPorts : CheckGatewayFunc S := λ w s parentRef,
  with_gateway w s parentRef (λ s gw,
    match pr_Port parentRef with
    | None => Ok (s, inl true)
    | Some port =>
        gw ← deref gw;
        if existsb (λ listener, Z.eqb (l_Port listener) port) (gw_Listeners gw) then Ok (s, inl true)
        else Ok (SetParentCondition parentRef (rejected "NoMatchingParent"
               ("No matching listener with port " +:+ Itoa port)) s, inl false)
    end).

Definition CheckGatewayMatchingHostnames : CheckGatewayFunc S := λ w s parentRef,
  with_gateway w s parentRef (λ s gw,
    gw ← deref gw;
    if Nat.eqb (length (computeHosts gw (GetHostnames s))) 0
    then Ok (SetParentCondition parentRef (rejected RouteReasonNoMatchingListenerHostname
           "No matching listener hostname") s, inl false)
    else Ok (s, inl true)).

Definition CheckGatewayMatchingSection : CheckGatewayFunc S := λ w s parentRef,
  with_gateway w s parentRef (λ s gw,
    match pr_SectionName parentRef with
    | None => Ok (s, inl true)
    | Some sectionName =>
        gw ← deref gw;
        if existsb (λ listener, String.eqb (l_Name listener) sectionName) (gw_Listeners gw)
        then Ok (s, inl true)
        else Ok (SetParentCondition parentRef (rejected "NoMatchingParent"
               ("No matching listener with sectionName " +:+ sectionName)) s, inl false)
    end).

(** The guards at the top of the loop of [CheckGatewayAllowedForNamespace]: the
    namespaces of a listener the reference is about. *)
Definition restricts (s : S) (parentRef : ParentReference) (listener : Listener)
  : option RouteNamespaces :=
  if negb (nil_or (pr_SectionName parentRef) (l_Name listener)) then None
  else if match pr_Port parentRef with
          | Some port => negb (Z.eqb (l_Port listener) port)
          | None => false
          end then None
  else if match l_Hostname listener with
          | Some _ => Nat.eqb (length (computeHostsForListener listener (GetHostnames s))) 0
          | None => false
          end then None
  else l_AllowedRoutes listener ≫= ar_Namespaces.

Fixpoint allowedForNamespace (w : World) (s : S) (parentRef : ParentReference) (gw : Gateway)
    (hasNamespaceRestriction : bool) (l : list Listener) : go (S * (bool + error)) :=
  match l with
  | [] =>
      Ok (if hasNamespaceRestriction
          then SetParentCondition parentRef (rejected RouteReasonNotAllowedByListeners
                 (gvk_Kind (GetGVK s) +:+
                  " is not allowed to attach to this Gateway due to namespace restrictions")) s
          else s, inl false)
  | listener :: l' =>
      match restricts s parentRef listener with
      | None => allowedForNamespace w s parentRef gw hasNamespaceRestriction l'
      | Some nss =>
          from ← deref (rn_From nss);
          if String.eqb from NamespacesFromAll then Ok (s, inl true)
          else if String.eqb from NamespacesFromSame then
            if String.eqb (GetNamespace s) (om_Namespace (gw_meta gw)) then Ok (s, inl true)
            else allowedForNamespace w s parentRef gw true l'
          else if String.eqb from NamespacesFromSelector then
            match list_namespaces (rn_Selector nss) w with
            | inr e => Ok (s, inr (Msg ("unable to list namespaces: " +:+
                                        ErrorText KNamespace (mkNamespacedName "" "") e)))
            | inl nsList =>
                if existsb (λ ns, String.eqb (om_Name (ns_meta ns)) (GetNamespace s)) nsList
                then Ok (s, inl true)
                else Ok (SetParentCondition parentRef (rejected RouteReasonNotAllowedByListeners
                       (gvk_Kind (GetGVK s) +:+
                        " is not allowed to attach to this Gateway due to namespace selector restrictions")) s,
                     inl false)
            end
          else allowedForNamespace w s parentRef gw true l'
      end
  end.

Definition CheckGatewayAllowedForNamespace : CheckGatewayFunc S := λ w s parentRef,
  with_gateway w s parentRef (λ s gw,
    gw ← deref gw; allowedForNamespace w s parentRef gw false (gw_Listeners gw)).

Definition CheckGatewayMatchingProtocol : CheckGatewayFunc S := λ w s parentRef,
  match GetListenerOwner parentRef w s with
  | (s, inr err) =>
      Ok (SetParentCondition parentRef (rejected ("Invalid" +:+ gvk_Kind (GetGVK s)) err) s, inl false)
  | (s, inl owner) =>
      owner ← deref owner;
      let routeProtocols := GetValidProtocols s in
      if existsb (λ listener, existsb (String.eqb (l_Protocol listener)) routeProtocols) (lo_Listeners owner)
      then Ok (s, inl true)
      else Ok (SetParentCondition parentRef (rejected RouteReasonNotAllowedByListeners
             ("No matching listener protocol; route requires one of: [" +:+
              Join routeProtocols " " +:+ "]")) s, inl false)
  end.

(** *** The first generation of the checks *)

(** The loop of [CheckGWAllowedFromNamespace].  In the branch where the selector
    does not select the namespace, [err] is nil and [err.Error()] panics. *)
Fixpoint gwAllowedFromNamespace (w : World) (s : S) (parentRef : ParentReference) (gw : Gateway)
    (hasNamespaceRestriction : bool) (l : list Listener) : go (S * (bool + error)) :=
  match l with
  | [] =>
      Ok (if hasNamespaceRestriction
          then SetParentCondition parentRef (cond "Acccepted" ConditionFalse
                 "Listeners namespaces are not allowed by the gateway" "hasnamespace restriction") s
          else s, inl true)
  | listener :: l' =>
      match l_AllowedRoutes listener ≫= ar_Namespaces with
      | None => gwAllowedFromNamespace w s parentRef gw hasNamespaceRestriction l'
      | Some nss =>
          sectionName ← deref (pr_SectionName parentRef);
          if negb (String.eqb (l_Name listener) sectionName)
          then gwAllowedFromNamespace w s parentRef gw hasNamespaceRestriction l'
          else if match l_Hostname listener with
                  | Some _ => negb (Nat.eqb (length (computeHostsForListener listener (GetHostnames s))) 0)
                  | None => false
                  end
          then gwAllowedFromNamespace w s parentRef gw hasNamespaceRestriction l'
          else
            from ← deref (rn_From nss);
            if String.eqb from NamespacesFromAll
            then gwAllowedFromNamespace w s parentRef gw hasNamespaceRestriction l'
            else if String.eqb from NamespacesFromSelector then
              match list_namespaces (rn_Selector nss) w with
              | inr e =>
                  Ok (SetParentCondition parentRef (rejected
                        "could not retreive any namespace using the selector"
                        (ErrorText KNamespace (mkNamespacedName "" "") e)) s, inr (Api e))
              | inl nsList =>
                  if existsb (λ ns, String.eqb (om_Name (ns_meta ns)) (GetNamespace s)) nsList
                  then Ok (s, inl true) else Panic NilDeref
              end
            else if String.eqb from NamespacesFromSame &&
                    String.eqb (GetNamespace s) (om_Namespace (gw_meta gw))
            then Ok (s, inl true)
            else gwAllowedFromNamespace w s parentRef gw true l'
      end
  end.

Definition CheckGWAllowedFromNamespace : CheckGatewayFunc S := λ w s parentRef,
  match GetGateway parentRef w s with
  | (s, inr err) => Ok (SetParentCondition parentRef (rejected "onvalid" err) s, inr (Msg err))
  | (s, inl gw) => gw ← deref gw; gwAllowedFromNamespace w s parentRef gw false (gw_Listeners gw)
  end.

Definition CheckGWMatchingPort : CheckGatewayFunc S := λ w s parentRef,
  match GetGateway parentRef w s with
  | (s, inr err) =>
      Ok (SetParentCondition parentRef (cond "Accepted" ConditionAccepted "parent does not match"
            "failed to get hte gatewy from theintput") s, inr (Msg err))
  | (s, inl gw) =>
      match pr_Port parentRef with
      | None => Ok (s, inl true)
      | Some port =>
          gw ← deref gw;
          if existsb (λ lis, Z.eqb (l_Port lis) port) (gw_Listeners gw) then Ok (s, inl true)
          else Ok (SetParentCondition parentRef (rejected "port does not match"
                 "non of the listener port matches the section port") s, inl false)
      end
  end.

Definition CheckGWMatchingSection : CheckGatewayFunc S := λ w s parentRef,
  match GetGateway parentRef w s with
  | (s, inr err) =>
      Ok (SetParentCondition parentRef (rejected "onvalid" "GVK kind is not the right one") s, inr (Msg err))
  | (s, inl gw) =>
      match pr_SectionName parentRef with
      | None => Ok (s, inl true)
      | Some sectionName =>
          gw ← deref gw;
          if existsb (λ lis, String.eqb (l_Name lis) sectionName) (gw_Listeners gw) then Ok (s, inl true)
          else Ok (SetParentCondition parentRef (cond "Invlid" ConditionFalse "name does not match"
                 "section name does not match any listener name") s, inl false)
      end
  end.

(** The loop over the checks in the reconcilers: up to the first one that stops
    or fails. *)
Fixpoint run_checks (w : World) (s : S) (parentRef : ParentReference) (fns : list (CheckGatewayFunc S))
  : go (S * option error) :=
  match fns with
  | [] => Ok (s, None)
  | fn :: fns' =>
      '(s', r) ← fn w s parentRef;
      match r with
      | inr err => Ok (s', Some err)
      | inl true => run_checks w s' parentRef fns'
      | inl false => Ok (s', None)
      end
  end.

(** The checks of the TLSRoute and GRPCRoute reconcilers, in their order. *)
Definition gatewayChecks : list (CheckGatewayFunc S) :=
  [CheckGatewayAllowedForNamespace; CheckGatewayRouteKindAllowed; CheckGatewayMatchingPorts;
   CheckGatewayMatchingHostnames; CheckGatewayMatchingSection].

End Input.
End Checks.

End routechecker.
