(* ===== verification/RouteCheckerFacts.v ===== *)
(** * What the route checks decide

    [Class InputLaws] says what the checks rely on in an implementation of
    [Input]; the theorems here are proved against it, and [RouteInputs] shows that
    the inputs of TLSRoutes and GRPCRoutes satisfy it.  [verdict] is the
    specification: why a route is rejected by a Gateway, if it is. *)

From S2P Require Import Prelude GoStrings ApiTypes Model Hostnames Helpers Translator FrontTranslators ApiServer Status RouteChecker.
Import k8s gatewayv1 api types namespaces referencegrants routechecker.

Module routechecker_facts.

(** A condition with the type, status, reason and message of another one. *)
Definition says (c' c : Condition) : Prop :=
  cond_Type c' = cond_Type c ∧ cond_Status c' = cond_Status c ∧
  cond_Reason c' = cond_Reason c ∧ cond_Message c' = cond_Message c.

Section Laws.
Context {client : Client} {errors : ApiErrorText} {scheme : Scheme} {selectors : LabelSelectors}.

(** What fetching the Gateway of a parent reference gives. *)
Definition gateway_result (w : World) (namespace : string) (parent : ParentReference)
  : option Gateway + string :=
  let n := mkNamespacedName (NamespaceDerefOr (pr_Namespace parent) namespace) (pr_Name parent) in
  match cl_Get KGateway n w with
  | inl gw => inl (Some gw)
  | inr NotFound => inr ("gateway " +:+ quote (pr_Name parent) +:+ " does not exist: " +:+
                         ErrorText KGateway n NotFound)
  | inr e => inr ("error while getting gateway: " +:+ ErrorText KGateway n e)
  end.

Section Input.
Context {S : Type} {input : Input S}.

(** The route behind two states is the same. *)
Definition same_input (s s' : S) : Prop :=
  GetRules s' = GetRules s ∧ GetNamespace s' = GetNamespace s ∧ GetGVK s' = GetGVK s ∧
  GetGrants s' = GetGrants s ∧ GetHostnames s' = GetHostnames s.

Class InputLaws := {
  (** The condition of a type that is collected for a parent; the route, with
      the parents that [SetAllParentCondition] is about. *)
  cond_of : S → ParentReference → string → option Condition;
  object_of : S → ObjectMeta * list ParentReference;
  (** What is cached of the API server is still true. *)
  coherent : World → S → Prop;
  SetParent_input : ∀ w s p c, coherent w s →
    same_input s (SetParentCondition p c s) ∧ coherent w (SetParentCondition p c s) ∧
    object_of (SetParentCondition p c s) = object_of s;
  SetParent_says : ∀ s p c, ∃ c', cond_of (SetParentCondition p c s) p (cond_Type c) = Some c' ∧ says c' c;
  SetParent_keeps : ∀ s p c p' t, (p', t) ≠ (p, cond_Type c) →
    cond_of (SetParentCondition p c s) p' t = cond_of s p' t;
  SetAll_input : ∀ w s c, coherent w s →
    same_input s (SetAllParentCondition c s) ∧ coherent w (SetAllParentCondition c s) ∧
    object_of (SetAllParentCondition c s) = object_of s;
  SetAll_says : ∀ s p c, p ∈ (object_of s).2 →
    ∃ c', cond_of (SetAllParentCondition c s) p (cond_Type c) = Some c' ∧ says c' c;
  SetAll_keeps : ∀ s c p t, p ∉ (object_of s).2 ∨ t ≠ cond_Type c →
    cond_of (SetAllParentCondition c s) p t = cond_of s p t;
  GetGateway_result : ∀ w s p, coherent w s →
    ∃ s', GetGateway p w s = (s', gateway_result w (GetNamespace s) p) ∧
      same_input s s' ∧ coherent w s' ∧ object_of s' = object_of s ∧
      ∀ p' t, cond_of s' p' t = cond_of s p' t
}.

Context {laws : InputLaws}.

(** ** The specification *)

(** The listeners that a parent reference is about: those of its section and port
    that have a host in common with the route. *)
Definition about_listener (s : S) (parent : ParentReference) (l : Listener) : Prop :=
  (pr_SectionName parent = None ∨ pr_SectionName parent = Some (l_Name l)) ∧
  (pr_Port parent = None ∨ pr_Port parent = Some (l_Port l)) ∧
  (l_Hostname l = None ∨ helper.hosts_meet (GetHostnames s) (l_Hostname l)).
#[export] Instance about_listener_dec s parent l : Decision (about_listener s parent l).
Proof. unfold about_listener. apply _. Defined.

(** Their namespace policies. *)
Definition restrictions (s : S) (gw : Gateway) (parent : ParentReference) : list RouteNamespaces :=
  omap (λ l, l_AllowedRoutes l ≫= ar_Namespaces) (filter (about_listener s parent) (gw_Listeners gw)).

(** What one policy says about a namespace; [None] leaves it to the next one. *)
Definition admits (w : World) (gwNamespace namespace : string) (nss : RouteNamespaces) : option bool :=
  match rn_From nss with
  | None => None
  | Some from =>
      if String.eqb from "All" then Some true
      else if String.eqb from "Same"
      then if String.eqb namespace gwNamespace then Some true else None
      else if String.eqb from "Selector"
      then Some (match cl_List KNamespace
                         (λ ns, default false (selector_matches (rn_Selector nss) (om_Labels (ns_meta ns)))) w with
                 | inl nsList => bool_decide (namespace ∈ (om_Name ∘ ns_meta <$> nsList))
                 | inr _ => false
                 end)
      else None
  end.

(** A listener that lists kinds of routes, and not this one. *)
Definition excludes_kind (gvk : GroupVersionKind) (l : Listener) : Prop :=
  match l_AllowedRoutes l with
  | None => False
  | Some ar =>
      elems (ar_Kinds ar) ≠ [] ∧
      Forall (λ k, ¬ (rgk_Kind k = gvk_Kind gvk ∧ (rgk_Group k = None ∨ rgk_Group k = Some (gvk_Group gvk))))
        (elems (ar_Kinds ar))
  end.
#[export] Instance excludes_kind_dec gvk l : Decision (excludes_kind gvk l).
Proof. unfold excludes_kind. destruct (l_AllowedRoutes l); apply _. Defined.

(** The checks after the one on namespaces. *)
Definition shape_verdict (s : S) (gw : Gateway) (parent : ParentReference) : option (string * string) :=
  if decide (Exists (excludes_kind (GetGVK s)) (gw_Listeners gw))
  then Some (RouteReasonNotAllowedByListeners, gvk_Kind (GetGVK s) +:+
               " is not allowed to attach to this Gateway due to route kind restrictions")
  else match pr_Port parent with
  | Some port =>
      if decide (Exists (λ l, l_Port l = port) (gw_Listeners gw)) then None
      else Some ("NoMatchingParent", "No matching listener with port " +:+ Itoa port)
  | None => None
  end.

Definition name_verdict (s : S) (gw : Gateway) (parent : ParentReference) : option (string * string) :=
  if decide (Exists (λ l, helper.hosts_meet (GetHostnames s) (l_Hostname l)) (gw_Listeners gw))
  then match pr_SectionName parent with
  | Some sec =>
      if decide (Exists (λ l, l_Name l = sec) (gw_Listeners gw)) then None
      else Some ("NoMatchingParent", "No matching listener with sectionName " +:+ sec)
  | None => None
  end
  else Some (RouteReasonNoMatchingListenerHostname, "No matching listener hostname").

(** Why the Gateway rejects the route (a reason and a message), if it does.  When
    no listener the reference is about has a namespace policy, nothing is decided. *)
Definition verdict (w : World) (s : S) (gw : Gateway) (parent : ParentReference)
  : option (string * string) :=
  match restrictions s gw parent with
  | [] => None
  | rs =>
      match head (omap (admits w (om_Namespace (gw_meta gw)) (GetNamespace s)) rs) with
      | None => Some (RouteReasonNotAllowedByListeners, gvk_Kind (GetGVK s) +:+
                        " is not allowed to attach to this Gateway due to namespace restrictions")
      | Some false => Some (RouteReasonNotAllowedByListeners, gvk_Kind (GetGVK s) +:+
                        " is not allowed to attach to this Gateway due to namespace selector restrictions")
      | Some true =>
          match shape_verdict s gw parent with
          | Some v => Some v
          | None => name_verdict s gw parent
          end
      end
  end.

(** ** Lemmas *)

(** The tests of the code decide the conditions of the specification. *)

Lemma restricts_about s parent l :
  restricts s parent l = if decide (about_listener s parent l) then l_AllowedRoutes l ≫= ar_Namespaces else None.
Proof.
  assert (Hs : nil_or (pr_SectionName parent) (l_Name l) = true ↔
    pr_SectionName parent = None ∨ pr_SectionName parent = Some (l_Name l)).
  { destruct (pr_SectionName parent) as [sec|]; cbn; [|by split; auto]. rewrite String.eqb_eq. naive_solver. }
  unfold restricts, about_listener. destruct (nil_or _ _); cbn [negb]; [|rewrite decide_False; naive_solver].
  assert (Hp : match pr_Port parent with Some port => negb (Z.eqb (l_Port l) port) | None => false end = false ↔
    pr_Port parent = None ∨ pr_Port parent = Some (l_Port l)).
  { destruct (pr_Port parent) as [port|]; [|by split; auto]. rewrite negb_false_iff, Z.eqb_eq. naive_solver. }
  destruct (match pr_Port parent with Some _ => _ | None => _ end); [rewrite decide_False; naive_solver|].
  assert (Hh : match l_Hostname l with
    | Some _ => Nat.eqb (length (computeHostsForListener l (GetHostnames s))) 0 | None => false end = false ↔
    l_Hostname l = None ∨ helper.hosts_meet (GetHostnames s) (l_Hostname l)).
  { rewrite <-helper.ComputeHosts_meet. unfold computeHostsForListener, toStringSlice.
    destruct (l_Hostname l) as [h|]; [|by split; auto]. rewrite Nat.eqb_neq.
    destruct (helper.ComputeHosts _ _); cbn; naive_solver. }
  destruct (match l_Hostname l with Some _ => _ | None => _ end); [rewrite decide_False; naive_solver|].
  rewrite decide_True; naive_solver.
Qed.

Lemma restrictions_eq s gw parent : restrictions s gw parent = omap (restricts s parent) (gw_Listeners gw).
Proof.
  unfold restrictions. induction (gw_Listeners gw) as [|l ls IH]; [done|]. cbn [omap list_omap].
  rewrite restricts_about, filter_cons. destruct (decide (about_listener s parent l)); cbn [omap list_omap]; by rewrite IH.
Qed.

Lemma existsb_decide {A} (f : A → bool) (P : A → Prop) {dec : ∀ x, Decision (P x)} l :
  (∀ x, f x = true ↔ P x) → existsb f l = bool_decide (Exists P l).
Proof.
  intros Hf. induction l as [|x l IH]; [done|]. cbn [existsb].
  rewrite (bool_decide_ext _ _ (Exists_cons _ _ _)), bool_decide_or, <-IH. f_equal.
  destruct (f x) eqn:E; symmetry; [by apply bool_decide_true, Hf|]. apply bool_decide_false. rewrite <-Hf. congruence.
Qed.

Lemma kindAllowed_iff gvk k :
  kindAllowed gvk k = true ↔ rgk_Kind k = gvk_Kind gvk ∧ (rgk_Group k = None ∨ rgk_Group k = Some (gvk_Group gvk)).
Proof.
  unfold kindAllowed. rewrite andb_true_iff, String.eqb_eq. unfold nil_or.
  destruct (rgk_Group k) as [g|]; [rewrite String.eqb_eq|]; naive_solver.
Qed.

Lemma kindRestricted_iff gvk l : kindRestricted gvk l = true ↔ excludes_kind gvk l.
Proof.
  unfold kindRestricted, excludes_kind. destruct (l_AllowedRoutes l) as [ar|]; [|done].
  rewrite andb_true_iff, !negb_true_iff, Nat.eqb_neq, Forall_forall. f_equiv.
  { destruct (elems (ar_Kinds ar)); cbn; naive_solver. }
  split.
  - intros E k Hk Ha%kindAllowed_iff. by rewrite (proj2 (existsb_elem _ _)) in E by eauto.
  - intros H. destruct (existsb _ _) eqn:E; [|done]. apply existsb_elem in E as (k & Hk & Ha%kindAllowed_iff).
    by destruct (H k Hk).
Qed.

Lemma computeHosts_bind gw hostnames :
  computeHosts gw hostnames = gw_Listeners gw ≫= λ l, helper.ComputeHosts hostnames (l_Hostname l).
Proof.
  unfold computeHosts. enough (∀ acc, foldl (λ hosts l, hosts ++ computeHostsForListener l hostnames) acc (gw_Listeners gw)
    = acc ++ (gw_Listeners gw ≫= λ l, helper.ComputeHosts hostnames (l_Hostname l))) as ->; [done|].
  induction (gw_Listeners gw) as [|l ls IH]; intros acc; cbn; [by rewrite app_nil_r|]. by rewrite IH, <-(assoc_L (++)).
Qed.

Lemma computeHosts_meet gw hostnames :
  Nat.eqb (length (computeHosts gw hostnames)) 0 =
  negb (bool_decide (Exists (λ l, helper.hosts_meet hostnames (l_Hostname l)) (gw_Listeners gw))).
Proof.
  rewrite computeHosts_bind. induction (gw_Listeners gw) as [|l ls IH]; [done|]. rewrite bind_cons, length_app.
  rewrite (bool_decide_ext _ _ (Exists_cons _ _ _)), bool_decide_or, negb_orb, <-IH.
  rewrite (bool_decide_ext _ _ (iff_sym (helper.ComputeHosts_meet _ _))).
  by destruct (helper.ComputeHosts hostnames (l_Hostname l)).
Qed.

Lemma shape_verdict_eq s gw parent :
  shape_verdict s gw parent =
  if existsb (kindRestricted (GetGVK s)) (gw_Listeners gw)
  then Some (RouteReasonNotAllowedByListeners, gvk_Kind (GetGVK s) +:+
               " is not allowed to attach to this Gateway due to route kind restrictions")
  else match pr_Port parent with
  | Some port =>
      if negb (existsb (λ l, Z.eqb (l_Port l) port) (gw_Listeners gw))
      then Some ("NoMatchingParent", "No matching listener with port " +:+ Itoa port) else None
  | None => None
  end.
Proof.
  unfold shape_verdict. rewrite (existsb_decide _ _ _ (kindRestricted_iff (GetGVK s))).
  case_decide as Hd; [by rewrite bool_decide_true|]. rewrite bool_decide_false by done.
  destruct (pr_Port parent) as [port|]; [|done].
  rewrite (existsb_decide _ (λ l, l_Port l = port)) by (intros; apply Z.eqb_eq). case_decide as H2.
  - by rewrite bool_decide_true.
  - by rewrite bool_decide_false.
Qed.

Lemma name_verdict_eq s gw parent :
  name_verdict s gw parent =
  if Nat.eqb (length (computeHosts gw (GetHostnames s))) 0
  then Some (RouteReasonNoMatchingListenerHostname, "No matching listener hostname")
  else match pr_SectionName parent with
  | Some sec =>
      if negb (existsb (λ l, String.eqb (l_Name l) sec) (gw_Listeners gw))
      then Some ("NoMatchingParent", "No matching listener with sectionName " +:+ sec) else None
  | None => None
  end.
Proof.
  unfold name_verdict. rewrite computeHosts_meet. case_decide as Hd.
  - rewrite bool_decide_true by done. cbn [negb]. destruct (pr_SectionName parent) as [sec|]; [|done].
    rewrite (existsb_decide _ (λ l, l_Name l = sec)) by (intros; apply String.eqb_eq). case_decide as H2.
    + by rewrite bool_decide_true.
    + by rewrite bool_decide_false.
  - by rewrite bool_decide_false.
Qed.

(** Steps that change nothing but the caches. *)
Definition idle (w : World) (s s' : S) : Prop :=
  same_input s s' ∧ coherent w s' ∧ object_of s' = object_of s ∧
  ∀ p t, cond_of s' p t = cond_of s p t.

Lemma same_input_refl s : same_input s s.
Proof. by unfold same_input. Qed.

Lemma same_input_trans s1 s2 s3 : same_input s1 s2 → same_input s2 s3 → same_input s1 s3.
Proof. unfold same_input. intros (?&?&?&?&?) (?&?&?&?&?). split_and!; congruence. Qed.

Lemma idle_refl w s : coherent w s → idle w s s.
Proof. intros. unfold idle. by split_and!. Qed.

Lemma idle_trans w s1 s2 s3 : idle w s1 s2 → idle w s2 s3 → idle w s1 s3.
Proof.
  intros (? & _ & E1 & H1) (? & ? & E2 & H2). unfold idle. split_and!;
    [by eapply same_input_trans|done|congruence|]. intros. by rewrite H2, H1.
Qed.

(** The outcome of a sequence of checks: the route is rejected for a reason, or
    nothing is reported. *)
Definition reported (w : World) (s s' : S) (p : ParentReference) (v : option (string * string)) : Prop :=
  same_input s s' ∧ coherent w s' ∧ object_of s' = object_of s ∧
  (∀ p' t, (p', t) ≠ (p, ConditionAccepted) → cond_of s' p' t = cond_of s p' t) ∧
  match v with
  | None => cond_of s' p ConditionAccepted = cond_of s p ConditionAccepted
  | Some (reason, message) =>
      ∃ c, cond_of s' p ConditionAccepted = Some c ∧ says c (rejected reason message)
  end.

Lemma reported_idle w s s' p : idle w s s' → reported w s s' p None.
Proof. intros (? & ? & ? & H). unfold reported. by split_and!; intros. Qed.

Lemma reported_reject w s s1 p reason message :
  idle w s s1 →
  reported w s (SetParentCondition p (rejected reason message) s1) p (Some (reason, message)).
Proof using laws.
  intros (Hin & Hc & Hp & H). destruct (SetParent_input w s1 p (rejected reason message) Hc) as (H1 & H2 & H3).
  unfold reported. split_and!; [by eapply same_input_trans|done|congruence| |].
  - intros p' t Ht. rewrite <-(H p' t). by apply SetParent_keeps.
  - apply (SetParent_says s1 p (rejected reason message)).
Qed.

Lemma reported_after w s s1 s' p v : idle w s s1 → reported w s1 s' p v → reported w s s' p v.
Proof.
  intros (Hin & Hc & Hp & H) (? & ? & ? & Hk & Hv). unfold reported. split_and!; [by eapply same_input_trans|done|congruence| |].
  - intros p' t Ht. by rewrite Hk, H.
  - destruct v as [[reason message]|]; [done|]. by rewrite Hv, H.
Qed.

Section Found.
Context (w : World) (p : ParentReference) (gw : Gateway).
Context (Hns : ∀ selector, ∃ nsList, list_namespaces selector w = inl nsList).

(** The Gateway is fetched. *)
Definition found (s : S) : Prop := gateway_result w (GetNamespace s) p = inl (Some gw).

Lemma with_gateway_found s k :
  coherent w s → found s → ∃ s', idle w s s' ∧ with_gateway w s p k = k s' (Some gw).
Proof using laws.
  intros Hc Hf. destruct (GetGateway_result w s p Hc) as (s' & E & H). exists s'. split; [done|].
  unfold with_gateway. by rewrite E, Hf.
Qed.

Lemma found_idle s s' : found s → idle w s s' → found s'.
Proof. unfold found. intros Hf (H & _). destruct H as (_ & -> & _). done. Qed.

Lemma idle_input s s' : idle w s s' → same_input s s'.
Proof. by intros (? & _). Qed.

Lemma shape_verdict_same s s' : same_input s s' → shape_verdict s' gw p = shape_verdict s gw p.
Proof. intros (_ & _ & E & _). rewrite !shape_verdict_eq. by rewrite E. Qed.

Lemma name_verdict_same s s' : same_input s s' → name_verdict s' gw p = name_verdict s gw p.
Proof. intros (_ & _ & _ & _ & E). rewrite !name_verdict_eq. by rewrite E. Qed.

(** A check that passes changes nothing; one that stops has reported. *)
Definition passes_or (fn : CheckGatewayFunc S) (v : S → option (string * string)) : Prop :=
  ∀ s, coherent w s → found s →
    ∃ s', reported w s s' p (v s) ∧
      fn w s p = Ok (s', inl (match v s with None => true | Some _ => false end)).

Lemma RouteKindAllowed_passes :
  passes_or CheckGatewayRouteKindAllowed (λ s,
    if existsb (kindRestricted (GetGVK s)) (gw_Listeners gw)
    then Some (RouteReasonNotAllowedByListeners, gvk_Kind (GetGVK s) +:+
                 " is not allowed to attach to this Gateway due to route kind restrictions")
    else None).
Proof using laws.
  intros s Hc Hf. unfold CheckGatewayRouteKindAllowed.
  edestruct (with_gateway_found s) as (s' & Hi & ->); [done..|]. cbn.
  destruct (idle_input _ _ Hi) as (_ & _ & -> & _).
  destruct (existsb _ _); eexists; (split; [|done]); [by apply reported_reject|by apply reported_idle].
Qed.

Lemma MatchingPorts_passes :
  passes_or CheckGatewayMatchingPorts (λ s,
    match pr_Port p with
    | Some port =>
        if negb (existsb (λ l, Z.eqb (l_Port l) port) (gw_Listeners gw))
        then Some ("NoMatchingParent", "No matching listener with port " +:+ Itoa port) else None
    | None => None
    end).
Proof using laws.
  intros s Hc Hf. unfold CheckGatewayMatchingPorts.
  edestruct (with_gateway_found s) as (s' & Hi & ->); [done..|]. cbn.
  destruct (pr_Port p) as [port|]; [destruct (existsb _ _)|]; eexists; (split; [|done]);
    [by apply reported_idle|by apply reported_reject|by apply reported_idle].
Qed.

Lemma MatchingHostnames_passes :
  passes_or CheckGatewayMatchingHostnames (λ s,
    if Nat.eqb (length (computeHosts gw (GetHostnames s))) 0
    then Some (RouteReasonNoMatchingListenerHostname, "No matching listener hostname") else None).
Proof using laws.
  intros s Hc Hf. unfold CheckGatewayMatchingHostnames.
  edestruct (with_gateway_found s) as (s' & Hi & ->); [done..|]. cbn.
  destruct (idle_input _ _ Hi) as (_ & _ & _ & _ & ->).
  destruct (Nat.eqb _ _); eexists; (split; [|done]); [by apply reported_reject|by apply reported_idle].
Qed.

Lemma MatchingSection_passes :
  passes_or CheckGatewayMatchingSection (λ s,
    match pr_SectionName p with
    | Some sec =>
        if negb (existsb (λ l, String.eqb (l_Name l) sec) (gw_Listeners gw))
        then Some ("NoMatchingParent", "No matching listener with sectionName " +:+ sec) else None
    | None => None
    end).
Proof using laws.
  intros s Hc Hf. unfold CheckGatewayMatchingSection.
  edestruct (with_gateway_found s) as (s' & Hi & ->); [done..|]. cbn.
  destruct (pr_SectionName p) as [sec|]; [destruct (existsb _ _)|]; eexists; (split; [|done]);
    [by apply reported_idle|by apply reported_reject|by apply reported_idle].
Qed.

(** Two checks in a row. *)
Lemma run_checks_cons fn fns v s :
  passes_or fn v → coherent w s → found s →
  match v s with
  | Some _ => ∃ s', reported w s s' p (v s) ∧ run_checks w s p (fn :: fns) = Ok (s', None)
  | None => ∃ s', idle w s s' ∧ run_checks w s p (fn :: fns) = run_checks w s' p fns
  end.
Proof.
  intros Hfn Hc Hf. destruct (Hfn s Hc Hf) as (s' & Hr & E). cbn. rewrite E. cbn.
  destruct (v s) as [[reason message]|]; exists s'; (split; [|done]); [done|].
  destruct Hr as (? & ? & ? & Hk & Hv). unfold idle. split_and!; try done. intros p' t.
  destruct (decide ((p', t) = (p, ConditionAccepted))) as [[= -> ->]|Hne]; [done|by apply Hk].
Qed.

Lemma later_checks s :
  coherent w s → found s →
  ∃ s', run_checks w s p (tail gatewayChecks) = Ok (s', None) ∧
    reported w s s' p (match shape_verdict s gw p with Some v => Some v | None => name_verdict s gw p end).
Proof using laws.
  intros Hc Hf. unfold gatewayChecks. cbn [tail].
  assert (Hnext : ∀ s1, idle w s s1 → coherent w s1 ∧ found s1).
  { intros s1 Hi. split; [by destruct Hi as (_ & ? & _)|by eapply found_idle]. }
  pose proof (run_checks_cons _ [CheckGatewayMatchingPorts; CheckGatewayMatchingHostnames;
    CheckGatewayMatchingSection] _ s RouteKindAllowed_passes Hc Hf) as H. cbv beta in H.
  rewrite shape_verdict_eq. destruct (existsb (kindRestricted _) _).
  { destruct H as (s' & ? & ?). eauto. }
  destruct H as (s1 & Hi1 & ->). destruct (Hnext _ Hi1) as [Hc1 Hf1].
  pose proof (run_checks_cons _ [CheckGatewayMatchingHostnames; CheckGatewayMatchingSection] _ s1
    MatchingPorts_passes Hc1 Hf1) as H. cbv beta in H.
  set (vp := match pr_Port p with Some _ => _ | None => None end) in *. destruct vp as [v|].
  { destruct H as (s' & Hr & ?). eexists. split; [done|]. by eapply reported_after. }
  destruct H as (s2 & Hi2 & ->). assert (Hi : idle w s s2) by by eapply idle_trans.
  destruct (Hnext _ Hi) as [Hc2 Hf2].
  pose proof (run_checks_cons _ [CheckGatewayMatchingSection] _ s2 MatchingHostnames_passes Hc2 Hf2) as H.
  cbv beta in H. rewrite <-(name_verdict_same s s2 (idle_input _ _ Hi)), name_verdict_eq.
  destruct (Nat.eqb _ 0).
  { destruct H as (s' & Hr & ?). eexists. split; [done|]. by eapply reported_after. }
  destruct H as (s3 & Hi3 & ->). assert (Hi' : idle w s s3) by by eapply idle_trans.
  destruct (Hnext _ Hi') as [Hc3 Hf3].
  pose proof (run_checks_cons _ [] _ s3 MatchingSection_passes Hc3 Hf3) as H. cbv beta in H.
  set (vs := match pr_SectionName p with Some _ => _ | None => None end) in *. destruct vs as [v|].
  { destruct H as (s' & Hr & ?). eexists. split; [done|]. by eapply reported_after. }
  destruct H as (s4 & Hi4 & ->). eexists. split; [done|]. apply reported_idle. by eapply idle_trans.
Qed.

Lemma namespace_listed namespace (nsList : list Namespace) :
  existsb (λ ns, String.eqb (om_Name (ns_meta ns)) namespace) nsList =
  bool_decide (namespace ∈ (om_Name ∘ ns_meta <$> nsList)).
Proof.
  rewrite (existsb_decide _ (λ ns, om_Name (ns_meta ns) = namespace)) by (intros; apply String.eqb_eq).
  apply bool_decide_ext. rewrite Exists_exists, list_elem_of_fmap. naive_solver.
Qed.

(** The loop over the listeners finds the first policy that decides. *)
Lemma allowedForNamespace_spec s l flag :
  coherent w s → (∀ nss, nss ∈ omap (restricts s p) l → is_Some (rn_From nss)) →
  ∃ s' b, allowedForNamespace w s p gw flag l = Ok (s', inl b) ∧
    match head (omap (admits w (om_Namespace (gw_meta gw)) (GetNamespace s)) (omap (restricts s p) l)) with
    | Some true => s' = s ∧ b = true
    | Some false => b = false ∧ reported w s s' p (Some (RouteReasonNotAllowedByListeners,
        gvk_Kind (GetGVK s) +:+ " is not allowed to attach to this Gateway due to namespace selector restrictions"))
    | None => b = false ∧ reported w s s' p
        (if flag || negb (Nat.eqb (length (omap (restricts s p) l)) 0)
         then Some (RouteReasonNotAllowedByListeners, gvk_Kind (GetGVK s) +:+
                " is not allowed to attach to this Gateway due to namespace restrictions")
         else None)
    end.
Proof using laws Hns.
  intros Hc. revert flag. induction l as [|li l IH]; intros flag Hfrom.
  { cbn. rewrite orb_false_r. do 2 eexists. split; [done|]. split; [done|].
    destruct flag; [by apply reported_reject, idle_refl|by apply reported_idle, idle_refl]. }
  cbn [allowedForNamespace]. cbn [omap list_omap] in *.
  destruct (restricts s p li) as [nss|] eqn:Er.
  2: { apply IH. intros nss Hn. apply Hfrom. exact Hn. }
  assert (Hrest : ∀ nss0, nss0 ∈ omap (restricts s p) l → is_Some (rn_From nss0)).
  { intros nss0 Hn. apply Hfrom. right. exact Hn. }
  destruct (Hfrom nss (list_elem_of_here _ _)) as [from Efrom].
  cbn [omap list_omap]. unfold admits at 1. rewrite Efrom. cbn [deref mbind go_mbind].
  unfold NamespacesFromAll, NamespacesFromSame, NamespacesFromSelector.
  destruct (String.eqb from "All"). { by do 2 eexists. }
  destruct (String.eqb from "Same").
  { destruct (String.eqb _ _); [by do 2 eexists|].
    destruct (IH true Hrest) as (s' & b & E & H). exists s', b. split; [done|].
    cbn [length negb Nat.eqb]. rewrite orb_true_r. exact H. }
  destruct (String.eqb from "Selector").
  { destruct (Hns (rn_Selector nss)) as [nsList Hl]. rewrite Hl. unfold list_namespaces in Hl. rewrite Hl.
    rewrite namespace_listed. destruct (bool_decide _); [by do 2 eexists|].
    do 2 eexists. split; [done|]. split; [done|]. by apply reported_reject, idle_refl. }
  destruct (IH true Hrest) as (s' & b & E & H). exists s', b. split; [done|].
  cbn [length negb Nat.eqb]. rewrite orb_true_r. exact H.
Qed.

Lemma restrictions_same s s' : same_input s s' → restrictions s' gw p = restrictions s gw p.
Proof.
  intros (_ & _ & _ & _ & E). rewrite !restrictions_eq.
  assert (Hr : ∀ li, restricts s' p li = restricts s p li) by (intros; unfold restricts; by rewrite E).
  induction (gw_Listeners gw) as [|li l IH]; [done|]. cbn. by rewrite Hr, IH.
Qed.

Lemma verdict_same s s' : same_input s s' → verdict w s' gw p = verdict w s gw p.
Proof.
  intros H. unfold verdict. rewrite (restrictions_same s s' H), (shape_verdict_same s s' H),
    (name_verdict_same s s' H). by destruct H as (_ & -> & -> & _).
Qed.

Lemma gateway_checks_reported s :
  coherent w s → found s →
  (∀ nss, nss ∈ restrictions s gw p → is_Some (rn_From nss)) →
  ∃ s', run_checks w s p gatewayChecks = Ok (s', None) ∧ reported w s s' p (verdict w s gw p).
Proof using laws Hns.
  intros Hc Hf Hfrom. unfold gatewayChecks. cbn [run_checks]. unfold CheckGatewayAllowedForNamespace.
  edestruct (with_gateway_found s) as (s1 & Hi & ->); [done..|]. cbn [deref mbind go_mbind].
  assert (Hc1 : coherent w s1) by by destruct Hi as (_ & ? & _).
  rewrite <-(verdict_same s s1 (idle_input _ _ Hi)).
  destruct (allowedForNamespace_spec s1 (gw_Listeners gw) false Hc1) as (s2 & b & E & H).
  { intros nss. rewrite <-restrictions_eq, (restrictions_same s s1 (idle_input _ _ Hi)). apply Hfrom. }
  rewrite E. cbn [mbind go_mbind]. unfold verdict. rewrite <-restrictions_eq in H.
  destruct (restrictions s1 gw p) as [|r rs]; [|destruct (head _) as [[]|]].
  - destruct H as [-> Hr]. exists s2. split; [done|]. by eapply reported_after.
  - destruct H as [-> ->]. destruct (later_checks s1 Hc1 (found_idle _ _ Hf Hi)) as (s' & Es & Hr).
    unfold gatewayChecks in Es. cbn [tail] in Es. exists s'. split; [exact Es|]. by eapply reported_after.
  - destruct H as [-> Hr]. exists s2. split; [done|]. by eapply reported_after.
  - destruct H as [-> Hr]. exists s2. split; [done|]. by eapply reported_after.
Qed.

(** C8: the five checks that a TLSRoute or GRPCRoute goes through implement the
    specification [verdict], whatever the kind of route.  When the Gateway of the
    reference is found, the lists of namespaces answer and the namespace policies
    of the listeners say from where, the checks do not panic, they set the Accepted
    condition of the parent to False exactly with the reason and message of the
    verdict, they leave the Accepted condition alone when there is none, and they
    change no other condition.  The verdict is stated on the Gateway and the route:
    the first namespace policy that decides, among the listeners of the section and
    port of the reference that share a host with the route, then the kinds the
    listeners list, the port, the hosts and the section. *)
Theorem gateway_checks_refine s :
  coherent w s → found s →
  (∀ nss, nss ∈ restrictions s gw p → is_Some (rn_From nss)) →
  ∃ s', run_checks w s p gatewayChecks = Ok (s', None) ∧ reported w s s' p (verdict w s gw p).
Proof using laws Hns. apply gateway_checks_reported. Qed.

End Found.

(** what an accepted route has, if a listener that its reference is about has
    a namespace policy: one of these policies admits its namespace, no listener
    excludes its kind, and the port, a hostname and the section of the reference
    exist. *)
Theorem verdict_accepts w s gw p :
  restrictions s gw p ≠ [] → verdict w s gw p = None →
  (∃ nss, nss ∈ restrictions s gw p ∧
     admits w (om_Namespace (gw_meta gw)) (GetNamespace s) nss = Some true) ∧
  (∀ l, l ∈ gw_Listeners gw → ¬ excludes_kind (GetGVK s) l) ∧
  (∀ port, pr_Port p = Some port → ∃ l, l ∈ gw_Listeners gw ∧ l_Port l = port) ∧
  (∃ l, l ∈ gw_Listeners gw ∧ helper.hosts_meet (GetHostnames s) (l_Hostname l)) ∧
  (∀ sec, pr_SectionName p = Some sec → ∃ l, l ∈ gw_Listeners gw ∧ l_Name l = sec).
Proof.
  intros Hr. unfold verdict. destruct (restrictions s gw p) as [|r rs]; [done|].
  destruct (head _) as [[]|] eqn:Eh; [|done..]. unfold shape_verdict, name_verdict.
  case_decide as Hk; [done|]. destruct (match pr_Port p with Some _ => _ | None => None end) eqn:Ep; [done|].
  case_decide as Hh; [|done]. intros Es. rewrite Exists_exists in Hk, Hh. split_and!; [|naive_solver| |done|].
  - apply head_Some_elem_of in Eh. apply list_elem_of_omap in Eh as (nss & ? & ?). eauto.
  - intros port Hport. rewrite Hport in Ep. case_decide as E; [|done]. by rewrite Exists_exists in E.
  - intros sec Hsec. rewrite Hsec in Es. case_decide as E; [|done]. by rewrite Exists_exists in E.
Qed.

(** a parent reference with a section name that no listener has is not
    rejected: the check on namespaces runs first, finds no listener to look at and
    stops the checks, so that the one on section names never runs. *)
Theorem unknown_section_not_rejected w s gw p sec :
  pr_SectionName p = Some sec → (∀ l, l ∈ gw_Listeners gw → l_Name l ≠ sec) →
  verdict w s gw p = None ∧ is_Some (name_verdict s gw p).
Proof.
  intros Hsec Hl.
  assert (Hr : filter (about_listener s p) (gw_Listeners gw) = []).
  { destruct (filter _ _) as [|l ls] eqn:E; [done|]. exfalso.
    assert (Hin : l ∈ filter (about_listener s p) (gw_Listeners gw)) by (rewrite E; left).
    apply list_elem_of_filter in Hin as [([?|?] & _) Hin]; [congruence|]. apply (Hl l Hin). congruence. }
  unfold verdict, restrictions. rewrite Hr. split; [done|]. unfold name_verdict. rewrite Hsec.
  case_decide; [|done]. rewrite decide_False; [done|]. rewrite Exists_exists. naive_solver.
Qed.

End Input.
End Laws.

End routechecker_facts.
