(* ===== verification/RouteInputs.v ===== *)
(** * The inputs of the route checks

    The five implementations of [routechecker.Input]: [Module routeinputs] has
    TLSRouteInput (routechecker/tlsroute.go), HTTPRouteInput (httproute.go),
    TCPRouteInput and UDPRouteInput (tcproute.go, udproute.go) and GRPCRouteInput
    (gateway_api/grpcroute.go), with the validators of HTTPRoutes.  Those of
    TLSRoutes and GRPCRoutes satisfy [InputLaws]; the other three have no
    [GetGateway].

    The caches are keyed by parent reference.  Go compares the pointers in such a
    key; an entry that is not found because of that is fetched again. *)

From S2P Require Import Prelude GoStrings ApiTypes Model Hostnames Helpers Translator FrontTranslators ApiServer Status RouteChecker RouteCheckerFacts.
Import k8s gatewayv1 api types namespaces referencegrants routechecker routechecker_facts.

(** [regexp.Compile]: the error, if the pattern is not valid. *)
Class Regexp := { regexp_Compile : string → option string }.

Module routeinputs.

(** ** Status of a route *)

(** [mergeStatusConditions]: the first entry for the parent is merged into, or a
    new one is added. *)
Fixpoint merge_parent (parents : list RouteParentStatus) (parentRef : ParentReference)
    (updates : list Condition) : option (list RouteParentStatus) :=
  match parents with
  | [] => None
  | parent :: rest =>
      if bool_decide (rps_ParentRef parent = parentRef)
      then Some (mkRouteParentStatus (rps_ParentRef parent) (rps_ControllerName parent)
                   (conditions.MergeConditions (rps_Conditions parent) updates) :: rest)
      else cons parent <$> merge_parent rest parentRef updates
  end.

Definition mergeStatusConditions {Rule} (controllerName : string) (r : Route Rule)
    (parentRef : ParentReference) (updates : list Condition) : Route Rule :=
  with_Parents r
    match merge_parent (rt_Parents r) parentRef updates with
    | Some parents => parents
    | None => rt_Parents r ++ [mkRouteParentStatus parentRef controllerName updates]
    end.

Section Inputs.
Context {client : Client} {errors : ApiErrorText} {clock : Clock} {regexp : Regexp}.

Definition fill {Rule} (r : Route Rule) (c : Condition) : Condition :=
  mkCondition (cond_Type c) (cond_Status c) (cond_Reason c) (cond_Message c)
    (om_Generation (rt_meta r)) now.

Definition SetParent {Rule} (controllerName : string) (ref : ParentReference) (c : Condition)
    (r : Route Rule) : Route Rule :=
  mergeStatusConditions controllerName r ref [fill r c].

(** The condition is filled in once, before the loop. *)
Definition SetAll {Rule} (controllerName : string) (c : Condition) (r : Route Rule) : Route Rule :=
  foldl (λ r' parent, mergeStatusConditions controllerName r' parent [fill r c]) r (rt_ParentRefs r).

(** *** Gateways, with their cache *)

Abbreviation gateway_cache := (list (ParentReference * Gateway)).

Definition cached (parent : ParentReference) (gateways : gateway_cache) : option Gateway :=
  snd <$> List.find (λ e, bool_decide (e.1 = parent)) gateways.

Definition fetchGateway (w : World) (namespace : string) (parent : ParentReference)
    (gateways : gateway_cache) : gateway_cache * (option Gateway + string) :=
  match cached parent gateways with
  | Some gw => (gateways, inl (Some gw))
  | None =>
      let n := mkNamespacedName (NamespaceDerefOr (pr_Namespace parent) namespace) (pr_Name parent) in
      match cl_Get KGateway n w with
      | inl gw => ((parent, gw) :: gateways, inl (Some gw))
      | inr NotFound => (gateways, inr ("gateway " +:+ quote (pr_Name parent) +:+ " does not exist: " +:+
                                        ErrorText KGateway n NotFound))
      | inr e => (gateways, inr ("error while getting gateway: " +:+ ErrorText KGateway n e))
      end
  end.

(** ** TLSRoutes *)

Record TLSRouteInput := mkTLSRouteInput {
  ti_Grants : list ReferenceGrant; ti_TLSRoute : TLSRoute; ti_gateways : gateway_cache }.

Definition on_TLSRoute (f : TLSRoute → TLSRoute) (t : TLSRouteInput) : TLSRouteInput :=
  mkTLSRouteInput (ti_Grants t) (f (ti_TLSRoute t)) (ti_gateways t).

#[export] Instance TLSRouteInput_Input : Input TLSRouteInput := {|
  GetRules t := l4_BackendRefs <$> rt_Rules (ti_TLSRoute t);
  GetNamespace t := om_Namespace (rt_meta (ti_TLSRoute t));
  GetGVK t := GatewayV1GVK "TLSRoute";
  GetGrants := ti_Grants;
  GetGateway parent w t :=
    let '(gateways, r) :=
      fetchGateway w (om_Namespace (rt_meta (ti_TLSRoute t))) parent (ti_gateways t) in
    (mkTLSRouteInput (ti_Grants t) (ti_TLSRoute t) gateways, r);
  GetHostnames t := rt_Hostnames (ti_TLSRoute t);
  GetListenerOwner parent w t := (t, inl None);
  GetValidProtocols t := [];
  SetParentCondition ref c := on_TLSRoute (SetParent routechecker.controllerName ref c);
  SetAllParentCondition c := on_TLSRoute (SetAll routechecker.controllerName c)
|}.

(** ** GRPCRoutes *)

Record GRPCRouteInput := mkGRPCRouteInput {
  gi_Grants : list ReferenceGrant; gi_GRPCRoute : GRPCRoute; gi_gateways : gateway_cache }.

Definition on_GRPCRoute (f : GRPCRoute → GRPCRoute) (g : GRPCRouteInput) : GRPCRouteInput :=
  mkGRPCRouteInput (gi_Grants g) (f (gi_GRPCRoute g)) (gi_gateways g).

(** [GRPCRouteRule.GetBackendRefs]: the backends, then the mirrors. *)
Definition grpc_GetBackendRefs (rule : GRPCRouteRule) : list BackendRef :=
  grr_BackendRefs rule ++
  omap (λ f, if String.eqb (rf_Type f) FilterRequestMirror
             then (λ be, mkBackendRef be None) <$> rf_RequestMirror f else None) (grr_Filters rule).

#[export] Instance GRPCRouteInput_Input : Input GRPCRouteInput := {|
  GetRules g := grpc_GetBackendRefs <$> rt_Rules (gi_GRPCRoute g);
  GetNamespace g := om_Namespace (rt_meta (gi_GRPCRoute g));
  GetGVK g := GatewayV1GVK "GRPCRoute";
  GetGrants := gi_Grants;
  GetGateway parent w g :=
    let '(gateways, r) :=
      fetchGateway w (om_Namespace (rt_meta (gi_GRPCRoute g))) parent (gi_gateways g) in
    (mkGRPCRouteInput (gi_Grants g) (gi_GRPCRoute g) gateways, r);
  GetHostnames g := rt_Hostnames (gi_GRPCRoute g);
  GetListenerOwner parent w g := (g, inl None);
  GetValidProtocols g := [];
  SetParentCondition ref c := on_GRPCRoute (SetParent routechecker.controllerName ref c);
  SetAllParentCondition c := on_GRPCRoute (SetAll routechecker.controllerName c)
|}.

(** ** HTTPRoutes *)

Record HTTPRouteInput := mkHTTPRouteInput {
  hi_Grants : list ReferenceGrant;
  hi_HTTPRoute : HTTPRoute;
  hi_ControllerName : string;
  hi_gateways : list (ParentReference * ListenerOwner);
  hi_gammaServices : list (ParentReference * ServiceObject)
}.

Definition on_HTTPRoute (f : HTTPRoute → HTTPRoute) (h : HTTPRouteInput) : HTTPRouteInput :=
  mkHTTPRouteInput (hi_Grants h) (f (hi_HTTPRoute h)) (hi_ControllerName h) (hi_gateways h)
    (hi_gammaServices h).

(** [HTTPRouteRule.GetBackendRefs]: the backends, then those of the mirror and
    authorization filters. *)
Definition http_GetBackendRefs (rule : HTTPRouteRule) : list BackendRef :=
  (hbr_BackendRef <$> hrr_BackendRefs rule) ++
  omap (λ f,
    if String.eqb (rf_Type f) FilterRequestMirror
    then (λ be, mkBackendRef be None) <$> rf_RequestMirror f
    else if String.eqb (rf_Type f) FilterExternalAuth
    then (λ be, mkBackendRef be None) <$> rf_ExternalAuth f else None) (hrr_Filters rule).

Definition http_GetListenerOwner (parent : ParentReference) (w : World) (h : HTTPRouteInput)
  : HTTPRouteInput * (option ListenerOwner + string) :=
  match List.find (λ e, bool_decide (e.1 = parent)) (hi_gateways h) with
  | Some e => (h, inl (Some e.2))
  | None =>
      match ResolveListenerOwner w parent (om_Namespace (rt_meta (hi_HTTPRoute h))) with
      | inr err => (h, inr err)
      | inl owner => (mkHTTPRouteInput (hi_Grants h) (hi_HTTPRoute h) (hi_ControllerName h)
                        ((parent, owner) :: hi_gateways h) (hi_gammaServices h), inl (Some owner))
      end
  end.

Definition http_GetParentGammaService (parent : ParentReference) (w : World) (h : HTTPRouteInput)
  : HTTPRouteInput * (ServiceObject + string) :=
  match List.find (λ e, bool_decide (e.1 = parent)) (hi_gammaServices h) with
  | Some e => (h, inl e.2)
  | None =>
      let n := mkNamespacedName
        (NamespaceDerefOr (pr_Namespace parent) (om_Namespace (rt_meta (hi_HTTPRoute h)))) (pr_Name parent) in
      match cl_Get KService n w with
      | inl s => (mkHTTPRouteInput (hi_Grants h) (hi_HTTPRoute h) (hi_ControllerName h) (hi_gateways h)
                    ((parent, s) :: hi_gammaServices h), inl s)
      | inr NotFound => (h, inr ("service " +:+ quote (pr_Name parent) +:+ " does not exist: " +:+
                                 ErrorText KService n NotFound))
      | inr e => (h, inr ("error while getting gateway: " +:+ ErrorText KService n e))
      end
  end.

#[export] Instance HTTPRouteInput_Input : Input HTTPRouteInput := {|
  GetRules h := http_GetBackendRefs <$> rt_Rules (hi_HTTPRoute h);
  GetNamespace h := om_Namespace (rt_meta (hi_HTTPRoute h));
  GetGVK h := GatewayV1GVK "HTTPRoute";
  GetGrants := hi_Grants;
  GetGateway parent w h := (h, inl None);
  GetHostnames h := rt_Hostnames (hi_HTTPRoute h);
  GetListenerOwner := http_GetListenerOwner;
  GetValidProtocols h := [HTTPProtocolType; HTTPSProtocolType];
  SetParentCondition ref c h := on_HTTPRoute (SetParent (hi_ControllerName h) ref c) h;
  SetAllParentCondition c h := h
|}.

Definition invalidHeaderModifierCondition (headerName : string) : Condition :=
  cond ConditionAccepted ConditionFalse ReasonUnsupportedValue
    ("Invalid header modifier: " +:+ quote headerName +:+ " header is not supported").

(** The headers that the request header modifiers of a rule set; a filter of that
    type without a modifier is a nil dereference. *)
Definition set_headers (f : RouteFilter) : go (list string) :=
  if String.eqb (rf_Type f) FilterRequestHeaderModifier
  then m ← deref (rf_RequestHeaderModifier f); Ok (hh_Name <$> hhf_Set m)
  else Ok [].

(** The first filter that sets the Host header ends the search, before a later
    filter is looked at. *)
Fixpoint header_modifier_loop (l : list RouteFilter) : go (option Condition) :=
  match l with
  | [] => Ok None
  | f :: l' =>
      names ← set_headers f;
      if existsb (λ n, String.eqb n "Host") names
      then Ok (Some (invalidHeaderModifierCondition "Host"))
      else header_modifier_loop l'
  end.

Definition ValidateHeaderModifier (h : HTTPRouteInput) : go (option Condition) :=
  header_modifier_loop (rt_Rules (hi_HTTPRoute h) ≫= hrr_Filters).

Definition invalidRegexCondition (field err : string) : Condition :=
  cond ConditionAccepted ConditionFalse ReasonUnsupportedValue
    ("Invalid regular expression in " +:+ field +:+ " match: " +:+ err).

(** The regular expressions of a match, with the name of their field. *)
Definition match_regexps (m : HTTPRouteMatch) : list (string * string) :=
  match hrm_Path m with
  | Some pathMatch =>
      match hpm_Type pathMatch, hpm_Value pathMatch with
      | Some t, Some v => if String.eqb t MatchRegularExpression then [("path", v)] else []
      | _, _ => []
      end
  | None => []
  end ++
  omap (λ v, if set_to (vm_Type v) MatchRegularExpression then Some ("header", vm_Value v) else None)
    (hrm_Headers m) ++
  omap (λ v, if set_to (vm_Type v) MatchRegularExpression then Some ("queryParam", vm_Value v) else None)
    (hrm_QueryParams m).

(** The first one that does not compile. *)
Definition ValidateMatchRegexps (h : HTTPRouteInput) : option Condition :=
  head (omap (λ '(field, v), invalidRegexCondition field <$> regexp_Compile v)
          ((rt_Rules (hi_HTTPRoute h) ≫= hrr_Matches) ≫= match_regexps)).

(** ** TCPRoutes and UDPRoutes *)

Record TCPRouteInput := mkTCPRouteInput {
  tci_Grants : list ReferenceGrant; tci_TCPRoute : TCPRoute; tci_ControllerName : string }.

#[export] Instance TCPRouteInput_Input : Input TCPRouteInput := {|
  GetRules t := l4_BackendRefs <$> rt_Rules (tci_TCPRoute t);
  GetNamespace t := om_Namespace (rt_meta (tci_TCPRoute t));
  GetGVK t := GatewayV1GVK "TCPRoute";
  GetGrants := tci_Grants;
  GetGateway parent w t := (t, inl None);
  GetHostnames t := [];
  GetListenerOwner parent w t := (t, inl None);
  GetValidProtocols t := [TCPProtocolType];
  SetParentCondition ref c t :=
    mkTCPRouteInput (tci_Grants t) (SetParent (tci_ControllerName t) ref c (tci_TCPRoute t)) (tci_ControllerName t);
  SetAllParentCondition c t := t
|}.

Record UDPRouteInput := mkUDPRouteInput {
  ui_Grants : list ReferenceGrant; ui_UDPRoute : UDPRoute; ui_ControllerName : string }.

#[export] Instance UDPRouteInput_Input : Input UDPRouteInput := {|
  GetRules u := l4_BackendRefs <$> rt_Rules (ui_UDPRoute u);
  GetNamespace u := om_Namespace (rt_meta (ui_UDPRoute u));
  GetGVK u := GatewayV1GVK "UDPRoute";
  GetGrants := ui_Grants;
  GetGateway parent w u := (u, inl None);
  GetHostnames u := [];
  GetListenerOwner parent w u := (u, inl None);
  GetValidProtocols u := [UDPProtocolType];
  SetParentCondition ref c u :=
    mkUDPRouteInput (ui_Grants u) (SetParent (ui_ControllerName u) ref c (ui_UDPRoute u)) (ui_ControllerName u);
  SetAllParentCondition c u := u
|}.

(** ** Lemmas *)

(** The condition of a type in the status for a parent. *)
Definition parent_cond (parents : list RouteParentStatus) (ref : ParentReference) (t : string)
  : option Condition :=
  List.find (λ e, bool_decide (rps_ParentRef e = ref)) parents ≫= λ e, status.find_cond t (rps_Conditions e).

Lemma merge_parent_None parents ref us :
  merge_parent parents ref us = None →
  List.find (λ e, bool_decide (rps_ParentRef e = ref)) parents = None.
Proof.
  induction parents as [|e l IH]; [done|]. cbn. case_bool_decide; [done|].
  destruct (merge_parent l ref us); [done|]. auto.
Qed.

Lemma merge_parent_Some parents ref us parents' p t :
  merge_parent parents ref us = Some parents' →
  parent_cond parents' p t =
  if decide (p = ref)
  then List.find (λ e, bool_decide (rps_ParentRef e = ref)) parents ≫= λ e,
         status.find_cond t (conditions.MergeConditions (rps_Conditions e) us)
  else parent_cond parents p t.
Proof.
  revert parents'. unfold parent_cond. induction parents as [|e l IH]; intros parents' H; [done|].
  cbn in H. case_bool_decide as He.
  - injection H as <-. cbn. rewrite He. case_decide as Hp.
    + by rewrite !bool_decide_true.
    + by rewrite !bool_decide_false by congruence.
  - destruct (merge_parent l ref us) as [l'|]; [|done]. injection H as <-. cbn.
    rewrite (bool_decide_false (rps_ParentRef e = ref)) by done.
    case_bool_decide as Hp; [|by apply IH]. rewrite decide_False by congruence. done.
Qed.

Lemma find_cond_singleton t c : status.find_cond t [c] = if String.eqb (cond_Type c) t then Some c else None.
Proof. done. Qed.

(** Merging one condition for one parent. *)
Lemma parent_cond_merge {Rule} ctrl (r : Route Rule) ref c p t :
  parent_cond (rt_Parents (mergeStatusConditions ctrl r ref [c])) p t =
  if decide ((p, t) = (ref, cond_Type c))
  then Some (from_option (λ c0, conditions.merge_one c0 c) c (parent_cond (rt_Parents r) ref t))
  else parent_cond (rt_Parents r) p t.
Proof.
  unfold mergeStatusConditions. cbn [rt_Parents with_Parents].
  destruct (merge_parent (rt_Parents r) ref [c]) as [parents'|] eqn:E.
  - rewrite (merge_parent_Some _ _ _ _ p t E). destruct (decide (p = ref)) as [->|Hp].
    + unfold parent_cond. assert (is_Some (List.find (λ e, bool_decide (rps_ParentRef e = ref)) (rt_Parents r))) as [e He].
      { clear t. revert parents' E. induction (rt_Parents r) as [|e l IH]; intros parents' E; [done|]. cbn in *.
        case_bool_decide; [done|]. destruct (merge_parent l ref [c]); [|done]. by eapply IH. }
      rewrite He. cbn. fold (status.merge (rps_Conditions e) [c]). rewrite status.find_merge_one.
      destruct (String.eqb_spec (cond_Type c) t) as [<-|Ht]; [by rewrite decide_True|].
      rewrite decide_False by congruence. done.
    + rewrite decide_False by congruence. done.
  - pose proof (merge_parent_None _ _ _ E) as Hn. unfold parent_cond.
    assert (Happ : ∀ q, List.find (λ e, bool_decide (rps_ParentRef e = q))
        (rt_Parents r ++ [mkRouteParentStatus ref ctrl [c]]) =
      match List.find (λ e, bool_decide (rps_ParentRef e = q)) (rt_Parents r) with
      | Some e => Some e
      | None => if bool_decide (ref = q) then Some (mkRouteParentStatus ref ctrl [c]) else None
      end).
    { intros q. clear. induction (rt_Parents r) as [|e l IH]; [done|]. cbn. destruct (bool_decide (rps_ParentRef e = q)); [done|apply IH]. }
    rewrite Happ. destruct (decide (p = ref)) as [->|Hp].
    + rewrite Hn, bool_decide_true by done. cbn. rewrite find_cond_singleton.
      destruct (String.eqb_spec (cond_Type c) t) as [<-|Ht]; [by rewrite decide_True|].
      rewrite decide_False by congruence. done.
    + rewrite (decide_False (P := (p, t) = _)) by congruence.
      rewrite (bool_decide_false (ref = p)) by congruence. by destruct (List.find (λ e, bool_decide (rps_ParentRef e = p)) (rt_Parents r)).
Qed.

Lemma parent_cond_type parents p t c : parent_cond parents p t = Some c → cond_Type c = t.
Proof.
  unfold parent_cond. destruct (List.find _ _) as [e|]; [|done]. cbn.
  by intros [_ ?%String.eqb_eq]%find_some.
Qed.

Lemma merged_says parents ref t c u :
  t = cond_Type c → says u c → cond_Type u = cond_Type c →
  says (from_option (λ c0, conditions.merge_one c0 u) u (parent_cond parents ref t)) c.
Proof.
  intros Ht Hu _. destruct (parent_cond parents ref t) as [c0|] eqn:E; [|done]. cbn.
  pose proof (parent_cond_type _ _ _ _ E) as Ht0. destruct Hu as (H1 & H2 & H3 & H4).
  destruct (status.reports_Status (conditions.merge_one c0 u) u) as (E1 & E2 & E3 & _).
  - split; [rewrite conditions.cond_Type_merge_one; congruence|apply conditions.merge_one_settled].
  - unfold says. rewrite conditions.cond_Type_merge_one, E1, E2, E3. split_and!; congruence.
Qed.

Lemma says_fill {Rule} (r : Route Rule) c : says (fill r c) c.
Proof. by unfold says. Qed.

Lemma SetParent_cond {Rule} ctrl ref c (r : Route Rule) :
  ∃ c', parent_cond (rt_Parents (SetParent ctrl ref c r)) ref (cond_Type c) = Some c' ∧ says c' c.
Proof.
  unfold SetParent. rewrite parent_cond_merge. cbn. rewrite decide_True by done. eexists. split; [done|].
  by apply merged_says.
Qed.

Lemma SetParent_other {Rule} ctrl ref c (r : Route Rule) p t :
  (p, t) ≠ (ref, cond_Type c) →
  parent_cond (rt_Parents (SetParent ctrl ref c r)) p t = parent_cond (rt_Parents r) p t.
Proof. intros H. unfold SetParent. rewrite parent_cond_merge. by rewrite decide_False. Qed.

(** The loop of [SetAllParentCondition]. *)
Lemma SetAll_loop {Rule} ctrl u (r : Route Rule) refs :
  let r' := foldl (λ r' parent, mergeStatusConditions ctrl r' parent [u]) r refs in
  (∀ p, p ∈ refs → ∃ c', parent_cond (rt_Parents r') p (cond_Type u) = Some c' ∧ says c' u) ∧
  (∀ p t, p ∉ refs ∨ t ≠ cond_Type u → parent_cond (rt_Parents r') p t = parent_cond (rt_Parents r) p t) ∧
  r' = with_Parents r (rt_Parents r').
Proof.
  induction refs as [|q refs IH] using rev_ind; cbn zeta.
  { split_and!; [by intros ? ?%elem_of_nil|done|by destruct r]. }
  rewrite foldl_app. cbn [foldl]. set (r1 := foldl _ r refs) in *. destruct IH as (IH1 & IH2 & IH3). split_and!.
  - intros p [Hp|Hp%list_elem_of_singleton]%elem_of_app; rewrite parent_cond_merge.
    + destruct (decide _) as [[= ->]|]; [|by apply IH1]. eexists. split; [done|]. by apply merged_says.
    + rewrite decide_True by congruence. eexists. split; [done|]. by apply merged_says.
  - intros p t Hpt. rewrite parent_cond_merge, decide_False.
    + apply IH2. destruct Hpt as [Hp|]; [left|by right]. intros ?. apply Hp, elem_of_app. by left.
    + intros [= -> ->]. destruct Hpt as [Hp|]; [|done]. apply Hp, elem_of_app. right. left.
  - unfold mergeStatusConditions. rewrite IH3. by destruct r.
Qed.

Lemma with_Parents_meta {Rule} (r : Route Rule) l : rt_meta (with_Parents r l) = rt_meta r.
Proof. done. Qed.

(** *** The laws of the inputs of TLSRoutes and GRPCRoutes *)

Definition cache_coherent (w : World) (namespace : string) (gateways : gateway_cache) : Prop :=
  ∀ p gw, cached p gateways = Some gw → gateway_result w namespace p = inl (Some gw).

Lemma fetchGateway_result w ns p gateways :
  cache_coherent w ns gateways →
  ∃ gateways', fetchGateway w ns p gateways = (gateways', gateway_result w ns p) ∧
    cache_coherent w ns gateways'.
Proof.
  intros Hc. unfold fetchGateway. destruct (cached p gateways) as [gw|] eqn:E.
  { exists gateways. by rewrite (Hc _ _ E). }
  unfold gateway_result at 1. destruct (cl_Get KGateway _ w) as [gw|e] eqn:Eg.
  2: { exists gateways. by destruct e. }
  eexists. split; [done|]. intros q gw'. unfold cached. cbn. case_bool_decide as Hq; [|apply Hc].
  cbn. intros [= <-]. unfold gateway_result. by rewrite <-Hq, Eg.
Qed.

#[export] Instance TLSRouteInput_laws : InputLaws (input := TLSRouteInput_Input).
Proof.
  unshelve econstructor.
  - exact (λ t, parent_cond (rt_Parents (ti_TLSRoute t))).
  - exact (λ t, (rt_meta (ti_TLSRoute t), rt_ParentRefs (ti_TLSRoute t))).
  - exact (λ w t, cache_coherent w (om_Namespace (rt_meta (ti_TLSRoute t))) (ti_gateways t)).
  - intros w s p c Hc. by unfold same_input.
  - intros s p c. apply SetParent_cond.
  - intros s p c p' t Ht. by apply SetParent_other.
  - intros w s c Hc.
    pose proof (proj2 (proj2 (SetAll_loop routechecker.controllerName (fill (ti_TLSRoute s) c) (ti_TLSRoute s)
      (rt_ParentRefs (ti_TLSRoute s))))) as E.
    unfold same_input. cbn. unfold SetAll. rewrite E. by split_and!.
  - intros s p c Hp. apply (SetAll_loop _ (fill (ti_TLSRoute s) c)). done.
  - intros s c p t Ht. by apply (SetAll_loop _ (fill (ti_TLSRoute s) c)).
  - intros w s p Hc. destruct (fetchGateway_result w _ p _ Hc) as (g & E & Hg). cbn in *. rewrite E.
    eexists. split; [done|]. by unfold same_input.
Defined.

#[export] Instance GRPCRouteInput_laws : InputLaws (input := GRPCRouteInput_Input).
Proof.
  unshelve econstructor.
  - exact (λ t, parent_cond (rt_Parents (gi_GRPCRoute t))).
  - exact (λ t, (rt_meta (gi_GRPCRoute t), rt_ParentRefs (gi_GRPCRoute t))).
  - exact (λ w t, cache_coherent w (om_Namespace (rt_meta (gi_GRPCRoute t))) (gi_gateways t)).
  - intros w s p c Hc. by unfold same_input.
  - intros s p c. apply SetParent_cond.
  - intros s p c p' t Ht. by apply SetParent_other.
  - intros w s c Hc.
    pose proof (proj2 (proj2 (SetAll_loop routechecker.controllerName (fill (gi_GRPCRoute s) c) (gi_GRPCRoute s)
      (rt_ParentRefs (gi_GRPCRoute s))))) as E.
    unfold same_input. cbn. unfold SetAll. rewrite E. by split_and!.
  - intros s p c Hp. apply (SetAll_loop _ (fill (gi_GRPCRoute s) c)). done.
  - intros s c p t Ht. by apply (SetAll_loop _ (fill (gi_GRPCRoute s) c)).
  - intros w s p Hc. destruct (fetchGateway_result w _ p _ Hc) as (g & E & Hg). cbn in *. rewrite E.
    eexists. split; [done|]. by unfold same_input.
Defined.

End Inputs.

End routeinputs.
