(* ===== verification/RouteControllers.v ===== *)
(** * The TLSRoute and GRPCRoute reconcilers

    [Module route_controllers]: gateway_api/tlsroute_reconcile.go and
    grpcroute_reconcile.go.  Both run the same checks over their own input and
    write the conditions these leave to the status of the route; they differ in
    what a failed backend check does. *)

From S2P Require Import Prelude GoStrings ApiTypes Model Hostnames Helpers Translator FrontTranslators ApiServer Status RouteChecker RouteCheckerFacts RouteInputs.
Import k8s gatewayv1 api types namespaces referencegrants routechecker routechecker_facts routeinputs.

Module route_controllers.

Section Controllers.
Context {client : Client} {errors : ApiErrorText} {scheme : Scheme} {selectors : LabelSelectors}.

Section Loops.
Context {S : Type} {input : Input S}.

Definition acceptedCondition (msg : string) : Condition :=
  cond ConditionAccepted ConditionTrue ReasonAccepted msg.
Definition resolvedCondition : Condition :=
  cond ConditionResolvedRefs ConditionTrue ReasonResolvedRefs "Service reference is valid".

(** The loop over the parent references: the conditions start as okay and are
    overwritten by the checks. *)
Fixpoint check_parents (w : World) (msg : string) (s : S) (parents : list ParentReference)
  : go (S * option error) :=
  match parents with
  | [] => Ok (s, None)
  | parent :: rest =>
      let s := SetParentCondition parent (acceptedCondition msg) s in
      let s := SetAllParentCondition resolvedCondition s in
      '(s, err) ← run_checks w s parent gatewayChecks;
      match err with
      | Some err => Ok (s, Some err)
      | None => check_parents w msg s rest
      end
  end.

(** The loop over the checks of the rules: it stops at the first one that fails
    ([inr]) or finds something ([inl false]). *)
Fixpoint check_rules (w : World) (s : S) (fns : list (CheckRuleFunc S)) : go (S * (bool + error)) :=
  match fns with
  | [] => Ok (s, inl true)
  | fn :: fns' =>
      '(s, r) ← fn w s;
      match r with
      | inl true => check_rules w s fns'
      | r => Ok (s, r)
      end
  end.

Definition ruleChecks : list (CheckRuleFunc S) :=
  [CheckAgainstCrossNamespaceBackendReferences; CheckBackendIsService; CheckBackendIsExistingService].

End Loops.

(** ** Status updates *)

Section Update.
Context {Rule : Type} (k : Kind) (as_object : Route Rule → object k).

(** Nothing is written if only times have changed. *)
Definition updateStatus (original new : Route Rule) : R unit :=
  if cmp.Equal (rt_Parents original) (rt_Parents new) then mret tt
  else write (cl_UpdateStatus k (as_object new)).

Definition handleReconcileErrorWithStatus (kind : string) (reconcileErr : error)
    (original modified : Route Rule) : R unit :=
  r ← attempt (updateStatus original modified);
  match r with
  | inr _ => fail (wrap ("failed to update " +:+ kind +:+
                         " status while handling the reconcile error ") reconcileErr)
  | inl _ => fail reconcileErr
  end.
End Update.

Context {clock : Clock}.

(** ** TLSRoute *)

Definition tls_updateStatus : TLSRoute → TLSRoute → R unit := updateStatus KTLSRoute id.
Definition tls_handleReconcileErrorWithStatus : error → TLSRoute → TLSRoute → R unit :=
  handleReconcileErrorWithStatus KTLSRoute id "TLSRoute".

Definition TLSRoute_Reconcile (req : NamespacedName) : R unit :=
  found ← get_opt KTLSRoute req;
  match found with
  | None => mret tt
  | Some original =>
      if bool_decide (is_Some (om_DeletionTimestamp (rt_meta original))) then mret tt
      else
        grants ← attempt (read (cl_List KReferenceGrant (λ _, true)));
        match grants with
        | inr e => tls_handleReconcileErrorWithStatus
                     (wrap "failed to retrieve reference grants: " e) original original
        | inl grants =>
            let i := mkTLSRouteInput grants original [] in
            '(i, err) ← query (λ w, check_parents w "Accepted TLSRoute" i (rt_ParentRefs original));
            match err with
            | Some err => tls_handleReconcileErrorWithStatus
                            (wrap "failed to apply route check: " err) original (ti_TLSRoute i)
            | None =>
                '(i, r) ← query (λ w, check_rules w i ruleChecks);
                match r with
                | inr err => tls_handleReconcileErrorWithStatus
                               (wrap "failed to apply Gateway check: " err) original (ti_TLSRoute i)
                | inl _ => wrapping "failed to update TLSRoute status: " (tls_updateStatus original (ti_TLSRoute i))
                end
            end
        end
  end.

(** ** GRPCRoute *)

Definition grpc_updateStatus : GRPCRoute → GRPCRoute → R unit := updateStatus KGRPCRoute id.
Definition grpc_handleReconcileErrorWithStatus : error → GRPCRoute → GRPCRoute → R unit :=
  handleReconcileErrorWithStatus KGRPCRoute id "GRPCRoute".

(** A backend check that finds something ends in an error too, one that wraps
    nil. *)
Definition GRPCRoute_Reconcile (req : NamespacedName) : R unit :=
  found ← get_opt KGRPCRoute req;
  match found with
  | None => mret tt
  | Some original =>
      if bool_decide (is_Some (om_DeletionTimestamp (rt_meta original))) then mret tt
      else
        grants ← attempt (read (cl_List KReferenceGrant (λ _, true)));
        match grants with
        | inr e => grpc_handleReconcileErrorWithStatus
                     (wrap "failed to retrieve reference grants: " e) original original
        | inl grants =>
            let i := mkGRPCRouteInput grants original [] in
            '(i, err) ← query (λ w, check_parents w "Accepted GRPCRoute" i (rt_ParentRefs original));
            match err with
            | Some err => grpc_handleReconcileErrorWithStatus
                            (wrap "failed to apply Gateway check: " err) original (gi_GRPCRoute i)
            | None =>
                '(i, r) ← query (λ w, check_rules w i ruleChecks);
                match r with
                | inr err => grpc_handleReconcileErrorWithStatus
                               (wrap "failed to apply Backend check: " err) original (gi_GRPCRoute i)
                | inl false => grpc_handleReconcileErrorWithStatus
                                 (Msg "failed to apply Backend check: %!w(<nil>)") original (gi_GRPCRoute i)
                | inl true => wrapping "failed to update GRPCRoute status: " (grpc_updateStatus original (gi_GRPCRoute i))
                end
            end
        end
  end.

(** ** What the loops leave, for any kind of route *)

Section LoopFacts.
Context {S : Type} {input : Input S} {laws : InputLaws (input := input)}.
Context (w : World).

(** The lists of namespaces and the fetches of Services answer. *)
Definition answers : Prop :=
  (∀ selector, ∃ nsList, list_namespaces selector w = inl nsList) ∧
  (∀ n e, cl_Get KService n w = inr e → e = NotFound).

(** The API schema: a namespace policy has [from], a backend that is not a Service
    names its kind. *)
Definition gateway_schema (s : S) (p : ParentReference) : Prop :=
  ∀ gw, gateway_result w (GetNamespace s) p = inl (Some gw) →
  ∀ nss, nss ∈ restrictions s gw p → is_Some (rn_From nss).
Definition backend_schema (s : S) : Prop :=
  ∀ be, be ∈ refs s → IsService (br_ref be) = false → is_Some (bor_Kind (br_ref be)).

(** Why a parent rejects the route, if it does. *)
Definition outcome (s : S) (p : ParentReference) : option (string * string) :=
  match gateway_result w (GetNamespace s) p with
  | inl (Some gw) => verdict w s gw p
  | inl None => None
  | inr err => Some ("Invalid" +:+ gvk_Kind (GetGVK s), err)
  end.

Definition accepted_of (msg : string) (v : option (string * string)) : Condition :=
  match v with
  | None => acceptedCondition msg
  | Some (reason, message) => rejected reason message
  end.

(** A backend that resolves. *)
Definition backend_ok (s : S) (be : BackendRef) : bool :=
  negb (crossNamespace s be) && IsService (br_ref be) && bool_decide (is_Some (bor_Port (br_ref be))) &&
  match cl_Get KService (mkNamespacedName (NamespaceDerefOr (bor_Namespace (br_ref be)) (GetNamespace s))
                           (bor_Name (br_ref be))) w with
  | inl _ => true
  | inr _ => false
  end.

Lemma gateway_result_not_nil ns p : gateway_result w ns p ≠ inl None.
Proof. unfold gateway_result. by destruct (cl_Get _ _ _) as [|[]]. Qed.

Lemma outcome_same s s' p : same_input s s' → outcome s' p = outcome s p.
Proof.
  intros H. unfold outcome. destruct H as (H1 & H2 & H3 & H4 & H5). rewrite H2, H3.
  destruct (gateway_result _ _ _) as [[gw|]|]; [|done..].
  apply verdict_same. unfold same_input. by split_and!.
Qed.

Lemma gateway_schema_same s s' p : same_input s s' → gateway_schema s p → gateway_schema s' p.
Proof.
  intros H Hs gw Hg nss. rewrite (restrictions_same p gw s s' H). apply Hs.
  by destruct H as (_ & <- & _).
Qed.

Lemma run_checks_outcome s p :
  answers → coherent w s → gateway_schema s p →
  ∃ s', run_checks w s p gatewayChecks = Ok (s', None) ∧ reported w s s' p (outcome s p).
Proof using laws.
  intros [Hns _] Hc Hs. unfold outcome.
  destruct (gateway_result w (GetNamespace s) p) as [[gw|]|err] eqn:E.
  - apply gateway_checks_reported; [done..|]. by apply Hs.
  - by apply gateway_result_not_nil in E.
  - destruct (GetGateway_result w s p Hc) as (s1 & Eg & Hi).
    unfold gatewayChecks. cbn [run_checks]. unfold CheckGatewayAllowedForNamespace, with_gateway.
    rewrite Eg, E. cbn. eexists. split; [done|].
    destruct (Hi) as (Hin & _). destruct Hin as (_ & _ & -> & _). by apply reported_reject.
Qed.

(** *** The loop over the parents *)

Definition resolved_says (s : S) : Prop :=
  ∀ p, p ∈ (object_of s).2 → ∃ c, cond_of s p ConditionResolvedRefs = Some c ∧ says c resolvedCondition.

Lemma check_parent_step msg s p :
  answers → coherent w s → gateway_schema s p → p ∈ (object_of s).2 →
  ∃ s', (let s1 := SetAllParentCondition resolvedCondition (SetParentCondition p (acceptedCondition msg) s) in
         run_checks w s1 p gatewayChecks) = Ok (s', None) ∧
    same_input s s' ∧ coherent w s' ∧ object_of s' = object_of s ∧
    (∃ c, cond_of s' p ConditionAccepted = Some c ∧ says c (accepted_of msg (outcome s p))) ∧
    (∀ p' t, p' ≠ p → t ≠ ConditionResolvedRefs → cond_of s' p' t = cond_of s p' t) ∧
    resolved_says s'.
Proof using laws.
  intros Ha Hc Hs Hp. cbn zeta.
  destruct (SetParent_input w s p (acceptedCondition msg) Hc) as (Hi1 & Hc1 & Hp1).
  set (s1 := SetParentCondition p (acceptedCondition msg) s) in *.
  destruct (SetAll_input w s1 resolvedCondition Hc1) as (Hi2 & Hc2 & Hp2).
  set (s2 := SetAllParentCondition resolvedCondition s1) in *.
  pose proof (same_input_trans _ _ _ Hi1 Hi2) as Hi.
  destruct (run_checks_outcome s2 p Ha Hc2 (gateway_schema_same _ _ _ Hi Hs)) as (s' & E & Hin & Hc' & Hp' & Hk & Hv).
  rewrite (outcome_same s s2 p Hi) in Hv. exists s'. split; [done|].
  split_and!; [by eapply same_input_trans|done|congruence| | |].
  - destruct (outcome s p) as [[reason message]|]; cbn; [done|]. rewrite Hv.
    unfold s2. rewrite SetAll_keeps by by right. apply (SetParent_says s p (acceptedCondition msg)).
  - intros p' t Hne Ht. rewrite Hk by congruence. unfold s2. rewrite SetAll_keeps by by right.
    apply SetParent_keeps. congruence.
  - intros p' Hin'. rewrite Hk by done. unfold s2.
    apply (SetAll_says s1 p' resolvedCondition). congruence.
Qed.

Lemma check_parents_spec msg s parents :
  answers → coherent w s → NoDup parents →
  (∀ p, p ∈ parents → gateway_schema s p ∧ p ∈ (object_of s).2) →
  ∃ s', check_parents w msg s parents = Ok (s', None) ∧
    same_input s s' ∧ coherent w s' ∧ object_of s' = object_of s ∧
    (∀ p, p ∈ parents → ∃ c, cond_of s' p ConditionAccepted = Some c ∧
       says c (accepted_of msg (outcome s p))) ∧
    (∀ p t, p ∉ parents → t ≠ ConditionResolvedRefs → cond_of s' p t = cond_of s p t) ∧
    (parents ≠ [] → resolved_says s').
Proof using laws.
  intros Ha Hc Hnd. revert s Hc. induction Hnd as [|p parents Hp Hnd IH]; intros s Hc Hs.
  { exists s. split_and!; try done. by intros ? ?%elem_of_nil. }
  destruct (Hs p (list_elem_of_here _ _)) as [Hsp Hpp].
  destruct (check_parent_step msg s p Ha Hc Hsp Hpp) as (s1 & E & Hi & Hc1 & Hp1 & Hacc & Hk & Hres).
  cbn [check_parents]. cbn zeta in *. rewrite E. cbn [mbind go_mbind].
  destruct (IH s1 Hc1) as (s' & E' & Hi' & Hc' & Hp' & Hacc' & Hk' & Hres').
  { intros q Hq. destruct (Hs q (list_elem_of_further _ _ _ Hq)). split; [by eapply gateway_schema_same|congruence]. }
  exists s'. split; [done|]. split_and!; [by eapply same_input_trans|done|congruence| | |].
  - intros q [->|Hq]%elem_of_cons.
    + rewrite Hk' by done. exact Hacc.
    + destruct (Hacc' q Hq) as (c & ? & Hsay). exists c. split; [done|]. by rewrite <-(outcome_same s s1 q Hi).
  - intros q t [Hq1 Hq2]%not_elem_of_cons Ht. by rewrite Hk', Hk.
  - intros _. destruct parents as [|q parents]; [|by apply Hres']. cbn in E'. by injection E' as <-.
Qed.

(** *** The loop over the checks of the rules *)

(** Only the ResolvedRefs conditions change, and to False. *)
Definition unresolved (s s' : S) (bad : bool) : Prop :=
  same_input s s' ∧ coherent w s' ∧ object_of s' = object_of s ∧
  (∀ p t, t ≠ ConditionResolvedRefs → cond_of s' p t = cond_of s p t) ∧
  if bad
  then ∀ p, p ∈ (object_of s).2 → ∃ c, cond_of s' p ConditionResolvedRefs = Some c ∧ cond_Status c = ConditionFalse
  else ∀ p t, cond_of s' p t = cond_of s p t.

Lemma unresolved_refl s : coherent w s → unresolved s s false.
Proof. intros. unfold unresolved. split_and!; try done. Qed.

Lemma unresolved_set s s1 b reason message :
  unresolved s s1 b →
  unresolved s (SetAllParentCondition (cond ConditionResolvedRefs ConditionFalse reason message) s1) true.
Proof using laws.
  intros (Hi & Hc & Hp & Hk & _). set (c := cond _ _ _ _).
  destruct (SetAll_input w s1 c Hc) as (Hi1 & Hc1 & Hp1). unfold unresolved.
  split_and!; [by eapply same_input_trans|done|congruence| |].
  - intros p t Ht. rewrite SetAll_keeps by by right. by apply Hk.
  - intros p Hin. destruct (SetAll_says s1 p c) as (c' & E & _ & Hst & _); [congruence|]. by exists c'.
Qed.

Lemma unresolved_trans s s1 s2 b :
  unresolved s s1 false → unresolved s1 s2 b → unresolved s s2 b.
Proof.
  intros (Hi & _ & Hp & _ & Hk) (Hi' & Hc' & Hp' & Hk' & Hb). unfold unresolved.
  split_and!; [by eapply same_input_trans|done|congruence|intros; by rewrite Hk', Hk|].
  destruct b; [by rewrite <-Hp|]. intros. by rewrite Hb, Hk.
Qed.

Lemma crossNamespace_same s s' be : same_input s s' → crossNamespace s' be = crossNamespace s be.
Proof. intros (_ & E1 & E2 & E3 & _). unfold crossNamespace. by rewrite E1, E2, E3. Qed.

Lemma cross_check s :
  coherent w s →
  ∃ s', CheckAgainstCrossNamespaceBackendReferences w s =
      Ok (s', inl (negb (existsb (crossNamespace s) (refs s)))) ∧
    unresolved s s' (existsb (crossNamespace s) (refs s)).
Proof using laws.
  intros Hc. unfold CheckAgainstCrossNamespaceBackendReferences.
  assert (H : ∀ l s1 b, unresolved s s1 (negb b) →
    ∃ s', foldl (λ st be, if crossNamespace st.1 be then (SetAllParentCondition notPermitted st.1, false) else st)
            (s1, b) l = (s', b && negb (existsb (crossNamespace s) l)) ∧
      unresolved s s' (negb (b && negb (existsb (crossNamespace s) l)))).
  { induction l as [|be l IH]; intros s1 b Hu; cbn.
    - exists s1. by rewrite andb_true_r.
    - rewrite (crossNamespace_same s s1) by by destruct Hu as (? & _).
      destruct (crossNamespace s be); cbn; [|by apply IH].
      destruct (IH (SetAllParentCondition notPermitted s1) false) as (s' & E & Hu').
      { by eapply unresolved_set. }
      rewrite E. rewrite andb_false_r. by exists s'. }
  destruct (H (refs s) s true (unresolved_refl s Hc)) as (s' & -> & Hu). cbn in *.
  rewrite negb_involutive in Hu. by exists s'.
Qed.

Definition service_ok (be : BackendRef) : bool :=
  IsService (br_ref be) && bool_decide (is_Some (bor_Port (br_ref be))).

Lemma backendIsService_step (s : S) b be :
  (IsService (br_ref be) = false → is_Some (bor_Kind (br_ref be))) →
  if service_ok be then backendIsService (s, b) be = Ok (s, b)
  else ∃ reason message, backendIsService (s, b) be =
    Ok (SetAllParentCondition (cond ConditionResolvedRefs ConditionFalse reason message) s, false).
Proof.
  intros Hk. unfold service_ok, backendIsService. cbn [fst].
  destruct (IsService (br_ref be)); cbn [negb andb].
  - destruct (bor_Port (br_ref be)); cbn; eauto.
  - destruct (Hk eq_refl) as [kind ->]. cbn. eauto.
Qed.

Lemma service_check s :
  coherent w s → backend_schema s →
  ∃ s', CheckBackendIsService w s = Ok (s', inl (forallb service_ok (refs s))) ∧
    unresolved s s' (negb (forallb service_ok (refs s))).
Proof using laws.
  intros Hc Hs. unfold CheckBackendIsService.
  assert (H : ∀ l s1 b, (∀ be, be ∈ l → be ∈ refs s) → unresolved s s1 (negb b) →
    ∃ s', go_foldl backendIsService (s1, b) l = Ok (s', b && forallb service_ok l) ∧
      unresolved s s' (negb (b && forallb service_ok l))).
  { induction l as [|be l IH]; intros s1 b Hl Hu; cbn.
    - exists s1. by rewrite andb_true_r.
    - assert (Hl' : ∀ be, be ∈ l → be ∈ refs s) by (intros; apply Hl; by right).
      pose proof (backendIsService_step s1 b be (Hs be (Hl _ (list_elem_of_here _ _)))) as Hstep.
      destruct (service_ok be); cbn [andb].
      + rewrite Hstep. cbn. by apply IH.
      + destruct Hstep as (reason & message & ->). cbn.
        destruct (IH (SetAllParentCondition (cond ConditionResolvedRefs ConditionFalse reason message) s1)
          false Hl') as (s' & E & Hu'); [by eapply unresolved_set|].
        rewrite E, andb_false_r. by exists s'. }
  destruct (H (refs s) s true) as (s' & -> & Hu); [done|by apply unresolved_refl|]. by exists s'.
Qed.

Definition service_found (s : S) (be : BackendRef) : bool :=
  match cl_Get KService (mkNamespacedName (NamespaceDerefOr (bor_Namespace (br_ref be)) (GetNamespace s))
                           (bor_Name (br_ref be))) w with
  | inl _ => true
  | inr _ => false
  end.

Lemma existing_check s :
  coherent w s → answers →
  ∃ s', CheckBackendIsExistingService w s = Ok (s', inl true) ∧
    unresolved s s' (negb (forallb (service_found s) (refs s))).
Proof using laws.
  intros Hc [_ Ha]. unfold CheckBackendIsExistingService.
  assert (H : ∀ l s1 b, unresolved s s1 (negb b) →
    ∃ s', existingServices w s1 l = (s', inl true) ∧
      unresolved s s' (negb (b && forallb (service_found s) l))).
  { induction l as [|be l IH]; intros s1 b Hu; cbn.
    - exists s1. by rewrite andb_true_r.
    - assert (En : GetNamespace s1 = GetNamespace s) by by destruct Hu as ((_ & ? & _) & _).
      rewrite En. unfold service_found at 1.
      destruct (cl_Get KService _ w) as [svc|e] eqn:E; cbn; [by apply IH|].
      rewrite (Ha _ _ E). destruct (IH (SetAllParentCondition (cond ConditionResolvedRefs ConditionFalse
        RouteReasonBackendNotFound (ErrorText KService (mkNamespacedName (NamespaceDerefOr
          (bor_Namespace (br_ref be)) (GetNamespace s)) (bor_Name (br_ref be))) NotFound)) s1) false)
        as (s' & -> & Hu'); [by eapply unresolved_set|]. rewrite andb_false_r. by exists s'. }
  destruct (H (refs s) s true) as (s' & -> & Hu); [by apply unresolved_refl|]. by exists s'.
Qed.

Lemma backend_ok_split s l :
  forallb (backend_ok s) l =
  negb (existsb (crossNamespace s) l) && forallb service_ok l && forallb (service_found s) l.
Proof.
  induction l as [|be l IH]; [done|]. cbn. rewrite IH. unfold backend_ok, service_ok, service_found.
  destruct (crossNamespace s be), (IsService _), (bool_decide _), (cl_Get KService _ w),
    (existsb _ l), (forallb service_ok l); cbn; by rewrite ?andb_false_r.
Qed.

Lemma refs_same s s' : same_input s s' → refs s' = refs s.
Proof. intros (E & _). unfold refs. by rewrite E. Qed.

(** The three checks of the backends: they find something exactly when a backend
    does not resolve, and then the ResolvedRefs conditions are False. *)
Lemma check_rules_spec s :
  answers → coherent w s → backend_schema s →
  ∃ s' b, check_rules w s ruleChecks = Ok (s', inl b) ∧
    unresolved s s' (negb (forallb (backend_ok s) (refs s))) ∧
    b = negb (existsb (crossNamespace s) (refs s)) && forallb service_ok (refs s).
Proof using laws.
  intros Ha Hc Hs. unfold ruleChecks. cbn [check_rules]. rewrite backend_ok_split.
  destruct (cross_check s Hc) as (s1 & -> & Hu1). cbn [mbind go_mbind].
  destruct (existsb _ _); cbn [negb andb]; [by do 2 eexists|].
  assert (Hi1 : same_input s s1) by by destruct Hu1. assert (Hc1 : coherent w s1) by by destruct Hu1 as (_ & ? & _).
  destruct (service_check s1 Hc1) as (s2 & -> & Hu2).
  { intros be. rewrite (refs_same _ _ Hi1). apply Hs. }
  rewrite (refs_same _ _ Hi1) in *. cbn [mbind go_mbind].
  pose proof (unresolved_trans _ _ _ _ Hu1 Hu2) as Hu. destruct (forallb service_ok _); cbn [negb andb] in *.
  2: { by do 2 eexists. }
  assert (Hi2 : same_input s s2) by by destruct Hu. assert (Hc2 : coherent w s2) by by destruct Hu as (_ & ? & _).
  destruct (existing_check s2 Hc2 Ha) as (s3 & -> & Hu3). cbn [mbind go_mbind].
  rewrite (refs_same _ _ Hi2) in Hu3. do 2 eexists. split; [done|]. split; [|done].
  assert (Hf : ∀ l, forallb (service_found s2) l = forallb (service_found s) l).
  { intros l. apply forallb_eq. intros be. unfold service_found. by destruct Hi2 as (_ & -> & _). }
  rewrite Hf in Hu3. by eapply unresolved_trans.
Qed.

(** Both loops together. *)
Theorem route_checks_spec msg s :
  answers → coherent w s → NoDup (object_of s).2 → (object_of s).2 ≠ [] →
  (∀ p, p ∈ (object_of s).2 → gateway_schema s p) → backend_schema s →
  ∃ s1 s' b, check_parents w msg s (object_of s).2 = Ok (s1, None) ∧
    check_rules w s1 ruleChecks = Ok (s', inl b) ∧ same_input s s' ∧ object_of s' = object_of s ∧
    b = negb (existsb (crossNamespace s) (refs s)) && forallb service_ok (refs s) ∧
    ∀ p, p ∈ (object_of s).2 →
      (∃ c, cond_of s' p ConditionAccepted = Some c ∧ says c (accepted_of msg (outcome s p))) ∧
      ∃ c, cond_of s' p ConditionResolvedRefs = Some c ∧
        cond_Status c = (if forallb (backend_ok s) (refs s) then ConditionTrue else ConditionFalse).
Proof using laws.
  intros Ha Hc Hnd Hne Hg Hs.
  destruct (check_parents_spec msg s (object_of s).2 Ha Hc Hnd) as (s1 & E1 & Hi1 & Hc1 & Hp1 & Hacc & _ & Hres).
  { intros p Hp. split; [by apply Hg|done]. }
  destruct (check_rules_spec s1 Ha Hc1) as (s' & b & E2 & (Hi2 & _ & Hp2 & Hk & Hb) & ->).
  { intros be. rewrite (refs_same _ _ Hi1). apply Hs. }
  rewrite (refs_same _ _ Hi1) in *. exists s1, s'. eexists. split; [done|]. split; [done|].
  split; [by eapply same_input_trans|]. split; [congruence|]. split.
  { f_equal. f_equal. apply existsb_eq. intros be. by apply crossNamespace_same. }
  assert (Hok : forallb (backend_ok s1) (refs s) = forallb (backend_ok s) (refs s)).
  { apply forallb_eq. intros be. unfold backend_ok. rewrite (crossNamespace_same _ _ _ Hi1).
    by destruct Hi1 as (_ & -> & _). }
  rewrite Hok in Hb. intros p Hp. split.
  - destruct (Hacc p Hp) as (c & E & Hsay). exists c. split; [|done]. by rewrite Hk.
  - destruct (forallb (backend_ok s) (refs s)); cbn in Hb.
    + rewrite Hb. destruct (Hres Hne p) as (c & ? & _ & ? & _); [congruence|]. by exists c.
    + apply Hb. congruence.
Qed.

End LoopFacts.

End Controllers.

End route_controllers.
