(* ===== verification/RouteReconcile.v ===== *)
(** * What the TLSRoute and GRPCRoute reconcilers guarantee

    [Module route_reconcile]: one run of [TLSRoute_Reconcile] or
    [GRPCRoute_Reconcile] from a world in which the reads of the API server
    answer.  The specification is [settled]: for every parent, the Accepted
    condition that [outcome] gives and the ResolvedRefs condition that the
    backends give. *)

From S2P Require Import Prelude GoStrings ApiTypes Model Hostnames Helpers Translator FrontTranslators ApiServer Status RouteChecker RouteCheckerFacts RouteInputs RouteControllers.
Import k8s gatewayv1 api types namespaces referencegrants routechecker routechecker_facts routeinputs route_controllers.

Module route_reconcile.

(** ** Statuses up to times *)

Lemma find_strip l p :
  List.find (λ e, bool_decide (rps_ParentRef e = p)) (cmp.strip l) =
  (λ e, mkRouteParentStatus (rps_ParentRef e) (rps_ControllerName e) (cmp.untimed <$> rps_Conditions e)) <$>
  List.find (λ e, bool_decide (rps_ParentRef e = p)) l.
Proof. induction l as [|e l IH]; [done|]. cbn in *. by case_bool_decide. Qed.

Lemma find_cond_untimed t l : status.find_cond t (cmp.untimed <$> l) = cmp.untimed <$> status.find_cond t l.
Proof.
  unfold status.find_cond. induction l as [|c l IH]; [done|]. cbn in *. by destruct (String.eqb _ _).
Qed.

Lemma parent_cond_strip (l : list RouteParentStatus) p t :
  parent_cond (cmp.strip l) p t = cmp.untimed <$> parent_cond l p t.
Proof.
  unfold parent_cond. rewrite find_strip. destruct (List.find _ _) as [e|]; [|done]. cbn.
  apply find_cond_untimed.
Qed.

(** The status of a parent has a condition with some property. *)
Definition has_cond (l : list RouteParentStatus) (p : ParentReference) (t : string)
    (P : Condition → Prop) : Prop :=
  ∃ c, parent_cond l p t = Some c ∧ P c.

(** Equal up to times, both have it. *)
Lemma has_cond_Equal l l' p t (P : Condition → Prop) :
  (∀ c, P (cmp.untimed c) ↔ P c) → cmp.Equal l l' = true → has_cond l' p t P → has_cond l p t P.
Proof.
  intros HP H (c' & Ec & Hc). apply bool_decide_eq_true in H.
  pose proof (parent_cond_strip l p t) as E1. pose proof (parent_cond_strip l' p t) as E2.
  rewrite H, E2, Ec in E1. cbn in E1. destruct (parent_cond l p t) as [c|] eqn:E; [|done].
  injection E1 as E1. exists c. split; [done|]. apply HP. rewrite <-HP in Hc. unfold cmp.untimed in *. congruence.
Qed.

Section Guarantees.
Context {client : Client} {claws : ClientLaws} {errors : ApiErrorText} {scheme : Scheme}
  {selectors : LabelSelectors} {clock : Clock}.

(** ** The write at the end *)

Section Write.
Context {Rule : Type} (k : Kind) (as_object : Route Rule → object k).
Context (key_as : ∀ r, key (as_object r) = ObjectKey (rt_meta r)).
Context (status_as : ∀ o s, with_status (as_object o) (as_object s) = as_object (with_Parents o (rt_Parents s))).

(** The write ends in an error only if the API server refuses it; otherwise the
    stored route has the new status, or one that differs in times only. *)
Lemma updateStatus_spec original new w :
  rt_meta new = rt_meta original →
  stored k w (ObjectKey (rt_meta original)) = Some (as_object original) →
  ∃ w' r, updateStatus k as_object original new w = Ok (w', r) ∧
    frame (only k (ObjectKey (rt_meta original))) w w' ∧
    match r with
    | inl _ => ∃ l, stored k w' (ObjectKey (rt_meta original)) = Some (as_object (with_Parents original l)) ∧
        cmp.Equal l (rt_Parents new) = true
    | inr e => ∃ e', cl_UpdateStatus k (as_object new) w = (w', Some e') ∧ e = Api e'
    end.
Proof using claws key_as status_as.
  intros Hm Hs. unfold updateStatus. destruct (cmp.Equal _ _) eqn:E.
  { do 2 eexists. split; [done|]. split; [apply frame_refl|]. exists (rt_Parents original).
    split; [|done]. rewrite Hs. by destruct original. }
  unfold write. destruct (cl_UpdateStatus k (as_object new) w) as [w' e] eqn:Eu.
  pose proof (UpdateStatus_frame _ _ _ _ _ Eu) as Hf. rewrite key_as, Hm in Hf.
  destruct e as [e|].
  - do 2 eexists. split; [done|]. split; [done|]. eauto.
  - do 2 eexists. split; [done|]. split; [done|]. exists (rt_Parents new). split; [|apply cmp.Equal_refl].
    pose proof (UpdateStatus_done _ _ _ _ Eu) as Hd. rewrite key_as, Hm, Hs in Hd. cbn in Hd.
    by rewrite Hd, status_as.
Qed.

End Write.

(** ** The specification of a run *)

Section Spec.
Context {S : Type} {input : Input S} {laws : InputLaws (input := input)}.

(** A status that has, for every parent, the conditions the checks give. *)
Definition settled (w : World) (msg : string) (s : S) (l : list RouteParentStatus) : Prop :=
  ∀ p, p ∈ (object_of s).2 →
    has_cond l p ConditionAccepted (λ c, says c (accepted_of msg (outcome w s p))) ∧
    has_cond l p ConditionResolvedRefs (λ c,
      cond_Status c = if forallb (backend_ok w s) (refs s) then ConditionTrue else ConditionFalse).

Lemma settled_Equal w msg s l l' : cmp.Equal l l' = true → settled w msg s l' → settled w msg s l.
Proof.
  intros He Hl p Hp. destruct (Hl p Hp) as [H1 H2].
  split; eapply has_cond_Equal; try done; by intros [].
Qed.

(** What a run relies on: the reads answer, the route has parents, each once,
    and the objects have the fields the API schema requires. *)
Definition ready (w : World) (s : S) : Prop :=
  answers w ∧ coherent w s ∧ NoDup (object_of s).2 ∧ (object_of s).2 ≠ [] ∧
  (∀ p, p ∈ (object_of s).2 → gateway_schema w s p) ∧ backend_schema s.

(** Neither of the two checks that end a run of the rules finds anything. *)
Definition backends_wellformed (s : S) : bool :=
  negb (existsb (crossNamespace s) (refs s)) && forallb service_ok (refs s).

End Spec.

(** ** TLSRoute *)

Definition tls_input (grants : list ReferenceGrant) (r : TLSRoute) : TLSRouteInput :=
  mkTLSRouteInput grants r [].

(** C10: a run of the TLSRoute reconciler from a world in which the reads answer
    does not panic and changes nothing but the status of its route.  If it returns
    without an error, the stored route has for every parent an Accepted condition
    as the specification of the checks says and a ResolvedRefs condition that is
    True exactly if all backends resolve; it ends in an error only if the API
    server refuses the status. *)
Theorem TLSRoute_Reconcile_settles w req original grants :
  cl_Get KTLSRoute req w = inl original → om_DeletionTimestamp (rt_meta original) = None →
  cl_List KReferenceGrant (λ _, true) w = inl grants → ready w (tls_input grants original) →
  ∃ w' r, TLSRoute_Reconcile req w = Ok (w', r) ∧ frame (only KTLSRoute req) w w' ∧
    match r with
    | inl _ => ∃ l, stored KTLSRoute w' req = Some (with_Parents original l) ∧
        settled w "Accepted TLSRoute" (tls_input grants original) l
    | inr e => ∃ new e', cl_UpdateStatus KTLSRoute new w = (w', Some e') ∧
        e = wrap "failed to update TLSRoute status: " (Api e')
    end.
Proof using claws.
  intros Hget Hdel Hgr (Ha & Hc & Hnd & Hne & Hg & Hb).
  pose proof (Get_found _ _ _ _ Hget) as Hst. pose proof (stored_key _ _ _ _ Hst) as Hkey. cbn in Hkey.
  destruct (route_checks_spec w "Accepted TLSRoute" (tls_input grants original) Ha Hc Hnd Hne Hg Hb)
    as (s1 & s' & b & E1 & E2 & _ & Ho & _ & Hset). injection Ho as Hm Hp.
  unfold TLSRoute_Reconcile, get_opt. rewrite R_bind_eq, Hget. cbv beta iota.
  rewrite bool_decide_false by (rewrite Hdel; by intros []).
  unfold read, attempt, query. rewrite R_bind_eq, Hgr. cbv beta iota. fold (tls_input grants original).
  rewrite R_bind_eq. cbn [object_of TLSRouteInput_laws snd tls_input ti_TLSRoute] in E1. rewrite E1. cbv beta iota.
  rewrite R_bind_eq, E2. cbv beta iota.
  rewrite <-Hkey in Hst |- *.
  destruct (updateStatus_spec KTLSRoute id (λ r, eq_refl) (λ o s, eq_refl) original (ti_TLSRoute s') w Hm Hst)
    as (w' & r & Eu & Hf & Hr).
  unfold wrapping. rewrite R_bind_eq. unfold attempt, tls_updateStatus. rewrite Eu. cbv beta iota.
  destruct r as [[]|e]; do 2 eexists; (split; [done|]); (split; [done|]).
  - destruct Hr as (l & Hl & He). exists l. split; [done|]. eapply settled_Equal; [done|]. exact Hset.
  - destruct Hr as (e' & ? & ->). eauto.
Qed.

(** ** GRPCRoute *)

Definition grpc_input (grants : list ReferenceGrant) (r : GRPCRoute) : GRPCRouteInput :=
  mkGRPCRouteInput grants r [].

(** a run of the GRPCRoute reconciler writes the same statuses, but returns
    without an error only if no backend reference crosses namespaces without a
    grant and all are Services with a port: a route with another backend gets its
    status and then fails, with an error that wraps nil. *)
Theorem GRPCRoute_Reconcile_settles w req original grants :
  cl_Get KGRPCRoute req w = inl original → om_DeletionTimestamp (rt_meta original) = None →
  cl_List KReferenceGrant (λ _, true) w = inl grants → ready w (grpc_input grants original) →
  ∃ w' r, GRPCRoute_Reconcile req w = Ok (w', r) ∧ frame (only KGRPCRoute req) w w' ∧
    ((∃ new e', cl_UpdateStatus KGRPCRoute new w = (w', Some e') ∧ r ≠ inl tt) ∨
     (∃ l, stored KGRPCRoute w' req = Some (with_Parents original l) ∧
        settled w "Accepted GRPCRoute" (grpc_input grants original) l ∧
        r = if backends_wellformed (grpc_input grants original) then inl tt
            else inr (Msg "failed to apply Backend check: %!w(<nil>)"))).
Proof using claws.
  intros Hget Hdel Hgr (Ha & Hc & Hnd & Hne & Hg & Hb).
  pose proof (Get_found _ _ _ _ Hget) as Hst. pose proof (stored_key _ _ _ _ Hst) as Hkey. cbn in Hkey.
  destruct (route_checks_spec w "Accepted GRPCRoute" (grpc_input grants original) Ha Hc Hnd Hne Hg Hb)
    as (s1 & s' & b & E1 & E2 & _ & Ho & Eb & Hset). injection Ho as Hm Hp.
  fold (backends_wellformed (grpc_input grants original)) in Eb. rewrite <-Eb.
  unfold GRPCRoute_Reconcile, get_opt. rewrite R_bind_eq, Hget. cbv beta iota.
  rewrite bool_decide_false by (rewrite Hdel; by intros []).
  unfold read, query. rewrite R_bind_eq. unfold attempt at 1. rewrite Hgr. cbv beta iota. fold (grpc_input grants original).
  rewrite R_bind_eq. cbn [object_of GRPCRouteInput_laws snd grpc_input gi_GRPCRoute] in E1. rewrite E1. cbv beta iota.
  rewrite R_bind_eq, E2. cbv beta iota.
  rewrite <-Hkey in Hst |- *.
  destruct (updateStatus_spec KGRPCRoute id (λ r, eq_refl) (λ o s, eq_refl) original (gi_GRPCRoute s') w Hm Hst)
    as (w' & r & Eu & Hf & Hr).
  assert (Hwrite : match r with
    | inl _ => ∃ l, stored KGRPCRoute w' (ObjectKey (rt_meta original)) = Some (with_Parents original l) ∧
        settled w "Accepted GRPCRoute" (grpc_input grants original) l
    | inr e => ∃ new e', cl_UpdateStatus KGRPCRoute new w = (w', Some e') end).
  { destruct r as [[]|e].
    - destruct Hr as (l & Hl & He). exists l. split; [done|]. eapply settled_Equal; [done|]. exact Hset.
    - destruct Hr as (e' & ? & ?). eauto. }
  destruct b.
  - unfold wrapping. rewrite R_bind_eq. unfold attempt, grpc_updateStatus. rewrite Eu. cbv beta iota.
    destruct r as [[]|e]; do 2 eexists; (split; [done|]); (split; [done|]); [right|left].
    + destruct Hwrite as (l & ? & ?). by exists l.
    + destruct Hwrite as (new & e' & ?). by exists new, e'.
  - unfold grpc_handleReconcileErrorWithStatus, handleReconcileErrorWithStatus.
    rewrite R_bind_eq. unfold attempt. rewrite Eu. cbv beta iota. unfold fail. destruct r as [[]|e].
    + do 2 eexists. split; [done|]. split; [done|]. right. destruct Hwrite as (l & ? & ?). by exists l.
    + do 2 eexists. split; [done|]. split; [done|]. left. destruct Hwrite as (new & e' & ?). by exists new, e'.
Qed.

End Guarantees.

End route_reconcile.

(** ** A concrete world *)

Module sample.

#[local] Existing Instance reference_client.

#[global] Instance plain_errors : ApiErrorText := {| ErrorText k n e := nn_Name n +:+ " not found" |}.
#[global] Instance plain_scheme : Scheme :=
  {| HasServiceImportSupport := false; HasListenerSetSupport := true; DerivedServiceAnnotation := "derived" |}.
#[global] Instance no_selectors : LabelSelectors := {| selector_matches sel labels := Some false |}.
#[global] Instance fixed_clock : Clock := {| now := 7 |}.

Definition meta (name : string) : ObjectMeta := mkObjectMeta name "default" "uid" 1 ∅ ∅ 0 None.

Definition listener : Listener :=
  mkListener "tls" None 443 "TLS" None
    (Some (mkAllowedRoutes (Some (mkRouteNamespaces (Some NamespacesFromAll) None)) None)).

Definition gateway : Gateway :=
  mkGateway (meta "gw") (GatewayV1GVK "Gateway") "dolphin" [listener] None None (mkGatewayStatus [] [] [] None).

Definition parent (section : string) : ParentReference :=
  mkParentReference None None None "gw" (Some section) None.

Definition backend (name : string) (port : option Z) : BackendRef :=
  mkBackendRef (mkBackendObjectReference None None name None port) None.

Definition service : ServiceObject :=
  mkServiceObject (mkFrontService "svc" "default" ∅ ∅ [] "ClusterIP" []) None None.

Definition tlsroute (section : string) : TLSRoute :=
  mkRoute (meta "route") [parent section] ["example.com"] [mkL4RouteRule [backend "svc" (Some 443%Z)]] [].

(** The backend has no port. *)
Definition grpcroute : GRPCRoute :=
  mkRoute (meta "route") [parent "tls"] ["example.com"] [mkGRPCRouteRule [] [] [backend "svc" None]] [].

Definition world (section : string) : RefWorld :=
  add_object KGateway gateway (add_object KService service
    (add_object KTLSRoute (tlsroute section) (add_object KGRPCRoute grpcroute []))).

Definition req : NamespacedName := mkNamespacedName "default" "route".

Lemma answers_reference w : answers w.
Proof.
  split; [by eexists|]. intros n e. cbn. destruct (ref_stored KService w n); [done|]. by intros [= <-].
Qed.

Ltac solve_ready :=
  split_and!;
  [apply answers_reference|done|apply NoDup_singleton|done
  |intros p ->%list_elem_of_singleton gw; cbn; intros [= <-] nss; cbn;
   intros ->%list_elem_of_singleton; by eexists
  |intros be; cbn; intros ->%list_elem_of_singleton; done].

Import routechecker_facts routeinputs route_controllers route_reconcile.

Abbreviation tls_s := (tls_input [] (tlsroute "tls")).

Lemma TLSRoute_ready : ready (S := TLSRouteInput) (world "tls") tls_s.
Proof. solve_ready. Qed.

Lemma GRPCRoute_ready : ready (S := GRPCRouteInput) (world "tls") (grpc_input [] grpcroute).
Proof. solve_ready. Qed.

Lemma TLSRoute_Reconcile_settles_witness :
  ∃ w' r, TLSRoute_Reconcile req (world "tls") = Ok (w', r) ∧
    frame (only KTLSRoute req) (world "tls") w' ∧
    match r with
    | inl _ => ∃ l, ref_stored KTLSRoute w' req = Some (with_Parents (tlsroute "tls") l) ∧
        settled (S := TLSRouteInput) (world "tls") "Accepted TLSRoute" tls_s l
    | inr e => ∃ new e', ref_UpdateStatus KTLSRoute new (world "tls") = (w', Some e') ∧
        e = wrap "failed to update TLSRoute status: " (Api e')
    end.
Proof.
  apply (TLSRoute_Reconcile_settles (client := reference_client) (world "tls") req (tlsroute "tls") []); try reflexivity.
  exact TLSRoute_ready.
Defined.

Lemma GRPCRoute_Reconcile_settles_witness :
  ∃ w' r, GRPCRoute_Reconcile req (world "tls") = Ok (w', r) ∧
    frame (only KGRPCRoute req) (world "tls") w' ∧
    ((∃ new e', ref_UpdateStatus KGRPCRoute new (world "tls") = (w', Some e') ∧ r ≠ inl tt) ∨
     (∃ l, ref_stored KGRPCRoute w' req = Some (with_Parents grpcroute l) ∧
        settled (S := GRPCRouteInput) (world "tls") "Accepted GRPCRoute" (grpc_input [] grpcroute) l ∧
        r = inr (Msg "failed to apply Backend check: %!w(<nil>)"))).
Proof.
  apply (GRPCRoute_Reconcile_settles (client := reference_client) (world "tls") req grpcroute []); try reflexivity.
  exact GRPCRoute_ready.
Defined.

(** The run that the first witness is about returns without an error. *)
Example TLSRoute_reconciled :
  match TLSRoute_Reconcile req (world "tls") with
  | Ok (w', inl tt) => (λ r, (λ e, (λ c, (cond_Type c, cond_Status c)) <$> rps_Conditions e) <$> rt_Parents r) <$>
                         ref_stored KTLSRoute w' req =
                       Some [[("Accepted", "True"); ("ResolvedRefs", "True")]]
  | _ => False
  end.
Proof. vm_compute. reflexivity. Qed.

Lemma gateway_checks_refine_witness :
  ∃ s', run_checks (S := TLSRouteInput) (world "tls") tls_s (parent "tls") gatewayChecks = Ok (s', None) ∧
    reported (S := TLSRouteInput) (world "tls") tls_s s' (parent "tls")
      (verdict (S := TLSRouteInput) (world "tls") tls_s gateway (parent "tls")).
Proof.
  apply (gateway_checks_refine (client := reference_client)).
  - apply answers_reference.
  - exact (proj1 (proj2 TLSRoute_ready)).
  - reflexivity.
  - intros nss. cbn. intros ->%list_elem_of_singleton. by eexists.
Defined.

Lemma verdict_accepts_witness :
  (∃ nss, nss ∈ restrictions (S := TLSRouteInput) tls_s gateway (parent "tls") ∧
     admits (world "tls") "default" "default" nss = Some true) ∧
  (∀ l, l ∈ gw_Listeners gateway → ¬ excludes_kind (GatewayV1GVK "TLSRoute") l) ∧
  (∀ port, pr_Port (parent "tls") = Some port → ∃ l, l ∈ gw_Listeners gateway ∧ l_Port l = port) ∧
  (∃ l, l ∈ gw_Listeners gateway ∧ helper.hosts_meet ["example.com"] (l_Hostname l)) ∧
  (∀ sec, pr_SectionName (parent "tls") = Some sec → ∃ l, l ∈ gw_Listeners gateway ∧ l_Name l = sec).
Proof.
  refine (verdict_accepts (S := TLSRouteInput) (client := reference_client) (world "tls") tls_s gateway
    (parent "tls") _ _); [discriminate|reflexivity].
Defined.

Lemma unknown_section_not_rejected_witness :
  verdict (S := TLSRouteInput) (world "other") tls_s gateway (parent "other") = None ∧
  is_Some (name_verdict (S := TLSRouteInput) tls_s gateway (parent "other")).
Proof.
  apply (unknown_section_not_rejected (client := reference_client) (world "other") tls_s gateway (parent "other") "other").
  - reflexivity.
  - intros l ->%list_elem_of_singleton. discriminate.
Defined.

End sample.
