(* ===== verification/GatewayListeners.v ===== *)
(** * The listeners of a Gateway

    What the Gateway reconciler (src/pkg/gateway_api) computes from the listeners
    of a Gateway and of the ListenerSets attached to it, before it writes
    anything: [Module gateway_helpers] is helpers.go; [Module gateway_listeners]
    has, from gateway_reconcile.go, the precedence of ListenerSets, the merged
    listeners, their conflicts, their validation, and which routes attach to which
    listener. *)

From S2P Require Import Prelude GoStrings ApiTypes Model Hostnames Helpers Ingestion Translator FrontTranslators ApiServer Status RouteChecker.
Import k8s gatewayv1 api types namespaces referencegrants.

Module gateway_helpers.

Definition kindHTTPRoute : string := "HTTPRoute".
Definition kindTLSRoute : string := "TLSRoute".
Definition kindUDPRoute : string := "UDPRoute".
Definition kindTCPRoute : string := "TCPRoute".
Definition kindGRPCRoute : string := "GRPCRoute".
Definition kindConfigMap : string := "ConfigMap".
Definition defaultControllerName : string := "io.dolphin/gateway-controller".

Definition gatewayFQR (gw : Gateway) : model.FullyQualifiedResource :=
  model.mkFQR (om_Name (gw_meta gw)) (om_Namespace (gw_meta gw)) GroupName GroupVersion_Version
    "Gateway" (om_UID (gw_meta gw)).

Definition listenerSetFQR (ls : ListenerSet) : model.FullyQualifiedResource :=
  model.mkFQR (om_Name (lst_meta ls)) (om_Namespace (lst_meta ls)) GroupName GroupVersion_Version
    "ListenerSet" (om_UID (lst_meta ls)).

Definition GroupPtr (name : string) : option string := Some name.

Definition getSupportedRouteKinds (protocol : string) : slice RouteGroupKind :=
  if String.eqb protocol HTTPProtocolType || String.eqb protocol HTTPSProtocolType
  then Some [mkRouteGroupKind (GroupPtr GroupName) kindHTTPRoute;
             mkRouteGroupKind (GroupPtr GroupName) kindGRPCRoute]
  else if String.eqb protocol TLSProtocolType then Some [mkRouteGroupKind (GroupPtr GroupName) kindTLSRoute]
  else if String.eqb protocol TCPProtocolType then Some [mkRouteGroupKind (GroupPtr GroupName) kindTCPRoute]
  else if String.eqb protocol UDPProtocolType then Some [mkRouteGroupKind (GroupPtr GroupName) kindUDPRoute]
  else None.

Definition getSupportedGroupKind (protocol : string) : option string * string :=
  if String.eqb protocol HTTPProtocolType then (GroupPtr GroupName, kindHTTPRoute)
  else if String.eqb protocol TLSProtocolType then (GroupPtr GroupName, kindTLSRoute)
  else if String.eqb protocol HTTPSProtocolType then (GroupPtr GroupName, kindHTTPRoute)
  else if String.eqb protocol TCPProtocolType then (GroupPtr GroupName, kindTCPRoute)
  else if String.eqb protocol UDPProtocolType then (GroupPtr GroupName, kindUDPRoute)
  else (GroupPtr "Unknown", "unkown").

Definition groupDerefOr (group : option string) (defaultGroup : string) : string :=
  match group with
  | Some g => if String.eqb g "" then defaultGroup else g
  | None => defaultGroup
  end.

(** A nil left map gives the right one, which is also what merging into an empty
    map gives. *)
Definition mergeMap (left right : gmap string string) : gmap string string := right ∪ left.

(** A [metav1.Object] that is a route. *)
Inductive AnyRoute :=
| AnHTTPRoute (r : HTTPRoute)
| ATLSRoute (r : TLSRoute)
| ATCPRoute (r : TCPRoute)
| AUDPRoute (r : UDPRoute)
| AGRPCRoute (r : GRPCRoute).

Definition route_meta (r : AnyRoute) : ObjectMeta :=
  match r with
  | AnHTTPRoute r => rt_meta r
  | ATLSRoute r | ATCPRoute r | AUDPRoute r => rt_meta r
  | AGRPCRoute r => rt_meta r
  end.

Definition GetNamespace (r : AnyRoute) : string := om_Namespace (route_meta r).

Definition getGatewayKindForObject (obj : AnyRoute) : string :=
  match obj with
  | AnHTTPRoute _ => kindHTTPRoute
  | ATLSRoute _ => kindTLSRoute
  | ATCPRoute _ => kindTCPRoute
  | AUDPRoute _ => kindUDPRoute
  | AGRPCRoute _ => "unknown"
  end.

(** The test of the loop, for one of the four kinds. *)
Definition kind_is (kind : RouteGroupKind) (routedKind k : string) : bool :=
  match rgk_Group kind with
  | None => true
  | Some g => String.eqb g GroupName && String.eqb (rgk_Kind kind) k && String.eqb routedKind k
  end.

(** Called with a listener that has [allowedRoutes]. *)
Definition isKindAllowed (allowedRoutes : AllowedRoutes) (route : AnyRoute) : bool :=
  match ar_Kinds allowedRoutes with
  | None => true
  | Some kinds =>
      let routedKind := getGatewayKindForObject route in
      existsb (λ kind, kind_is kind routedKind kindHTTPRoute || kind_is kind routedKind kindTLSRoute ||
                       kind_is kind routedKind kindTCPRoute || kind_is kind routedKind kindUDPRoute) kinds
  end.

Section Selectors.
Context {selectors : LabelSelectors}.

Definition listenerisAllowed (gw : Gateway) (listener : Listener) (route : AnyRoute)
    (namespaceLabels : NamespaceLabelIndex) : bool :=
  let byNamespace := IsListenerNamespaceAllowed listener (GetNamespace route)
                       (om_Namespace (gw_meta gw)) namespaceLabels in
  match l_AllowedRoutes listener with
  | None => byNamespace
  | Some ar =>
      match ar_Namespaces ar with
      | None => byNamespace
      | Some _ => if negb (isKindAllowed ar route) then false else byNamespace
      end
  end.
End Selectors.

Definition toStringSlice (s : list string) : list string := s.

Definition computeHostsForListener (listener : Listener) (hostnames : list string) : list string :=
  helper.ComputeHosts (toStringSlice hostnames) (l_Hostname listener).

Definition computeHosts (gw : Gateway) (hostnames : list string) : list string :=
  foldl (λ hosts listener, hosts ++ computeHostsForListener listener hostnames) [] (gw_Listeners gw).

Definition IsConfigMap (certRef : LocalObjectReference) : bool :=
  String.eqb (lor_Kind certRef) kindConfigMap && String.eqb (lor_Group certRef) "".

Section Client.
Context {client : Client}.

(** The full names of all Gateways. *)
Definition getAllDolphinGatewaysSet (w : World) : gset string + ApiError :=
  match cl_List KGateway (λ _, true) w with
  | inr e => inr e
  | inl items => inl (list_to_set ((λ gw, nn_String (ObjectKey (gw_meta gw))) <$> items))
  end.

(** helpers/gateway.go *)
Definition GatewayHasMatchingControllerFn (controllerName : string) (w : World) (gw : Gateway) : bool :=
  match cl_Get KGatewayClass (mkNamespacedName "" (gw_GatewayClassName gw)) w with
  | inl gwc => String.eqb (gc_ControllerName gwc) controllerName
  | inr _ => false
  end.

(** helpers/gatewayclass.go *)
Definition GatewayClassMatchesControllerName (controllerName : string) (gwc : GatewayClass) : bool :=
  String.eqb (gc_ControllerName gwc) controllerName.
End Client.

(** helpers/tcproute.go *)
Definition IsParentAttachable (reconcileParent : Gateway) (route : AnyRoute)
    (parents : list RouteParentStatus) (attachedListenerSets : list ListenerSet) : bool := true.

End gateway_helpers.

Module gateway_listeners.
Import gateway_helpers ingestion.

#[global] Instance FullyQualifiedResource_countable : Countable model.FullyQualifiedResource.
Proof.
  refine (inj_countable' (λ r, (model.fqr_Name r, model.fqr_Namespace r, model.fqr_Group r,
    model.fqr_Version r, model.fqr_Kind r, model.fqr_UID r))
    (λ '(a, b, c, d, e, f), model.mkFQR a b c d e f) _). by intros [].
Defined.

(** A slice that a loop appended to: nil if it never did. *)
Definition appended {A} (l : list A) : slice A := match l with [] => None | _ => Some l end.

(** The elements a loop keeps. *)
Definition go_filter {A} (f : A → go bool) (l : list A) : go (list A) :=
  go_flat_map (λ x, b ← f x; Ok (if b : bool then [x] else [])) l.

(** ** Precedence of ListenerSets *)

Definition listenerset_name (ls : ListenerSet) : string :=
  om_Namespace (lst_meta ls) +:+ "/" +:+ om_Name (lst_meta ls).

Definition listenerset_less (a b : ListenerSet) : bool :=
  let ti := om_CreationTimestamp (lst_meta a) in
  let tj := om_CreationTimestamp (lst_meta b) in
  if negb (Z.eqb ti tj) then Z.ltb ti tj else str_ltb (listenerset_name a) (listenerset_name b).

Definition sortListenerSets (sets : list ListenerSet) : list ListenerSet :=
  sort_stable listenerset_less sets.

(** ** Conflicts *)

Record listenerConflict := mkListenerConflict { lcf_reason : string; lcf_message : string }.

Abbreviation listenerConflictsBySource :=
  (gmap model.FullyQualifiedResource (gmap string listenerConflict)).

Definition isHTTPSAndTLSPassthroughPair (first second : Listener) : bool :=
  (gateway.IsHTTPSTerminatedListener first && gateway.IsTLSPassthroughListener second) ||
  (gateway.IsHTTPSTerminatedListener second && gateway.IsTLSPassthroughListener first).

Definition listenerConflictMessage (reason : string) (self other : Listener) : string :=
  "Listener conflicts with listener " +:+ routechecker.quote (l_Name other) +:+ ": same port " +:+
  Itoa (l_Port self) +:+
  (if String.eqb reason ListenerReasonHostnameConflict then " has overlapping hostnames."
   else if isHTTPSAndTLSPassthroughPair self other
   then " has overlapping HTTPS and TLS passthrough hostnames."
   else " has incompatible protocols.").

(** The reason of a conflict; everything after the comparison of the ports is
    commented out. *)
Definition listenerPairConflict (first second : Listener) : option string :=
  if negb (Z.eqb (l_Port first) (l_Port second)) then None else None.

Section Conflicts.

(** The search for conflicts, for any pairwise conflict. *)
Context (pair : Listener → Listener → option string).

Definition checkConflict (accepted : list Listener) (l : Listener) : string :=
  default "" (head (omap (λ a, pair a l) accepted)).

Definition accept (accepted : list Listener) (l : Listener) : list Listener := accepted ++ [l].

Definition within_pair (first : Listener) (conflicts : gmap string listenerConflict) (second : Listener)
  : gmap string listenerConflict :=
  match pair first second with
  | None => conflicts
  | Some reason =>
      <[l_Name second := mkListenerConflict reason (listenerConflictMessage reason second first)]>
      (<[l_Name first := mkListenerConflict reason (listenerConflictMessage reason first second)]> conflicts)
  end.

Fixpoint within_loop (conflicts : gmap string listenerConflict) (listeners : list Listener)
  : gmap string listenerConflict :=
  match listeners with
  | [] => conflicts
  | first :: rest => within_loop (foldl (within_pair first) conflicts rest) rest
  end.

Definition conflictsWithinSource (listeners : list Listener) : gmap string listenerConflict :=
  within_loop ∅ listeners.

(** The entries of one source, with further ones. *)
Definition add_conflicts (source : model.FullyQualifiedResource) (new : gmap string listenerConflict)
    (conflicts : listenerConflictsBySource) : listenerConflictsBySource :=
  if decide (new = ∅) then conflicts
  else <[source := new ∪ default ∅ (conflicts !! source)]> conflicts.

Definition conflicted (conflicts : listenerConflictsBySource) (source : model.FullyQualifiedResource)
    (l : Listener) : bool :=
  bool_decide (is_Some (conflicts !! source ≫= λ m, m !! l_Name l)).

(** The sources in the order of their first listener, and their listeners. *)
Definition group_step (st : list model.FullyQualifiedResource * gmap model.FullyQualifiedResource (list Listener))
    (lc : ListenerWithContext) :=
  (if decide (is_Some (st.2 !! lc_Source lc)) then st.1 else st.1 ++ [lc_Source lc],
   <[lc_Source lc := default [] (st.2 !! lc_Source lc) ++ [lc_Listener lc]]> st.2).

(** The listeners of a source against the accepted ones. *)
Definition across_listener (source : model.FullyQualifiedResource) (accepted : list Listener)
    (st : listenerConflictsBySource * list Listener) (l : Listener) :=
  let reason := checkConflict accepted l in
  if negb (String.eqb reason "")
  then (add_conflicts source {[ l_Name l := mkListenerConflict reason "" ]} st.1, st.2)
  else (st.1, st.2 ++ [l]).

Definition across_step (bySource : gmap model.FullyQualifiedResource (list Listener))
    (st : listenerConflictsBySource * list Listener) (source : model.FullyQualifiedResource) :=
  let '(conflicts, eligible) :=
    foldl (across_listener source st.2) (st.1, []) (default [] (bySource !! source)) in
  let conflicts := add_conflicts source (conflictsWithinSource eligible) conflicts in
  (conflicts, foldl (λ accepted l, if negb (conflicted conflicts source l) then accept accepted l else accepted)
                st.2 eligible).

Definition across (listeners : list ListenerWithContext) : listenerConflictsBySource * list Listener :=
  let '(sources, bySource) := foldl group_step ([], ∅) listeners in
  foldl (across_step bySource) (∅, []) sources.
End Conflicts.

Definition conflictsAcrossSources (listeners : list ListenerWithContext) : listenerConflictsBySource :=
  (across listenerPairConflict listeners).1.

(** ** Attachment of routes *)

Definition parentRefMatched (gw : Gateway) (listener : Listener) (routeNamespace : string)
    (parefs : list ParentReference) : bool :=
  existsb (λ ref,
    String.eqb (pr_Name ref) (om_Name (gw_meta gw)) &&
    String.eqb (om_Namespace (gw_meta gw)) (NamespaceDerefOr (pr_Namespace ref) routeNamespace) &&
    ((bool_decide (pr_SectionName ref = None) && bool_decide (pr_Port ref = None)) ||
     (nil_or (pr_SectionName ref) (l_Name listener) &&
      match pr_Port ref with None => true | Some p => Z.eqb p (l_Port listener) end))) parefs.

(** The two functions have the same body. *)
Definition accepted_by (gw : Gateway) (routeNamespace : string) (parents : list RouteParentStatus) : bool :=
  existsb (λ rps,
    String.eqb (NamespaceDerefOr (pr_Namespace (rps_ParentRef rps)) routeNamespace) (om_Namespace (gw_meta gw)) &&
    String.eqb (pr_Name (rps_ParentRef rps)) (om_Name (gw_meta gw)) &&
    existsb (λ c,
      (String.eqb (cond_Type c) ConditionAccepted && String.eqb (cond_Status c) ConditionTrue) ||
      (String.eqb (cond_Type c) ConditionResolvedRefs && String.eqb (cond_Status c) ConditionFalse))
      (rps_Conditions rps)) parents.

Definition isAttachable (gw : Gateway) (route : AnyRoute) (parents : list RouteParentStatus) : bool :=
  accepted_by gw (GetNamespace route) parents.
Definition isRouteMatchGateway (gw : Gateway) (route : AnyRoute) (parents : list RouteParentStatus) : bool :=
  accepted_by gw (GetNamespace route) parents.

Definition listenerMatchesRouteParent (gw : Gateway) (source : model.FullyQualifiedResource)
    (listener : Listener) (route : HTTPRoute) : bool :=
  existsb (λ ref,
    nil_or (pr_SectionName ref) (l_Name listener) &&
    match pr_Port ref with None => true | Some p => Z.eqb p (l_Port listener) end &&
    let ns := NamespaceDerefOr (pr_Namespace ref) (om_Namespace (rt_meta route)) in
    if String.eqb (model.fqr_Kind source) "ListenerSet"
    then IsListenerSet ref && String.eqb ns (model.fqr_Namespace source) &&
         String.eqb (pr_Name ref) (model.fqr_Name source)
    else IsGateway ref && String.eqb ns (om_Namespace (gw_meta gw)) &&
         String.eqb (pr_Name ref) (om_Name (gw_meta gw))) (rt_ParentRefs route).

Definition hasAllowedRoutesNamespaceSelector (gw : Gateway) : bool :=
  existsb (λ listener,
    match l_AllowedRoutes listener ≫= ar_Namespaces with
    | None => false
    | Some ns =>
        set_to (rn_From ns) NamespacesFromSelector ||
        (bool_decide (rn_From ns = None) && bool_decide (is_Some (rn_Selector ns)))
    end) (gw_Listeners gw).

Definition listenerOwnerNamespace (gw : Gateway) (listenerSource : option model.FullyQualifiedResource)
  : string :=
  match listenerSource with
  | Some s => if String.eqb (model.fqr_Kind s) "ListenerSet" then model.fqr_Namespace s
              else om_Namespace (gw_meta gw)
  | None => om_Namespace (gw_meta gw)
  end.

Section World.
Context {client : Client} {errors : ApiErrorText} {selectors : LabelSelectors}.

Definition resolveAllowedNamespaces (w : World) (listenerNamespace : string) (listener : Listener)
  : option (gset string) :=
  match l_AllowedRoutes listener ≫= ar_Namespaces with
  | None => Some {[ listenerNamespace ]}
  | Some ns =>
      match rn_From ns with
      | None => Some {[ listenerNamespace ]}
      | Some from =>
          if String.eqb from NamespacesFromAll then None
          else if String.eqb from NamespacesFromSame then Some {[ listenerNamespace ]}
          else if String.eqb from NamespacesFromSelector
          then match routechecker.list_namespaces (rn_Selector ns) w with
               | inr _ => Some {[ listenerNamespace ]}
               | inl nsList => Some (list_to_set ((λ n, om_Name (ns_meta n)) <$> nsList))
               end
          else Some {[ listenerNamespace ]}
      end
  end.

Definition mergeListeners (w : World) (gw : Gateway) (listenerSets : list ListenerSet)
  : list ListenerWithContext :=
  ((λ listener, mkListenerWithContext listener (gatewayFQR gw) (om_Generation (gw_meta gw)) None) <$>
     gw_Listeners gw) ++
  (listenerSets ≫= λ ls, (λ entry,
     let listener := listenerset.ListenerEntryToListener entry in
     mkListenerWithContext listener (listenerSetFQR ls) (om_Generation (lst_meta ls))
       (resolveAllowedNamespaces w (om_Namespace (lst_meta ls)) listener)) <$> lst_Listeners ls).

Definition isGRPCAllowed (gw : Gateway) (route : AnyRoute) (namespaceLabels : NamespaceLabelIndex) : bool :=
  existsb (λ listener, listenerisAllowed gw listener route namespaceLabels) (gw_Listeners gw).

(** A policy without [from] is a nil dereference. *)
Fixpoint isAllowed_loop (w : World) (gw : Gateway) (route : AnyRoute) (listeners : list Listener) : go bool :=
  match listeners with
  | [] => Ok false
  | listener :: rest =>
      match l_AllowedRoutes listener with
      | None => Ok (String.eqb (GetNamespace route) (om_Namespace (gw_meta gw)))
      | Some ar =>
          match ar_Namespaces ar with
          | None => Ok (String.eqb (GetNamespace route) (om_Namespace (gw_meta gw)))
          | Some ns =>
              if negb (isKindAllowed ar route) then isAllowed_loop w gw route rest
              else
                from ← deref (rn_From ns);
                if String.eqb from NamespacesFromAll then Ok true
                else if String.eqb from NamespacesFromSame
                then if String.eqb (GetNamespace route) (om_Namespace (gw_meta gw)) then Ok true
                     else isAllowed_loop w gw route rest
                else if String.eqb from NamespacesFromSelector
                then match routechecker.list_namespaces (rn_Selector ns) w with
                     | inr _ => Ok false
                     | inl nsList =>
                         if existsb (λ n, String.eqb (om_Name (ns_meta n)) (GetNamespace route)) nsList
                         then Ok true else isAllowed_loop w gw route rest
                     end
                else isAllowed_loop w gw route rest
          end
      end
  end.

Definition isAllowed (w : World) (gw : Gateway) (route : AnyRoute) : go bool :=
  isAllowed_loop w gw route (gw_Listeners gw).

(** *** By Gateway *)

Definition filterTCPRoutesByGateway (gw : Gateway) (attachedListenerSets : list ListenerSet)
    (routes : list TCPRoute) : list TCPRoute :=
  List.filter (λ r, IsParentAttachable gw (ATCPRoute r) (rt_Parents r) attachedListenerSets) routes.

Definition filterUDPRoutesByGateway (gw : Gateway) (attachedListenerSets : list ListenerSet)
    (routes : list UDPRoute) : list UDPRoute :=
  List.filter (λ r, IsParentAttachable gw (AUDPRoute r) (rt_Parents r) attachedListenerSets) routes.

(** A listener takes the route, at this listener or a later one. *)
Definition http_attaches (gw : Gateway) (route : HTTPRoute) (lc : ListenerWithContext) : bool :=
  if negb (listenerMatchesRouteParent gw (lc_Source lc) (lc_Listener lc) route) ||
     Nat.eqb (length (computeHostsForListener (lc_Listener lc) (rt_Hostnames route))) 0
  then false
  else if String.eqb (model.fqr_Kind (lc_Source lc)) "ListenerSet"
  then match lc_AllowedNamespaces lc with
       | None => true
       | Some allowed => bool_decide (om_Namespace (rt_meta route) ∈ allowed)
       end
  else listenerisAllowed gw (lc_Listener lc) (AnHTTPRoute route) ∅.

Definition filterHTTPRoutesByGateway (w : World) (gw : Gateway) (attachedListenerSets : list ListenerSet)
    (routes : list HTTPRoute) : list HTTPRoute :=
  let listeners := mergeListeners w gw attachedListenerSets in
  List.filter (λ route, existsb (http_attaches gw route) listeners) routes.

Definition filterGRPCRoutesByGateway (gw : Gateway) (routes : list GRPCRoute)
    (namespaceLabels : NamespaceLabelIndex) : list GRPCRoute :=
  List.filter (λ r, isAttachable gw (AGRPCRoute r) (rt_Parents r) &&
                    isGRPCAllowed gw (AGRPCRoute r) namespaceLabels &&
                    negb (Nat.eqb (length (computeHosts gw (rt_Hostnames r))) 0)) routes.

Definition filterTLSRoutesByGateway (w : World) (gw : Gateway) (routes : list TLSRoute) : go (list TLSRoute) :=
  go_filter (λ r,
    if isAttachable gw (ATLSRoute r) (rt_Parents r)
    then allowed ← isAllowed w gw (ATLSRoute r);
         Ok (allowed && negb (Nat.eqb (length (computeHosts gw (rt_Hostnames r))) 0))
    else Ok false) routes.

(** *** By listener *)

Definition filterHTTPRoutesByListener (w : World) (gw : Gateway) (listener : Listener)
    (routes : list HTTPRoute) : go (list HTTPRoute) :=
  go_filter (λ r,
    if isAttachable gw (AnHTTPRoute r) (rt_Parents r)
    then allowed ← isAllowed w gw (AnHTTPRoute r);
         Ok (allowed && negb (Nat.eqb (length (computeHostsForListener listener (rt_Hostnames r))) 0) &&
             parentRefMatched gw listener (om_Namespace (rt_meta r)) (rt_ParentRefs r))
    else Ok false) routes.

Definition filterTLSRoutesByListener (w : World) (gw : Gateway) (listener : Listener)
    (routes : list TLSRoute) : go (list TLSRoute) :=
  go_filter (λ r,
    if isAttachable gw (ATLSRoute r) (rt_Parents r)
    then allowed ← isAllowed w gw (ATLSRoute r);
         Ok (allowed && negb (Nat.eqb (length (computeHostsForListener listener (rt_Hostnames r))) 0) &&
             parentRefMatched gw listener (om_Namespace (rt_meta r)) (rt_ParentRefs r))
    else Ok false) routes.

Definition filterGRPCRoutesByListener (gw : Gateway) (listener : Listener) (routes : list GRPCRoute)
    (namespaceLabels : NamespaceLabelIndex) : list GRPCRoute :=
  List.filter (λ r, isAttachable gw (AGRPCRoute r) (rt_Parents r) &&
                    listenerisAllowed gw listener (AGRPCRoute r) namespaceLabels &&
                    negb (Nat.eqb (length (computeHostsForListener listener (rt_Hostnames r))) 0) &&
                    parentRefMatched gw listener (om_Namespace (rt_meta r)) (rt_ParentRefs r)) routes.

Definition filterTCPRoutesByListener (gw : Gateway) (listener : Listener) (routes : list TCPRoute)
    (namespaceLabels : NamespaceLabelIndex) (attachedListenerSets : list ListenerSet) : list TCPRoute :=
  List.filter (λ r, IsParentAttachable gw (ATCPRoute r) (rt_Parents r) attachedListenerSets &&
                    listenerisAllowed gw listener (ATCPRoute r) namespaceLabels &&
                    parentRefMatched gw listener (om_Namespace (rt_meta r)) (rt_ParentRefs r)) routes.

Definition filterUDPRoutesByListener (gw : Gateway) (listener : Listener) (routes : list UDPRoute)
    (namespaceLabels : NamespaceLabelIndex) (attachedListenerSets : list ListenerSet) : list UDPRoute :=
  List.filter (λ r, IsParentAttachable gw (AUDPRoute r) (rt_Parents r) attachedListenerSets &&
                    listenerisAllowed gw listener (AUDPRoute r) namespaceLabels &&
                    parentRefMatched gw listener (om_Namespace (rt_meta r)) (rt_ParentRefs r)) routes.

End World.

End gateway_listeners.
