(* ===== verification/GatewayListenersFacts.v ===== *)
(** * What the listeners of a Gateway guarantee

    [Module gateway_listeners_facts]: the search for conflicts, for any pairwise
    conflict and for the one the code has; the precedence of ListenerSets; which
    HTTPRoutes a Gateway takes. *)

From S2P Require Import Prelude GoStrings ApiTypes Model Hostnames Helpers Ingestion Translator FrontTranslators ApiServer Status RouteChecker GatewayListeners.
Import k8s gatewayv1 api types namespaces referencegrants gateway_helpers gateway_listeners ingestion.

Module gateway_listeners_facts.

(** ** Conflicts *)

Section Conflicts.
Context (pair : Listener → Listener → option string).

(** The listeners of a source, and those of all sources that are not reported, in
    order of precedence. *)
Definition listeners_of (listeners : list ListenerWithContext) (source : model.FullyQualifiedResource)
  : list Listener :=
  lc_Listener <$> filter (λ lc, lc_Source lc = source) listeners.

Fixpoint sources_of (seen : list model.FullyQualifiedResource) (listeners : list ListenerWithContext)
  : list model.FullyQualifiedResource :=
  match listeners with
  | [] => []
  | lc :: rest => if decide (lc_Source lc ∈ seen) then sources_of seen rest
                  else lc_Source lc :: sources_of (lc_Source lc :: seen) rest
  end.

Definition unreported (conflicts : listenerConflictsBySource) (listeners : list ListenerWithContext) : list Listener :=
  sources_of [] listeners ≫= λ source,
    List.filter (λ l, negb (conflicted conflicts source l)) (listeners_of listeners source).

(** *** Grouping *)

Lemma sources_of_ext a b listeners : (∀ x, x ∈ a ↔ x ∈ b) → sources_of a listeners = sources_of b listeners.
Proof.
  revert a b. induction listeners as [|lc l IH]; intros a b Hab; [done|]. cbn.
  destruct (decide (lc_Source lc ∈ a)) as [H|H], (decide (lc_Source lc ∈ b)) as [H'|H']; rewrite Hab in H; try done.
  - by apply IH.
  - f_equal. apply IH. set_solver.
Qed.

Lemma group_fold listeners sources bySource :
  (∀ s, is_Some (bySource !! s) ↔ s ∈ sources) →
  let '(sources', bySource') := foldl group_step (sources, bySource) listeners in
  sources' = sources ++ sources_of sources listeners ∧
  ∀ s, default [] (bySource' !! s) = default [] (bySource !! s) ++ listeners_of listeners s.
Proof.
  revert sources bySource. induction listeners as [|lc l IH]; intros sources bySource Hs.
  { cbn. split; [by rewrite app_nil_r|]. intros s. by rewrite app_nil_r. }
  cbn [foldl sources_of]. unfold group_step at 2. cbn [fst snd].
  set (b1 := <[lc_Source lc := _]> bySource).
  set (s1 := if decide (is_Some _) then sources else _).
  assert (Es1 : s1 = if decide (lc_Source lc ∈ sources) then sources else sources ++ [lc_Source lc]).
  { unfold s1. by destruct (decide (is_Some _)) as [H|H], (decide (_ ∈ sources)) as [H'|H']; rewrite Hs in H. }
  clearbody s1. assert (Hs1 : ∀ s, is_Some (b1 !! s) ↔ s ∈ s1).
  { intros s. unfold b1. rewrite lookup_insert, Es1. destruct (decide (lc_Source lc = s)) as [->|Hne].
    - split; [|by eexists]. intros _. destruct (decide (s ∈ sources)); set_solver.
    - rewrite Hs. destruct (decide (_ ∈ sources)); set_solver. }
  specialize (IH s1 b1 Hs1). destruct (foldl group_step (s1, b1) l) as [sources' bySource'].
  destruct IH as [E1 E2]. split.
  - rewrite E1, Es1. destruct (decide (_ ∈ sources)) as [H|H]; [done|].
    rewrite <-app_assoc. cbn. f_equal. f_equal. apply sources_of_ext. set_solver.
  - intros s. rewrite E2. unfold b1, listeners_of. rewrite lookup_insert, filter_cons.
    destruct (decide (lc_Source lc = s)) as [->|Hne]; [|done]. cbn. by rewrite <-app_assoc.
Qed.

(** *** Within a source *)

Lemma within_pair_mono first c second n :
  is_Some (c !! n) → is_Some (within_pair pair first c second !! n).
Proof.
  intros H. unfold within_pair. destruct (pair first second); [|done].
  rewrite !lookup_insert. by repeat case_decide.
Qed.

Lemma within_fold_mono first l c n :
  is_Some (c !! n) → is_Some (foldl (within_pair pair first) c l !! n).
Proof. revert c. induction l as [|x l IH]; intros c H; [done|]. by apply IH, within_pair_mono. Qed.

Lemma within_loop_mono l c n : is_Some (c !! n) → is_Some (within_loop pair c l !! n).
Proof. revert c. induction l as [|x l IH]; intros c H; [done|]. by apply IH, within_fold_mono. Qed.

Lemma within_fold_spec first l c second :
  second ∈ l → is_Some (pair first second) →
  let c' := foldl (within_pair pair first) c l in is_Some (c' !! l_Name first) ∧ is_Some (c' !! l_Name second).
Proof.
  intros Hin [reason Hp]. revert c. induction l as [|x l IH]; intros c; [by apply not_elem_of_nil in Hin|].
  apply elem_of_cons in Hin as [<-|Hin]; [|by apply IH]. cbn.
  split; apply within_fold_mono; unfold within_pair; rewrite Hp, !lookup_insert; by repeat case_decide.
Qed.

(** Two listeners of a source that conflict are both reported. *)
Lemma within_spec l c :
  ForallOrdPairs (λ a b, is_Some (pair a b) →
    is_Some (within_loop pair c l !! l_Name a) ∧ is_Some (within_loop pair c l !! l_Name b)) l.
Proof.
  revert c. induction l as [|x l IH]; intros c; constructor.
  - apply Forall_forall. intros y Hy Hp. cbn.
    destruct (within_fold_spec x l c y Hy Hp). split; by apply within_loop_mono.
  - cbn. apply IH.
Qed.

(** *** Across sources *)

Lemma conflicted_add source new c l :
  conflicted (add_conflicts source new c) source l =
  bool_decide (is_Some (new !! l_Name l)) || conflicted c source l.
Proof.
  unfold conflicted, add_conflicts. destruct (decide (new = ∅)) as [->|Hn]; [done|].
  rewrite lookup_insert, decide_True by done. cbn. rewrite lookup_union.
  destruct (new !! l_Name l) as [x|]; cbn.
  - rewrite bool_decide_true; [done|]. by destruct (default ∅ _ !! _); eexists.
  - destruct (c !! source) as [m|]; cbn; [|by rewrite lookup_empty]. by destruct (m !! l_Name l).
Qed.

Lemma add_conflicts_other source new c s : s ≠ source → add_conflicts source new c !! s = c !! s.
Proof. intros H. unfold add_conflicts. destruct (decide _); [done|]. by rewrite lookup_insert_ne by done. Qed.

Context (reasons : ∀ a b r, pair a b = Some r → r ≠ "").

Lemma checkConflict_none accepted l :
  checkConflict pair accepted l = "" → Forall (λ a, pair a l = None) accepted.
Proof using reasons.
  unfold checkConflict. induction accepted as [|a accepted IH]; [constructor|]. cbn.
  destruct (pair a l) as [r|] eqn:E.
  - cbn. intros ->. by apply reasons in E.
  - intros H. constructor; [done|by apply IH].
Qed.

Definition eligible (accepted : list Listener) (l : Listener) : bool := String.eqb (checkConflict pair accepted l) "".

Lemma across_listener_fold source accepted ls c e :
  let '(c', e') := foldl (across_listener pair source accepted) (c, e) ls in
  (∀ s, s ≠ source → c' !! s = c !! s) ∧ e' = e ++ List.filter (eligible accepted) ls ∧
  (∀ l, conflicted c source l = true → conflicted c' source l = true) ∧
  (∀ l, l ∈ ls → eligible accepted l = false → conflicted c' source l = true).
Proof using Type.
  revert c e. induction ls as [|l ls IH]; intros c e.
  { cbn. rewrite app_nil_r. split_and!; try done. by intros l ?%not_elem_of_nil. }
  cbn [foldl List.filter]. unfold across_listener at 2. fold (eligible accepted l). cbn [fst snd].
  destruct (eligible accepted l) eqn:El; cbn [negb].
  - specialize (IH c (e ++ [l])). destruct (foldl _ _ ls) as [c' e']. destruct IH as (H1 & -> & H3 & H4).
    split_and!; [done|by rewrite <-app_assoc|done|]. intros l' [->|Hl]%elem_of_cons; [congruence|by apply H4].
  - set (c1 := add_conflicts _ _ c). specialize (IH c1 e). destruct (foldl _ _ ls) as [c' e'].
    destruct IH as (H1 & -> & H3 & H4). split_and!; [|done| |].
    + intros s Hs. rewrite H1 by done. unfold c1. by apply add_conflicts_other.
    + intros l' Hl'. apply H3. unfold c1. rewrite conflicted_add, Hl'. by rewrite orb_true_r.
    + intros l' [->|Hl]%elem_of_cons Hf; [|by apply H4]. apply H3. unfold c1. rewrite conflicted_add.
      rewrite bool_decide_true; [done|]. by rewrite lookup_singleton_eq.
Qed.

Definition compatible (a b : Listener) : Prop := pair a b = None.

Lemma ForallOrdPairs_app {A} (P : A → A → Prop) l1 l2 :
  ForallOrdPairs P l1 → ForallOrdPairs P l2 → (∀ a b, a ∈ l1 → b ∈ l2 → P a b) → ForallOrdPairs P (l1 ++ l2).
Proof using Type.
  induction 1 as [|a l1 Ha Hl IH]; intros H2 H12; [done|]. cbn. constructor.
  - apply Forall_app. split; [done|]. apply Forall_forall. intros b Hb. apply H12; [left|done].
  - apply IH; [done|]. intros x y Hx. apply H12. by right.
Qed.

Lemma ForallOrdPairs_filter_impl {A} (P Q : A → A → Prop) (f : A → bool) l :
  (∀ a b, f a = true → f b = true → P a b → Q a b) → ForallOrdPairs P l → ForallOrdPairs Q (List.filter f l).
Proof using Type.
  intros HPQ. induction 1 as [|a l Ha Hl IH]; cbn; [constructor|]. destruct (f a) eqn:E; [|done].
  constructor; [|done]. rewrite Forall_forall in Ha |- *. intros b [Hb Hf]%list_elem_of_In%filter_In. apply HPQ; [done..|]. by apply Ha, list_elem_of_In.
Qed.

Lemma accept_fold (f : Listener → bool) accepted ls :
  foldl (λ accepted l, if negb (f l) then accept accepted l else accepted) accepted ls =
  accepted ++ List.filter (λ l, negb (f l)) ls.
Proof using Type.
  revert accepted. induction ls as [|l ls IH]; intros accepted; cbn; [by rewrite app_nil_r|].
  destruct (negb (f l)); rewrite IH; [|done]. unfold accept. by rewrite <-app_assoc.
Qed.

Lemma filter_filter_sub {A} (f g : A → bool) l :
  (∀ x, x ∈ l → g x = false → f x = false) → List.filter f (List.filter g l) = List.filter f l.
Proof using Type.
  induction l as [|x l IH]; intros H; [done|]. cbn. destruct (g x) eqn:E; cbn.
  - rewrite IH; [done|]. intros y Hy. apply H. by right.
  - rewrite (H x) by (done || left). apply IH. intros y Hy. apply H. by right.
Qed.

(** One source: what it adds, and that it fits. *)
Lemma across_step_spec bySource c accepted source :
  let ls := default [] (bySource !! source) in
  let '(c', accepted') := across_step pair bySource (c, accepted) source in
  (∀ s, s ≠ source → c' !! s = c !! s) ∧
  accepted' = accepted ++ List.filter (λ l, negb (conflicted c' source l)) ls ∧
  (ForallOrdPairs compatible accepted → ForallOrdPairs compatible accepted').
Proof using reasons.
  cbn zeta. unfold across_step. cbn [fst snd]. set (ls := default [] _).
  pose proof (across_listener_fold source accepted ls c []) as H.
  destruct (foldl (across_listener pair source accepted) (c, []) ls) as [c1 e]. destruct H as (H1 & -> & _ & H4).
  cbn [app]. set (c' := add_conflicts _ _ c1). rewrite accept_fold.
  assert (Hf : List.filter (λ l, negb (conflicted c' source l)) (List.filter (eligible accepted) ls) =
               List.filter (λ l, negb (conflicted c' source l)) ls).
  { apply filter_filter_sub. intros l Hl He. unfold c'. rewrite conflicted_add, (H4 l Hl He). by rewrite orb_true_r. }
  split_and!.
  - intros s Hs. unfold c'. rewrite add_conflicts_other by done. by apply H1.
  - by rewrite Hf.
  - intros Ha. apply ForallOrdPairs_app; [done| |].
    + eapply ForallOrdPairs_filter_impl; [|apply (within_spec _ ∅)]. cbn beta. intros a b Hca Hcb Hp.
      unfold compatible. destruct (pair a b) as [r|]; [|done]. exfalso.
      destruct Hp as [Hna _]; [by eexists|]. unfold c' in Hca. rewrite conflicted_add in Hca.
      by rewrite bool_decide_true in Hca.
    + intros a b Haa Hb. apply list_elem_of_In, filter_In in Hb as [[_ Hb]%filter_In _].
      apply String.eqb_eq, checkConflict_none in Hb. rewrite Forall_forall in Hb. by apply Hb.
Qed.

Lemma across_fold bySource sources c accepted :
  NoDup sources →
  let '(c', accepted') := foldl (across_step pair bySource) (c, accepted) sources in
  (∀ s, s ∉ sources → c' !! s = c !! s) ∧
  accepted' = accepted ++ (sources ≫= λ source,
    List.filter (λ l, negb (conflicted c' source l)) (default [] (bySource !! source))) ∧
  (ForallOrdPairs compatible accepted → ForallOrdPairs compatible accepted').
Proof using reasons.
  intros Hnd. revert c accepted. induction Hnd as [|source sources Hs Hnd IH]; intros c accepted.
  { cbn. by rewrite app_nil_r. }
  cbn [foldl mbind list_bind]. pose proof (across_step_spec bySource c accepted source) as H. cbn zeta in H.
  destruct (across_step pair bySource (c, accepted) source) as [c1 a1]. destruct H as (H1 & -> & H3).
  specialize (IH c1 (accepted ++ List.filter (λ l, negb (conflicted c1 source l)) (default [] (bySource !! source)))).
  destruct (foldl _ _ sources) as [c' a']. destruct IH as (I1 & -> & I3). split_and!.
  - intros s [Hne Hns]%not_elem_of_cons. rewrite I1 by done. by apply H1.
  - rewrite <-app_assoc. f_equal. f_equal. assert (E : c' !! source = c1 !! source) by by apply I1.
    unfold conflicted. by rewrite E.
  - auto.
Qed.

Lemma sources_of_NoDup seen listeners :
  NoDup (sources_of seen listeners) ∧ ∀ s, s ∈ sources_of seen listeners → s ∉ seen.
Proof using Type.
  revert seen. induction listeners as [|lc l IH]; intros seen; cbn.
  { split; [constructor|]. by intros s ?%not_elem_of_nil. }
  destruct (decide _) as [H|H]; [apply IH|]. destruct (IH (lc_Source lc :: seen)) as [H1 H2]. split.
  - constructor; [|done]. intros Hin. apply (H2 _ Hin). left.
  - intros s [->|Hs]%elem_of_cons; [done|]. specialize (H2 _ Hs). by apply not_elem_of_cons in H2 as [_ ?].
Qed.

(** The search for conflicts between listeners, with the conflict of two of them
    as a parameter: the listeners that it does not report, of the Gateway and of
    its ListenerSets in order of precedence, do not conflict with each other.  This
    is about the loops; at the code's own [listenerPairConflict], which finds no
    conflict, it is trivial (see [conflicts_never_reported]). *)
Theorem unreported_compatible listeners :
  ForallOrdPairs compatible (unreported (across pair listeners).1 listeners).
Proof using reasons.
  unfold across. pose proof (group_fold listeners [] ∅) as H.
  destruct (foldl group_step ([], ∅) listeners) as [sources bySource]. destruct H as [-> Hb].
  { intros s. rewrite lookup_empty. split; [by intros []|by intros ?%not_elem_of_nil]. }
  cbn [app] in *. pose proof (across_fold bySource (sources_of [] listeners) ∅ [] (proj1 (sources_of_NoDup [] listeners))) as H.
  destruct (foldl _ _ (sources_of [] listeners)) as [c a]. cbn [fst]. destruct H as (_ & -> & Hc).
  cbn [app] in Hc. unfold unreported.
  assert (E : ∀ s, listeners_of listeners s = default [] (bySource !! s)).
  { intros s. by rewrite Hb, lookup_empty. }
  assert (Ee : (sources_of [] listeners ≫= λ source, List.filter (λ l, negb (conflicted c source l))
      (listeners_of listeners source)) =
    (sources_of [] listeners ≫= λ source, List.filter (λ l, negb (conflicted c source l))
      (default [] (bySource !! source)))).
  { apply list_bind_ext; [|done]. intros s. by rewrite E. }
  rewrite Ee. apply Hc. constructor.
Qed.

End Conflicts.

(** *** The pairwise conflict of the code *)

Lemma listenerPairConflict_none a b : listenerPairConflict a b = None.
Proof. unfold listenerPairConflict. by destruct (negb _). Qed.

Lemma within_none l c : within_loop listenerPairConflict c l = c.
Proof.
  revert c. induction l as [|x l IH]; intros c; [done|]. cbn. rewrite IH. clear IH.
  induction l as [|y l IH]; [done|]. cbn. unfold within_pair at 2. by rewrite listenerPairConflict_none.
Qed.

(** no conflict between listeners is ever reported, whatever the listeners:
    two that claim the same port, protocol and hostname are both accepted.  The
    comparison of two listeners is commented out. *)
Theorem conflicts_never_reported listeners : conflictsAcrossSources listeners = ∅.
Proof.
  unfold conflictsAcrossSources, across. destruct (foldl group_step ([], ∅) listeners) as [sources bySource].
  assert (H : ∀ st, st.1 = ∅ → (foldl (across_step listenerPairConflict bySource) st sources).1 = ∅).
  { induction sources as [|s sources IH]; intros st Hst; [done|]. apply IH. unfold across_step.
    assert (Hf : ∀ ls e, foldl (across_listener listenerPairConflict s st.2) (st.1, e) ls = (st.1, e ++ ls)).
    { induction ls as [|l ls IHl]; intros e; cbn; [by rewrite app_nil_r|].
      unfold across_listener at 2. assert (Ec : checkConflict listenerPairConflict st.2 l = "").
      { unfold checkConflict. clear. induction st.2 as [|a acc IH]; [done|]. cbn. by rewrite listenerPairConflict_none. }
      rewrite Ec. cbn. rewrite IHl. by rewrite <-app_assoc. }
    rewrite Hf. cbn [fst]. unfold conflictsWithinSource. rewrite within_none. unfold add_conflicts.
    by rewrite decide_True. }
  by apply H.
Qed.

(** ** Precedence of ListenerSets *)

Lemma listenerset_less_asym a b : listenerset_less a b = true → listenerset_less b a = false.
Proof.
  unfold listenerset_less. rewrite (Z.eqb_sym (om_CreationTimestamp (lst_meta b))).
  destruct (Z.eqb_spec (om_CreationTimestamp (lst_meta a)) (om_CreationTimestamp (lst_meta b))); cbn.
  - apply str_ltb_asym.
  - rewrite Z.ltb_lt, Z.ltb_ge. lia.
Qed.

(** Not after: created earlier, or at the same time and not later by name. *)
Lemma listenerset_le a b :
  sorted_le listenerset_less a b ↔
  (om_CreationTimestamp (lst_meta a) < om_CreationTimestamp (lst_meta b))%Z ∨
  om_CreationTimestamp (lst_meta a) = om_CreationTimestamp (lst_meta b) ∧
    sorted_le str_ltb (listenerset_name a) (listenerset_name b).
Proof.
  unfold sorted_le, listenerset_less.
  destruct (Z.eqb_spec (om_CreationTimestamp (lst_meta b)) (om_CreationTimestamp (lst_meta a))); cbn.
  - split; [by right|]. intros [?|[_ ?]]; [lia|done].
  - rewrite Z.ltb_ge. split; [intros; left; lia|]. intros [?|[? _]]; lia.
Qed.

Lemma listenerset_le_trans a b c :
  sorted_le listenerset_less a b → sorted_le listenerset_less b c → sorted_le listenerset_less a c.
Proof.
  rewrite !listenerset_le. intros [?|[? ?]] [?|[? ?]]; [left; lia..|].
  right. split; [lia|]. by eapply str_le_trans.
Qed.

(** ListenerSets with different names have one order of precedence, which does
    not depend on the order in which they are listed nor on the sort being stable:
    older ones first, those of the same age by name.  Every sorted list of the same
    ListenerSets is the result. *)
Theorem sortListenerSets_precedence sets sets' :
  NoDup (listenerset_name <$> sets) → sets' ≡ₚ sets → StronglySorted (sorted_le listenerset_less) sets' →
  sortListenerSets sets = sets' ∧
  ∀ i j a b, (i < j)%nat → sets' !! i = Some a → sets' !! j = Some b →
    (om_CreationTimestamp (lst_meta a) < om_CreationTimestamp (lst_meta b))%Z ∨
    om_CreationTimestamp (lst_meta a) = om_CreationTimestamp (lst_meta b) ∧
      str_ltb (listenerset_name a) (listenerset_name b) = true.
Proof.
  intros Hnd Hp Hs.
  assert (Hinj : ∀ i j a b, sets' !! i = Some a → sets' !! j = Some b → listenerset_name a = listenerset_name b → i = j).
  { intros i j a b Hi Hj E. apply (NoDup_lookup (listenerset_name <$> sets') i j (listenerset_name a)).
    - by rewrite Hp.
    - by rewrite list_lookup_fmap, Hi.
    - rewrite list_lookup_fmap, Hj. cbn. by rewrite E. }
  split.
  - rewrite <-(sort_stable_fixed _ sets' Hs). unfold sortListenerSets. symmetry.
    apply (sort_stable_unique _ listenerset_less_asym listenerset_le_trans); [done|].
    intros a b Ha Hb. rewrite !listenerset_le. intros [?|[Ht Hle]] [?|[? Hge]]; [lia..|].
    apply list_elem_of_lookup in Ha as [i Hi], Hb as [j Hj].
    pose proof (Hinj i j a b Hi Hj (str_le_antisym _ _ Hle Hge)). congruence.
  - intros i j a b Hij Hi Hj. pose proof (StronglySorted_lookup _ _ i j a b Hs Hij Hi Hj) as H.
    apply listenerset_le in H as [?|[Ht Hle]]; [by left|]. right. split; [done|].
    apply str_ltb_total; [|done]. intros E. pose proof (Hinj i j a b Hi Hj (eq_sym E)). lia.
Qed.

(** ** HTTPRoutes of a Gateway *)

Section Routes.
Context {client : Client} {selectors : LabelSelectors}.

(** a Gateway whose listeners all select namespaces by label takes no
    HTTPRoute at all: the labels of the namespaces are not passed to the check
    that would look at them. *)
Theorem selector_listeners_take_no_HTTPRoute w gw routes :
  (∀ l, l ∈ gw_Listeners gw → ∃ ar ns, l_AllowedRoutes l = Some ar ∧ ar_Namespaces ar = Some ns ∧
     rn_From ns = Some NamespacesFromSelector) →
  filterHTTPRoutesByGateway w gw [] routes = [].
Proof.
  intros Hl. unfold filterHTTPRoutesByGateway. induction routes as [|r routes IH]; [done|]. cbn [List.filter].
  destruct (existsb _ _) eqn:E; [|done]. exfalso. clear IH.
  apply existsb_elem in E as (lc & Hin & Ha). unfold mergeListeners in Hin. cbn in Hin. rewrite app_nil_r in Hin.
  apply list_elem_of_fmap in Hin as (l & -> & Hin). destruct (Hl l Hin) as (ar & ns & E1 & E2 & E3).
  unfold http_attaches in Ha. cbn [lc_Listener lc_Source gatewayFQR model.fqr_Kind] in Ha.
  destruct (_ || _) in Ha; [done|]. cbn [String.eqb Ascii.eqb Bool.eqb] in Ha.
  unfold listenerisAllowed, IsListenerNamespaceAllowed, isNamespaceSelected in Ha.
  rewrite E1 in Ha. cbn in Ha. rewrite E2, E3 in Ha. cbn in Ha. rewrite lookup_empty in Ha. by destruct (isKindAllowed _ _).
Qed.

End Routes.

End gateway_listeners_facts.
