(* ===== verification/ListenerStatus.v ===== *)
(** * Validation and status of listeners

    [Module listener_status], from src/pkg/gateway_api/gateway_reconcile.go: the
    validation of a listener of a ListenerSet, the status of the listeners of a
    Gateway, the statuses of ListenerSets, and the addresses of a Gateway. *)

From S2P Require Import Prelude GoStrings ApiTypes Model Hostnames Helpers Ingestion Translator FrontTranslators ApiServer Status RouteChecker GatewayListeners.
Import k8s gatewayv1 api types namespaces referencegrants status gateway_helpers gateway_listeners.

Module listener_status.

Section Reconciler.
Context {client : Client} {errors : ApiErrorText} {selectors : LabelSelectors} {clock : Clock} {pem : certs.Pem}.

(** ** TLS secrets *)

(** The text of the error, if there is one. *)
Definition validateTLSSecret (w : World) (namespace name : string) : option string :=
  let n := mkNamespacedName namespace name in
  match cl_Get KSecret n w with
  | inr e => Some (ErrorText KSecret n e)
  | inl secret =>
      if negb (certs.isValidPemFormat (default "" (sec_Data secret !! TLSCertKey)))
      then Some "tls cert key is missed"
      else if negb (certs.isValidPemFormat (default "" (sec_Data secret !! TLSPrivateKeyKey)))
      then Some "TLS PRIVATE KEY "
      else None
  end.

(** A False ResolvedRefs condition. *)
Definition refs_condition (reason msg : string) (generation : Z) : Condition :=
  mkCondition ConditionResolvedRefs ConditionFalse reason msg generation now.

Definition resolved_condition (generation : Z) : Condition :=
  mkCondition ConditionResolvedRefs ConditionTrue ReasonResolvedRefs "Resolved Refs" generation now.

(** What is wrong with a certificate reference: the condition and the message. *)
Definition certificate_problem (w : World) (ownerNamespace : string) (ownerGVK : GroupVersionKind)
    (generation : Z) (grants : list ReferenceGrant) (cert : SecretObjectReference)
  : option (Condition * string) :=
  if negb (IsSecret cert)
  then Some (refs_condition ListenerReasonInvalidCertificateRef "Invalid CertificateRef" generation,
             "Invalid CertificateRef, must be a Secret.")
  else if negb (IsSecretReferenceAllowed ownerNamespace cert ownerGVK grants)
  then Some (refs_condition ReasonRefNotPermitted "CertificateRef is not permitted" generation,
             "Invalid CertificateRef, not permitted.")
  else match validateTLSSecret w (NamespaceDerefOr (sor_Namespace cert) ownerNamespace) (sor_Name cert) with
       | Some err => Some (refs_condition ListenerReasonInvalidCertificateRef "Invalid CertificateRef" generation,
                           "Invalid CertificateRef, " +:+ err)
       | None => None
       end.

(** ** Listeners of ListenerSets *)

Record listenerValidationParams := mkListenerValidationParams {
  lvp_ownerNamespace : string; lvp_ownerKind : string; lvp_generation : Z;
  lvp_grants : list ReferenceGrant }.

Record listenerValidationResult := mkListenerValidationResult {
  lvr_isValid : bool;
  lvr_supportedKinds : slice RouteGroupKind;
  lvr_invalidReason : string;
  lvr_invalidMessages : list string;
  lvr_conds : list Condition
}.

Definition listenerInvalidRouteKinds (generation : Z) (msg : string) : Condition :=
  mkCondition ConditionResolvedRefs ConditionFalse ListenerReasonInvalidRouteKinds msg generation now.

Definition invalid (res : listenerValidationResult) (msg : string) : listenerValidationResult :=
  mkListenerValidationResult false (lvr_supportedKinds res) (lvr_invalidReason res)
    (lvr_invalidMessages res ++ [msg]) (lvr_conds res).

Definition with_reason (res : listenerValidationResult) (reason : string) : listenerValidationResult :=
  mkListenerValidationResult (lvr_isValid res) (lvr_supportedKinds res) reason
    (lvr_invalidMessages res) (lvr_conds res).
Definition with_kinds (res : listenerValidationResult) (kinds : slice RouteGroupKind) : listenerValidationResult :=
  mkListenerValidationResult (lvr_isValid res) kinds (lvr_invalidReason res)
    (lvr_invalidMessages res) (lvr_conds res).
Definition with_cond (res : listenerValidationResult) (c : Condition) : listenerValidationResult :=
  mkListenerValidationResult (lvr_isValid res) (lvr_supportedKinds res) (lvr_invalidReason res)
    (lvr_invalidMessages res) (merge (lvr_conds res) [c]).

(** The supported kinds that are allowed too. *)
Definition allowed_kinds (allSupported kinds : list RouteGroupKind) : list RouteGroupKind :=
  List.filter (λ supported, existsb (λ allowed,
    String.eqb (rgk_Kind supported) (rgk_Kind allowed) &&
    String.eqb (groupDerefOr (rgk_Group allowed) GroupName) (default "" (rgk_Group supported))) kinds)
    allSupported.

Definition validate_kinds (l : Listener) (params : listenerValidationParams) (res : listenerValidationResult)
  : listenerValidationResult :=
  let allSupported := getSupportedRouteKinds (l_Protocol l) in
  match l_AllowedRoutes l with
  | Some ar =>
      if negb (Nat.eqb (length (elems (ar_Kinds ar))) 0) then
        let supportedKinds := allowed_kinds (elems allSupported) (elems (ar_Kinds ar)) in
        let res := with_kinds res (Some supportedKinds) in
        if negb (Nat.eqb (length supportedKinds) (length (elems (ar_Kinds ar)))) then
          let res := with_cond res (listenerInvalidRouteKinds (lvp_generation params)
                       "Unsupported Route Kinds in allowedRoutes.kinds") in
          if Nat.eqb (length supportedKinds) 0
          then invalid res "None of the Allowed Route Kinds are supported." else res
        else res
      else with_kinds res allSupported
  | None => with_kinds res allSupported
  end.

Definition validate_tls (w : World) (l : Listener) (params : listenerValidationParams)
    (res : listenerValidationResult) : listenerValidationResult :=
  match l_TLS l with
  | None => res
  | Some tls =>
      let res :=
        match head (omap (certificate_problem w (lvp_ownerNamespace params)
                      (GatewayV1GVK (lvp_ownerKind params)) (lvp_generation params) (lvp_grants params))
                    (tls_CertificateRefs tls)) with
        | Some (c, msg) => invalid (with_cond res c) msg
        | None => res
        end in
      if String.eqb (l_Protocol l) TLSProtocolType && set_to (tls_Mode tls) TLSModeTerminate
      then with_kinds (with_reason (invalid res "Using TLSRoute with TLS.mode Terminate is unsupported.")
             ReasonUnsupportedValue) (Some [])
      else res
  end.

Definition validateListener (w : World) (l : Listener) (params : listenerValidationParams)
  : listenerValidationResult :=
  let res := mkListenerValidationResult true None ReasonInvalid [] [] in
  let res := match getSupportedRouteKinds (l_Protocol l) with
             | None => with_reason (invalid res "Unsupported Listener Protocol.") ListenerReasonUnsupportedProtocol
             | Some _ => res
             end in
  validate_tls w l params (validate_kinds l params res).

(** ** Listeners of Gateways *)

(** An [int32] counter with the routes of one kind added. *)
Definition add_attached (n : Z) (routes : nat) : Z := i32 (n + i32 (Z.of_nat routes)).

(** The lists of routes. *)
Record Routes := mkRoutes {
  rs_http : list HTTPRoute; rs_tls : list TLSRoute; rs_grpc : list GRPCRoute;
  rs_tcp : list TCPRoute; rs_udp : list UDPRoute }.

Definition attachedRoutes (w : World) (gw : Gateway) (l : Listener) (routes : Routes)
    (namespaceLabels : NamespaceLabelIndex) : go Z :=
  http ← filterHTTPRoutesByListener w gw l (rs_http routes);
  tls ← filterTLSRoutesByListener w gw l (rs_tls routes);
  let n := add_attached 0 (length http) in
  let n := add_attached n (length tls) in
  let n := add_attached n (length (filterGRPCRoutesByListener gw l (rs_grpc routes) namespaceLabels)) in
  let n := add_attached n (length (filterTCPRoutesByListener gw l (rs_tcp routes) namespaceLabels [])) in
  Ok (add_attached n (length (filterUDPRoutesByListener gw l (rs_udp routes) namespaceLabels []))).

(** The kinds a listener of a Gateway supports, and whether it asks for others. *)
Definition gateway_kinds (l : Listener) : list RouteGroupKind * bool :=
  let '(protoGroup, protoKind) := getSupportedGroupKind (l_Protocol l) in
  match l_AllowedRoutes l with
  | Some ar =>
      if negb (Nat.eqb (length (elems (ar_Kinds ar))) 0) then
        let ok k := String.eqb (groupDerefOr (rgk_Group k) GroupName) (default "" protoGroup) &&
                    String.eqb (rgk_Kind k) protoKind in
        (List.filter ok (elems (ar_Kinds ar)), existsb (λ k, negb (ok k)) (elems (ar_Kinds ar)))
      else ([mkRouteGroupKind protoGroup protoKind], false)
  | None => ([mkRouteGroupKind protoGroup protoKind], false)
  end.

Definition gateway_certificate_problem (w : World) (gw : Gateway) (grants : list ReferenceGrant) (l : Listener)
  : option Condition :=
  match l_TLS l with
  | None => None
  | Some tls => fst <$> head (omap (certificate_problem w (om_Namespace (gw_meta gw))
                  (GatewayV1GVK "Gateway") 0 grants) (tls_CertificateRefs tls))
  end.

(** The conditions of a listener of a Gateway. *)
Definition gateway_conditions (w : World) (gw : Gateway) (grants : list ReferenceGrant) (l : Listener)
  : list Condition :=
  let '(_, invalidRouteKinds) := gateway_kinds l in
  let conds :=
    if invalidRouteKinds : bool then [gatewayListenerInvalidRouteKinds gw "Invalid Route Kinds"]
    else [gatewayListenerProgrammedCondition gw true "Listener Programmed";
          gatewayListenerAcceptedCondition gw true "Listener Accepted";
          resolved_condition 0] in
  let '(conds, isValid) :=
    match gateway_certificate_problem w gw grants l with
    | Some c => (merge conds [c], false)
    | None => (conds, negb invalidRouteKinds)
    end in
  if negb isValid
  then merge conds [mkCondition ConditionProgrammed ConditionFalse ReasonInvalid "Invalid CertificateRef" 0 now]
  else conds.

(** The entry of a listener is replaced, or a new one added. *)
Fixpoint set_listener_status (s : ListenerStatus) (l : list ListenerStatus) : list ListenerStatus :=
  match l with
  | [] => [s]
  | s' :: l' => if String.eqb (lstat_Name s) (lstat_Name s') then s :: l' else s' :: set_listener_status s l'
  end.

Definition with_gs_Listeners (gw : Gateway) (l : list ListenerStatus) : Gateway :=
  with_gw_Status gw (mkGatewayStatus (gs_Addresses (gw_Status gw)) (gs_Conditions (gw_Status gw)) l
                       (gs_AttachedListenerSets (gw_Status gw))).

Definition listener_status (w : World) (gw : Gateway) (grants : list ReferenceGrant) (routes : Routes)
    (namespaceLabels : NamespaceLabelIndex) (l : Listener) : go ListenerStatus :=
  attached ← attachedRoutes w gw l routes namespaceLabels;
  Ok (mkListenerStatus (l_Name l) (Some (gateway_kinds l).1) (gateway_conditions w gw grants l) attached).

Definition setListenerStatus (w : World) (gw : Gateway) (routes : Routes)
    (namespaceLabels : NamespaceLabelIndex) : go (Gateway + error) :=
  match cl_List KReferenceGrant (λ _, true) w with
  | inr e => Ok (inr (wrap "failed to retrieve reference grants: " (Api e)))
  | inl grants =>
      statuses ← go_foldl (λ st l,
        s ← listener_status w gw grants routes namespaceLabels l;
        Ok (set_listener_status s st)) (gs_Listeners (gw_Status gw)) (gw_Listeners gw);
      Ok (inl (with_gs_Listeners gw
                 (List.filter (λ s, existsb (λ l, String.eqb (lstat_Name s) (l_Name l)) (gw_Listeners gw)) statuses)))
  end.

(** ** ListenerSets *)

Definition updateListenerSetStatus (original new : ListenerSet) : R unit :=
  if cmp.Equal (lst_Status original) (lst_Status new) then mret tt
  else write (cl_UpdateStatus KListenerSet new).

Definition listenerSetsForGateway (w : World) (gw : Gateway) : list ListenerSet + error :=
  match cl_List KListenerSet (λ _, true) w with
  | inr e => inr (wrap "failed to list ListenerSets: " (Api e))
  | inl items => inl (sortListenerSets items)
  end.

Definition listenerset_allowed (w : World) (gw : Gateway) (ls : ListenerSet) : bool :=
  listenerset.IsListenerSetAllowed
    (λ sel, match routechecker.list_namespaces sel w with inl l => Some l | inr _ => None end)
    (gw_meta gw) (gw_AllowedListeners gw) ls.

Definition notAllowedMessage : string :=
  "ListenerSet is not allowed by the Gateway's allowedListeners policy".

(** A status that cannot be written is only logged. *)
Definition filterToAllowedListenerSets (gw : Gateway) (listenerSets : list ListenerSet)
  : R (list ListenerSet) :=
  R_fold (λ allowed ls,
    ok ← query (λ w, Ok (listenerset_allowed w gw ls));
    if negb ok then
      let ls' := setListenerSetProgrammed
                   (setListenerSetAccepted ls false notAllowedMessage ListenerSetReasonNotAllowed)
                   false notAllowedMessage ListenerSetReasonNotAllowed in
      _ ← attempt (updateListenerSetStatus ls ls');
      mret allowed
    else mret (allowed ++ [ls])) [] listenerSets.

(** The conditions of a listener of a ListenerSet that is not in conflict, and
    whether it is valid. *)
Definition entry_conditions (w : World) (ls : ListenerSet) (grants : list ReferenceGrant) (l : Listener)
  : listenerValidationResult * list Condition :=
  let generation := om_Generation (lst_meta ls) in
  let res := validateListener w l
    (mkListenerValidationParams (om_Namespace (lst_meta ls)) (lst_Kind ls) generation grants) in
  let conds := merge [] (lvr_conds res) in
  if negb (lvr_isValid res) then
    (res, merge conds
       [listenerAcceptedCondition generation false (lvr_invalidReason res)
          ("Listener not valid. " +:+ Join (lvr_invalidMessages res) " ");
        listenerProgrammedCondition generation false (lvr_invalidReason res) "Listener not valid"])
  else
    let conds := if negb (conditions.IsConditionPresent conds ConditionResolvedRefs)
                 then merge conds [resolved_condition generation] else conds in
    (res, merge conds
       [listenerAcceptedCondition generation true ReasonAccepted "Listener Accepted";
        listenerProgrammedCondition generation true ConditionProgrammed "Listener Programmed"]).

(** The status of a listener of a ListenerSet, and whether it is valid. *)
Definition entry_status (w : World) (gw : Gateway) (ls : ListenerSet) (grants : list ReferenceGrant)
    (conflicts : listenerConflictsBySource) (routes : Routes) (namespaceLabels : NamespaceLabelIndex)
    (entry : Listener) : go (ListenerStatus * bool) :=
  let l := listenerset.ListenerEntryToListener entry in
  let '(valid, supportedKinds, conds) :=
    if conflicted conflicts (listenerSetFQR ls) l then (false, None, [])
    else let '(res, conds) := entry_conditions w ls grants l in
         (lvr_isValid res, lvr_supportedKinds res, conds) in
  http ← filterHTTPRoutesByListener w gw l (rs_http routes);
  let n := add_attached 0 (length http) in
  let n := add_attached n (length (filterTCPRoutesByListener gw l (rs_tcp routes) namespaceLabels [ls])) in
  let n := add_attached n (length (filterUDPRoutesByListener gw l (rs_udp routes) namespaceLabels [ls])) in
  Ok (mkListenerStatus (l_Name entry) supportedKinds conds n, valid).

Definition listenerset_status (w : World) (gw : Gateway) (grants : list ReferenceGrant)
    (conflicts : listenerConflictsBySource) (routes : Routes) (namespaceLabels : NamespaceLabelIndex)
    (ls : ListenerSet) : go (ListenerSet * bool) :=
  entries ← go_map (entry_status w gw ls grants conflicts routes namespaceLabels) (lst_Listeners ls);
  let oneValidListener := existsb snd entries in
  let ls := with_lst_Status ls (mkListenerSetStatus (lss_Conditions (lst_Status ls)) (fst <$> entries)) in
  Ok (if oneValidListener
      then (setListenerSetProgrammed (setListenerSetAccepted ls true "ListenerSet is accepted" ReasonAccepted)
              true "ListenerSet is programmed" ReasonProgrammed, true)
      else (setListenerSetProgrammed
              (setListenerSetAccepted ls false "No valid listeners" ListenerSetReasonListenersNotValid)
              false "No valid listeners" ListenerSetReasonListenersNotValid, false)).

Definition with_AttachedListenerSets (gw : Gateway) (n : option Z) : Gateway :=
  with_gw_Status gw (mkGatewayStatus (gs_Addresses (gw_Status gw)) (gs_Conditions (gw_Status gw))
                       (gs_Listeners (gw_Status gw)) n).

(** The Gateway comes back with the number of its valid ListenerSets. *)
Definition setListenerSetStatuses (gw : Gateway) (attachedListenerSets : list ListenerSet)
    (conflicts : listenerConflictsBySource) (routes : Routes) (namespaceLabels : NamespaceLabelIndex)
  : R Gateway :=
  let gw := with_AttachedListenerSets gw None in
  grants ← attempt (read (cl_List KReferenceGrant (λ _, true)));
  match grants with
  | inr _ => mret gw
  | inl grants =>
      validAttachedCount ← R_fold (λ (n : Z) ls,
        '(ls', valid) ← query (λ w, listenerset_status w gw grants conflicts routes namespaceLabels ls);
        _ ← attempt (updateListenerSetStatus ls ls');
        mret (if valid : bool then i32 (n + 1) else n)) 0%Z attachedListenerSets;
      mret (if bool_decide (0 < validAttachedCount)%Z
            then with_AttachedListenerSets gw (Some validAttachedCount) else gw)
  end.

(** ** Addresses *)

Definition lb_addresses (s : LoadBalancerIngress) : list GatewayStatusAddress :=
  (if negb (Nat.eqb (len (lbi_IP s)) 0) then [mkGatewayStatusAddress (Some IPAddressType) (lbi_IP s)] else []) ++
  (if negb (Nat.eqb (len (lbi_Hostname s)) 0)
   then [mkGatewayStatusAddress (Some HostnameAddressType) (lbi_Hostname s)] else []).

Definition owned_service (gw : Gateway) (s : ServiceObject) : bool :=
  bool_decide (fs_Labels (so_svc s) !! gateway_api.owningGatewayLabel =
               Some (helper.Shorten (om_Name (gw_meta gw)))) &&
  String.eqb (fs_Namespace (so_svc s)) (om_Namespace (gw_meta gw)).

Definition setAddressStatus (w : World) (gw : Gateway) : Gateway + error :=
  match cl_List KService (owned_service gw) w with
  | inr e => inr (Api e)
  | inl [] => inr (Msg "no service found")
  | inl (svc :: _) =>
      match elems (so_Status svc) with
      | [] => inr (Msg "load balancer status is not ready")
      | ingress => inl (with_gw_Status gw (mkGatewayStatus (ingress ≫= lb_addresses) (gs_Conditions (gw_Status gw))
                                             (gs_Listeners (gw_Status gw)) (gs_AttachedListenerSets (gw_Status gw))))
      end
  end.

End Reconciler.

End listener_status.
