(* ===== verification/ListenerStatusFacts.v ===== *)
(** * What the statuses of listeners say

    [Module listener_status_facts]: the certificates a valid listener has, the
    Programmed condition of a listener of a Gateway, the statuses that are written
    for the listeners, and what the loops over ListenerSets change. *)

From S2P Require Import Prelude GoStrings ApiTypes Model Hostnames Helpers Ingestion Translator FrontTranslators ApiServer Status RouteChecker GatewayListeners ListenerStatus.
Import k8s gatewayv1 api types namespaces referencegrants status gateway_helpers gateway_listeners listener_status.

Module listener_status_facts.

Section Reconciler.
Context {client : Client} {errors : ApiErrorText} {selectors : LabelSelectors} {clock : Clock} {pem : certs.Pem}.

(** ** Certificates *)

(** A certificate reference of an owner in a namespace that can be used: it is to
    a Secret, in the namespace of the owner or granted to owners of its kind, that
    exists with a PEM certificate and key. *)
Definition usable_certificate (w : World) (ns : string) (gvk : GroupVersionKind) (grants : list ReferenceGrant)
    (cert : SecretObjectReference) : Prop :=
  let target := NamespaceDerefOr (sor_Namespace cert) ns in
  ((sor_Kind cert = None ∨ sor_Kind cert = Some "Secret") ∧ (sor_Group cert = None ∨ sor_Group cert = Some "")) ∧
  (target = ns ∨ referencegrants.granted ns (sor_Name cert) target gvk (mkGVK "" "v1" "Secret") grants) ∧
  ∃ secret, cl_Get KSecret (mkNamespacedName target (sor_Name cert)) w = inl secret ∧
    certs.isValidPemFormat (default "" (sec_Data secret !! TLSCertKey)) = true ∧
    certs.isValidPemFormat (default "" (sec_Data secret !! TLSPrivateKeyKey)) = true.

Lemma IsSecret_iff cert :
  IsSecret cert = true ↔
  (sor_Kind cert = None ∨ sor_Kind cert = Some "Secret") ∧ (sor_Group cert = None ∨ sor_Group cert = Some "").
Proof.
  unfold IsSecret, nil_or. rewrite andb_true_iff.
  destruct (sor_Kind cert), (sor_Group cert); rewrite ?String.eqb_eq; naive_solver.
Qed.

Lemma certificate_problem_None w ns gvk generation grants cert :
  certificate_problem w ns gvk generation grants cert = None ↔ usable_certificate w ns gvk grants cert.
Proof.
  unfold certificate_problem, usable_certificate, validateTLSSecret. cbv zeta.
  assert (Ha : IsSecretReferenceAllowed ns cert gvk grants = true ↔
    NamespaceDerefOr (sor_Namespace cert) ns = ns ∨
    referencegrants.granted ns (sor_Name cert) (NamespaceDerefOr (sor_Namespace cert) ns) gvk (mkGVK "" "v1" "Secret") grants)
    by apply referencegrants.isReferenceAllowed_granted.
  rewrite <-Ha, <-IsSecret_iff.
  destruct (IsSecret cert); cbn [negb]; [|by split; [|intros (? & _)]].
  destruct (IsSecretReferenceAllowed _ _ _ _); cbn [negb]; [|by split; [|intros (_ & ? & _)]].
  destruct (cl_Get KSecret _ w) as [secret|e]; [|by split; [|intros (_ & _ & ? & ? & _)]].
  destruct (certs.isValidPemFormat (default "" (sec_Data secret !! TLSCertKey))) eqn:E1; cbn [negb].
  2: { split; [done|]. intros (_ & _ & ? & [= <-] & ? & _). congruence. }
  destruct (certs.isValidPemFormat (default "" (sec_Data secret !! TLSPrivateKeyKey))) eqn:E2; cbn [negb].
  2: { split; [done|]. intros (_ & _ & ? & [= <-] & _ & ?). congruence. }
  split; [|done]. intros _. split_and!; [done..|]. by exists secret.
Qed.

Lemma head_omap_None {A B} (f : A → option B) l : head (omap f l) = None ↔ ∀ x, x ∈ l → f x = None.
Proof.
  induction l as [|x l IH]; cbn; [split; [by intros _ ? ?%not_elem_of_nil|done]|].
  destruct (f x) as [y|] eqn:E; cbn.
  - split; [done|]. intros H. specialize (H x (list_elem_of_here _ _)). congruence.
  - rewrite IH. split; [|intros H y Hy; apply H; by right]. by intros H y [->|Hy]%elem_of_cons; [|apply H].
Qed.

(** The kinds of routes that a protocol carries. *)
Definition carries (protocol kind : string) : Prop :=
  (protocol = "HTTP" ∨ protocol = "HTTPS") ∧ (kind = "HTTPRoute" ∨ kind = "GRPCRoute") ∨
  protocol = "TLS" ∧ kind = "TLSRoute" ∨ protocol = "TCP" ∧ kind = "TCPRoute" ∨ protocol = "UDP" ∧ kind = "UDPRoute".

(** A listener allows a kind of the Gateway API if it lists no kinds, or this one;
    an absent or empty group is the one of the Gateway API. *)
Definition allows (l : Listener) (kind : string) : Prop :=
  ∀ ar, l_AllowedRoutes l = Some ar → elems (ar_Kinds ar) ≠ [] →
  ∃ k, k ∈ elems (ar_Kinds ar) ∧ rgk_Kind k = kind ∧
    (rgk_Group k = None ∨ rgk_Group k = Some "" ∨ rgk_Group k = Some "gateway.networking.k8s.io").

Lemma supported_carries protocol k :
  k ∈ elems (getSupportedRouteKinds protocol) ↔
  rgk_Group k = Some "gateway.networking.k8s.io" ∧ carries protocol (rgk_Kind k).
Proof.
  unfold getSupportedRouteKinds, carries.
  unfold HTTPProtocolType, HTTPSProtocolType, TLSProtocolType, TCPProtocolType, UDPProtocolType.
  destruct k as [g kind].
  destruct (String.eqb_spec protocol "HTTP") as [->|]; [|destruct (String.eqb_spec protocol "HTTPS") as [->|];
    [|destruct (String.eqb_spec protocol "TLS") as [->|]; [|destruct (String.eqb_spec protocol "TCP") as [->|];
    [|destruct (String.eqb_spec protocol "UDP") as [->|]]]]]; cbn [orb elems default from_option id];
    rewrite ?elem_of_cons, ?elem_of_nil; cbn [rgk_Group rgk_Kind];
    unfold kindHTTPRoute, kindGRPCRoute, kindTLSRoute, kindTCPRoute, kindUDPRoute, GroupPtr, GroupName;
    naive_solver.
Qed.

Lemma elem_of_allowed_kinds l ar k :
  l_AllowedRoutes l = Some ar → elems (ar_Kinds ar) ≠ [] →
  k ∈ allowed_kinds (elems (getSupportedRouteKinds (l_Protocol l))) (elems (ar_Kinds ar)) ↔
  rgk_Group k = Some "gateway.networking.k8s.io" ∧ carries (l_Protocol l) (rgk_Kind k) ∧ allows l (rgk_Kind k).
Proof.
  intros Ea Hne. unfold allowed_kinds, allows.
  rewrite list_elem_of_In, List.filter_In, <-list_elem_of_In, supported_carries, referencegrants.existsb_elem.
  setoid_rewrite andb_true_iff. setoid_rewrite String.eqb_eq. split.
  - intros [[Hg Hc] (a & Ha & Hk & Hd)]. rewrite Hg in Hd. split_and!; [done..|]. intros ar' E' _.
    assert (ar' = ar) as -> by congruence. exists a. split_and!; [done..|]. unfold groupDerefOr in Hd.
    destruct (rgk_Group a) as [g|]; [|auto]. destruct (String.eqb_spec g ""); [subst; auto|]. cbn in Hd. right. right. congruence.
  - intros (Hg & Hc & Hal). destruct (Hal ar Ea Hne) as (a & Ha & Hk & Hd). split; [done|]. exists a.
    split_and!; [done..|]. rewrite Hg. by destruct Hd as [->|[->| ->]].
Qed.

(** The kinds that a valid result reports. *)
Definition kinds_sound (l : Listener) (kinds : list RouteGroupKind) : Prop :=
  kinds ≠ [] ∧ ∀ k, k ∈ kinds ↔
    rgk_Group k = Some "gateway.networking.k8s.io" ∧ carries (l_Protocol l) (rgk_Kind k) ∧ allows l (rgk_Kind k).

Lemma supported_sound l kinds :
  getSupportedRouteKinds (l_Protocol l) = Some kinds →
  (∀ ar, l_AllowedRoutes l = Some ar → elems (ar_Kinds ar) = []) → kinds_sound l kinds.
Proof.
  intros Es Hno. split.
  - revert Es. unfold getSupportedRouteKinds. repeat case_match; by intros [= <-].
  - intros k. pose proof (supported_carries (l_Protocol l) k) as Hk. rewrite Es in Hk. cbn in Hk. rewrite Hk.
    f_equiv. split; [|by intros []]. intros Hc. split; [done|]. intros ar Ea Hne. by apply Hno in Ea.
Qed.

(** The result before the kinds are validated, and what a valid one has after. *)
Lemma validate_kinds_sound l params :
  let res := mkListenerValidationResult true None ReasonInvalid [] [] in
  let res := match getSupportedRouteKinds (l_Protocol l) with
             | None => with_reason (invalid res "Unsupported Listener Protocol.") ListenerReasonUnsupportedProtocol
             | Some _ => res
             end in
  lvr_isValid (validate_kinds l params res) = true →
  kinds_sound l (elems (lvr_supportedKinds (validate_kinds l params res))).
Proof.
  cbv zeta. unfold validate_kinds. destruct (getSupportedRouteKinds (l_Protocol l)) as [kinds|] eqn:Es.
  - destruct (l_AllowedRoutes l) as [ar|] eqn:Ea; [|intros _; apply supported_sound; [done|by rewrite Ea]].
    destruct (Nat.eqb_spec (length (elems (ar_Kinds ar))) 0) as [Hz|Hn]; cbn [negb].
    { intros _. apply supported_sound; [done|]. intros ar' Ear'. assert (ar' = ar) as -> by congruence.
      by apply length_zero_iff_nil. }
    assert (Hne : elems (ar_Kinds ar) ≠ []) by (by intros E; rewrite E in Hn).
    pose proof (λ k, elem_of_allowed_kinds l ar k Ea Hne) as Hk. rewrite Es in Hk. cbn [elems default from_option id] in *.
    set (ks := allowed_kinds kinds (elems (ar_Kinds ar))) in *.
    destruct (Nat.eqb_spec (length ks) (length (elems (ar_Kinds ar)))) as [El|]; cbn [negb].
    + intros _. split; [|exact Hk]. cbn. intros E. rewrite E in El. cbn in El. lia.
    + destruct (Nat.eqb_spec (length ks) 0) as [|H0]; [done|]. intros _. split; [|exact Hk]. cbn. intros E. by rewrite E in H0.
  - destruct (l_AllowedRoutes l) as [ar|]; [|done].
    destruct (Nat.eqb _ 0); cbn [negb]; [done|]. by repeat case_match.
Qed.

(** C24: a listener of a ListenerSet that passes the validation has a protocol that
    carries some kind of route that it allows; the supported kinds of the result are
    exactly the kinds that its protocol carries and that it allows; it is not a TLS
    listener that terminates; and all its certificates are Secrets that its
    ListenerSet may use and that exist with a PEM certificate and key. *)
Theorem validateListener_sound w l params :
  lvr_isValid (validateListener w l params) = true →
  (∃ kind, carries (l_Protocol l) kind ∧ allows l kind) ∧
  (∀ k, k ∈ elems (lvr_supportedKinds (validateListener w l params)) ↔
     rgk_Group k = Some "gateway.networking.k8s.io" ∧ carries (l_Protocol l) (rgk_Kind k) ∧ allows l (rgk_Kind k)) ∧
  ∀ tls, l_TLS l = Some tls →
    (l_Protocol l = TLSProtocolType → tls_Mode tls ≠ Some TLSModeTerminate) ∧
    ∀ cert, cert ∈ tls_CertificateRefs tls →
      usable_certificate w (lvp_ownerNamespace params) (GatewayV1GVK (lvp_ownerKind params)) (lvp_grants params) cert.
Proof.
  unfold validateListener. set (res0 := match getSupportedRouteKinds _ with None => _ | Some _ => _ end).
  pose proof (validate_kinds_sound l params) as Hk. cbv zeta in Hk. fold res0 in Hk.
  assert (Hsome : ∀ ks, kinds_sound l ks → ∃ kind, carries (l_Protocol l) kind ∧ allows l kind).
  { intros [|k ks] [Hne Hin]; [done|]. destruct (proj1 (Hin k) ltac:(left)) as (_ & ? & ?). eauto. }
  set (res1 := validate_kinds l params res0) in *. unfold validate_tls. destruct (l_TLS l) as [tls|]; [|].
  2: { intros Hv. pose proof (Hk Hv) as Hks. split_and!; [by eapply Hsome|apply Hks|]. by intros ? [=]. }
  destruct (head (omap _ (tls_CertificateRefs tls))) as [[c msg]|] eqn:Eh.
  { by repeat case_match. }
  destruct (_ && _) eqn:Em; [done|]. intros Hv. pose proof (Hk Hv) as Hks.
  split_and!; [by eapply Hsome|apply Hks|]. intros tls' [= <-]. split.
  - intros Ep Et. by rewrite Ep, Et in Em.
  - intros cert Hin. eapply certificate_problem_None. by eapply (proj1 (head_omap_None _ _)).
Qed.

(** ** Listeners of Gateways *)

(** A listener of a Gateway with nothing wrong: all the kinds it allows are
    supported, and all its certificates can be used. *)
Definition listener_ok (w : World) (gw : Gateway) (grants : list ReferenceGrant) (l : Listener) : Prop :=
  (gateway_kinds l).2 = false ∧
  ∀ tls cert, l_TLS l = Some tls → cert ∈ tls_CertificateRefs tls →
    usable_certificate w (om_Namespace (gw_meta gw)) (GatewayV1GVK "Gateway") grants cert.

Lemma gateway_certificate_None w gw grants l :
  gateway_certificate_problem w gw grants l = None ↔
  ∀ tls cert, l_TLS l = Some tls → cert ∈ tls_CertificateRefs tls →
    usable_certificate w (om_Namespace (gw_meta gw)) (GatewayV1GVK "Gateway") grants cert.
Proof.
  unfold gateway_certificate_problem. destruct (l_TLS l) as [tls|]; [|naive_solver].
  rewrite fmap_None, head_omap_None. split.
  - intros H tls' cert [= <-] Hin. eapply certificate_problem_None, H, Hin.
  - intros H cert Hin. apply certificate_problem_None. by eapply H.
Qed.

Lemma listener_ok_iff w gw grants l :
  listener_ok w gw grants l ↔ (gateway_kinds l).2 = false ∧ gateway_certificate_problem w gw grants l = None.
Proof. unfold listener_ok. by rewrite gateway_certificate_None. Qed.

(** A problem is reported under ResolvedRefs. *)
Lemma gateway_certificate_Some w gw grants l c :
  gateway_certificate_problem w gw grants l = Some c →
  cond_Type c = ConditionResolvedRefs ∧ cond_Status c = ConditionFalse.
Proof.
  unfold gateway_certificate_problem. destruct (l_TLS l) as [tls|]; [|done].
  destruct (head _) as [[c' msg]|] eqn:E; [|done]. intros [= <-].
  apply head_Some_elem_of, list_elem_of_omap in E as (cert & _ & E). revert E. unfold certificate_problem.
  repeat case_match; intros [= <- <-]; done.
Qed.

Lemma status_decides c (P : Prop) :
  cond_Status c = ConditionFalse → ¬ P →
  (cond_Status c = ConditionTrue ↔ P) ∧ (cond_Status c = ConditionFalse ↔ ¬ P).
Proof. intros ->. by repeat split. Qed.

(** the Programmed condition of a listener of a Gateway is True exactly if
    nothing is wrong with the listener, and False otherwise. *)
Theorem gateway_listener_programmed w gw grants l :
  ∃ c, find_cond ConditionProgrammed (gateway_conditions w gw grants l) = Some c ∧
    (cond_Status c = ConditionTrue ↔ listener_ok w gw grants l) ∧
    (cond_Status c = ConditionFalse ↔ ¬ listener_ok w gw grants l).
Proof.
  setoid_rewrite listener_ok_iff. unfold gateway_conditions.
  destruct (gateway_kinds l) as [kinds bad]. cbn [snd]. set (programmed := mkCondition _ _ _ _ _ _).
  assert (Hbad : ∀ conds, ∃ c, find_cond ConditionProgrammed (merge conds [programmed]) = Some c ∧
    cond_Status c = ConditionFalse).
  { intros conds. destruct (find_merge_reports conds programmed) as (c & Hc & Hr).
    exists c. split; [done|]. by destruct (reports_Status _ _ Hr) as (-> & _). }
  destruct (gateway_certificate_problem w gw grants l) as [c|] eqn:E; cbn [negb].
  { destruct (Hbad (merge (if bad then [gatewayListenerInvalidRouteKinds gw "Invalid Route Kinds"]
      else [gatewayListenerProgrammedCondition gw true "Listener Programmed";
            gatewayListenerAcceptedCondition gw true "Listener Accepted"; resolved_condition 0]) [c])) as (c' & Hc & Hs).
    exists c'. split; [done|]. apply status_decides; [done|]. by intros [_ ?]. }
  destruct bad; cbn [negb].
  - destruct (Hbad [gatewayListenerInvalidRouteKinds gw "Invalid Route Kinds"]) as (c' & Hc & Hs).
    exists c'. split; [done|]. apply status_decides; [done|]. by intros [? _].
  - eexists. split; [done|]. cbn. naive_solver.
Qed.

(** ** The statuses of the listeners *)

Abbreviation names l := (@fmap list list_fmap ListenerStatus string lstat_Name l).

Lemma set_listener_status_spec s l :
  NoDup (names l) →
  NoDup (names (set_listener_status s l)) ∧
  (∀ n, n ∈ names (set_listener_status s l) ↔ n = lstat_Name s ∨ n ∈ names l) ∧
  s ∈ set_listener_status s l ∧
  ∀ s', lstat_Name s' ≠ lstat_Name s → s' ∈ l → s' ∈ set_listener_status s l.
Proof.
  induction l as [|s1 l IH]; cbn.
  { intros _. split_and!; [apply NoDup_singleton| |left|by intros ? _ ?%not_elem_of_nil].
    intros n. rewrite list_elem_of_singleton. split; [by left|]. by intros [|?%not_elem_of_nil]. }
  intros [Hs1 Hl]%NoDup_cons. destruct (IH Hl) as (I1 & I2 & I3 & I4).
  destruct (String.eqb_spec (lstat_Name s) (lstat_Name s1)) as [E|E]; cbn.
  - split_and!; [by rewrite E; constructor|intros n; rewrite E, elem_of_cons; naive_solver|left|].
    intros s' Hn [->|?]%elem_of_cons; [congruence|by right].
  - split_and!.
    + constructor; [|done]. rewrite I2. intros [?|?]; [congruence|done].
    + intros n. rewrite !elem_of_cons, I2. naive_solver.
    + by right.
    + intros s' Hn [->|?]%elem_of_cons; [left|right; by apply I4].
Qed.

Lemma listener_status_Name w gw grants routes nsl l s :
  listener_status w gw grants routes nsl l = Ok s → lstat_Name s = l_Name l.
Proof. unfold listener_status. intros H. go_inv. done. Qed.

Lemma statuses_fold w gw grants routes nsl ls st st' :
  NoDup (l_Name <$> ls) → NoDup (names st) →
  go_foldl (λ st l, s ← listener_status w gw grants routes nsl l; Ok (set_listener_status s st)) st ls = Ok st' →
  NoDup (names st') ∧ (∀ n, n ∈ names st' ↔ n ∈ l_Name <$> ls ∨ n ∈ names st) ∧
  (∀ l, l ∈ ls → ∃ s, s ∈ st' ∧ listener_status w gw grants routes nsl l = Ok s) ∧
  ∀ s, (lstat_Name s ∉ l_Name <$> ls) → s ∈ st → s ∈ st'.
Proof.
  revert st. induction ls as [|l ls IH]; intros st Hls Hst H; cbn in H.
  { injection H as <-. split_and!; try done.
    - intros n. cbn. rewrite elem_of_nil. naive_solver.
    - by intros l ?%not_elem_of_nil. }
  destruct (listener_status w gw grants routes nsl l) as [s|] eqn:Es; [|done]. cbn in H.
  cbn in Hls. apply NoDup_cons in Hls as [Hl Hls]. pose proof (listener_status_Name _ _ _ _ _ _ _ Es) as En.
  destruct (set_listener_status_spec s st Hst) as (S1 & S2 & S3 & S4).
  destruct (IH _ Hls S1 H) as (I1 & I2 & I3 & I4). split_and!; [done| | |].
  - intros n. cbn. rewrite I2, elem_of_cons, S2, En. naive_solver.
  - intros l' [->|Hl']%elem_of_cons; [|by apply I3]. exists s. split; [|done]. apply I4; [by rewrite En|done].
  - intros s' Hn Hs'. cbn in Hn. apply not_elem_of_cons in Hn as [Hn1 Hn2]. apply I4; [done|]. apply S4; [congruence|done].
Qed.

(** C30: the listeners in the new status of a Gateway are those of its spec, each
    once, with the kinds, the conditions and the number of routes that were computed
    for it; the rest of the Gateway is as before. *)
Theorem setListenerStatus_complete w gw gw' routes nsl grants :
  cl_List KReferenceGrant (λ _, true) w = inl grants →
  NoDup (l_Name <$> gw_Listeners gw) → NoDup (names (gs_Listeners (gw_Status gw))) →
  setListenerStatus w gw routes nsl = Ok (inl gw') →
  gw' = with_gs_Listeners gw (gs_Listeners (gw_Status gw')) ∧
  names (gs_Listeners (gw_Status gw')) ≡ₚ l_Name <$> gw_Listeners gw ∧
  ∀ l, l ∈ gw_Listeners gw → ∃ s, s ∈ gs_Listeners (gw_Status gw') ∧
    listener_status w gw grants routes nsl l = Ok s.
Proof.
  intros Hg Hl Hs. unfold setListenerStatus. rewrite Hg. intros H.
  destruct (go_foldl _ _ _) as [st|] eqn:E in H; [|done]. cbn in H. injection H as <-.
  destruct (statuses_fold _ _ _ _ _ _ _ _ Hl Hs E) as (I1 & I2 & I3 & _).
  cbn [with_gs_Listeners with_gw_Status gw_Status gs_Listeners]. set (keep := λ s, existsb _ _).
  assert (Hkeep : ∀ s, keep s = true ↔ lstat_Name s ∈ l_Name <$> gw_Listeners gw).
  { intros s. unfold keep. rewrite existsb_elem, list_elem_of_fmap. setoid_rewrite String.eqb_eq. naive_solver. }
  split; [done|]. split.
  - apply NoDup_Permutation; [|done|].
    + apply NoDup_fmap_filter. exact I1.
    + intros n. rewrite list_elem_of_fmap. setoid_rewrite list_elem_of_In. setoid_rewrite filter_In.
      setoid_rewrite Hkeep. setoid_rewrite <-list_elem_of_In. split; [by intros (s & -> & _ & ?)|].
      intros Hn. pose proof (proj2 (I2 n) (or_introl Hn)) as Hst. apply list_elem_of_fmap in Hst as (s & -> & ?).
      eauto.
  - intros l Hin. destruct (I3 l Hin) as (s & Hs' & Es). exists s. split; [|done].
    apply list_elem_of_In, filter_In. split; [by apply list_elem_of_In|]. apply Hkeep.
    rewrite (listener_status_Name _ _ _ _ _ _ _ Es). by apply list_elem_of_fmap_2.
Qed.

(** ** ListenerSets *)

Definition of_sets (sets : list ListenerSet) : Kind → NamespacedName → Prop :=
  λ k n, k = KListenerSet ∧ n ∈ (λ ls, ObjectKey (lst_meta ls)) <$> sets.

Context {laws : ClientLaws}.

Lemma framed_updateListenerSetStatus (F : Kind → NamespacedName → Prop) original new :
  F KListenerSet (ObjectKey (lst_meta new)) → framed F (updateListenerSetStatus original new).
Proof using laws.
  intros HF. unfold updateListenerSetStatus. destruct (cmp.Equal _ _); [apply framed_ret|].
  by apply framed_UpdateStatus.
Qed.

Lemma framed_fold_elem F {A S} (f : S → A → R S) s l :
  (∀ s x, x ∈ l → framed F (f s x)) → framed F (R_fold f s l).
Proof using Type.
  intros Hf. revert s. induction l as [|x l IH]; intros s; [apply framed_ret|]. cbn.
  apply framed_bind; [apply Hf; left|]. intros s'. apply IH. intros s1 y Hy. apply Hf. by right.
Qed.

Lemma framed_filterToAllowed gw sets : framed (of_sets sets) (filterToAllowedListenerSets gw sets).
Proof using laws.
  unfold filterToAllowedListenerSets. apply framed_fold_elem. intros allowed ls Hls.
  apply framed_bind; [apply framed_query|]. intros ok. destruct (negb ok); [|apply framed_ret].
  apply framed_bind; [|intros; apply framed_ret]. apply framed_attempt, framed_updateListenerSetStatus.
  split; [done|]. by apply (list_elem_of_fmap_2' (λ ls, ObjectKey (lst_meta ls)) _ ls).
Qed.

Lemma listenerset_status_meta w gw grants conflicts routes nsl ls ls' valid :
  listenerset_status w gw grants conflicts routes nsl ls = Ok (ls', valid) → lst_meta ls' = lst_meta ls.
Proof using Type.
  unfold listenerset_status. intros H. destruct (go_map _ _) as [entries|]; [|done]. cbn in H.
  destruct (existsb _ _); by injection H as <- <-.
Qed.

Lemma framed_setListenerSetStatuses gw sets conflicts routes nsl :
  framed (of_sets sets) (setListenerSetStatuses gw sets conflicts routes nsl).
Proof using laws.
  unfold setListenerSetStatuses. apply framed_bind; [apply framed_attempt, framed_read|]. intros [grants|]; [|apply framed_ret].
  apply framed_bind; [|intros; apply framed_ret]. apply framed_fold_elem. intros n ls Hls.
  apply (framed_bind_post _ (λ r, lst_meta r.1 = lst_meta ls)); [apply framed_query| |].
  - intros w w' [ls' valid]. unfold query. destruct (listenerset_status _ _ _ _ _ _ _) as [[ls1 v1]|] eqn:E; [|done].
    intros [= <- <- <-]. by eapply listenerset_status_meta.
  - intros [ls' valid] Hm. cbn in Hm. apply framed_bind; [|intros; apply framed_ret].
    apply framed_attempt, framed_updateListenerSetStatus. split; [done|]. rewrite Hm. by apply (list_elem_of_fmap_2' (λ ls, ObjectKey (lst_meta ls)) _ ls).
Qed.

End Reconciler.

End listener_status_facts.
