(* ===== verification/RouteStatus.v ===== *)
(** * Route statuses that the Gateway reconciler writes

    [Module route_status]: src/pkg/gateway_api/status_route.go (RoutesStsMgr, for
    HTTPRoutes) and the same steps for TCPRoutes and UDPRoutes in
    gateway_reconcile.go.  The checks of the package routechecker are commented
    out there: a parent that belongs to the controller gets the initial
    conditions, and only the validators of HTTPRoutes change them. *)

From S2P Require Import Prelude GoStrings ApiTypes Model Hostnames Helpers Translator FrontTranslators ApiServer Status RouteChecker RouteCheckerFacts RouteInputs RouteControllers RouteReconcile GatewayListeners.
Import k8s gatewayv1 api types namespaces referencegrants routechecker routechecker_facts routeinputs route_controllers.

Module route_status.

Section Manager.
Context {client : Client} {errors : ApiErrorText} {clock : Clock} {regexp : Regexp}.

Record RoutesStsMgr := mkRoutesStsMgr {
  rsm_tcprouteincluded : bool; rsm_udprouteincluded : bool;
  rsm_tcpsupportedreason : string; rsm_udpsupportedreason : string; rsm_controllerName : string }.

Definition NewRouteStatusManager (controllerName : string) : RoutesStsMgr :=
  mkRoutesStsMgr true true "supported" "supported" controllerName.

(** Both reconcilers have this function. *)
Definition parentIsMatchingGateway (controllerName : string) (w : World) (parent : ParentReference)
    (namespace : string) : bool :=
  if negb (IsGateway parent) then false
  else
    match cl_Get KGateway (mkNamespacedName (NamespaceDerefOr (pr_Namespace parent) namespace) (pr_Name parent)) w with
    | inr _ => false
    | inl gw => gateway_helpers.GatewayHasMatchingControllerFn controllerName w gw
    end.

Section Checks.
Context {S : Type} {input : Input S}.

Definition setInitialRouteConditions (s : S) (parent : ParentReference) : S :=
  let s := SetParentCondition parent (cond ConditionAccepted ConditionTrue ReasonAccepted
             ("Accepted " +:+ gvk_Kind (GetGVK s))) s in
  SetParentCondition parent (cond ConditionResolvedRefs ConditionTrue ReasonResolvedRefs
    "Service reference is valid") s.

(** *** RoutesStsMgr *)

Definition checkRouteSupported (m : RoutesStsMgr) (s : S) (parent : ParentReference) : bool := true.

Definition runGatewayRouteChecks (m : RoutesStsMgr) (w : World) (s : S) (parent : ParentReference)
    (objNamespace : string) : S :=
  if negb (parentIsMatchingGateway (rsm_controllerName m) w parent objNamespace) then s
  else if negb (checkRouteSupported m s parent) then s
  else setInitialRouteConditions s parent.

Definition runListenerSetRouteChecks (m : RoutesStsMgr) (w : World) (s : S) (parent : ParentReference)
    (objNamespace : string) : S :=
  match cl_Get KListenerSet (mkNamespacedName (NamespaceDerefOr (pr_Namespace parent) objNamespace)
                               (pr_Name parent)) w with
  | inr _ => s
  | inl ls =>
      match cl_Get KGateway (listenerset.ListenerSetParentGateway ls) w with
      | inr _ => s
      | inl gw =>
          if negb (gateway_helpers.GatewayHasMatchingControllerFn (rsm_controllerName m) w gw) then s
          else if negb (checkRouteSupported m s parent) then s
          else setInitialRouteConditions s parent
      end
  end.

Definition runCommonRouteChecks (m : RoutesStsMgr) (w : World) (s : S) (parentRefs : list ParentReference)
    (objNamespace : string) : S :=
  foldl (λ s parent,
    if IsGateway parent then runGatewayRouteChecks m w s parent objNamespace
    else if IsListenerSet parent then runListenerSetRouteChecks m w s parent objNamespace
    else s) s parentRefs.

(** *** gatewayReconciler *)

Definition gateway_checkRouteSupported (hostNetworkEnabled : bool) (s : S) (parent : ParentReference)
  : S * bool :=
  let k := gvk_Kind (GetGVK s) in
  if (String.eqb k gateway_helpers.kindTCPRoute || String.eqb k gateway_helpers.kindUDPRoute) && hostNetworkEnabled
  then
    let s := SetParentCondition parent (cond ConditionAccepted ConditionFalse ReasonUnsupportedValue
      (k +:+ " is not supported when Gateway API Host Network mode is enabled")) s in
    (SetParentCondition parent (cond ConditionResolvedRefs ConditionUnknown ReasonPending
      "Backend references were not evaluated because this route type is not supported in Gateway API Host Network mode") s,
     false)
  else (s, true).

Definition gateway_runGatewayRouteChecks (hostNetworkEnabled : bool) (w : World) (s : S)
    (parent : ParentReference) (objNamespace : string) : S :=
  if negb (parentIsMatchingGateway gateway_helpers.defaultControllerName w parent objNamespace) then s
  else
    let '(s, supported) := gateway_checkRouteSupported hostNetworkEnabled s parent in
    if negb supported then s else setInitialRouteConditions s parent.

Definition gateway_runCommonRouteChecks (hostNetworkEnabled : bool) (w : World) (s : S)
    (parentRefs : list ParentReference) (objNamespace : string) : S :=
  foldl (λ s parent,
    if IsGateway parent then gateway_runGatewayRouteChecks hostNetworkEnabled w s parent objNamespace
    else s) s parentRefs.
End Checks.

(** ** HTTPRoutes *)

Definition updateHTTPRouteStatus : HTTPRoute → HTTPRoute → R unit := updateStatus KHTTPRoute id.

(** A validator that finds something sets its condition for all parents of the
    status. *)
Definition apply_validator (i : HTTPRouteInput) (found : option Condition) : HTTPRouteInput :=
  match found with
  | None => i
  | Some c => foldl (λ i parent, SetParentCondition (rps_ParentRef parent) c i) i (rt_Parents (hi_HTTPRoute i))
  end.

(** The route with the status that is computed for it. *)
Definition http_status (m : RoutesStsMgr) (w : World) (grants : list ReferenceGrant) (original : HTTPRoute)
  : go HTTPRoute :=
  let hr := with_Parents original
    (status.pruneRouteParentStatuses (rt_Parents original) (rt_ParentRefs original) (rsm_controllerName m)) in
  let i := mkHTTPRouteInput grants hr (rsm_controllerName m) [] [] in
  let i := runCommonRouteChecks m w i (rt_ParentRefs hr) (om_Namespace (rt_meta hr)) in
  found ← ValidateHeaderModifier i;
  let i := apply_validator i found in
  let i := apply_validator i (ValidateMatchRegexps i) in
  Ok (hi_HTTPRoute i).

(** The routes come back with their new statuses. *)
Definition setHTTPRouteStatuses (m : RoutesStsMgr) (httpRoutes : list HTTPRoute)
    (grants : list ReferenceGrant) : R (list HTTPRoute) :=
  R_fold (λ routes original,
    hr ← query (λ w, http_status m w grants original);
    _ ← updateHTTPRouteStatus original hr;
    mret (routes ++ [hr])) [] httpRoutes.

Definition SetRouteStatuses (m : option RoutesStsMgr) (httpRoutes : list HTTPRoute)
    (grants : list ReferenceGrant) : R (list HTTPRoute) :=
  match m with
  | None => fail (Msg "SetRouteStatuses: RoutesStsMgr is nil")
  | Some m => setHTTPRouteStatuses m httpRoutes grants
  end.

(** ** TCPRoutes and UDPRoutes *)

Definition updateTCPRouteStatus : TCPRoute → TCPRoute → R unit := updateStatus KTCPRoute id.
Definition updateUDPRouteStatus : UDPRoute → UDPRoute → R unit := updateStatus KUDPRoute id.

Definition tcp_status (hostNetworkEnabled : bool) (w : World) (grants : list ReferenceGrant)
    (original : TCPRoute) : TCPRoute :=
  let tcpr := with_Parents original
    (status.pruneRouteParentStatuses (rt_Parents original) (rt_ParentRefs original)
       gateway_helpers.defaultControllerName) in
  let i := mkTCPRouteInput grants tcpr gateway_helpers.defaultControllerName in
  tci_TCPRoute (gateway_runCommonRouteChecks hostNetworkEnabled w i (rt_ParentRefs tcpr)
                  (om_Namespace (rt_meta tcpr))).

Definition udp_status (hostNetworkEnabled : bool) (w : World) (grants : list ReferenceGrant)
    (original : UDPRoute) : UDPRoute :=
  let udpr := with_Parents original
    (status.pruneRouteParentStatuses (rt_Parents original) (rt_ParentRefs original)
       gateway_helpers.defaultControllerName) in
  let i := mkUDPRouteInput grants udpr gateway_helpers.defaultControllerName in
  ui_UDPRoute (gateway_runCommonRouteChecks hostNetworkEnabled w i (rt_ParentRefs udpr)
                 (om_Namespace (rt_meta udpr))).

Definition setTCPRouteStatuses (hostNetworkEnabled : bool) (tcpRoutes : list TCPRoute)
    (grants : list ReferenceGrant) : R (list TCPRoute) :=
  R_fold (λ routes original,
    tcpr ← query (λ w, Ok (tcp_status hostNetworkEnabled w grants original));
    _ ← wrapping "failed to update TCPRoute status: " (updateTCPRouteStatus original tcpr);
    mret (routes ++ [tcpr])) [] tcpRoutes.

Definition setUDPRouteStatuses (hostNetworkEnabled : bool) (udpRoutes : list UDPRoute)
    (grants : list ReferenceGrant) : R (list UDPRoute) :=
  R_fold (λ routes original,
    udpr ← query (λ w, Ok (udp_status hostNetworkEnabled w grants original));
    _ ← wrapping "failed to update UDPRoute status: " (updateUDPRouteStatus original udpr);
    mret (routes ++ [udpr])) [] udpRoutes.

End Manager.

End route_status.
