(* ===== verification/RouteStatusFacts.v ===== *)
(** * What the Gateway reconciler says about routes

    [Module route_status_facts]: the conditions that the statuses of HTTPRoutes,
    TCPRoutes and UDPRoutes end up with, and what the loops over them change.
    [two_conditions] is the loop that all three have in common. *)

From S2P Require Import Prelude GoStrings ApiTypes Model Hostnames Helpers Translator FrontTranslators ApiServer Status RouteChecker RouteCheckerFacts RouteInputs RouteControllers RouteReconcile GatewayListeners RouteStatus.
Import k8s gatewayv1 api types namespaces referencegrants routechecker routechecker_facts routeinputs route_controllers route_reconcile route_status.

Module route_status_facts.

Section Manager.
Context {client : Client} {errors : ApiErrorText} {clock : Clock} {regexp : Regexp}.

(** ** One parent *)

Lemma merge_parent_elem parents ref us parents' e :
  merge_parent parents ref us = Some parents' → e ∈ parents' →
  ∃ e0, e0 ∈ parents ∧ rps_ParentRef e0 = rps_ParentRef e ∧ rps_ControllerName e0 = rps_ControllerName e ∧
    (rps_ParentRef e ≠ ref → e0 = e).
Proof.
  revert parents'. induction parents as [|e1 l IH]; intros parents' H He; [done|]. cbn in H. case_bool_decide as Hr.
  - injection H as <-. apply elem_of_cons in He as [->|He].
    + exists e1. split; [left|]. by split_and!.
    + exists e. split; [by right|]. by split_and!.
  - destruct (merge_parent l ref us) as [l'|]; [|done]. injection H as <-. apply elem_of_cons in He as [->|He].
    + exists e1. split; [left|]. by split_and!.
    + destruct (IH _ eq_refl He) as (e0 & ? & ?). exists e0. split; [by right|done].
Qed.

Lemma merge_parent_keeps parents ref us parents' e :
  merge_parent parents ref us = Some parents' → e ∈ parents → rps_ParentRef e ≠ ref → e ∈ parents'.
Proof.
  revert parents'. induction parents as [|e1 l IH]; intros parents' H He Hr; [done|]. cbn in H. case_bool_decide.
  - injection H as <-. apply elem_of_cons in He as [->|He]; [done|by right].
  - destruct (merge_parent l ref us) as [l'|]; [|done]. injection H as <-.
    apply elem_of_cons in He as [->|He]; [left|right]. by apply IH.
Qed.

(** The entries of the status after one condition is set. *)
Lemma SetParent_entries {Rule} ctrl ref c (r : Route Rule) :
  (∀ e, e ∈ rt_Parents r → rps_ParentRef e ≠ ref → e ∈ rt_Parents (SetParent ctrl ref c r)) ∧
  (∀ e, e ∈ rt_Parents (SetParent ctrl ref c r) → rps_ParentRef e = ref ∨ e ∈ rt_Parents r) ∧
  SetParent ctrl ref c r = with_Parents r (rt_Parents (SetParent ctrl ref c r)).
Proof.
  unfold SetParent, mergeStatusConditions. cbn [rt_Parents with_Parents]. split_and!; [| |done].
  - intros e He Hr. destruct (merge_parent _ _ _) as [l|] eqn:E; [by eapply merge_parent_keeps|].
    apply elem_of_app. by left.
  - intros e. destruct (merge_parent _ _ _) as [l|] eqn:E; intros He.
    + destruct (merge_parent_elem _ _ _ _ _ E He) as (e0 & Hin & _ & _ & Heq).
      destruct (decide (rps_ParentRef e = ref)); [by left|right]. by rewrite <-Heq.
    + apply elem_of_app in He as [He|He%list_elem_of_singleton]; [by right|by left; rewrite He].
Qed.

(** ** The loop over the parents *)

(** Some of the parents get two conditions. *)
Definition two_conditions {Rule} (ctrl : string) (owned : ParentReference → bool) (c1 c2 : Condition)
    (refs : list ParentReference) (r : Route Rule) : Route Rule :=
  foldl (λ r p, if owned p then SetParent ctrl p c2 (SetParent ctrl p c1 r) else r) r refs.

Lemma two_conditions_spec {Rule} ctrl owned c1 c2 refs (r : Route Rule) :
  cond_Type c1 ≠ cond_Type c2 →
  let r' := two_conditions ctrl owned c1 c2 refs r in
  let touched p := p ∈ refs ∧ owned p = true in
  (∀ p, touched p →
     has_cond (rt_Parents r') p (cond_Type c1) (λ c, says c c1) ∧
     has_cond (rt_Parents r') p (cond_Type c2) (λ c, says c c2)) ∧
  (∀ e, e ∈ rt_Parents r → ¬ touched (rps_ParentRef e) → e ∈ rt_Parents r') ∧
  (∀ e, e ∈ rt_Parents r' → touched (rps_ParentRef e) ∨ e ∈ rt_Parents r) ∧
  r' = with_Parents r (rt_Parents r').
Proof.
  intros Hc. cbv zeta. unfold two_conditions. induction refs as [|q refs IH] using rev_ind.
  { split_and!; [by intros ? [?%not_elem_of_nil]|done|by right|by destruct r]. }
  rewrite foldl_app. cbn [foldl]. set (r1 := foldl _ r refs) in *. destruct IH as (I1 & I2 & I3 & I4).
  setoid_rewrite elem_of_app. setoid_rewrite list_elem_of_singleton. destruct (owned q) eqn:Eq.
  - destruct (SetParent_entries ctrl q c1 r1) as (A1 & A2 & A3).
    set (r2 := SetParent ctrl q c1 r1) in *. destruct (SetParent_entries ctrl q c2 r2) as (B1 & B2 & B3).
    set (r3 := SetParent ctrl q c2 r2) in *. split_and!.
    + intros p [Hp Ho]. destruct (decide (p = q)) as [->|Hpq].
      * destruct (SetParent_cond ctrl q c2 r2) as (c' & E2 & S2). destruct (SetParent_cond ctrl q c1 r1) as (c'' & E1 & S1).
        split; [|by exists c']. exists c''. split; [|done]. unfold r3. rewrite SetParent_other by congruence. exact E1.
      * destruct Hp as [Hp|]; [|done]. destruct (I1 p (conj Hp Ho)) as [(x & ? & ?) (y & ? & ?)].
        unfold r3, r2. split; [exists x|exists y]; rewrite !SetParent_other by congruence; done.
    + intros e He Hn. assert (rps_ParentRef e ≠ q) by (intros <-; apply Hn; auto).
      apply B1; [|done]. apply A1; [|done]. apply I2; [done|]. intros [? ?]. apply Hn. auto.
    + intros e He. destruct (B2 e He) as [Hq|He2]; [left; rewrite Hq; auto|].
      destruct (A2 e He2) as [Hq|He1]; [left; rewrite Hq; auto|].
      destruct (I3 e He1) as [[? ?]|]; [left; auto|by right].
    + rewrite B3, A3, I4. done.
  - split_and!; [|intros e He Hn; apply I2; [done|]; intros [? ?]; apply Hn; auto| |done].
    + intros p [[Hp| ->] Ho]; [by apply I1|congruence].
    + intros e He. destruct (I3 e He) as [[? ?]|]; [left; auto|by right].
Qed.

(** ** Stale entries *)

Lemma prune_elem parents refs ctrl e :
  e ∈ status.pruneRouteParentStatuses parents refs ctrl ↔
  e ∈ parents ∧ (rps_ControllerName e = ctrl → rps_ParentRef e ∈ refs).
Proof.
  unfold status.pruneRouteParentStatuses. rewrite list_elem_of_In, filter_In, <-list_elem_of_In.
  rewrite orb_true_iff, negb_true_iff, String.eqb_neq, existsb_elem. setoid_rewrite bool_decide_eq_true.
  destruct (decide (rps_ControllerName e = ctrl)) as [Hc|Hc].
  - split; (intros [? H]; split; [done|]).
    + intros _. by destruct H as [?|(ref & ? & <-)].
    + right. eauto.
  - split; (intros [? H]; split; [done|]); [by intros ?|by left].
Qed.

(** ** TCPRoutes and UDPRoutes *)

(** The status of a route says of every parent that is a Gateway of the
    controller what the host network mode says, whatever the backends are; the
    other entries are kept, but for those the controller has for parents that the
    route does not have any more. *)
Definition l4_reported {Rule} (hostNetworkEnabled : bool) (w : World) (original r : Route Rule) : Prop :=
  let ctrl := gateway_helpers.defaultControllerName in
  let touched p := p ∈ rt_ParentRefs original ∧
                   parentIsMatchingGateway ctrl w p (om_Namespace (rt_meta original)) = true in
  (∀ p, touched p →
     has_cond (rt_Parents r) p ConditionAccepted
       (λ c, cond_Status c = if hostNetworkEnabled then ConditionFalse else ConditionTrue) ∧
     has_cond (rt_Parents r) p ConditionResolvedRefs
       (λ c, cond_Status c = if hostNetworkEnabled then ConditionUnknown else ConditionTrue)) ∧
  (∀ e, ¬ touched (rps_ParentRef e) →
     e ∈ rt_Parents r ↔ e ∈ rt_Parents original ∧ (rps_ControllerName e = ctrl → rps_ParentRef e ∈ rt_ParentRefs original)) ∧
  r = with_Parents original (rt_Parents r).

Lemma two_conditions_l4 {Rule} (hn : bool) w (original : Route Rule) c1 c2 :
  cond_Type c1 = ConditionAccepted → cond_Type c2 = ConditionResolvedRefs →
  cond_Status c1 = (if hn then ConditionFalse else ConditionTrue) →
  cond_Status c2 = (if hn then ConditionUnknown else ConditionTrue) →
  l4_reported hn w original
    (two_conditions gateway_helpers.defaultControllerName
       (λ p, parentIsMatchingGateway gateway_helpers.defaultControllerName w p (om_Namespace (rt_meta original)))
       c1 c2 (rt_ParentRefs original)
       (with_Parents original (status.pruneRouteParentStatuses (rt_Parents original) (rt_ParentRefs original)
          gateway_helpers.defaultControllerName))).
Proof.
  intros T1 T2 S1 S2.
  pose proof (two_conditions_spec gateway_helpers.defaultControllerName
    (λ p, parentIsMatchingGateway gateway_helpers.defaultControllerName w p (om_Namespace (rt_meta original)))
    c1 c2 (rt_ParentRefs original) (with_Parents original (status.pruneRouteParentStatuses (rt_Parents original)
      (rt_ParentRefs original) gateway_helpers.defaultControllerName))) as H.
  rewrite T1, T2 in H. specialize (H ltac:(done)). cbv zeta beta in H. destruct H as (H1 & H2 & H3 & H4).
  set (r := two_conditions _ _ _ _ _ _) in *. unfold l4_reported. cbv zeta beta. split_and!.
  - intros p Hp. destruct (H1 p Hp) as [(c & Ec & Hc) (c' & Ec' & Hc')].
    split; [exists c|exists c']; (split; [done|]); [destruct Hc as (_ & -> & _)|destruct Hc' as (_ & -> & _)]; done.
  - intros e Hn. cbn [rt_Parents with_Parents] in H2, H3. split.
    + intros He. destruct (H3 e He) as [?|He']; [done|]. by apply prune_elem in He'.
    + intros He. apply H2; [by apply prune_elem|done].
  - rewrite H4 at 1. by destruct original.
Qed.

(** The check for a Gateway includes the one for the kind of the parent. *)
Lemma matching_is_gateway ctrl w p ns : parentIsMatchingGateway ctrl w p ns = true → IsGateway p = true.
Proof. unfold parentIsMatchingGateway. by destruct (IsGateway p). Qed.

(** The loop over the input is the loop over its route. *)
Lemma common_checks_loop {S Rule} {input : Input S} (mk : Route Rule → S) hn w ns refs r c1 c2 :
  (∀ r p, (let '(s, supported) := gateway_checkRouteSupported hn (mk r) p in
           if negb supported then s else setInitialRouteConditions s p) =
          mk (SetParent gateway_helpers.defaultControllerName p c2 (SetParent gateway_helpers.defaultControllerName p c1 r))) →
  gateway_runCommonRouteChecks hn w (mk r) refs ns =
  mk (two_conditions gateway_helpers.defaultControllerName
    (λ p, parentIsMatchingGateway gateway_helpers.defaultControllerName w p ns) c1 c2 refs r).
Proof.
  intros Hstep. unfold gateway_runCommonRouteChecks, two_conditions. induction refs as [|q refs IH] using rev_ind; [done|].
  rewrite !foldl_app. cbn [foldl]. rewrite IH. unfold gateway_runGatewayRouteChecks.
  destruct (parentIsMatchingGateway _ w q ns) eqn:E; cbn [negb].
  - rewrite (matching_is_gateway _ _ _ _ E). apply Hstep.
  - by destruct (IsGateway q).
Qed.

(** The two conditions that a route of a kind gets. *)
Definition l4_accepted (kind : string) (hostNetworkEnabled : bool) : Condition :=
  if hostNetworkEnabled
  then cond ConditionAccepted ConditionFalse ReasonUnsupportedValue
         (kind +:+ " is not supported when Gateway API Host Network mode is enabled")
  else cond ConditionAccepted ConditionTrue ReasonAccepted ("Accepted " +:+ kind).
Definition l4_resolved (hostNetworkEnabled : bool) : Condition :=
  if hostNetworkEnabled
  then cond ConditionResolvedRefs ConditionUnknown ReasonPending
         "Backend references were not evaluated because this route type is not supported in Gateway API Host Network mode"
  else cond ConditionResolvedRefs ConditionTrue ReasonResolvedRefs "Service reference is valid".

(** the status that the Gateway reconciler computes for a TCPRoute or a
    UDPRoute accepts it for every parent that is a Gateway of the controller, with
    all references resolved, whatever its backends are (in host network mode it is
    not accepted); entries for other parents are kept, other controllers' and its
    own, but for its own entries for parents that the route no longer has. *)
Theorem l4_status_spec hostNetworkEnabled w grants (tcpr : TCPRoute) (udpr : UDPRoute) :
  l4_reported hostNetworkEnabled w tcpr (tcp_status hostNetworkEnabled w grants tcpr) ∧
  l4_reported hostNetworkEnabled w udpr (udp_status hostNetworkEnabled w grants udpr).
Proof.
  unfold tcp_status, udp_status. cbv zeta. split.
  - rewrite (common_checks_loop (λ r, mkTCPRouteInput grants r gateway_helpers.defaultControllerName) _ _ _ _ _
      (l4_accepted "TCPRoute" hostNetworkEnabled) (l4_resolved hostNetworkEnabled))
      by (intros r p; by destruct hostNetworkEnabled).
    by apply (two_conditions_l4 _ w tcpr); destruct hostNetworkEnabled.
  - rewrite (common_checks_loop (λ r, mkUDPRouteInput grants r gateway_helpers.defaultControllerName) _ _ _ _ _
      (l4_accepted "UDPRoute" hostNetworkEnabled) (l4_resolved hostNetworkEnabled))
      by (intros r p; by destruct hostNetworkEnabled).
    by apply (two_conditions_l4 _ w udpr); destruct hostNetworkEnabled.
Qed.

(** ** HTTPRoutes *)

(** The parents that belong to the controller: its Gateways, and ListenerSets of
    its Gateways. *)
Definition http_owned (ctrl : string) (w : World) (ns : string) (p : ParentReference) : bool :=
  if IsGateway p then parentIsMatchingGateway ctrl w p ns
  else if IsListenerSet p then
    match cl_Get KListenerSet (mkNamespacedName (NamespaceDerefOr (pr_Namespace p) ns) (pr_Name p)) w with
    | inr _ => false
    | inl ls => match cl_Get KGateway (listenerset.ListenerSetParentGateway ls) w with
                | inr _ => false
                | inl gw => gateway_helpers.GatewayHasMatchingControllerFn ctrl w gw
                end
    end
  else false.

Definition http_accepted : Condition := cond ConditionAccepted ConditionTrue ReasonAccepted "Accepted HTTPRoute".
Definition http_resolved : Condition :=
  cond ConditionResolvedRefs ConditionTrue ReasonResolvedRefs "Service reference is valid".

Lemma http_checks_loop m w grants refs (r : HTTPRoute) ns :
  runCommonRouteChecks m w (mkHTTPRouteInput grants r (rsm_controllerName m) [] []) refs ns =
  mkHTTPRouteInput grants
    (two_conditions (rsm_controllerName m) (http_owned (rsm_controllerName m) w ns) http_accepted http_resolved refs r)
    (rsm_controllerName m) [] [].
Proof.
  unfold runCommonRouteChecks, two_conditions. induction refs as [|q refs IH] using rev_ind; [done|].
  rewrite !foldl_app. cbn [foldl]. rewrite IH. unfold http_owned, runGatewayRouteChecks, runListenerSetRouteChecks.
  destruct (IsGateway q); [by destruct (parentIsMatchingGateway _ w q ns)|].
  destruct (IsListenerSet q); [|done]. destruct (cl_Get KListenerSet _ w) as [ls|]; [|done].
  destruct (cl_Get KGateway _ w) as [gw|]; [|done]. by destruct (gateway_helpers.GatewayHasMatchingControllerFn _ w gw).
Qed.

(** A condition that is set for all entries of a status. *)
Definition mark_all {Rule} (ctrl : string) (found : option Condition) (r : Route Rule) : Route Rule :=
  match found with
  | None => r
  | Some c => foldl (λ r e, SetParent ctrl (rps_ParentRef e) c r) r (rt_Parents r)
  end.

Lemma apply_validator_loop grants r ctrl found :
  apply_validator (mkHTTPRouteInput grants r ctrl [] []) found = mkHTTPRouteInput grants (mark_all ctrl found r) ctrl [] [].
Proof.
  destruct found as [c|]; [|done]. unfold apply_validator, mark_all. cbn [hi_HTTPRoute].
  generalize (rt_Parents r). intros l. induction l as [|e l IH] using rev_ind; [done|].
  rewrite !foldl_app. cbn [foldl]. by rewrite IH.
Qed.

Lemma mark_loop {Rule} ctrl c (l : list RouteParentStatus) (r : Route Rule) :
  let r' := foldl (λ r e, SetParent ctrl (rps_ParentRef e) c r) r l in
  (∀ e, e ∈ l → has_cond (rt_Parents r') (rps_ParentRef e) (cond_Type c) (λ c', says c' c)) ∧
  (∀ p t, t ≠ cond_Type c → parent_cond (rt_Parents r') p t = parent_cond (rt_Parents r) p t) ∧
  (∀ e, e ∈ rt_Parents r' → e ∈ rt_Parents r ∨ rps_ParentRef e ∈ rps_ParentRef <$> l) ∧
  r' = with_Parents r (rt_Parents r').
Proof.
  cbv zeta. induction l as [|e l IH] using rev_ind.
  { split_and!; [by intros ? ?%not_elem_of_nil|done|by left|by destruct r]. }
  rewrite foldl_app. cbn [foldl]. set (r1 := foldl _ r l) in *. destruct IH as (I1 & I2 & I3 & I4).
  destruct (SetParent_entries ctrl (rps_ParentRef e) c r1) as (_ & A2 & A3). split_and!.
  - intros e' He'. destruct (decide (rps_ParentRef e' = rps_ParentRef e)) as [->|Hne]; [apply SetParent_cond|].
    apply elem_of_app in He' as [He'|He'%list_elem_of_singleton]; [|congruence].
    destruct (I1 e' He') as (x & ? & ?). exists x. rewrite SetParent_other by congruence. done.
  - intros p t Ht. rewrite SetParent_other by congruence. by apply I2.
  - intros e' He'. rewrite fmap_app, elem_of_app. destruct (A2 e' He') as [->|He1].
    + right. right. left.
    + destruct (I3 e' He1); auto.
  - rewrite A3, I4. done.
Qed.

Lemma mark_all_spec {Rule} ctrl c (r : Route Rule) :
  let r' := mark_all ctrl (Some c) r in
  (∀ e, e ∈ rt_Parents r' → has_cond (rt_Parents r') (rps_ParentRef e) (cond_Type c) (λ c', says c' c)) ∧
  (∀ p t, t ≠ cond_Type c → parent_cond (rt_Parents r') p t = parent_cond (rt_Parents r) p t) ∧
  r' = with_Parents r (rt_Parents r').
Proof.
  cbv zeta. unfold mark_all. destruct (mark_loop ctrl c (rt_Parents r) r) as (H1 & H2 & H3 & H4). split_and!; [|done..].
  intros e He. destruct (H3 e He) as [?|(e0 & -> & ?)%list_elem_of_fmap]; by apply H1.
Qed.

(** A validator finds something. *)
Definition http_rejected (original : HTTPRoute) : bool :=
  match header_modifier_loop (rt_Rules original ≫= hrr_Filters) with
  | Ok None => bool_decide (is_Some (ValidateMatchRegexps (mkHTTPRouteInput [] original "" [] [])))
  | _ => true
  end.

Lemma header_modifier_rejects l c :
  header_modifier_loop l = Ok (Some c) → cond_Type c = ConditionAccepted ∧ cond_Status c = ConditionFalse.
Proof.
  induction l as [|f l IH]; [done|]. cbn [header_modifier_loop]. intros H.
  destruct (set_headers f) as [names|]; [|done]. cbn in H. destruct (existsb _ names); [|by apply IH].
  by injection H as <-.
Qed.

Lemma regexps_reject h c :
  ValidateMatchRegexps h = Some c → cond_Type c = ConditionAccepted ∧ cond_Status c = ConditionFalse.
Proof.
  unfold ValidateMatchRegexps. intros H%head_Some_elem_of.
  apply list_elem_of_omap in H as ([field v] & _ & H). by destruct (regexp_Compile v); [|done]; injection H as <-.
Qed.

Lemma has_cond_entry l p t P : has_cond l p t P → ∃ e, e ∈ l ∧ rps_ParentRef e = p.
Proof.
  intros (c & H & _). unfold parent_cond in H. destruct (List.find _ l) as [e|] eqn:E; [|done].
  apply find_some in E as [?%list_elem_of_In ?%bool_decide_eq_true]. eauto.
Qed.

(** Whether anything was found, for the entries of a status. *)
Definition marked (bad : bool) (l : list RouteParentStatus) : Prop :=
  bad = true → ∀ e, e ∈ l → has_cond l (rps_ParentRef e) ConditionAccepted (λ c, cond_Status c = ConditionFalse).

Lemma mark_all_marked {Rule} ctrl found bad (r : Route Rule) :
  (∀ c, found = Some c → cond_Type c = ConditionAccepted ∧ cond_Status c = ConditionFalse) →
  marked bad (rt_Parents r) →
  let r' := mark_all ctrl found r in
  marked (bad || bool_decide (is_Some found)) (rt_Parents r') ∧
  (∀ p, parent_cond (rt_Parents r') p ConditionResolvedRefs = parent_cond (rt_Parents r) p ConditionResolvedRefs) ∧
  (found = None → r' = r) ∧ r' = with_Parents r (rt_Parents r').
Proof.
  intros Hf Hb. cbv zeta. destruct found as [c|].
  - destruct (Hf c eq_refl) as [Ht Hs]. destruct (mark_all_spec ctrl c r) as (H1 & H2 & H3).
    rewrite Ht in H1, H2. split_and!; [|by intros; apply H2|done|done].
    intros _ e He. destruct (H1 e He) as (c' & ? & _ & ? & _). exists c'. split; [done|congruence].
  - rewrite orb_false_r. split_and!; [done..|]. by destruct r.
Qed.

(** C31: the status that the Gateway reconciler computes for an HTTPRoute says, of
    every parent that belongs to the controller, that all references are resolved,
    whatever the backends are, and that the route is accepted exactly if the
    validators of header modifiers and regular expressions find nothing.  What they
    find is reported for all entries of the status, those of other controllers
    too; if they find nothing, such entries are kept. *)
Theorem http_status_spec m w grants original r :
  http_status m w grants original = Ok r →
  let ctrl := rsm_controllerName m in
  let touched p := p ∈ rt_ParentRefs original ∧ http_owned ctrl w (om_Namespace (rt_meta original)) p = true in
  (∀ p, touched p →
     has_cond (rt_Parents r) p ConditionResolvedRefs (λ c, cond_Status c = ConditionTrue) ∧
     has_cond (rt_Parents r) p ConditionAccepted
       (λ c, cond_Status c = if http_rejected original then ConditionFalse else ConditionTrue)) ∧
  (http_rejected original = true → ∀ e, e ∈ rt_Parents r →
     has_cond (rt_Parents r) (rps_ParentRef e) ConditionAccepted (λ c, cond_Status c = ConditionFalse)) ∧
  (http_rejected original = false → ∀ e, ¬ touched (rps_ParentRef e) →
     e ∈ rt_Parents r ↔ e ∈ rt_Parents original ∧ (rps_ControllerName e = ctrl → rps_ParentRef e ∈ rt_ParentRefs original)) ∧
  r = with_Parents original (rt_Parents r).
Proof.
  unfold http_status. cbv zeta. rewrite http_checks_loop. set (r0 := with_Parents original _).
  change (rt_meta r0) with (rt_meta original). change (rt_ParentRefs r0) with (rt_ParentRefs original). set (owned := http_owned _ w _).
  destruct (two_conditions_spec (rsm_controllerName m) owned http_accepted http_resolved (rt_ParentRefs original) r0
    ltac:(done)) as (T1 & T2 & T3 & T4).
  set (r1 := two_conditions _ _ _ _ _ r0) in *. unfold ValidateHeaderModifier. cbn [hi_HTTPRoute].
  replace (rt_Rules r1) with (rt_Rules original) by (by rewrite T4).
  destruct (header_modifier_loop (rt_Rules original ≫= hrr_Filters)) as [found|] eqn:Eh; [|done].
  cbn [mbind go_mbind]. rewrite apply_validator_loop.
  assert (M0 : marked false (rt_Parents r1)) by done.
  destruct (mark_all_marked (rsm_controllerName m) found false r1) as (M1 & R1 & N1 & W1); [|done|].
  { intros c ->. by eapply header_modifier_rejects. }
  set (r2 := mark_all _ found r1) in *.
  assert (Er : ∀ g c, ValidateMatchRegexps (mkHTTPRouteInput g r2 c [] []) = ValidateMatchRegexps (mkHTTPRouteInput [] original "" [] [])).
  { intros g c. unfold ValidateMatchRegexps. cbn [hi_HTTPRoute]. by rewrite W1, T4. }
  rewrite Er, apply_validator_loop. set (found2 := ValidateMatchRegexps _) in *.
  destruct (mark_all_marked (rsm_controllerName m) found2 _ r2 ltac:(intros c; apply regexps_reject) M1) as (M2 & R2 & N2 & W2).
  set (r3 := mark_all _ found2 r2) in *. cbn [hi_HTTPRoute]. intros [= <-].
  assert (Hbad : http_rejected original = (false || bool_decide (is_Some found)) || bool_decide (is_Some found2)).
  { unfold http_rejected. rewrite Eh. by destruct found. }
  rewrite <-Hbad in M2. split_and!.
  - intros p Hp. destruct (T1 p Hp) as [HA HR]. cbn [cond_Type http_accepted http_resolved cond] in HA, HR.
    assert (HR3 : has_cond (rt_Parents r3) p ConditionResolvedRefs (λ c, cond_Status c = ConditionTrue)).
    { destruct HR as (c & Ec & _ & Hc & _). exists c. by rewrite R2, R1. }
    split; [done|]. destruct (http_rejected original) eqn:Eb.
    + destruct (has_cond_entry _ _ _ _ HR3) as (e & He & <-). by apply M2.
    + destruct found; [done|]. destruct found2; [done|]. rewrite N2, N1 by done.
      destruct HA as (c & Ec & _ & Hc & _). by exists c.
  - intros Hb. by apply M2.
  - intros Hb e Hn. rewrite Hbad in Hb. destruct found; [done|]. destruct found2; [done|]. rewrite N2, N1 by done.
    rewrite <-(prune_elem (rt_Parents original)). split.
    + intros He. by destruct (T3 e He).
    + intros He. by apply T2.
  - rewrite W2, W1, T4. by destruct original.
Qed.

End Manager.

End route_status_facts.
