(* ===== verification/PolicyStatus.v ===== *)
(** * Statuses of BackendTLSPolicies

    [Module policychecks]: src/pkg/gateway_api/policychecks/backendtlspolicy.go.
    [Module policy_status]: the statuses that gateway_reconcile.go writes for the
    policies in the lookup map.  That map holds pointers into the list of
    policies, so that one policy may be under several services and sections: the
    objects are a store, keyed by policy, that is threaded through the loops. *)

From S2P Require Import Prelude GoStrings ApiTypes Model Hostnames Helpers Translator FrontTranslators ApiServer Status RouteChecker.
Import k8s gatewayv1 api types namespaces backendtlspolicy.

Module policychecks.

Section Checks.
Context {client : Client} {errors : ApiErrorText} {clock : Clock} {pem : certs.Pem}.

Definition fill (p : BackendTLSPolicy) (c : Condition) : Condition :=
  mkCondition (cond_Type c) (cond_Status c) (cond_Reason c) (cond_Message c)
    (om_Generation (btp_meta p)) now.

(** The first entry for the ancestor is merged into. *)
Fixpoint merge_ancestor (l : list PolicyAncestorStatus) (ref : ParentReference) (c : Condition)
  : option (list PolicyAncestorStatus) :=
  match l with
  | [] => None
  | a :: l' =>
      if bool_decide (pas_AncestorRef a = ref)
      then Some (mkPolicyAncestorStatus (pas_AncestorRef a) (pas_ControllerName a)
                   (conditions.MergeConditions (pas_Conditions a) [c]) :: l')
      else cons a <$> merge_ancestor l' ref c
  end.

Definition SetAncestorCondition (controllerName : string) (parentRef : ParentReference) (c : Condition)
    (p : BackendTLSPolicy) : BackendTLSPolicy :=
  let c := fill p c in
  with_Ancestors p
    match merge_ancestor (btp_Ancestors p) parentRef c with
    | Some l => l
    | None => btp_Ancestors p ++ [mkPolicyAncestorStatus parentRef controllerName [c]]
    end.

Definition setRejectedConditions (controllerName : string) (ancestorRef : ParentReference)
    (message acceptedReason resolvedRefsReason : string) (p : BackendTLSPolicy) : BackendTLSPolicy :=
  let p := SetAncestorCondition controllerName ancestorRef
             (routechecker.cond ConditionAccepted ConditionFalse acceptedReason message) p in
  SetAncestorCondition controllerName ancestorRef
    (routechecker.cond ConditionResolvedRefs ConditionFalse resolvedRefsReason message) p.

(** Why a policy is not valid: the message and the reasons of the two conditions;
    [inr] if the ConfigMap cannot be read. *)
Definition spec_problem (w : World) (p : BackendTLSPolicy) : option (string * string * string) + ApiError :=
  match btp_CACertificateRefs p with
  | [] => inl None
  | caCertRef :: rest =>
      if bool_decide (is_Some (btp_WellKnownCACertificates p))
      then inl (Some ("Cannot have both CACertificateRefs and wellKnownCACertificates set",
                      ReasonInvalid, ReasonInvalid))
      else if negb (Nat.eqb (length rest) 0)
      then inl (Some ("Having more than one CA Certificate Ref is not supported", ReasonInvalid, ReasonInvalid))
      else if negb (String.eqb (lor_Group caCertRef) "") || negb (String.eqb (lor_Kind caCertRef) "ConfigMap")
      then inl (Some ("Only ConfigMaps are supported for CA Certificate Refs",
                      PolicyReasonNoValidCACertificate, RouteReasonInvalidKind))
      else
        let caCertRefKey := mkNamespacedName (om_Namespace (btp_meta p)) (lor_Name caCertRef) in
        match cl_Get KConfigMap caCertRefKey w with
        | inr NotFound =>
            inl (Some ("CA Certificate does not exist: " +:+ nn_String caCertRefKey,
                       PolicyReasonNoValidCACertificate, PolicyReasonInvalidCACertificateRef))
        | inr e => inr e
        | inl caCert =>
            match cm_Data caCert !! "ca.crt" with
            | None => inl (Some ("CA Certificate ConfigMap does not contain a `ca.crt` key",
                                 PolicyReasonNoValidCACertificate, PolicyReasonInvalidCACertificateRef))
            | Some crt =>
                if negb (certs.IsValidPemFormat crt)
                then inl (Some ("CA Certificate ConfigMap does not contain at least one valid PEM-encoded certificate",
                                PolicyReasonNoValidCACertificate, PolicyReasonInvalidCACertificateRef))
                else inl None
            end
        end
  end.

(** The policy with its conditions, and whether it is valid. *)
Definition ValidateSpec (w : World) (controllerName : string) (ancestorRef : ParentReference)
    (p : BackendTLSPolicy) : BackendTLSPolicy * bool + ApiError :=
  match spec_problem w p with
  | inr e => inr e
  | inl None => inl (p, true)
  | inl (Some (message, acceptedReason, resolvedRefsReason)) =>
      inl (setRejectedConditions controllerName ancestorRef message acceptedReason resolvedRefsReason p, false)
  end.

End Checks.

End policychecks.

Module policy_status.
Import policychecks.

Section Statuses.
Context {client : Client} {errors : ApiErrorText} {clock : Clock} {pem : certs.Pem} {range : MapRange}.

Definition controllerName : string := "io.dolphin/gateway-controller".

Definition updateBackendTLSPolicyStatus (original new : BackendTLSPolicy) : R unit :=
  if cmp.Equal (btp_Ancestors original) (btp_Ancestors new) then mret tt
  else write (cl_UpdateStatus KBackendTLSPolicy new).

(** The statuses of the policies so far, those confirmed to be valid, and the
    lookup map. *)
Record State := mkState {
  st_statuses : gmap NamespacedName (list PolicyAncestorStatus);
  st_confirmed : gset NamespacedName;
  st_map : BackendTLSPolicyServiceMap
}.

(** The policy behind a pointer. *)
Definition current (st : State) (p : BackendTLSPolicy) : BackendTLSPolicy :=
  with_Ancestors p (default (btp_Ancestors p) (st_statuses st !! policy_key p)).

(** A copy gets its conditions, is written, and its status is copied back. *)
Definition set_policy (st : State) (p : BackendTLSPolicy) (f : BackendTLSPolicy → BackendTLSPolicy) : R State :=
  let original := current st p in
  let btlsp := f original in
  _ ← wrapping "failed to update BackendTLSPolicy status: " (updateBackendTLSPolicyStatus original btlsp);
  mret (mkState (<[policy_key p := btp_Ancestors btlsp]> (st_statuses st)) (st_confirmed st) (st_map st)).

Definition currentGatewayRef (gatewayName : NamespacedName) : ParentReference :=
  mkParentReference (Some "gateway.networking.k8s.io") (Some "Gateway") (Some (nn_Namespace gatewayName))
    (nn_Name gatewayName) None None.

Definition missing_service (ref : ParentReference) (svcName : NamespacedName) (p : BackendTLSPolicy)
  : BackendTLSPolicy :=
  let msg := "TargetRef does not exist: " +:+ nn_String svcName in
  let p := SetAncestorCondition controllerName ref
             (routechecker.cond ConditionAccepted ConditionFalse ReasonInvalid msg) p in
  SetAncestorCondition controllerName ref
    (routechecker.cond ConditionResolvedRefs ConditionFalse RouteReasonBackendNotFound msg) p.

Definition set_conflicted (ref : ParentReference) : BackendTLSPolicy → BackendTLSPolicy :=
  SetAncestorCondition controllerName ref
    (routechecker.cond ConditionAccepted ConditionFalse PolicyReasonConflicted
       "BackendTLSPolicy conflicts with another").

Definition set_accepted (ref : ParentReference) (p : BackendTLSPolicy) : BackendTLSPolicy :=
  let p := SetAncestorCondition controllerName ref
             (routechecker.cond ConditionAccepted ConditionTrue ReasonAccepted "Accepted BackendTLSPolicy") p in
  SetAncestorCondition controllerName ref
    (routechecker.cond ConditionResolvedRefs ConditionTrue ReasonResolvedRefs "All references are valid") p.

Definition confirmed (st : State) (p : BackendTLSPolicy) : bool :=
  bool_decide (policy_key p ∈ st_confirmed st).

(** The policies of a Service that does not exist. *)
Definition missing_loop (ref : ParentReference) (svcName : NamespacedName) (collection : Collection) (st : State)
  : R State :=
  st ← R_fold (λ st sec,
         match Valid collection !! sec with
         | None => mret st
         | Some p => if confirmed st p then mret st else set_policy st p (missing_service ref svcName)
         end) st (map_keys (Valid collection));
  R_fold (λ st k,
    match Conflicted collection !! k with
    | None => mret st
    | Some p => if confirmed st p then mret st else set_policy st p (set_conflicted ref)
    end) st (map_keys (Conflicted collection)).

Definition confirm (st : State) (svcName : NamespacedName) (sec : string) (p : BackendTLSPolicy) (valid : bool)
  : State :=
  if valid then mkState (st_statuses st) ({[ policy_key p ]} ∪ st_confirmed st) (st_map st)
  else mkState (st_statuses st) (st_confirmed st)
         (alter (λ c, UpsertInvalidPolicy sec p (DeleteValidPolicy sec c)) svcName (st_map st)).

(** A valid policy of a Service that exists. *)
Definition validate_policy (ref : ParentReference) (svcName : NamespacedName) (sec : string)
    (p : BackendTLSPolicy) (st : State) : R State :=
  let btlsp := set_accepted ref (current st p) in
  r ← attempt (read (λ w, ValidateSpec w controllerName ref btlsp));
  match r with
  | inr e => fail (wrap "failed to validate BackendTLSPolicy spec: " e)
  | inl (btlsp, valid) =>
      set_policy (confirm st svcName sec p valid) p (λ _, btlsp)
  end.

Definition existing_loop (ref : ParentReference) (svcName : NamespacedName) (collection : Collection) (st : State)
  : R State :=
  st ← R_fold (λ st sec,
         match Valid collection !! sec with
         | None => mret st
         | Some p => validate_policy ref svcName sec p st
         end) st (map_keys (Valid collection));
  R_fold (λ st k,
    match Conflicted collection !! k with
    | None => mret st
    | Some p => set_policy st p (set_conflicted ref)
    end) st (map_keys (Conflicted collection)).

(** The objects of a list carry no kind. *)
Definition list_object (r : HTTPRoute) : equal.Object := equal.mkObject (mkGVK "" "" "") (rt_meta r).

(** A filter of one of the routes uses the Service for external authorization. *)
Definition ext_auth (httpRoutes : list HTTPRoute) (svcName : NamespacedName) : bool :=
  existsb (λ hr, existsb (λ rule, existsb (λ f,
    String.eqb (rf_Type f) FilterExternalAuth &&
    match rf_ExternalAuth f with
    | None => false
    | Some be => String.eqb (bor_Name be) (nn_Name svcName) &&
                 String.eqb (NamespaceDerefOr (bor_Namespace be) (om_Namespace (rt_meta hr))) (nn_Namespace svcName)
    end) (hrr_Filters rule)) (rt_Rules hr)) httpRoutes.

Definition service_step (httpRoutes : list HTTPRoute) (ref : ParentReference) (st : State)
    (svcName : NamespacedName) : R State :=
  match st_map st !! svcName with
  | None => mret st
  | Some collection =>
      hrList ← read (cl_List KHTTPRoute (λ _, true));
      let '(found, err) := equal.ContainsCommonHTTPRoute (list_object <$> hrList) (list_object <$> httpRoutes) in
      match err with
      | Some err => fail (Msg err)
      | None =>
          if negb (found || ext_auth httpRoutes svcName) then mret st
          else
            svc ← attempt (get_opt KService svcName);
            match svc with
            | inr e => fail (wrap "error while checking Backend Service: " e)
            | inl None => missing_loop ref svcName collection st
            | inl (Some _) => existing_loop ref svcName collection st
            end
      end
  end.

Definition setBackendTLSPolicyStatuses (httpRoutes : list HTTPRoute) (btlspMap : BackendTLSPolicyServiceMap)
    (gatewayName : NamespacedName) : R State :=
  R_fold (service_step httpRoutes (currentGatewayRef gatewayName)) (mkState ∅ ∅ btlspMap) (map_keys btlspMap).

End Statuses.

End policy_status.
