(* ===== verification/PolicyStatusFacts.v ===== *)
(** * What the statuses of BackendTLSPolicies say

    [Module policy_status_facts]: which policies the validation accepts and what is
    reported of the others; and, in [Module policy_sample], a policy whose status
    depends on the order of a map. *)

From S2P Require Import Prelude GoStrings ApiTypes Model Hostnames Helpers Translator FrontTranslators ApiServer Status RouteChecker RouteCheckerFacts RouteInputs RouteControllers RouteReconcile PolicyStatus.
Import k8s gatewayv1 api types namespaces backendtlspolicy policychecks policy_status.

Module policy_status_facts.

Section Facts.
Context {client : Client} {errors : ApiErrorText} {clock : Clock} {pem : certs.Pem}.

(** The condition of a type for an ancestor. *)
Definition ancestor_cond (p : BackendTLSPolicy) (ref : ParentReference) (t : string) : option Condition :=
  List.find (λ a, bool_decide (pas_AncestorRef a = ref)) (btp_Ancestors p) ≫= λ a, status.find_cond t (pas_Conditions a).

Lemma find_merge_ancestor l ref c :
  match merge_ancestor l ref c with
  | Some l' => ∃ a, List.find (λ a, bool_decide (pas_AncestorRef a = ref)) l = Some a ∧
      List.find (λ a, bool_decide (pas_AncestorRef a = ref)) l' =
        Some (mkPolicyAncestorStatus (pas_AncestorRef a) (pas_ControllerName a)
                (conditions.MergeConditions (pas_Conditions a) [c]))
  | None => ∀ a, pas_AncestorRef a = ref →
      List.find (λ a, bool_decide (pas_AncestorRef a = ref)) l = None ∧
      List.find (λ a, bool_decide (pas_AncestorRef a = ref)) (l ++ [a]) = Some a
  end.
Proof.
  induction l as [|a l IH]; cbn.
  { intros a Ha. split; [done|]. by rewrite bool_decide_true. }
  case_bool_decide as Ha.
  - cbn. exists a. by rewrite bool_decide_true.
  - destruct (merge_ancestor l ref c) as [l'|]; cbn; rewrite ?(bool_decide_false (pas_AncestorRef a = ref)) by done; done.
Qed.

(** The condition that is set, and the others of the ancestor. *)
Lemma ancestor_cond_set ctrl ref c p t :
  ancestor_cond (SetAncestorCondition ctrl ref c p) ref t =
  if String.eqb (cond_Type c) t
  then Some (from_option (λ c0, conditions.merge_one c0 (policychecks.fill p c)) (policychecks.fill p c) (ancestor_cond p ref t))
  else ancestor_cond p ref t.
Proof.
  unfold ancestor_cond, SetAncestorCondition. cbn [btp_Ancestors with_Ancestors].
  pose proof (find_merge_ancestor (btp_Ancestors p) ref (policychecks.fill p c)) as H.
  destruct (merge_ancestor _ _ _) as [l'|].
  - destruct H as (a & -> & ->). cbn. fold (status.merge (pas_Conditions a) [policychecks.fill p c]).
    by rewrite status.find_merge_one.
  - destruct (H (mkPolicyAncestorStatus ref ctrl [policychecks.fill p c]) eq_refl) as [-> ->]. cbn.
    rewrite routeinputs.find_cond_singleton. by destruct (String.eqb _ t).
Qed.

Definition rejects (p : BackendTLSPolicy) (ref : ParentReference) (t : string) : Prop :=
  ∃ c, ancestor_cond p ref t = Some c ∧ cond_Status c = ConditionFalse.

Lemma set_rejects ctrl ref c p : cond_Status c = ConditionFalse → rejects (SetAncestorCondition ctrl ref c p) ref (cond_Type c).
Proof.
  intros Hs. unfold rejects. rewrite ancestor_cond_set, String.eqb_refl. eexists. split; [done|].
  destruct (ancestor_cond p ref (cond_Type c)) as [c0|] eqn:E; cbn; [|done].
  destruct (status.reports_Status (conditions.merge_one c0 (policychecks.fill p c)) (policychecks.fill p c)) as (-> & _); [|done].
  split; [|apply conditions.merge_one_settled]. rewrite conditions.cond_Type_merge_one. cbn.
  unfold ancestor_cond in E. destruct (List.find _ _); [|done]. by apply find_some in E as [_ ?%String.eqb_eq].
Qed.

Lemma set_other ctrl ref c p t : t ≠ cond_Type c → rejects p ref t → rejects (SetAncestorCondition ctrl ref c p) ref t.
Proof.
  intros Ht (c' & E & ?). exists c'. split; [|done]. rewrite ancestor_cond_set, (proj2 (String.eqb_neq _ _)); done.
Qed.

(** A policy without CA certificates, or with exactly one reference, to a
    ConfigMap of its namespace whose key ca.crt has PEM data. *)
Definition ca_usable (w : World) (p : BackendTLSPolicy) : Prop :=
  btp_CACertificateRefs p = [] ∨
  ∃ ref cm crt, btp_CACertificateRefs p = [ref] ∧ btp_WellKnownCACertificates p = None ∧
    lor_Group ref = "" ∧ lor_Kind ref = "ConfigMap" ∧
    cl_Get KConfigMap (mkNamespacedName (om_Namespace (btp_meta p)) (lor_Name ref)) w = inl cm ∧
    cm_Data cm !! "ca.crt" = Some crt ∧ certs.IsValidPemFormat crt = true.

Lemma spec_problem_spec w p :
  match spec_problem w p with
  | inl None => ca_usable w p
  | inl (Some _) => ¬ ca_usable w p
  | inr e => e ≠ NotFound ∧ ∃ ref, btp_CACertificateRefs p = [ref] ∧
      cl_Get KConfigMap (mkNamespacedName (om_Namespace (btp_meta p)) (lor_Name ref)) w = inr e
  end.
Proof.
  unfold spec_problem, ca_usable. destruct (btp_CACertificateRefs p) as [|ref rest] eqn:Er; [by left|].
  case_bool_decide as Hw; [intros [?|(? & ? & ? & ? & E & _)]; [done|]; rewrite E in Hw; by destruct Hw|].
  destruct rest as [|ref' rest]; cbn [length Nat.eqb negb].
  2: { intros [?|(? & ? & ? & ? & _)]; done. }
  destruct (String.eqb_spec (lor_Group ref) "") as [Hg|Hg]; cbn [negb orb].
  2: { intros [?|(? & ? & ? & [= <-] & _ & ? & _)]; done. }
  destruct (String.eqb_spec (lor_Kind ref) "ConfigMap") as [Hk|Hk]; cbn [negb].
  2: { intros [?|(? & ? & ? & [= <-] & _ & _ & ? & _)]; done. }
  destruct (cl_Get KConfigMap _ w) as [cm|[]] eqn:Eg.
  - destruct (cm_Data cm !! "ca.crt") as [crt|] eqn:Ed.
    + destruct (certs.IsValidPemFormat crt) eqn:Ep; cbn [negb].
      * right. exists ref, cm, crt. split_and!; try done. by apply eq_None_not_Some.
      * intros [?|(? & cm' & crt' & [= <-] & _ & _ & _ & E & Ed' & Ep')]; [done|].
        rewrite Eg in E. injection E as <-. congruence.
    + intros [?|(? & cm' & crt' & [= <-] & _ & _ & _ & E & Ed' & Ep')]; [done|].
      rewrite Eg in E. injection E as <-. congruence.
  - intros [?|(? & cm' & crt' & [= <-] & _ & _ & _ & E & _)]; [done|]. by rewrite Eg in E.
  - split; [done|]. by exists ref.
  - split; [done|]. by exists ref.
Qed.

(** C38: the validation accepts a BackendTLSPolicy, and leaves it as it is, exactly
    if it has no CA certificate reference, or exactly one, to a ConfigMap of its
    namespace with PEM data and without well-known certificates beside it; any other
    policy, one with several references included (which a comment says are ignored), gets
    False Accepted and ResolvedRefs conditions for the Gateway.  It fails only if
    the ConfigMap cannot be read. *)
Theorem ValidateSpec_spec w ctrl ref p :
  match ValidateSpec w ctrl ref p with
  | inl (p', true) => p' = p ∧ ca_usable w p
  | inl (p', false) => ¬ ca_usable w p ∧ rejects p' ref ConditionAccepted ∧ rejects p' ref ConditionResolvedRefs
  | inr e => e ≠ NotFound ∧ ∃ ca, btp_CACertificateRefs p = [ca] ∧
      cl_Get KConfigMap (mkNamespacedName (om_Namespace (btp_meta p)) (lor_Name ca)) w = inr e
  end.
Proof.
  unfold ValidateSpec. pose proof (spec_problem_spec w p) as H.
  destruct (spec_problem w p) as [[[[message ar] rr]|]|e]; [|done..]. split; [done|]. unfold setRejectedConditions. split.
  - apply set_other; [done|]. by apply (set_rejects _ _ (routechecker.cond ConditionAccepted ConditionFalse ar message)).
  - by apply (set_rejects _ _ (routechecker.cond ConditionResolvedRefs ConditionFalse rr message)).
Qed.

End Facts.

End policy_status_facts.

(** ** A policy of two Services *)

Module policy_sample.
Import policy_status_facts.

#[local] Existing Instance reference_client.
#[local] Existing Instance sample.plain_errors.
#[local] Existing Instance sample.fixed_clock.

Definition target (name : string) : PolicyTargetReference := mkPolicyTargetReference "" "Service" name None.

(** The older policy has the Service b; the younger one has both. *)
Definition older : BackendTLSPolicy :=
  mkBackendTLSPolicy (mkObjectMeta "older" "default" "" 1 ∅ ∅ 1 None) [target "b"] [] None [].
Definition younger : BackendTLSPolicy :=
  mkBackendTLSPolicy (mkObjectMeta "younger" "default" "" 1 ∅ ∅ 2 None) [target "a"; target "b"] [] None [].

Definition svc (name : string) : ServiceObject :=
  mkServiceObject (mkFrontService name "default" ∅ ∅ [] "ClusterIP" []) None None.
Definition route : HTTPRoute := mkRoute (sample.meta "web") [] [] [] [].

Definition world : RefWorld :=
  add_object KService (svc "a") (add_object KService (svc "b") (add_object KHTTPRoute route
    (add_object KBackendTLSPolicy older (add_object KBackendTLSPolicy younger [])))).

Definition gw : NamespacedName := mkNamespacedName "default" "gw".

(** The Accepted condition of the younger policy after the loop. *)
Definition accepted_status (range : MapRange) : option string :=
  match setBackendTLSPolicyStatuses (pem := certs.toy_pem) (range := range) [route]
          (BuildBackendTLSPolicyLookup [older; younger]) gw world with
  | Ok (w', inl _) =>
      ref_stored KBackendTLSPolicy w' (policy_key younger) ≫= λ p,
        cond_Status <$> ancestor_cond p (currentGatewayRef gw) ConditionAccepted
  | _ => None
  end.

(** the status of a BackendTLSPolicy that is valid for one Service and in
    conflict for another depends on the order in which Go goes through the map of
    the Services: here it is not accepted in one order and accepted in the other. *)
Theorem policy_status_depends_on_order :
  accepted_status forward_range = Some ConditionFalse ∧ accepted_status backward_range = Some ConditionTrue.
Proof. split; vm_compute; reflexivity. Qed.

End policy_sample.
