(* ===== verification/GatewayReconcile.v ===== *)
(** * The Gateway reconciler

    [Module gateway_reconcile]: [Reconcile] of
    src/pkg/gateway_api/gateway_reconcile.go with the functions that write the
    Service, the Endpoints and the Envoy configurations.  It composes the route
    statuses, the listeners, ingestion and translation of the other files.

    Two copies of the Gateway are threaded through a run, as in the code: [gw], as
    it was fetched, and [copy], whose status is written at the end. *)

From S2P Require Import Prelude GoStrings ApiTypes Model Hostnames Helpers Ingestion Envoy Translator FrontTranslators ApiServer Status RouteChecker RouteCheckerFacts RouteInputs RouteControllers RouteReconcile GatewayListeners ListenerStatus RouteStatus PolicyStatus.
Import k8s gatewayv1 api types namespaces status gateway_helpers gateway_listeners listener_status route_status policy_status.

(** JSON texts of the parts of a DolphinEnvoyConfig, or the error of encoding
    them; the types are those of another repository. *)
Class EnvoyConfigJson := {
  json_BackendServices : list translation.DService → string + string;
  json_Resources : list XDSResource → string + string;
  json_Services : list translation.ServiceListener → string + string
}.

(** [dolphinv2alpha1.CustomResourceDefinitionGroup] and [DGCCKindDefinition]. *)
Class GatewayClassConfigNames := { DGCCGroup : string; DGCCKindDefinition : string }.

Module gateway_reconcile.

Record gatewayReconciler := mkGatewayReconciler {
  gr_SecretNamespace : string;
  gr_IdleTimeoutSeconds : Z;
  gr_installedCRDs : list string;
  gr_hostNetworkEnabled : bool;
  gr_routeStatusManager : option RoutesStsMgr
}.

Definition newGatewayReconciler (secretsNamespace : string) (idleTimeoutSeconds : Z) (installedCRDs : list string)
  : gatewayReconciler :=
  mkGatewayReconciler secretsNamespace idleTimeoutSeconds installedCRDs false
    (Some (NewRouteStatusManager defaultControllerName)).

Definition TCPRouteKind : string := "tcproutes".
Definition UDPRouteKind : string := "udproutes".

Definition hasInstalledCRD (r : gatewayReconciler) (kind : string) : bool :=
  existsb (λ k, String.eqb k kind) (gr_installedCRDs r).

Section Reconciler.
Context {client : Client} {errors : ApiErrorText} {scheme : Scheme} {selectors : LabelSelectors}
  {clock : Clock} {regexp : Regexp} {pem : certs.Pem} {json : EnvoyConfigJson}
  {names : GatewayClassConfigNames} {infra : Infra} {pb : Proto} {range : MapRange} (hops : Z) (label : string).

(** ** Writing the objects *)

(** [setMergedLabelsAndAnnotations] gives the labels and annotations. *)
Definition mutateDEC (desired : translation.DolphinEnvoyConfig) (dec : DECObject) : DECObject :=
  mkDECObject
    (translation.mkDEC (translation.dec_Name (do_dec dec)) (translation.dec_Namespace (do_dec dec))
       (mergeMap (translation.dec_Labels (do_dec dec)) (translation.dec_Labels desired))
       (translation.dec_OwnerReferences desired) (translation.dec_BackendServices desired)
       (translation.dec_Services desired) (translation.dec_Resources desired))
    (mergeMap (do_Annotations dec) ∅).

Definition ensureEnvoyConfig (desired : option translation.DolphinEnvoyConfig) : R unit :=
  match desired with
  | None => mret tt
  | Some desired => write (cl_CreateOrUpdate KDEC (mkDECObject desired ∅) (mutateDEC desired))
  end.

(** A field of the spec, left out if it is empty. *)
Definition spec_field {A} (key what : string) (encode : list A → string + string) (value : list A)
    (spec : gmap string string) : R (gmap string string) :=
  if Nat.eqb (length value) 0 then mret spec
  else match encode value with
       | inl text => mret (<[key := text]> spec)
       | inr err => fail (Msg ("failed to encode DolphinEnvoyConfig " +:+ what +:+ ": " +:+ err))
       end.

Definition ensureCiliumEnvoyConfig (desired : option translation.DolphinEnvoyConfig) : R unit :=
  match desired with
  | None => mret tt
  | Some desired =>
      spec ← spec_field "backendServices" "backend services" json_BackendServices
               (translation.dec_BackendServices desired) ∅;
      spec ← spec_field "resources" "resources" json_Resources (translation.dec_Resources desired) spec;
      spec ← spec_field "services" "services" json_Services (translation.dec_Services desired) spec;
      write (cl_CreateOrUpdate KCEC
        (mkCECObject (translation.dec_Name desired) (translation.dec_Namespace desired) ∅ [])
        (λ cec, mkCECObject (ceo_Name cec) (ceo_Namespace cec) spec (translation.dec_OwnerReferences desired)))
  end.

Definition mutateEndpoints (desired : FrontEndpoints) (ep : EndpointsObject) : EndpointsObject :=
  mkEndpointsObject
    (mkFrontEndpoints (fe_Name (eo_ep ep)) (fe_Namespace (eo_ep ep))
       (mergeMap (fe_Labels (eo_ep ep)) (fe_Labels desired)) (fe_OwnerReferences desired) (fe_Subsets desired))
    (mergeMap (eo_Annotations ep) ∅).

Definition ensureEndpoints (desired : FrontEndpoints) : R unit :=
  write (cl_CreateOrUpdate KEndpoints (mkEndpointsObject desired ∅) (mutateEndpoints desired)).

(** The load balancer class is that of the desired object, which has none. *)
Definition mutateService (desired : FrontService) (svc : ServiceObject) : ServiceObject :=
  mkServiceObject
    (mkFrontService (fs_Name (so_svc svc)) (fs_Namespace (so_svc svc))
       (mergeMap (fs_Labels (so_svc svc)) (fs_Labels desired))
       (mergeMap (fs_Annotations (so_svc svc)) (fs_Annotations desired))
       (fs_OwnerReferences desired) (fs_Type desired) (fs_Ports desired))
    None (so_Status svc).

Definition ensureService (desired : FrontService) : R unit :=
  write (cl_CreateOrUpdate KService (mkServiceObject desired None None) (mutateService desired)).

(** A deletion where a missing object is fine. *)
Definition delete_found (k : Kind) (n : NamespacedName) (prefix : string) : R unit :=
  r ← attempt (write (cl_Delete k n));
  match r with
  | inl _ | inr (Api NotFound) => mret tt
  | inr e => fail (wrap prefix e)
  end.

Definition deleteEnvoyConfigs (gw : Gateway) : R unit :=
  let name := helper.Shorten ("dolphin-gateway-" +:+ om_Name (gw_meta gw)) in
  let n := mkNamespacedName (om_Namespace (gw_meta gw)) name in
  _ ← delete_found KDEC n "failed to delete DolphinEnvoyConfig: ";
  delete_found KCEC n "failed to delete CiliumEnvoyConfig: ".

(** A reference without a namespace is a nil dereference. *)
Definition getGatewayClassConfig (w : World) (gwc : GatewayClass)
  : go (option gateway_api.DolphinGatewayClassConfig) :=
  match gc_ParametersRef gwc with
  | None => Ok None
  | Some ref =>
      if negb (String.eqb (pref_Group ref) DGCCGroup) || negb (String.eqb (pref_Kind ref) DGCCKindDefinition)
      then Ok None
      else
        ns ← deref (pref_Namespace ref);
        Ok match cl_Get KDGCC (mkNamespacedName ns (pref_Name ref)) w with
           | inl o => Some (dgo_cfg o)
           | inr _ => None
           end
  end.

(** ** The status of the Gateway *)

Definition updateStatus (original modified : Gateway) : R unit :=
  if cmp.Equal (gw_Status original) (gw_Status modified) then mret tt
  else write (cl_UpdateStatus KGateway modified).

Definition handleReconcileErrorWithStatus (reconcileErr : error) (original modified : Gateway) : R unit :=
  r ← attempt (updateStatus original modified);
  match r with
  | inr _ => fail (wrap "failed to update Gateway status while handling the reconcile error: " reconcileErr)
  | inl _ => fail reconcileErr
  end.

(** The rest of a run, unless a step fails. *)
Definition or_else {A} (m : R A) (h : error → R unit) (k : A → R unit) : R unit :=
  r ← attempt m;
  match r with
  | inl a => k a
  | inr e => h e
  end.

(** A function that reads and returns an error. *)
Definition read_error {A} (f : World → A + error) : R A := λ w, Ok (w, f w).

(** The Services that ingestion looks at. *)
Definition as_service (o : ServiceObject) : Service :=
  mkService (mkObjectMeta (fs_Name (so_svc o)) (fs_Namespace (so_svc o)) "" 0 (fs_Labels (so_svc o))
               (fs_Annotations (so_svc o)) 0 None) (sp_Port <$> fs_Ports (so_svc o)).

(** ** Reconcile *)

(** What the first step gathers. *)
Record Gathered := mkGathered { ga_routes : Routes; ga_services : list ServiceObject; ga_grants : list ReferenceGrant }.

Definition gather (r : gatewayReconciler) (gw copy : Gateway) (k : Gathered → R unit) : R unit :=
  let fail_gw e := handleReconcileErrorWithStatus e gw copy in
  let fail_copy e := handleReconcileErrorWithStatus e copy gw in
  or_else (read (cl_List KHTTPRoute (λ _, true))) fail_gw (λ http,
  or_else (read (cl_List KTLSRoute (λ _, true))) fail_gw (λ tls,
  or_else (read (cl_List KService (λ _, true))) fail_gw (λ services,
  or_else (read (cl_List KGRPCRoute (λ _, true))) fail_copy (λ grpc,
  or_else (if hasInstalledCRD r TCPRouteKind then read (cl_List KTCPRoute (λ _, true)) else mret []) fail_copy (λ tcp,
  or_else (if hasInstalledCRD r UDPRouteKind then read (cl_List KUDPRoute (λ _, true)) else mret []) fail_copy (λ udp,
  or_else (read (cl_List KReferenceGrant (λ _, true))) fail_copy (λ grants,
  k (mkGathered (mkRoutes http tls grpc tcp udp) services grants)))))))).

(** The statuses of the HTTP, TCP and UDP routes. *)
Definition set_route_statuses (r : gatewayReconciler) (g : Gathered) : R Routes :=
  let rs := ga_routes g in
  http ← wrapping "failed to update HTTPRoute status: "
           (SetRouteStatuses (gr_routeStatusManager r) (rs_http rs) (ga_grants g));
  tcp ← (if hasInstalledCRD r TCPRouteKind
         then setTCPRouteStatuses (gr_hostNetworkEnabled r) (rs_tcp rs) (ga_grants g) else mret (rs_tcp rs));
  udp ← (if hasInstalledCRD r UDPRouteKind
         then setUDPRouteStatuses (gr_hostNetworkEnabled r) (rs_udp rs) (ga_grants g) else mret (rs_udp rs));
  mret (mkRoutes http (rs_tls rs) (rs_grpc rs) tcp udp).

(** The model, with the HTTPRoutes of the Gateway.  The grants are not passed on. *)
Definition build_model (w : World) (gw copy : Gateway) (services : list ServiceObject) (routes : Routes)
    (attached : list ListenerSet) (contexts : list ingestion.ListenerWithContext)
    (namespaceLabels : NamespaceLabelIndex) : go (model.Model * list HTTPRoute) :=
  let http := filterHTTPRoutesByGateway w copy attached (rs_http routes) in
  tls ← filterTLSRoutesByGateway w copy (rs_tls routes);
  m ← ingestion.GatewayAPI (ingestion.mkInput copy (appended contexts) http tls
        (filterGRPCRoutesByGateway gw (rs_grpc routes) namespaceLabels)
        (filterTCPRoutesByGateway gw attached (rs_tcp routes))
        (filterUDPRoutesByGateway gw attached (rs_udp routes)) [] (as_service <$> services));
  Ok (m, http).

(** Steps 3 and 4: the objects are written, then the status. *)
Definition program (r : gatewayReconciler) (gw copy : Gateway) (m : model.Model)
    (dgccfg : option gateway_api.DolphinGatewayClassConfig) : R unit :=
  let failed msg e := handleReconcileErrorWithStatus e (setGatewayAccepted gw false msg) copy in
  trans ← lift (gateway_api.Translate hops label
            (gateway_api.mkTranslator (gr_SecretNamespace r) (gr_IdleTimeoutSeconds r) true false) (Some m) [dgccfg]);
  match trans with
  | inr err => failed "Unable to translate resources" (Msg err)
  | inl (dec, svc, ep) =>
      or_else (ensureService svc) (failed "Unable to create Service resource") (λ _,
      or_else (ensureEndpoints ep) (failed "Unable to ensure Endpoints resource") (λ _,
      let finish : unit → R unit := λ _,
        or_else (read_error (λ w, setAddressStatus w copy))
          (λ e, handleReconcileErrorWithStatus e (setGatewayProgrammed gw false "Address is not ready") copy) (λ copy,
        wrapping "failed to update Gateway status: "
          (updateStatus gw (setGatewayProgrammed copy true "reconciled successfully"))) in
      match dec with
      | Some _ =>
          or_else (ensureEnvoyConfig dec) (failed "Unable to ensure CEC resource") (λ _,
          or_else (ensureCiliumEnvoyConfig dec) (failed "Unable to ensure CiliumEnvoyConfig resource") finish)
      | None =>
          or_else (deleteEnvoyConfigs gw) (λ e, handleReconcileErrorWithStatus e gw copy) finish
      end))
  end.

(** From the model to the status of the listeners. *)
Definition report (r : gatewayReconciler) (req : NamespacedName) (gw copy : Gateway) (routes : Routes)
    (attached : list ListenerSet) (contexts : list ingestion.ListenerWithContext)
    (namespaceLabels : NamespaceLabelIndex) (m : model.Model) (http : list HTTPRoute)
    (dgccfg : option gateway_api.DolphinGatewayClassConfig) : R unit :=
  or_else (read (cl_List KBackendTLSPolicy (λ _, true)))
    (λ e, handleReconcileErrorWithStatus e copy gw) (λ policies,
  _ ← (if negb (Nat.eqb (length policies) 0)
       then st ← setBackendTLSPolicyStatuses http (backendtlspolicy.BuildBackendTLSPolicyLookup policies) req; mret tt
       else mret tt);
  listeners ← query (λ w, setListenerStatus w copy routes namespaceLabels);
  match listeners with
  | inr e => handleReconcileErrorWithStatus e gw (setGatewayAccepted copy false "Unable to set listener status")
  | inl copy =>
      let copy := setGatewayAccepted copy true "Gateway successfully scheduled" in
      gw ← setListenerSetStatuses gw attached (conflictsAcrossSources contexts) routes namespaceLabels;
      program r gw copy m dgccfg
  end).

Definition reconcile_gateway (r : gatewayReconciler) (req : NamespacedName) (gwc : GatewayClass) (gw copy : Gateway)
  : R unit :=
  gather r gw copy (λ g,
  routes ← set_route_statuses r g;
  or_else (if HasListenerSetSupport then read_error (λ w, listenerSetsForGateway w gw) else mret [])
    (λ e, handleReconcileErrorWithStatus e copy gw) (λ sets,
  attached ← filterToAllowedListenerSets gw sets;
  contexts ← query (λ w, Ok (mergeListeners w gw attached));
  or_else (if hasAllowedRoutesNamespaceSelector gw then read (cl_List KNamespace (λ _, true)) else mret [])
    (λ e, handleReconcileErrorWithStatus e copy gw) (λ nss,
  let namespaceLabels := NewNamespaceLabelIndex nss in
  dgccfg ← query (λ w, getGatewayClassConfig w gwc);
  '(m, http) ← query (λ w, build_model w gw copy (ga_services g) routes attached contexts namespaceLabels);
  report r req gw copy routes attached contexts namespaceLabels m http dgccfg))).

Definition Reconcile (r : gatewayReconciler) (req : NamespacedName) : R unit :=
  found ← get_opt KGateway req;
  match found with
  | None => mret tt
  | Some gw =>
      if bool_decide (is_Some (om_DeletionTimestamp (gw_meta gw))) then mret tt
      else
        gwc ← attempt (read (cl_Get KGatewayClass (mkNamespacedName "" (gw_GatewayClassName gw))));
        match gwc with
        | inr _ => mret tt
        | inl gwc =>
            if negb (String.eqb (gc_ControllerName gwc) defaultControllerName) then mret tt
            else reconcile_gateway r req gwc gw gw
        end
  end.

End Reconciler.

End gateway_reconcile.
