(* ===== verification/GatewayReconcileFacts.v ===== *)
(** * What a run of the Gateway reconciler does

    [Module gateway_reconcile_facts]: the objects a run may change, the status and
    the objects that a successful run leaves, and what is reported of a failed
    one. *)

From S2P Require Import Prelude GoStrings ApiTypes Model Hostnames Helpers Ingestion Envoy Translator TranslatorFacts FrontTranslators ApiServer Status RouteChecker RouteCheckerFacts RouteInputs RouteControllers RouteReconcile GatewayListeners ListenerStatus ListenerStatusFacts RouteStatus PolicyStatus GatewayReconcile.
Import k8s gatewayv1 api types namespaces status gateway_helpers gateway_listeners listener_status listener_status_facts route_status policy_status gateway_reconcile.

Module gateway_reconcile_facts.

Section Facts.
Context {client : Client} {laws : ClientLaws} {errors : ApiErrorText} {scheme : Scheme} {selectors : LabelSelectors}
  {clock : Clock} {regexp : Regexp} {pem : certs.Pem} {json : EnvoyConfigJson}
  {names : GatewayClassConfigNames} {infra : Infra} {pb : Proto} {range : MapRange} (hops : Z) (label : string).

(** ** Frames *)

(** The statuses of routes, ListenerSets and policies. *)
Definition attached_status (k : Kind) (n : NamespacedName) : Prop :=
  match k with
  | KHTTPRoute | KTCPRoute | KUDPRoute | KListenerSet | KBackendTLSPolicy => True
  | _ => False
  end.

Lemma framed_route_update {Rule} k (as_object : Route Rule → object k) original new :
  attached_status k (key (as_object new)) →
  framed attached_status (route_controllers.updateStatus k as_object original new).
Proof using laws.
  intros H. unfold route_controllers.updateStatus. destruct (cmp.Equal _ _); [apply framed_ret|].
  by apply framed_UpdateStatus.
Qed.

Lemma framed_route_statuses r g : framed attached_status (set_route_statuses r g).
Proof using laws.
  unfold set_route_statuses. apply framed_bind.
  - apply framed_wrapping. unfold SetRouteStatuses. destruct (gr_routeStatusManager r); [|apply framed_fail].
    apply framed_fold. intros routes original. apply framed_bind; [apply framed_query|]. intros hr.
    apply framed_bind; [|intros; apply framed_ret]. by apply framed_route_update.
  - intros http. apply framed_bind.
    + destruct (hasInstalledCRD r TCPRouteKind); [|apply framed_ret].
      apply framed_fold. intros routes original. apply framed_bind; [apply framed_query|]. intros tcpr.
      apply framed_bind; [|intros; apply framed_ret]. by apply framed_wrapping, framed_route_update.
    + intros tcp. apply framed_bind; [|intros; apply framed_ret].
      destruct (hasInstalledCRD r UDPRouteKind); [|apply framed_ret].
      apply framed_fold. intros routes original. apply framed_bind; [apply framed_query|]. intros udpr.
      apply framed_bind; [|intros; apply framed_ret]. by apply framed_wrapping, framed_route_update.
Qed.

Lemma framed_set_policy st p f : framed attached_status (set_policy st p f).
Proof using laws.
  unfold set_policy, updateBackendTLSPolicyStatus. apply framed_bind; [apply framed_wrapping|intros; apply framed_ret].
  destruct (cmp.Equal _ _); [apply framed_ret|]. by apply framed_UpdateStatus.
Qed.

Lemma framed_policies http m req : framed attached_status (setBackendTLSPolicyStatuses http m req).
Proof using laws.
  apply framed_fold. intros st svc. unfold service_step. destruct (st_map st !! svc) as [coll|]; [|apply framed_ret].
  apply framed_bind; [apply framed_read|]. intros l. destruct (equal.ContainsCommonHTTPRoute _ _) as [found [e|]]; [apply framed_fail|].
  destruct (negb _); [apply framed_ret|]. apply framed_bind; [apply framed_attempt, framed_get_opt|].
  intros [[o|]|e]; [| |apply framed_fail].
  - apply framed_bind; [|intros st'].
    + apply framed_fold. intros st' sec. destruct (backendtlspolicy.Valid coll !! sec); [|apply framed_ret].
      apply framed_bind; [apply framed_attempt, framed_read|].
      intros [[p v]|e]; [apply framed_set_policy|apply framed_fail].
    + apply framed_fold. intros st'' k. destruct (backendtlspolicy.Conflicted coll !! k); [apply framed_set_policy|apply framed_ret].
  - apply framed_bind; [|intros st'].
    + apply framed_fold. intros st' sec. destruct (backendtlspolicy.Valid coll !! sec); [|apply framed_ret].
      destruct (confirmed _ _); [apply framed_ret|apply framed_set_policy].
    + apply framed_fold. intros st'' k. destruct (backendtlspolicy.Conflicted coll !! k); [|apply framed_ret].
      destruct (confirmed _ _); [apply framed_ret|apply framed_set_policy].
Qed.

Lemma of_sets_attached sets k n : of_sets sets k n → attached_status k n.
Proof using Type. by intros [-> _]. Qed.

Lemma framed_or_else F {A} (m : R A) h k :
  framed F m → (∀ e, framed F (h e)) → (∀ a, framed F (k a)) → framed F (or_else m h k).
Proof using Type.
  intros Hm Hh Hk. apply framed_bind; [by apply framed_attempt|]. intros [a|e]; [apply Hk|apply Hh].
Qed.

Lemma framed_read_error F {A} (f : World → A + error) : framed F (read_error f).
Proof using Type. intros w w' r [= <- <-]. apply frame_refl. Qed.

(** *** The Gateway and its objects *)

(** The name of an object that stands for a Gateway or a ListenerSet: a Service
    and Endpoints have it shortened. *)
Definition front_name (n : NamespacedName) : Prop :=
  ∃ name, nn_Name n = gateway_api.dolphinGatewayPrefix +:+ name ∨
          nn_Name n = helper.Shorten (gateway_api.dolphinGatewayPrefix +:+ name).

(** What a run for a Gateway may change. *)
Definition written (req : NamespacedName) (k : Kind) (n : NamespacedName) : Prop :=
  match k with
  | KGateway => n = req
  | KService | KEndpoints | KDEC | KCEC => front_name n
  | k => attached_status k n
  end.

(** The objects that the data plane works with. *)
Definition front (k : Kind) (n : NamespacedName) : Prop :=
  match k with KService | KEndpoints | KDEC | KCEC => front_name n | _ => False end.

Lemma front_written req k n : front k n → written req k n.
Proof using Type. by destruct k. Qed.

Lemma attached_written req k n : attached_status k n → written req k n.
Proof using Type. by destruct k. Qed.

Lemma framed_handle req e original modified :
  ObjectKey (gw_meta modified) = req → framed (written req) (handleReconcileErrorWithStatus e original modified).
Proof using laws.
  intros Hk. apply framed_bind; [|intros [[]|]; apply framed_fail]. apply framed_attempt.
  unfold updateStatus. destruct (cmp.Equal _ _); [apply framed_ret|]. by apply framed_UpdateStatus.
Qed.

Lemma framed_update req original modified :
  ObjectKey (gw_meta modified) = req → framed (written req) (updateStatus original modified).
Proof using laws.
  intros Hk. unfold updateStatus. destruct (cmp.Equal _ _); [apply framed_ret|]. by apply framed_UpdateStatus.
Qed.

Lemma Translate_names m t cfg dec svc ep :
  gateway_api.Translate hops label t (Some m) cfg = Ok (inl (dec, svc, ep)) →
  ∃ source, gateway_api.c_source (gateway_api.collect m) = Some source ∧
    fs_Name svc = helper.Shorten (gateway_api.dolphinGatewayPrefix +:+ model.fqr_Name source) ∧
    fs_Namespace svc = model.fqr_Namespace source ∧ fe_Name ep = fs_Name svc ∧ fe_Namespace ep = fs_Namespace svc ∧
    ∀ d, dec = Some d → translation.dec_Name d = gateway_api.dolphinGatewayPrefix +:+ model.fqr_Name source ∧
                        translation.dec_Namespace d = model.fqr_Namespace source.
Proof using Type.
  unfold gateway_api.Translate. cbv zeta. destruct (gateway_api.c_source (gateway_api.collect m)) as [source|]; [|done].
  destruct (_ && _); intros H.
  - injection H as <- <- <-. exists source. by split_and!.
  - apply bind_Ok in H as (d0 & E & [= <- <- <-]). exists source. split_and!; try done.
    intros d [= <-]. apply translation_facts.Translate_key in E as [? ?]. by split.
Qed.

Lemma framed_delete (F : Kind → NamespacedName → Prop) n k prefix : F k n → framed F (delete_found k n prefix).
Proof using laws.
  intros H. apply framed_bind; [by apply framed_attempt, framed_Delete|].
  intros [[]|[[]|]]; try apply framed_ret; apply framed_fail.
Qed.

Lemma framed_spec_field F {A} key what (enc : list A → string + string) v spec :
  framed F (spec_field key what enc v spec).
Proof using Type. unfold spec_field. destruct (Nat.eqb _ _); [apply framed_ret|]. destruct (enc v); [apply framed_ret|apply framed_fail]. Qed.

Lemma framed_ensure dec svc ep m t cfg :
  gateway_api.Translate hops label t (Some m) cfg = Ok (inl (dec, svc, ep)) →
  framed front (ensureService svc) ∧ framed front (ensureEndpoints ep) ∧
  framed front (ensureEnvoyConfig dec) ∧ framed front (ensureCiliumEnvoyConfig dec).
Proof using laws.
  intros (source & _ & Hs & _ & He & _ & Hd)%Translate_names. split_and!.
  - apply framed_CreateOrUpdate. exists (model.fqr_Name source). by right.
  - apply framed_CreateOrUpdate. exists (model.fqr_Name source). right. cbn. by rewrite He.
  - destruct dec as [d|]; [|apply framed_ret]. destruct (Hd d eq_refl) as [Hn _].
    apply framed_CreateOrUpdate. exists (model.fqr_Name source). by left.
  - destruct dec as [d|]; [|apply framed_ret]. destruct (Hd d eq_refl) as [Hn _]. unfold ensureCiliumEnvoyConfig.
    do 3 (apply framed_bind; [apply framed_spec_field|intros ?]).
    apply framed_CreateOrUpdate. exists (model.fqr_Name source). by left.
Qed.

Lemma framed_deleteEnvoyConfigs gw : framed front (deleteEnvoyConfigs gw).
Proof using laws.
  apply framed_bind; [|intros _]; apply framed_delete; exists (om_Name (gw_meta gw)); by right.
Qed.

Lemma setAddressStatus_meta w gw gw' : setAddressStatus w gw = inl gw' → gw' = with_gw_Status gw (gw_Status gw').
Proof using Type. unfold setAddressStatus. repeat case_match; by intros [= <-]. Qed.

Lemma framed_program r req gw copy m cfg :
  ObjectKey (gw_meta copy) = req → framed (written req) (program hops label r gw copy m cfg).
Proof using laws.
  intros Hk. unfold program. cbv zeta. set (t := gateway_api.mkTranslator _ _ _ _).
  apply (framed_bind_post _ (λ trans, gateway_api.Translate hops label t (Some m) [cfg] = Ok trans)).
  { apply framed_lift. }
  { intros w w' trans. unfold lift. destruct (gateway_api.Translate _ _ _ _ _); by intros [= _ <-]. }
  intros [[[dec svc] ep]|err] Ht; [|by apply framed_handle].
  destruct (framed_ensure dec svc ep m t [cfg] Ht) as (F1 & F2 & F3 & F4).
  assert (Hfin : ∀ u : unit, framed (written req)
    (or_else (read_error (λ w, setAddressStatus w copy))
       (λ e, handleReconcileErrorWithStatus e (setGatewayProgrammed gw false "Address is not ready") copy)
       (λ copy, wrapping "failed to update Gateway status: "
          (updateStatus gw (setGatewayProgrammed copy true "reconciled successfully"))))).
  { intros _. apply (framed_bind_post _ (λ x, match x with inl gw' => gw_meta gw' = gw_meta copy | inr _ => True end)).
    - apply framed_attempt, framed_read_error.
    - intros w w' x. unfold attempt, read_error. intros [= _ <-]. destruct (setAddressStatus w copy) eqn:E; [|done].
      by apply setAddressStatus_meta in E as ->.
    - intros [gw'|e] Hm; [|by apply framed_handle]. apply framed_wrapping, framed_update. cbn. by rewrite Hm. }
  assert (Hw : ∀ m', framed front (m' : R unit) → framed (written req) m').
  { intros m'. apply framed_mono, front_written. }
  apply framed_or_else; [by apply Hw|by intros; apply framed_handle|intros _].
  apply framed_or_else; [by apply Hw|by intros; apply framed_handle|intros _].
  destruct dec.
  - apply framed_or_else; [by apply Hw|by intros; apply framed_handle|intros _].
    apply framed_or_else; [by apply Hw|by intros; apply framed_handle|exact Hfin].
  - apply framed_or_else; [apply Hw, framed_deleteEnvoyConfigs|by intros; apply framed_handle|exact Hfin].
Qed.

(** *** The whole run *)

Lemma setListenerStatus_meta w gw routes nsl gw' :
  setListenerStatus w gw routes nsl = Ok (inl gw') → gw' = with_gw_Status gw (gw_Status gw') ∧
    gs_Conditions (gw_Status gw') = gs_Conditions (gw_Status gw).
Proof using Type.
  unfold setListenerStatus. destruct (cl_List KReferenceGrant _ w); [|done].
  intros (st & _ & [= <-])%bind_Ok. done.
Qed.

Lemma setListenerSetStatuses_meta gw sets conflicts routes nsl w w' gw' :
  setListenerSetStatuses gw sets conflicts routes nsl w = Ok (w', inl gw') →
  gw_meta gw' = gw_meta gw ∧ gs_Conditions (gw_Status gw') = gs_Conditions (gw_Status gw).
Proof using Type.
  unfold setListenerSetStatuses. cbv zeta. intros (grants & w1 & _ & H)%R_bind_inl.
  destruct grants as [grants|]; [|by injection H as <- <-].
  apply R_bind_inl in H as (n & w2 & _ & H). injection H as <- <-. by case_bool_decide.
Qed.

Lemma framed_report r req gw copy routes attached contexts nsl m http cfg :
  ObjectKey (gw_meta gw) = req → ObjectKey (gw_meta copy) = req →
  framed (written req) (report hops label r req gw copy routes attached contexts nsl m http cfg).
Proof using laws.
  intros Hg Hc. unfold report. apply framed_or_else; [apply framed_read|by intros; apply framed_handle|].
  intros policies. apply framed_bind.
  { destruct (negb _); [|apply framed_ret]. apply framed_bind; [|intros; apply framed_ret].
    eapply framed_mono; [apply attached_written|apply framed_policies]. }
  intros _. apply (framed_bind_post _ (λ x, match x with inl gw' => gw_meta gw' = gw_meta copy | inr _ => True end)).
  { apply framed_query. }
  { intros w w' x. unfold query. destruct (setListenerStatus w copy routes nsl) as [[gw'|e]|] eqn:E; [| |done].
    - intros [= _ <-]. by apply setListenerStatus_meta in E as [-> _].
    - by intros [= _ <-]. }
  intros [copy'|e] Hm; [|by apply framed_handle]. cbv zeta.
  apply framed_bind; [eapply framed_mono; [|apply framed_setListenerSetStatuses]|].
  { intros k n ?%of_sets_attached. by apply attached_written. }
  intros gw'. apply framed_program. cbn. by rewrite Hm.
Qed.

Lemma framed_gather req r gw copy k :
  ObjectKey (gw_meta gw) = req → ObjectKey (gw_meta copy) = req →
  (∀ g, framed (written req) (k g)) → framed (written req) (gather r gw copy k).
Proof using laws.
  intros Hg Hc Hk. unfold gather.
  do 7 (apply framed_or_else; [repeat case_match; first [apply framed_read|apply framed_ret]
    |by intros; apply framed_handle|intros ?]). apply Hk.
Qed.

Lemma framed_reconcile_gateway r req gwc gw :
  ObjectKey (gw_meta gw) = req → framed (written req) (reconcile_gateway hops label r req gwc gw gw).
Proof using laws.
  intros Hg. unfold reconcile_gateway. apply framed_gather; [done..|]. intros g.
  apply framed_bind; [eapply framed_mono; [apply attached_written|apply framed_route_statuses]|]. intros routes.
  apply framed_or_else; [destruct HasListenerSetSupport; [apply framed_read_error|apply framed_ret]
    |by intros; apply framed_handle|intros sets].
  apply framed_bind; [eapply framed_mono; [|apply framed_filterToAllowed]|].
  { intros k n ?%of_sets_attached. by apply attached_written. }
  intros attached. apply framed_bind; [apply framed_query|]. intros contexts.
  apply framed_or_else; [destruct (hasAllowedRoutesNamespaceSelector gw); [apply framed_read|apply framed_ret]
    |by intros; apply framed_handle|intros nss].
  apply framed_bind; [apply framed_query|]. intros cfg. apply framed_bind; [apply framed_query|].
  intros [m http]. by apply framed_report.
Qed.

(** C9: whatever its outcome, a run of the Gateway reconciler changes no object but
    its own Gateway, routes, ListenerSets and BackendTLSPolicies, and Services,
    Endpoints and Envoy configurations that are named like those of a Gateway. *)
Theorem Gateway_Reconcile_frame r req w w' res :
  gateway_reconcile.Reconcile hops label r req w = Ok (w', res) →
  ∀ k n, ¬ written req k n → stored k w' n = stored k w n.
Proof using laws.
  unfold gateway_reconcile.Reconcile. rewrite R_bind_eq. unfold get_opt.
  destruct (cl_Get KGateway req w) as [gw|[]] eqn:E; try by intros [= <- <-].
  apply Get_found, stored_key in E. case_bool_decide; [by intros [= <- <-]|].
  rewrite R_bind_eq. unfold attempt, read.
  destruct (cl_Get KGatewayClass _ w) as [gwc|]; [|by intros [= <- <-]].
  destruct (negb _); [by intros [= <- <-]|]. intros Hrun. by apply (framed_reconcile_gateway r req gwc gw E w w' res).
Qed.

(** ** The status of the Gateway *)

(** A Gateway says that a condition is True. *)
Definition says_true (t : string) (gw : Gateway) : Prop :=
  ∃ c, find_cond t (gs_Conditions (gw_Status gw)) = Some c ∧ cond_Status c = ConditionTrue.

Lemma says_true_Equal t gw gw' :
  cmp.Equal (gw_Status gw) (gw_Status gw') = true → says_true t gw' → says_true t gw.
Proof using Type.
  intros H (c & Ec & Hc). apply bool_decide_eq_true in H.
  assert (E : find_cond t (cmp.untimed <$> gs_Conditions (gw_Status gw)) =
              find_cond t (cmp.untimed <$> gs_Conditions (gw_Status gw'))).
  { f_equal. by apply (f_equal gs_Conditions) in H. }
  rewrite !route_reconcile.find_cond_untimed, Ec in E.
  destruct (find_cond t (gs_Conditions (gw_Status gw))) as [c'|] eqn:Ec'; [|done].
  exists c'. split; [done|]. unfold cmp.untimed in E. cbn in E. congruence.
Qed.

Lemma setGatewayAccepted_true gw b msg :
  says_true ConditionAccepted (setGatewayAccepted gw b msg) ↔ b = true.
Proof using Type.
  unfold says_true. cbn [gw_Status setGatewayAccepted with_gw_Status with_Conditions gs_Conditions].
  destruct (find_merge_reports (gs_Conditions (gw_Status gw)) (gatewayStatusAcceptedCondition gw b msg)) as (c & Hc & Hr).
  destruct (reports_Status _ _ Hr) as (Hs & _).
  assert (Ht : cond_Type (gatewayStatusAcceptedCondition gw b msg) = ConditionAccepted) by by destruct b.
  rewrite Ht in Hc. destruct b; cbn in Hs; split; try done.
  - eauto.
  - intros (c' & Hc' & Hst). rewrite Hc in Hc'. injection Hc' as <-. by rewrite Hs in Hst.
Qed.

Lemma setGatewayProgrammed_true gw msg : says_true ConditionProgrammed (setGatewayProgrammed gw true msg).
Proof using Type.
  destruct (find_merge_reports (gs_Conditions (gw_Status gw)) (gwStsProgrmCondition gw true msg)) as (c & Hc & Hr).
  exists c. split; [exact Hc|]. by destruct (reports_Status _ _ Hr) as (-> & _).
Qed.

Lemma setGatewayProgrammed_other gw b msg :
  says_true ConditionAccepted (setGatewayProgrammed gw b msg) ↔ says_true ConditionAccepted gw.
Proof using Type.
  unfold says_true. cbn [gw_Status setGatewayProgrammed with_gw_Status with_Conditions gs_Conditions].
  rewrite find_merge_other; [done|]. by destruct b.
Qed.

(** The stored Gateway differs from another one in its status only, and says that
    a condition is True. *)
Definition stored_true (t : string) (w : World) (gw : Gateway) : Prop :=
  ∃ s, stored KGateway w (ObjectKey (gw_meta gw)) = Some (with_gw_Status gw s) ∧ says_true t (with_gw_Status gw s).

Lemma updateStatus_true (ts : list string) original modified gw0 w w' r :
  ObjectKey (gw_meta modified) = ObjectKey (gw_meta gw0) →
  stored KGateway w (ObjectKey (gw_meta gw0)) = Some gw0 →
  (∀ t, t ∈ ts → says_true t modified ∧ (says_true t original → says_true t gw0)) →
  updateStatus original modified w = Ok (w', r) →
  match r with
  | inl _ => ∀ t, t ∈ ts → stored_true t w' gw0
  | inr e => ∃ e', cl_UpdateStatus KGateway modified w = (w', Some e') ∧ e = Api e'
  end.
Proof using laws.
  intros Hk Hs Ht. unfold updateStatus. destruct (cmp.Equal _ _) eqn:E.
  { intros [= <- <-] t Hin. destruct (Ht t Hin) as [Hm Ho]. exists (gw_Status gw0).
    assert (He : with_gw_Status gw0 (gw_Status gw0) = gw0) by by destruct gw0.
    rewrite He. split; [done|]. by apply Ho, (says_true_Equal t original modified). }
  unfold write. destruct (cl_UpdateStatus KGateway modified w) as [w1 [e|]] eqn:Eu; intros [= <- <-]; [eauto|].
  intros t Hin. apply UpdateStatus_done in Eu. cbn [key] in Eu. rewrite Hk, Hs in Eu. cbn in Eu.
  exists (gw_Status modified). split; [exact Eu|]. by destruct (Ht t Hin) as [(c & ? & ?) _]; exists c.
Qed.

(** A failed run never returns normally. *)
Lemma handle_inl e original modified w w' u :
  handleReconcileErrorWithStatus e original modified w = Ok (w', inl u) → False.
Proof using Type.
  intros (r & w1 & _ & H)%R_bind_inl. by destruct r.
Qed.

Lemma or_else_inl {A} (m : R A) h k w w' u :
  (∀ e w w' u, h e w = Ok (w', inl u) → False) → or_else m h k w = Ok (w', inl u) →
  ∃ a w1, m w = Ok (w1, inl a) ∧ k a w1 = Ok (w', inl u).
Proof using Type.
  intros Hh (r & w1 & E & H)%R_bind_inl. unfold attempt in E. destruct (m w) as [[w2 r2]|] eqn:Em; [|done].
  injection E as -> ->. destruct r as [a|e]; [eauto|]. by apply Hh in H.
Qed.

(** *** What a failure is reported as *)

Section Program.
Context (gw0 gw : Gateway).
Context (same_conditions : gs_Conditions (gw_Status gw0) = gs_Conditions (gw_Status gw)).

Definition unchanged (w : World) : Prop := stored KGateway w (ObjectKey (gw_meta gw0)) = Some gw0.

(** The API server accepts statuses for the Gateway while it is as it was fetched. *)
Context (writable : ∀ new w, ObjectKey (gw_meta new) = ObjectKey (gw_meta gw0) → unchanged w →
  (cl_UpdateStatus KGateway new w).2 = None).

(** The stored Gateway says it is accepted. *)
Definition reported_accepted (w : World) : Prop := stored_true ConditionAccepted w gw0.

Lemma unchanged_front {A} (m : R A) w w' r : framed front m → m w = Ok (w', r) → unchanged w → unchanged w'.
Proof using Type. intros Hf Hm Hw. unfold unchanged. rewrite (Hf w w' r Hm); [exact Hw|]. by intros ?. Qed.

(** The original has the conditions of the fetched Gateway, or is not accepted. *)
Definition faithful (original : Gateway) : Prop :=
  says_true ConditionAccepted original → says_true ConditionAccepted gw.

Lemma update_accepted original modified w w' r :
  ObjectKey (gw_meta modified) = ObjectKey (gw_meta gw0) → says_true ConditionAccepted modified →
  faithful original → unchanged w → updateStatus original modified w = Ok (w', r) → reported_accepted w'.
Proof using laws same_conditions writable.
  intros Hk Hm Ho Hw E. pose proof (updateStatus_true [ConditionAccepted] original modified gw0 w w' r Hk Hw) as H.
  specialize (writable modified w Hk Hw).
  destruct r as [u|e].
  - apply H; [|done|left]. intros t ->%list_elem_of_singleton. split; [done|].
    intros (c & Hc & ?)%Ho. exists c. by rewrite same_conditions.
  - exfalso. destruct H as (e' & Eu & _); [|done|by rewrite Eu in writable].
    intros t ->%list_elem_of_singleton. split; [done|]. intros (c & Hc & ?)%Ho. exists c. by rewrite same_conditions.
Qed.

Lemma handle_accepted e original modified w w' r :
  ObjectKey (gw_meta modified) = ObjectKey (gw_meta gw0) → says_true ConditionAccepted modified →
  faithful original → unchanged w → handleReconcileErrorWithStatus e original modified w = Ok (w', r) →
  reported_accepted w'.
Proof using laws same_conditions writable.
  intros Hk Hm Ho Hw. unfold handleReconcileErrorWithStatus. rewrite R_bind_eq. unfold attempt.
  destruct (updateStatus original modified w) as [[w1 r1]|] eqn:E; [|done].
  destruct r1; intros [= <- <-]; by eapply update_accepted.
Qed.

Lemma or_else_accepted {A} (m : R A) h k w w' r :
  framed front m → (∀ e w, unchanged w → h e w = Ok (w', r) → reported_accepted w') →
  (∀ a w, unchanged w → k a w = Ok (w', r) → reported_accepted w') →
  unchanged w → or_else m h k w = Ok (w', r) → reported_accepted w'.
Proof using Type.
  intros Hm Hh Hk Hw. unfold or_else. rewrite R_bind_eq. unfold attempt.
  destruct (m w) as [[w1 r1]|] eqn:E; [|done]. pose proof (unchanged_front _ _ _ _ Hm E Hw) as Hw1.
  destruct r1; [by apply Hk|by apply Hh].
Qed.

Lemma faithful_accepted msg : faithful (setGatewayAccepted gw false msg).
Proof using Type. by intros ?%setGatewayAccepted_true. Qed.

Lemma faithful_programmed msg : faithful (setGatewayProgrammed gw false msg).
Proof using Type. by intros ?%setGatewayProgrammed_other. Qed.

(** C32: once the listeners have their statuses, the Gateway is reported as
    accepted: whatever fails from there on (translation, a write of the Service,
    the Endpoints or the Envoy configuration, the addresses), the failure is set
    on the copy of the Gateway that is not written, and, where the API server takes
    the status, the stored Gateway says Accepted True. *)
Theorem failed_program_reports_accepted r copy m cfg w w' res :
  ObjectKey (gw_meta copy) = ObjectKey (gw_meta gw0) → says_true ConditionAccepted copy →
  unchanged w → program hops label r gw copy m cfg w = Ok (w', res) → stored_true ConditionAccepted w' gw0.
Proof using laws same_conditions writable.
  intros Hk Hc Hw. change (program hops label r gw copy m cfg w = Ok (w', res) → reported_accepted w').
  unfold program. cbv zeta. rewrite R_bind_eq. unfold lift.
  destruct (gateway_api.Translate _ _ _ _ _) as [[[[dec svc] ep]|err]|] eqn:Et; [| |done].
  2: { apply handle_accepted; [done|done|apply faithful_accepted|done]. }
  destruct (framed_ensure dec svc ep _ _ _ Et) as (F1 & F2 & F3 & F4).
  assert (Hh : ∀ e original w, faithful original → unchanged w →
    handleReconcileErrorWithStatus e original copy w = Ok (w', res) → reported_accepted w').
  { intros e original w1 Hf. by apply handle_accepted. }
  pose proof faithful_accepted as Fa. pose proof (faithful_programmed "Address is not ready") as Fp.
  assert (Hfin : ∀ w, unchanged w →
    or_else (read_error (λ w, setAddressStatus w copy))
       (λ e, handleReconcileErrorWithStatus e (setGatewayProgrammed gw false "Address is not ready") copy)
       (λ copy, wrapping "failed to update Gateway status: "
          (updateStatus gw (setGatewayProgrammed copy true "reconciled successfully"))) w = Ok (w', res) →
    reported_accepted w').
  { intros w1 Hw1. unfold or_else. rewrite R_bind_eq. unfold attempt, read_error.
    destruct (setAddressStatus w1 copy) as [copy'|e] eqn:Ea; [|by apply Hh].
    assert (Ec : copy' = with_gw_Status copy (gw_Status copy')) by by eapply setAddressStatus_meta.
    assert (Es : gs_Conditions (gw_Status copy') = gs_Conditions (gw_Status copy)).
    { revert Ea. unfold setAddressStatus. repeat case_match; by intros [= <-]. }
    intros [res' Hu]%wrapping_run. revert Hu.
    apply update_accepted; [by rewrite Ec| |by intros ?|done]. apply setGatewayProgrammed_other.
    unfold says_true. by rewrite Es. }
  apply or_else_accepted; [done|eauto| |done]. intros _ w1 Hw1.
  apply or_else_accepted; [done|eauto| |done]. intros _ w2 Hw2. destruct dec as [d|].
  - apply or_else_accepted; [done|eauto| |done]. intros _ w3 Hw3.
    apply or_else_accepted; [done|eauto|by intros _|done].
  - apply or_else_accepted; [apply framed_deleteEnvoyConfigs| |by intros _|done].
    intros e w3 Hw3. apply Hh; [by intros ?|done].
Qed.

End Program.

(** ** A successful run *)

(** Objects of one kind. *)
Definition kind (k0 : Kind) (k : Kind) (n : NamespacedName) : Prop := k = k0.

Lemma ensure_done k (o : object k) f w w' u :
  write (cl_CreateOrUpdate k o f) w = Ok (w', inl u) →
  stored k w' (key o) = Some (f (default o (stored k w (key o)))) ∧ frame (kind k) w w'.
Proof using laws.
  unfold write. destruct (cl_CreateOrUpdate k o f w) as [w1 [e|]] eqn:E; [done|]. intros [= <- <-]. split.
  - by apply CreateOrUpdate_done.
  - eapply frame_mono; [|by eapply CreateOrUpdate_frame]. by intros k' n [-> ->].
Qed.

Definition svc_key (svc : FrontService) : NamespacedName := mkNamespacedName (fs_Namespace svc) (fs_Name svc).
Definition ep_key (ep : FrontEndpoints) : NamespacedName := mkNamespacedName (fe_Namespace ep) (fe_Name ep).
Definition dec_key (d : translation.DolphinEnvoyConfig) : NamespacedName :=
  mkNamespacedName (translation.dec_Namespace d) (translation.dec_Name d).

(** The objects of the data plane, each updated from the one that was there. *)
Definition objects_written (dec : option translation.DolphinEnvoyConfig) (svc : FrontService) (ep : FrontEndpoints)
    (w w' : World) : Prop :=
  stored KService w' (svc_key svc) =
    Some (mutateService svc (default (mkServiceObject svc None None) (stored KService w (svc_key svc)))) ∧
  stored KEndpoints w' (ep_key ep) =
    Some (mutateEndpoints ep (default (mkEndpointsObject ep ∅) (stored KEndpoints w (ep_key ep)))) ∧
  ∀ d, dec = Some d → stored KDEC w' (dec_key d) =
    Some (mutateDEC d (default (mkDECObject d ∅) (stored KDEC w (dec_key d)))).

(** The writes that end a run. *)
Definition late (k : Kind) (n : NamespacedName) : Prop := k = KGateway ∨ k = KCEC.

Lemma framed_ensureCEC dec : framed late (ensureCiliumEnvoyConfig dec).
Proof using laws.
  destruct dec as [d|]; [|apply framed_ret]. unfold ensureCiliumEnvoyConfig.
  do 3 (apply framed_bind; [apply framed_spec_field|intros ?]). apply framed_CreateOrUpdate. by right.
Qed.

Lemma framed_updateStatus_late original modified : framed late (updateStatus original modified).
Proof using laws.
  unfold updateStatus. destruct (cmp.Equal _ _); [apply framed_ret|]. apply framed_UpdateStatus. by left.
Qed.

Lemma finish_success gw0 gw copy w w' u :
  gs_Conditions (gw_Status gw0) = gs_Conditions (gw_Status gw) → ObjectKey (gw_meta copy) = ObjectKey (gw_meta gw0) →
  says_true ConditionAccepted copy → unchanged gw0 w →
  or_else (read_error (λ w, setAddressStatus w copy))
     (λ e, handleReconcileErrorWithStatus e (setGatewayProgrammed gw false "Address is not ready") copy)
     (λ copy, wrapping "failed to update Gateway status: "
          (updateStatus gw (setGatewayProgrammed copy true "reconciled successfully"))) w = Ok (w', inl u) →
  frame late w w' ∧ stored_true ConditionAccepted w' gw0 ∧ stored_true ConditionProgrammed w' gw0.
Proof using laws.
  intros Hcond Hk Hc Hw H. apply or_else_inl in H as (copy' & w1 & Ha & H%wrapping_inl); [|intros ????; apply handle_inl].
  unfold read_error in Ha. injection Ha as <- Ha. pose proof (setAddressStatus_meta _ _ _ Ha) as Ec.
  assert (Es : gs_Conditions (gw_Status copy') = gs_Conditions (gw_Status copy)).
  { revert Ha. unfold setAddressStatus. repeat case_match; by intros [= <-]. }
  split; [by eapply framed_updateStatus_late|].
  assert (Hall : ∀ t, t ∈ [ConditionAccepted; ConditionProgrammed] → stored_true t w' gw0).
  { apply (updateStatus_true [ConditionAccepted; ConditionProgrammed] gw
      (setGatewayProgrammed copy' true "reconciled successfully") gw0 w w' (inl u)); [by rewrite Ec|exact Hw| |exact H].
    intros t Ht. split.
    - apply elem_of_cons in Ht as [->|Ht%list_elem_of_singleton]; [|rewrite Ht; apply setGatewayProgrammed_true].
      apply setGatewayProgrammed_other. unfold says_true. by rewrite Es.
    - unfold says_true. by rewrite Hcond. }
  split; apply Hall; [left|right; left].
Qed.

Lemma program_success r gw0 gw copy m cfg w w' u :
  gs_Conditions (gw_Status gw0) = gs_Conditions (gw_Status gw) → ObjectKey (gw_meta copy) = ObjectKey (gw_meta gw0) →
  says_true ConditionAccepted copy → unchanged gw0 w →
  program hops label r gw copy m cfg w = Ok (w', inl u) →
  ∃ dec svc ep,
    gateway_api.Translate hops label (gateway_api.mkTranslator (gr_SecretNamespace r) (gr_IdleTimeoutSeconds r) true false)
      (Some m) [cfg] = Ok (inl (dec, svc, ep)) ∧
    objects_written dec svc ep w w' ∧ stored_true ConditionAccepted w' gw0 ∧ stored_true ConditionProgrammed w' gw0.
Proof using laws.
  intros Hcond Hk Hc Hw. unfold program. cbv zeta. rewrite R_bind_eq. unfold lift.
  destruct (gateway_api.Translate _ _ _ _ _) as [[[[dec svc] ep]|err]|] eqn:Et; [| |done].
  2: { by intros ?%handle_inl. }
  destruct (framed_ensure dec svc ep _ _ _ Et) as (F1 & F2 & F3 & F4). intros H.
  apply or_else_inl in H as ([] & w1 & E1 & H); [|intros ????; apply handle_inl].
  apply or_else_inl in H as ([] & w2 & E2 & H); [|intros ????; apply handle_inl].
  assert (Hw2 : unchanged gw0 w2) by (eapply unchanged_front, unchanged_front; [exact F2|exact E2|exact F1|exact E1|exact Hw]).
  apply ensure_done in E1 as [S1 G1], E2 as [S2 G2]. exists dec, svc, ep. split; [done|].
  assert (Hend : ∃ w3, (∀ k n, k ≠ KDEC → k ≠ KCEC → stored k w3 n = stored k w2 n) ∧
    (∀ d, dec = Some d → stored KDEC w3 (dec_key d) = Some (mutateDEC d (default (mkDECObject d ∅) (stored KDEC w2 (dec_key d))))) ∧
    frame late w3 w' ∧ stored_true ConditionAccepted w' gw0 ∧ stored_true ConditionProgrammed w' gw0).
  { destruct dec as [d|].
    - apply or_else_inl in H as ([] & w3 & E3 & H); [|intros ????; apply handle_inl].
      apply or_else_inl in H as ([] & w4 & E4 & H); [|intros ????; apply handle_inl].
      assert (Hw4 : unchanged gw0 w4) by (eapply unchanged_front, unchanged_front; [exact F4|exact E4|exact F3|exact E3|exact Hw2]).
      destruct (finish_success gw0 gw copy w4 w' u Hcond Hk Hc Hw4 H) as (G4 & ? & ?).
      apply ensure_done in E3 as [S3 G3]. exists w3. split_and!; [|by intros ? [= <-]| |done..].
      + intros k n Hn _. by apply G3.
      + eapply frame_trans; [by eapply framed_ensureCEC|done].
    - apply or_else_inl in H as ([] & w3 & E3 & H); [|intros ????; apply handle_inl].
      assert (Hw3 : unchanged gw0 w3) by (eapply unchanged_front; [apply framed_deleteEnvoyConfigs|exact E3|exact Hw2]).
      destruct (finish_success gw0 gw copy w3 w' u Hcond Hk Hc Hw3 H) as (G4 & ? & ?).
      exists w3. split_and!; [|done..]. intros k n Hn1 Hn2.
      assert (Hf : framed (λ k _, k = KDEC ∨ k = KCEC) (deleteEnvoyConfigs gw)).
      { apply framed_bind; [|intros _]; apply framed_delete; auto. }
      apply (Hf _ _ _ E3). by intros [?|?]. }
  destruct Hend as (w3 & G3 & S3 & G4 & HA & HP). split; [|done]. unfold objects_written.
  split_and!.
  - rewrite (G4 KService), G3, (G2 KService) by (done || by intros [?|?]). exact S1.
  - rewrite (G4 KEndpoints), G3 by (done || by intros [?|?]). rewrite <-(G1 KEndpoints) by done. exact S2.
  - intros d Hd. rewrite (G4 KDEC), (S3 d Hd), (G2 KDEC), (G1 KDEC); [done..|by intros [?|?]].
Qed.

Lemma attached_unchanged gw0 w w1 : frame attached_status w w1 → unchanged gw0 w → unchanged gw0 w1.
Proof using Type. intros H Hw. unfold unchanged. rewrite (H KGateway); [exact Hw|by intros ?]. Qed.

Lemma attached_objects dec svc ep w w1 w' :
  frame attached_status w w1 → objects_written dec svc ep w1 w' → objects_written dec svc ep w w'.
Proof using Type.
  intros H (H1 & H2 & H3). unfold objects_written. rewrite H1, H2, (H KService), (H KEndpoints) by by intros ?.
  split_and!; [done..|]. intros d Hd. rewrite (H3 d Hd), (H KDEC); [done|by intros ?].
Qed.

Lemma read_inl {A} (f : World → A + ApiError) w w' a : read f w = Ok (w', inl a) → w' = w ∧ f w = inl a.
Proof using Type. unfold read. destruct (f w); by intros [= <- <-]. Qed.

Lemma query_inl {A} (f : World → go A) w w' a : query f w = Ok (w', inl a) → w' = w ∧ f w = Ok a.
Proof using Type. unfold query. destruct (f w); by intros [= <- <-]. Qed.

Lemma report_success r req gw routes attached contexts nsl m http cfg w w' u :
  unchanged gw w → report hops label r req gw gw routes attached contexts nsl m http cfg w = Ok (w', inl u) →
  ∃ dec svc ep,
    gateway_api.Translate hops label (gateway_api.mkTranslator (gr_SecretNamespace r) (gr_IdleTimeoutSeconds r) true false)
      (Some m) [cfg] = Ok (inl (dec, svc, ep)) ∧
    objects_written dec svc ep w w' ∧ stored_true ConditionAccepted w' gw ∧ stored_true ConditionProgrammed w' gw.
Proof using laws.
  intros Hw H. apply or_else_inl in H as (policies & w1 & [-> _]%read_inl & H); [|intros ????; apply handle_inl].
  apply R_bind_inl in H as ([] & w2 & E2 & H).
  assert (G2 : frame attached_status w w2).
  { revert E2. destruct (negb _); [|by intros [= <-]]. intros E2. apply R_bind_inl in E2 as (st & w3 & E2 & [= <-]).
    by eapply framed_policies. }
  apply R_bind_inl in H as (listeners & w3 & [-> E3]%query_inl & H).
  destruct listeners as [copy|e]; [|by apply handle_inl in H]. apply setListenerStatus_meta in E3 as [Ec _].
  apply R_bind_inl in H as (gw' & w4 & E4 & H).
  assert (G4 : frame attached_status w2 w4).
  { eapply frame_mono; [|by eapply framed_setListenerSetStatuses]. intros k n. apply of_sets_attached. }
  apply setListenerSetStatuses_meta in E4 as [_ Ec4].
  pose proof (frame_trans _ _ _ _ G2 G4) as G.
  eapply program_success in H as (dec & svc & ep & Ht & Ho & Hs).
  - exists dec, svc, ep. split; [done|]. split; [by eapply attached_objects|done].
  - by rewrite Ec4.
  - by rewrite Ec.
  - by apply setGatewayAccepted_true.
  - by eapply attached_unchanged.
Qed.

(** A list that is read only under a condition. *)
Definition listed_if (b : bool) (k : Kind) (w : World) (l : list (object k)) : Prop :=
  if b then cl_List k (λ _, true) w = inl l else l = [].

Lemma read_if_listed (b : bool) k w w' (l : list (object k)) :
  (if b then read (cl_List k (λ _, true)) else mret []) w = Ok (w', inl l) → w' = w ∧ listed_if b k w l.
Proof using Type. unfold listed_if. destruct b; [by intros [-> ?]%read_inl|by intros [= <- <-]]. Qed.

(** What a run reads first: the stored routes, Services and grants. *)
Definition gathered (r : gatewayReconciler) (w : World) (g : Gathered) : Prop :=
  cl_List KHTTPRoute (λ _, true) w = inl (rs_http (ga_routes g)) ∧
  cl_List KTLSRoute (λ _, true) w = inl (rs_tls (ga_routes g)) ∧
  cl_List KService (λ _, true) w = inl (ga_services g) ∧
  cl_List KGRPCRoute (λ _, true) w = inl (rs_grpc (ga_routes g)) ∧
  listed_if (hasInstalledCRD r TCPRouteKind) KTCPRoute w (rs_tcp (ga_routes g)) ∧
  listed_if (hasInstalledCRD r UDPRouteKind) KUDPRoute w (rs_udp (ga_routes g)) ∧
  cl_List KReferenceGrant (λ _, true) w = inl (ga_grants g).

Lemma gather_inl r gw copy k w w' u :
  gather r gw copy k w = Ok (w', inl u) → ∃ g, gathered r w g ∧ k g w = Ok (w', inl u).
Proof using Type.
  unfold gather. intros H.
  do 7 (apply or_else_inl in H as (? & ? & E & H); [|intros ????; apply handle_inl];
    first [apply read_inl in E as [-> ?]|apply (read_if_listed _ KTCPRoute) in E as [-> ?]
          |apply (read_if_listed _ KUDPRoute) in E as [-> ?]]).
  eexists. split; [|exact H]. by split_and!.
Qed.

(** The model [m] that a run for the Gateway [gw] builds in the world [w1] that the
    statuses of the routes and of the refused ListenerSets leave, with the
    configuration [cfg] of the class: from the stored routes and Services and the
    ListenerSets that the Gateway allows. *)
Definition modelled (r : gatewayReconciler) (gwc : GatewayClass) (gw : Gateway) (w w1 : World)
    (m : model.Model) (cfg : option gateway_api.DolphinGatewayClassConfig) : Prop :=
  ∃ g w0 routes sets attached nss http,
    gathered r w g ∧ set_route_statuses r g w = Ok (w0, inl routes) ∧
    (if HasListenerSetSupport then listenerSetsForGateway w0 gw else inl []) = inl sets ∧
    filterToAllowedListenerSets gw sets w0 = Ok (w1, inl attached) ∧
    listed_if (hasAllowedRoutesNamespaceSelector gw) KNamespace w1 nss ∧
    getGatewayClassConfig w1 gwc = Ok cfg ∧
    build_model w1 gw gw (ga_services g) routes attached (mergeListeners w1 gw attached)
      (NewNamespaceLabelIndex nss) = Ok (m, http).

(** What the API server holds in the end, field by field.  A map of labels or
    annotations has the desired entries, and the other entries it had before. *)
Definition merged (old desired new : gmap string string) : Prop :=
  (∀ k v, desired !! k = Some v → new !! k = Some v) ∧ ∀ k, desired !! k = None → new !! k = old !! k.

Record service_stored (svc : FrontService) (old : option ServiceObject) (new : ServiceObject) : Prop := {
  ss_Type : fs_Type (so_svc new) = fs_Type svc;
  ss_Ports : fs_Ports (so_svc new) = fs_Ports svc;
  ss_Owners : fs_OwnerReferences (so_svc new) = fs_OwnerReferences svc;
  ss_Labels : merged (default ∅ ((λ o, fs_Labels (so_svc o)) <$> old)) (fs_Labels svc) (fs_Labels (so_svc new));
  ss_Annotations :
    merged (default ∅ ((λ o, fs_Annotations (so_svc o)) <$> old)) (fs_Annotations svc) (fs_Annotations (so_svc new));
  ss_Status : so_Status new = mjoin (so_Status <$> old)
}.

Record endpoints_stored (ep : FrontEndpoints) (old : option EndpointsObject) (new : EndpointsObject) : Prop := {
  es_Subsets : fe_Subsets (eo_ep new) = fe_Subsets ep;
  es_Owners : fe_OwnerReferences (eo_ep new) = fe_OwnerReferences ep;
  es_Labels : merged (default ∅ ((λ o, fe_Labels (eo_ep o)) <$> old)) (fe_Labels ep) (fe_Labels (eo_ep new))
}.

Record config_stored (d : translation.DolphinEnvoyConfig) (old : option DECObject) (new : DECObject) : Prop := {
  cs_Services : translation.dec_Services (do_dec new) = translation.dec_Services d;
  cs_Backends : translation.dec_BackendServices (do_dec new) = translation.dec_BackendServices d;
  cs_Resources : translation.dec_Resources (do_dec new) = translation.dec_Resources d;
  cs_Owners : translation.dec_OwnerReferences (do_dec new) = translation.dec_OwnerReferences d;
  cs_Labels : merged (default ∅ ((λ o, translation.dec_Labels (do_dec o)) <$> old)) (translation.dec_Labels d)
    (translation.dec_Labels (do_dec new))
}.

Definition objects_stored (dec : option translation.DolphinEnvoyConfig) (svc : FrontService) (ep : FrontEndpoints)
    (w w' : World) : Prop :=
  (∃ o, stored KService w' (svc_key svc) = Some o ∧ service_stored svc (stored KService w (svc_key svc)) o) ∧
  (∃ o, stored KEndpoints w' (ep_key ep) = Some o ∧ endpoints_stored ep (stored KEndpoints w (ep_key ep)) o) ∧
  ∀ d, dec = Some d →
    ∃ o, stored KDEC w' (dec_key d) = Some o ∧ config_stored d (stored KDEC w (dec_key d)) o.

Lemma merged_mergeMap (old desired : gmap string string) : merged old desired (mergeMap old desired).
Proof using Type.
  unfold mergeMap. split.
  - intros k v Hk. by apply lookup_union_Some_l.
  - intros k Hk. by rewrite lookup_union_r.
Qed.

Lemma merged_new (desired : gmap string string) : merged ∅ desired (mergeMap desired desired).
Proof using Type.
  unfold mergeMap. rewrite (idemp_L (∪)). split; [done|]. intros k Hk. by rewrite Hk, lookup_empty.
Qed.

(** The mutations of the desired objects give these fields. *)
Lemma objects_written_stored dec svc ep w w' : objects_written dec svc ep w w' → objects_stored dec svc ep w w'.
Proof using Type.
  intros (H1 & H2 & H3). unfold objects_stored. rewrite H1, H2.
  split_and!; [eexists; split; [done|]..|intros d Hd; eexists; split; [by apply H3|]].
  - destruct (stored KService w (svc_key svc)) as [o|]; split; cbn; auto using merged_mergeMap, merged_new.
  - destruct (stored KEndpoints w (ep_key ep)) as [o|]; split; cbn; auto using merged_mergeMap, merged_new.
  - destruct (stored KDEC w (dec_key d)) as [o|]; split; cbn; auto using merged_mergeMap, merged_new.
Qed.

(** C2: a run of the Gateway reconciler for a Gateway of its class that returns
    without an error leaves the Gateway with its spec, Accepted and Programmed, and
    the Service, Endpoints and Envoy configuration that the model of the Gateway,
    its ListenerSets and its routes is translated to: the stored objects have the
    type, ports, subsets, services, backend services, resources and owners of the
    translation, its labels and annotations beside those they had, and the Service
    keeps its status. *)
Theorem Gateway_Reconcile_success r req gw gwc w w' :
  cl_Get KGateway req w = inl gw → om_DeletionTimestamp (gw_meta gw) = None →
  cl_Get KGatewayClass (mkNamespacedName "" (gw_GatewayClassName gw)) w = inl gwc →
  gc_ControllerName gwc = defaultControllerName →
  gateway_reconcile.Reconcile hops label r req w = Ok (w', inl tt) →
  stored_true ConditionAccepted w' gw ∧ stored_true ConditionProgrammed w' gw ∧
  ∃ w1 m cfg dec svc ep,
    modelled r gwc gw w w1 m cfg ∧ frame attached_status w w1 ∧
    gateway_api.Translate hops label (gateway_api.mkTranslator (gr_SecretNamespace r) (gr_IdleTimeoutSeconds r) true false)
      (Some m) [cfg] = Ok (inl (dec, svc, ep)) ∧
    objects_stored dec svc ep w w'.
Proof using laws.
  intros Hget Hdel Hcls Hctl. unfold gateway_reconcile.Reconcile. rewrite R_bind_eq. unfold get_opt. rewrite Hget.
  rewrite bool_decide_false by (rewrite Hdel; by intros []). rewrite R_bind_eq. unfold attempt, read. rewrite Hcls.
  rewrite Hctl, String.eqb_refl. cbn [negb]. apply Get_found in Hget. pose proof (stored_key _ _ _ _ Hget) as Hkey.
  cbn in Hkey. assert (Hw : unchanged gw w) by (unfold unchanged; by rewrite Hkey).
  unfold reconcile_gateway. intros (g & Hg & H)%gather_inl.
  apply R_bind_inl in H as (routes & w1 & E1 & H). pose proof (framed_route_statuses _ _ _ _ _ E1) as G1.
  apply or_else_inl in H as (sets & w2 & E2 & H); [|intros ????; apply handle_inl].
  assert (w2 = w1 ∧ (if HasListenerSetSupport then listenerSetsForGateway w1 gw else inl []) = inl sets) as [-> Hs]
    by (revert E2; destruct HasListenerSetSupport; by intros [= <- <-]).
  apply R_bind_inl in H as (attached & w2 & Ea & H). pose proof (framed_filterToAllowed _ _ _ _ _ Ea) as G2.
  assert (G : frame attached_status w w2).
  { eapply frame_trans; [exact G1|]. eapply frame_mono; [|exact G2]. intros k n. apply of_sets_attached. }
  apply R_bind_inl in H as (contexts & w3 & [-> [= <-]]%query_inl & H).
  apply or_else_inl in H as (nss & w3 & E3 & H); [|intros ????; apply handle_inl].
  apply (read_if_listed _ KNamespace) in E3 as [-> Hn].
  apply R_bind_inl in H as (cfg & w3 & [-> Hc]%query_inl & H).
  apply R_bind_inl in H as ([m http] & w3 & [-> Em]%query_inl & H).
  apply report_success in H as (dec & svc & ep & Ht & Ho & HA & HP); [|by eapply attached_unchanged].
  split_and!; [done..|]. exists w2, m, cfg, dec, svc, ep.
  split_and!; [|exact G|exact Ht|by eapply objects_written_stored, attached_objects].
  exists g, w1, routes, sets, attached, nss, http. by split_and!.
Qed.

(** an Envoy configuration has the name of its Gateway in full, but is deleted
    by the shortened name: when the name does not fit into 63 bytes, the deletion
    for a Gateway that has lost its listeners leaves the configuration in place. *)
Theorem long_names_keep_configuration t m cfg d svc ep gw w w' res :
  gateway_api.Translate hops label t (Some m) cfg = Ok (inl (Some d, svc, ep)) →
  63 < len (translation.dec_Name d) →
  deleteEnvoyConfigs gw w = Ok (w', res) →
  stored KDEC w' (dec_key d) = stored KDEC w (dec_key d) ∧
  ∃ source, gateway_api.c_source (gateway_api.collect m) = Some source ∧
    translation.dec_Name d = gateway_api.dolphinGatewayPrefix +:+ model.fqr_Name source.
Proof using laws.
  intros (source & Hs & _ & _ & _ & _ & Hd)%Translate_names Hlen Hrun. destruct (Hd d eq_refl) as [Hn _]. split; [|eauto].
  assert (Hf : framed (λ k n, k = KCEC ∨ nn_Name n = helper.Shorten (gateway_api.dolphinGatewayPrefix +:+ om_Name (gw_meta gw)))
    (deleteEnvoyConfigs gw)).
  { apply framed_bind; [|intros _]; apply framed_delete; auto. }
  apply (Hf _ _ _ Hrun). intros [?|He]; [done|]. cbn in He. rewrite He in Hlen.
  pose proof (helper.len_Shorten (gateway_api.dolphinGatewayPrefix +:+ om_Name (gw_meta gw))). lia.
Qed.

End Facts.

End gateway_reconcile_facts.
