(* ===== verification/GatewayTotal.v ===== *)
(** * The Gateway reconciler does not panic

    [Module gateway_total]: in a world whose objects satisfy their schemas and two
    conditions that the schemas do not demand (a GatewayClass that refers to a
    DolphinGatewayClassConfig names its namespace, and request mirrors name a
    port), a run of the Gateway reconciler returns, whichever calls of the client
    fail.  Without the first the run panics here
    ([unnamespaced_config_panics]), without the second in the translation
    ([translation_facts.portless_mirror_panics]).  The steps of the run are [total] computations: what one of them leaves
    in the world does not matter for the next, since a run reads the objects with
    schemas once and keeps them. *)

From S2P Require Import Prelude GoStrings ApiTypes Model Hostnames Helpers Ingestion Envoy Translator TranslatorFacts.
From S2P Require Import FrontTranslators ApiServer Status RouteChecker RouteInputs RouteControllers GatewayListeners.
From S2P Require Import ListenerStatus RouteStatus RouteStatusFacts PolicyStatus GatewayReconcile.
Import k8s gatewayv1 api gateway_helpers gateway_listeners listener_status routeinputs route_status route_status_facts.
Import types namespaces status policy_status gateway_reconcile.

Module gateway_total.

Section Total.
Context {client : Client} {errors : ApiErrorText} {scheme : Scheme} {selectors : LabelSelectors}
  {clock : Clock} {regexp : Regexp} {pem : certs.Pem} {json : EnvoyConfigJson}
  {names : GatewayClassConfigNames} {infra : Infra} {pb : Proto} {range : MapRange} (hops : Z) (label : string).

(** ** What the schemas guarantee *)

(** A policy for the namespaces of routes says from where, which has a default. *)
Definition gateway_ok (gw : Gateway) : Prop :=
  ∀ l ar ns, l ∈ gw_Listeners gw → l_AllowedRoutes l = Some ar → ar_Namespaces ar = Some ns → is_Some (rn_From ns).

Definition http_ok (r : HTTPRoute) : Prop := Forall ingestion.valid_http_rule (rt_Rules r).
Definition grpc_ok (r : GRPCRoute) : Prop := Forall ingestion.valid_grpc_rule (rt_Rules r).

(** ** What the code needs beyond the schemas *)

(** A reference to a DolphinGatewayClassConfig names a namespace.  The schema of
    GatewayClass leaves [parametersRef.namespace] optional. *)
Definition config_namespaced (gwc : GatewayClass) : Prop :=
  ∀ ref, gc_ParametersRef gwc = Some ref → pref_Group ref = DGCCGroup → pref_Kind ref = DGCCKindDefinition →
    is_Some (pref_Namespace ref).

(** The routes, with the ports of their mirrors. *)
Definition http_usable (r : HTTPRoute) : Prop := http_ok r ∧ ingestion.http_mirrors_have_ports r.
Definition grpc_usable (r : GRPCRoute) : Prop := grpc_ok r ∧ ingestion.grpc_mirrors_have_ports r.

(** ** Listeners *)

Lemma isAllowed_returns w gw route : gateway_ok gw → returns (isAllowed w gw route).
Proof using Type.
  unfold gateway_ok, isAllowed. generalize (gw_Listeners gw) as ls. intros ls Hls.
  induction ls as [|l ls IH]; [by eexists|]. cbn [isAllowed_loop].
  assert (Hr : returns (isAllowed_loop w gw route ls)) by (apply IH; intros l'; intros; eapply Hls; [by right|done..]).
  destruct (l_AllowedRoutes l) as [ar|] eqn:Ea; [|by eexists].
  destruct (ar_Namespaces ar) as [ns|] eqn:En; [|by eexists].
  destruct (negb _); [done|]. destruct (Hls l ar ns ltac:(by left) Ea En) as [from ->]. cbn.
  repeat case_match; try done; by eexists.
Qed.

Lemma go_filter_yields {A} (f : A → go bool) (P : A → Prop) l :
  (∀ x, returns (f x)) → Forall P l → yields (go_filter f l) (Forall P).
Proof using Type.
  intros Hf Hl. apply yields_flat_map. eapply Forall_impl; [exact Hl|]. intros x Hx.
  destruct (Hf x) as [b ->]. cbn. destruct b; eexists; (split; [done|]); by repeat constructor.
Qed.

Lemma go_filter_returns {A} (f : A → go bool) l : (∀ x, returns (f x)) → returns (go_filter f l).
Proof using Type.
  intros Hf. destruct (go_filter_yields f (λ _, True) l Hf) as (l' & -> & _); [by apply Forall_true|by eexists].
Qed.

Lemma attachedRoutes_returns w gw l routes nsl : gateway_ok gw → returns (attachedRoutes w gw l routes nsl).
Proof using Type.
  intros Hg. unfold attachedRoutes, filterHTTPRoutesByListener, filterTLSRoutesByListener.
  apply returns_bind; [|intros http _; apply returns_bind; [|intros; by eexists]]; apply go_filter_returns; intros r;
    (destruct (isAttachable _ _ _); [|by eexists]); (apply returns_bind; [by apply isAllowed_returns|intros; by eexists]).
Qed.

Lemma setListenerStatus_returns w gw routes nsl : gateway_ok gw → returns (setListenerStatus w gw routes nsl).
Proof using Type.
  intros Hg. unfold setListenerStatus. destruct (cl_List _ _ w) as [grants|]; [|by eexists].
  apply returns_bind; [|intros; by eexists].
  destruct (yields_foldl (λ st l, s ← listener_status w gw grants routes nsl l; Ok (set_listener_status s st))
    (λ _, True) (gs_Listeners (gw_Status gw)) (gw_Listeners gw)) as (st & -> & _); [done| |by eexists].
  apply Forall_forall. intros l _ st _. unfold listener_status.
  destruct (attachedRoutes_returns w gw l routes nsl Hg) as [n ->]. by eexists.
Qed.

Lemma listenerset_status_returns w gw grants conflicts routes nsl ls :
  gateway_ok gw → returns (listenerset_status w gw grants conflicts routes nsl ls).
Proof using Type.
  intros Hg. unfold listenerset_status. apply returns_bind; [|intros; by eexists].
  apply go_map_returns, Forall_forall. intros entry _. unfold entry_status. cbv zeta.
  destruct (if conflicted _ _ _ then _ else _) as [[? ?] ?]. apply returns_bind; [|intros; by eexists].
  apply go_filter_returns. intros r. destruct (isAttachable _ _ _); [|by eexists].
  apply returns_bind; [by apply isAllowed_returns|intros; by eexists].
Qed.

Lemma returning_updateListenerSet ls ls' : returning (updateListenerSetStatus ls ls').
Proof using Type. unfold updateListenerSetStatus. destruct (cmp.Equal _ _); [by apply total_ret|apply total_write]. Qed.

Lemma returning_setListenerSetStatuses gw attached conflicts routes nsl :
  gateway_ok gw → returning (setListenerSetStatuses gw attached conflicts routes nsl).
Proof using Type.
  intros Hg. unfold setListenerSetStatuses. cbv zeta.
  apply returning_bind; [apply returning_attempt, returning_read|]. intros [grants|e]; [|by apply total_ret].
  apply returning_bind; [|intros; by apply total_ret]. apply (total_fold (λ _, True)); [done|]. intros n ls _ _.
  apply returning_bind.
  - apply total_query. intros w.
    destruct (listenerset_status_returns w (with_AttachedListenerSets gw None) grants conflicts routes nsl ls Hg) as [x ->].
    by eexists.
  - intros [ls' valid]. apply returning_bind; [|intros; by apply total_ret].
    apply returning_attempt, returning_updateListenerSet.
Qed.

Lemma returning_filterToAllowed gw sets : returning (filterToAllowedListenerSets gw sets).
Proof using Type.
  apply (total_fold (λ _, True)); [done|]. intros allowed ls _ _. apply returning_bind.
  { apply total_query. intros w. by eexists. }
  intros ok. destruct (negb ok); [|by apply total_ret]. cbv zeta.
  apply returning_bind; [|intros; by apply total_ret]. apply returning_attempt, returning_updateListenerSet.
Qed.

(** ** Routes *)

Lemma header_modifier_returns l : Forall ingestion.valid_filter l → returns (header_modifier_loop l).
Proof using Type.
  induction 1 as [|f l Hf _ IH]; [by eexists|]. cbn [header_modifier_loop]. apply returns_bind.
  - unfold set_headers. destruct (String.eqb_spec (rf_Type f) FilterRequestHeaderModifier) as [E|]; [|by eexists].
    destruct (ingestion.vf_request f Hf E) as [m ->]. by eexists.
  - intros hs _. destruct (existsb _ hs); [by eexists|done].
Qed.

Lemma http_status_ok m w grants original :
  http_usable original → yields (http_status m w grants original) http_usable.
Proof using Type.
  unfold http_status. cbv zeta. rewrite http_checks_loop. set (r0 := with_Parents original _). intros [Hok Hp].
  set (owned := http_owned _ w _).
  destruct (two_conditions_spec (rsm_controllerName m) owned http_accepted http_resolved (rt_ParentRefs r0) r0
    ltac:(done)) as (_ & _ & _ & T4).
  set (r1 := two_conditions _ _ _ _ _ r0) in *. unfold ValidateHeaderModifier. cbn [hi_HTTPRoute].
  assert (Hr1 : rt_Rules r1 = rt_Rules original) by (by rewrite T4). rewrite Hr1.
  destruct (header_modifier_returns (rt_Rules original ≫= hrr_Filters)) as [found ->].
  { apply Forall_forall. intros f (rule & Hf & Hrule)%list_elem_of_bind. unfold http_ok in Hok.
    rewrite Forall_forall in Hok. destruct (Hok rule Hrule) as (_ & Hfs & _). by rewrite Forall_forall in Hfs; apply Hfs. }
  cbn [mbind go_mbind]. rewrite !apply_validator_loop. eexists. split; [done|]. cbn [hi_HTTPRoute].
  assert (Hm : ∀ f (r : HTTPRoute), rt_Rules (mark_all (rsm_controllerName m) f r) = rt_Rules r).
  { intros [c|] r; [|done]. destruct (mark_all_spec (rsm_controllerName m) c r) as (_ & _ & E). by rewrite E. }
  unfold http_usable, http_ok, ingestion.http_mirrors_have_ports. by rewrite !Hm, Hr1.
Qed.

Lemma returning_route_update {Rule} k (as_object : Route Rule → object k) original new :
  returning (route_controllers.updateStatus k as_object original new).
Proof using Type.
  unfold route_controllers.updateStatus. destruct (cmp.Equal _ _); [by apply total_ret|apply total_write].
Qed.

(** The routes keep their rules. *)
Definition routes_ok (routes : Routes) : Prop := Forall http_usable (rs_http routes) ∧ Forall grpc_usable (rs_grpc routes).

Lemma total_route_statuses r g : routes_ok (ga_routes g) → total routes_ok (set_route_statuses r g).
Proof using Type.
  intros [Hh Hg]. unfold set_route_statuses. cbv zeta. apply (total_bind (Forall http_usable)).
  { apply total_wrapping. unfold SetRouteStatuses. destruct (gr_routeStatusManager r) as [m|]; [|apply total_fail].
    apply total_fold; [constructor|]. intros routes original Hin Hrs.
    apply (total_bind http_usable).
    - apply total_query. intros w. apply http_status_ok. by rewrite Forall_forall in Hh; apply Hh.
    - intros hr Hhr. apply returning_bind; [apply returning_route_update|]. intros _.
      apply total_ret, Forall_app. split; [done|by apply Forall_singleton]. }
  intros http Hhttp. apply returning_bind.
  { destruct (hasInstalledCRD r TCPRouteKind); [|by apply total_ret].
    apply (total_fold (λ _, True)); [done|]. intros routes original _ _. apply returning_bind.
    - apply total_query. intros w. by eexists.
    - intros tcpr. apply returning_bind; [apply total_wrapping, returning_route_update|]. intros _. by apply total_ret. }
  intros tcp. apply returning_bind; [|intros udp; by apply total_ret].
  destruct (hasInstalledCRD r UDPRouteKind); [|by apply total_ret].
  apply (total_fold (λ _, True)); [done|]. intros routes original _ _. apply returning_bind.
  - apply total_query. intros w. by eexists.
  - intros udpr. apply returning_bind; [apply total_wrapping, returning_route_update|]. intros _. by apply total_ret.
Qed.

(** ** Policies *)

Lemma returning_set_policy st p f : returning (set_policy st p f).
Proof using Type.
  unfold set_policy, updateBackendTLSPolicyStatus. cbv zeta. apply returning_bind; [apply total_wrapping|intros; by apply total_ret].
  destruct (cmp.Equal _ _); [by apply total_ret|apply total_write].
Qed.

Lemma returning_policies http m req : returning (setBackendTLSPolicyStatuses http m req).
Proof using Type.
  apply (total_fold (λ _, True)); [done|]. intros st svc _ _. unfold service_step.
  destruct (st_map st !! svc) as [coll|]; [|by apply total_ret].
  apply returning_bind; [apply returning_read|]. intros l.
  destruct (equal.ContainsCommonHTTPRoute _ _) as [found [e|]]; [apply total_fail|].
  destruct (negb _); [by apply total_ret|]. apply returning_bind; [apply returning_attempt, total_get_opt|].
  intros [[o|]|e]; [| |apply total_fail].
  - apply returning_bind; apply (total_fold (λ _, True)) || intros st1; try done.
    + intros st1 sec _ _. destruct (_ !! sec) as [p|]; [|by apply total_ret]. unfold validate_policy. cbv zeta.
      apply returning_bind; [apply returning_attempt, returning_read|]. intros [[? ?]|e]; [|apply total_fail].
      apply returning_set_policy.
    + apply (total_fold (λ _, True)); [done|]. intros st2 k _ _. destruct (_ !! k); [|by apply total_ret].
      apply returning_set_policy.
  - apply returning_bind; apply (total_fold (λ _, True)) || intros st1; try done.
    + intros st1 sec _ _. destruct (_ !! sec) as [p|]; [|by apply total_ret].
      destruct (confirmed st1 p); [by apply total_ret|apply returning_set_policy].
    + apply (total_fold (λ _, True)); [done|]. intros st2 k _ _. destruct (_ !! k) as [p|]; [|by apply total_ret].
      destruct (confirmed st2 p); [by apply total_ret|apply returning_set_policy].
Qed.

(** ** The model and its objects *)

Lemma getGatewayClassConfig_returns w gwc : config_namespaced gwc → returns (getGatewayClassConfig w gwc).
Proof using Type.
  intros Hok. unfold getGatewayClassConfig. destruct (gc_ParametersRef gwc) as [ref|] eqn:E; [|by eexists].
  destruct (String.eqb_spec (pref_Group ref) DGCCGroup) as [Eg|]; [|by eexists].
  destruct (String.eqb_spec (pref_Kind ref) DGCCKindDefinition) as [Ek|]; [|by eexists].
  destruct (Hok ref E Eg Ek) as [ns ->]. by eexists.
Qed.

Lemma filterTLSRoutes_returns w gw routes : gateway_ok gw → returns (filterTLSRoutesByGateway w gw routes).
Proof using Type.
  intros Hg. apply go_filter_returns. intros r. destruct (isAttachable _ _ _); [|by eexists].
  apply returns_bind; [by apply isAllowed_returns|intros; by eexists].
Qed.

Lemma Forall_List_filter {A} (P : A → Prop) f (l : list A) : Forall P l → Forall P (List.filter f l).
Proof using Type. intros Hl. induction Hl as [|x l Hx _ IH]; [done|]. cbn. destruct (f x); by repeat constructor. Qed.

Lemma build_model_ok w gw copy services routes attached contexts nsl :
  gateway_ok copy → routes_ok routes →
  yields (build_model w gw copy services routes attached contexts nsl) (λ r, model.model_ok r.1).
Proof using Type.
  intros Hg [Hh Hgr]. unfold build_model. cbv zeta.
  destruct (filterTLSRoutes_returns w copy (rs_tls routes) Hg) as [tls ->]. cbn [mbind go_mbind].
  match goal with |- context [ingestion.GatewayAPI ?i] => destruct (ingestion.yields_GatewayAPI i) as (m & -> & Hm) end.
  1,2: split; eapply Forall_impl; [by apply Forall_List_filter|by intros ? []|by apply Forall_List_filter|by intros ? []].
  by eexists.
Qed.

Lemma front_Translate_returns t m cfgs :
  model.model_ok m → returns (gateway_api.Translate hops label t (Some m) cfgs).
Proof using Type.
  intros Hm. unfold gateway_api.Translate. cbv zeta. destruct (gateway_api.c_source _) as [src|]; [|by eexists].
  case_match; [by eexists|].
  destruct (translation_facts.yields_Translate hops label (gateway_api.envoy_translator t src) m Hm) as (dec & -> & _).
  by eexists.
Qed.

(** ** Writing *)

Lemma returning_updateStatus original modified : returning (updateStatus original modified).
Proof using Type. unfold updateStatus. destruct (cmp.Equal _ _); [by apply total_ret|apply total_write]. Qed.

Lemma returning_handle e original modified : returning (handleReconcileErrorWithStatus e original modified).
Proof using Type.
  apply returning_bind; [apply returning_attempt, returning_updateStatus|]. intros [u|e']; apply total_fail.
Qed.

Lemma returning_or_else {A} (m : R A) h k :
  returning m → (∀ e, returning (h e)) → (∀ a, returning (k a)) → returning (or_else m h k).
Proof using Type. intros Hm Hh Hk. apply returning_bind; [by apply returning_attempt|]. by intros [a|e]. Qed.

Lemma returning_read_error {A} (f : World → A + error) : returning (read_error f).
Proof using Type. intros w. by do 2 eexists. Qed.

Lemma returning_spec_field {A} key what (enc : list A → string + string) v spec :
  returning (spec_field key what enc v spec).
Proof using Type. unfold spec_field. case_match; [by apply total_ret|]. case_match; [by apply total_ret|apply total_fail]. Qed.

Lemma returning_ensureEnvoyConfig dec : returning (ensureEnvoyConfig dec).
Proof using Type. destruct dec; [apply total_write|by apply total_ret]. Qed.

Lemma returning_ensureCilium dec : returning (ensureCiliumEnvoyConfig dec).
Proof using Type.
  destruct dec as [dec|]; [|by apply total_ret]. unfold ensureCiliumEnvoyConfig.
  do 3 (apply returning_bind; [apply returning_spec_field|]; intros ?). apply total_write.
Qed.

Lemma returning_delete_found k n prefix : returning (delete_found k n prefix).
Proof using Type.
  apply returning_bind; [apply returning_attempt, total_write|]. intros [u|e]; [by apply total_ret|].
  repeat case_match; try (by apply total_ret); apply total_fail.
Qed.

Lemma returning_program r gw copy m cfg : model.model_ok m → returning (program hops label r gw copy m cfg).
Proof using Type.
  intros Hm. unfold program. cbv zeta. apply returning_bind.
  { intros w. unfold lift. edestruct (front_Translate_returns) as [res ->]; [exact Hm|]. by do 2 eexists. }
  assert (Hfinish : ∀ u : unit, returning (or_else (read_error (λ w, setAddressStatus w copy))
      (λ e, handleReconcileErrorWithStatus e (setGatewayProgrammed gw false "Address is not ready") copy) (λ copy,
      wrapping "failed to update Gateway status: " (updateStatus gw (setGatewayProgrammed copy true "reconciled successfully"))))).
  { intros _. apply returning_or_else; intros; eauto using returning_read_error, returning_handle, total_wrapping, returning_updateStatus. }
  intros [[[[dec|] svc] ep]|err]; [..|apply returning_handle];
    (apply returning_or_else; [apply total_write|intros; apply returning_handle|intros _]);
    (apply returning_or_else; [apply total_write|intros; apply returning_handle|intros _]);
    (apply returning_or_else; [|intros; apply returning_handle|]).
  - apply returning_ensureEnvoyConfig.
  - intros _. apply returning_or_else; [apply returning_ensureCilium|intros; apply returning_handle|exact Hfinish].
  - apply returning_bind; [|intros _]; apply returning_delete_found.
  - exact Hfinish.
Qed.

(** ** The run *)

Lemma returning_report r req gw copy routes attached contexts nsl m http cfg :
  gateway_ok gw → gateway_ok copy → model.model_ok m →
  returning (report hops label r req gw copy routes attached contexts nsl m http cfg).
Proof using Type.
  intros Hg Hc Hm. apply returning_or_else; [apply returning_read|intros; apply returning_handle|]. intros policies.
  apply returning_bind.
  { destruct (negb _); [|by apply total_ret]. apply returning_bind; [apply returning_policies|].
    intros; by apply total_ret. }
  intros _. apply returning_bind.
  { apply total_query. intros w. destruct (setListenerStatus_returns w copy routes nsl Hc) as [x ->]. by eexists. }
  intros [copy'|e]; [|apply returning_handle]. cbv zeta.
  apply returning_bind; [by apply returning_setListenerSetStatuses|]. intros gw'. by apply returning_program.
Qed.

(** What follows once the routes are listed. *)
Lemma returning_after_gather r req gwc gw g :
  config_namespaced gwc → gateway_ok gw → routes_ok (ga_routes g) →
  returning (
    routes ← set_route_statuses r g;
    or_else (if HasListenerSetSupport then read_error (λ w, listenerSetsForGateway w gw) else mret [])
      (λ e, handleReconcileErrorWithStatus e gw gw) (λ sets,
    attached ← filterToAllowedListenerSets gw sets;
    contexts ← query (λ w, Ok (mergeListeners w gw attached));
    or_else (if hasAllowedRoutesNamespaceSelector gw then read (cl_List KNamespace (λ _, true)) else mret [])
      (λ e, handleReconcileErrorWithStatus e gw gw) (λ nss,
    let namespaceLabels := NewNamespaceLabelIndex nss in
    dgccfg ← query (λ w, getGatewayClassConfig w gwc);
    '(m, http) ← query (λ w, build_model w gw gw (ga_services g) routes attached contexts namespaceLabels);
    report hops label r req gw gw routes attached contexts namespaceLabels m http dgccfg))).
Proof using Type.
  intros Hc Hg Hr. apply (total_bind routes_ok); [by apply total_route_statuses|]. intros routes Hroutes.
  apply returning_or_else; [case_match; [apply returning_read_error|by apply total_ret]|intros; apply returning_handle|].
  intros sets. apply returning_bind; [apply returning_filterToAllowed|]. intros attached.
  apply returning_bind; [apply total_query; intros w; by eexists|]. intros contexts.
  apply returning_or_else; [case_match; [apply returning_read|by apply total_ret]|intros; apply returning_handle|].
  intros nss. cbv zeta. apply returning_bind.
  { apply total_query. intros w. destruct (getGatewayClassConfig_returns w gwc Hc) as [x ->]. by eexists. }
  intros cfg. apply (total_bind (λ r, model.model_ok r.1)).
  { apply total_query. intros w. by apply build_model_ok. }
  intros [m http] Hm. by apply returning_report.
Qed.

(** A world whose Gateways, HTTPRoutes and GRPCRoutes satisfy the schemas of their
    kinds. *)
Record admitted (w : World) : Prop := {
  ad_gateways : ∀ n gw, cl_Get KGateway n w = inl gw → gateway_ok gw;
  ad_http : ∀ l, cl_List KHTTPRoute (λ _, true) w = inl l → Forall http_ok l;
  ad_grpc : ∀ l, cl_List KGRPCRoute (λ _, true) w = inl l → Forall grpc_ok l
}.

(** A world whose GatewayClasses name the namespaces of their configurations and
    whose routes name the ports of their mirrors. *)
Record references_complete (w : World) : Prop := {
  rc_classes : ∀ n gwc, cl_Get KGatewayClass n w = inl gwc → config_namespaced gwc;
  rc_http : ∀ l, cl_List KHTTPRoute (λ _, true) w = inl l → Forall ingestion.http_mirrors_have_ports l;
  rc_grpc : ∀ l, cl_List KGRPCRoute (λ _, true) w = inl l → Forall ingestion.grpc_mirrors_have_ports l
}.

Definition returns_from {A} (m : R A) (w : World) : Prop := ∃ w' res, m w = Ok (w', res).

Lemma returning_from {A} (m : R A) w : returning m → returns_from m w.
Proof using Type. intros Hm. destruct (Hm w) as (w' & res & E & _). by do 2 eexists. Qed.

Lemma or_else_read_from {A} (f : World → A + ApiError) h k w :
  (∀ e, returning (h e)) → (∀ a, f w = inl a → returns_from (k a) w) → returns_from (or_else (read f) h k) w.
Proof using Type.
  intros Hh Hk. unfold returns_from, or_else. rewrite R_bind_eq. unfold attempt, read.
  destruct (f w) as [a|e]; [by apply Hk|apply returning_from, Hh].
Qed.

Lemma gather_returns r gw copy k w :
  admitted w → references_complete w → (∀ g, routes_ok (ga_routes g) → returning (k g)) → returns_from (gather r gw copy k) w.
Proof using Type.
  intros Hw Hrc Hk. unfold gather. cbv zeta.
  apply or_else_read_from; [intros; apply returning_handle|]. intros http Hhttp.
  apply or_else_read_from; [intros; apply returning_handle|]. intros tls _.
  apply or_else_read_from; [intros; apply returning_handle|]. intros services _.
  apply or_else_read_from; [intros; apply returning_handle|]. intros grpc Hgrpc. apply returning_from.
  do 2 (apply returning_or_else; [case_match; [apply returning_read|by apply total_ret]|
    intros; apply returning_handle|intros ?]).
  apply returning_or_else; [apply returning_read|intros; apply returning_handle|]. intros grants.
  apply Hk. split; apply Forall_and; split;
    [by apply (ad_http w Hw)|by apply (rc_http w Hrc)|by apply (ad_grpc w Hw)|by apply (rc_grpc w Hrc)].
Qed.

(** C3: from a world whose Gateways and routes satisfy their schemas, whose
    GatewayClasses name the namespaces of the configurations they refer to and
    whose routes name the ports of their mirrors (two conditions the schemas do not
    demand), a run of the Gateway reconciler returns: whichever reads and writes of
    the client fail, and whatever the API server holds besides, no step
    dereferences nil or indexes out of range. *)
Theorem Gateway_Reconcile_total r req w :
  admitted w → references_complete w → ∃ w' res, Reconcile hops label r req w = Ok (w', res).
Proof using Type.
  intros Hw Hrc. unfold Reconcile. rewrite R_bind_eq. unfold get_opt.
  destruct (cl_Get KGateway req w) as [gw|[]] eqn:Egw; try by do 2 eexists.
  destruct (bool_decide _); [by do 2 eexists|]. rewrite R_bind_eq. unfold attempt, read.
  destruct (cl_Get KGatewayClass _ w) as [gwc|e] eqn:Ec; [|by do 2 eexists].
  destruct (negb _); [by do 2 eexists|]. unfold reconcile_gateway. apply gather_returns; [done..|].
  intros g Hg. apply returning_after_gather; [by eapply rc_classes|by eapply ad_gateways|done].
Qed.

(** The condition on GatewayClasses is needed: reading the configuration of a class
    that does not name its namespace panics. *)
Theorem unnamespaced_config_panics w gwc ref :
  gc_ParametersRef gwc = Some ref → pref_Group ref = DGCCGroup → pref_Kind ref = DGCCKindDefinition →
  pref_Namespace ref = None → getGatewayClassConfig w gwc = Panic NilDeref.
Proof using Type.
  intros E Eg Ek En. unfold getGatewayClassConfig. rewrite E. cbn. by rewrite Eg, Ek, En, !String.eqb_refl.
Qed.

End Total.

End gateway_total.
