(* ===== verification/Discovery.v ===== *)
(** * Which Gateway API resources are installed (src/pkg/gateway_api/cell.go)

    Before the controllers are registered, the operator asks the API server for
    the CustomResourceDefinitions of the Gateway API, and retries while the server
    does not answer.  [Module discovery] has Go errors as trees, the two checks of
    the definitions, the retry loop over time and the registration of the
    controllers that depends on it.  The theorems: the loop ends before the
    deadline and its result is the truth about some attempt, and the controllers
    and the synchronisation of Secrets are switched on together. *)

From S2P Require Import Prelude GoStrings ApiTypes Helpers GatewayReconcile.
Import k8s gatewayv1 types gateway_reconcile.

Module discovery.

(** ** Go errors *)

(** [metav1.Status] of an API error. *)
Record Status := mkStatus { st_Code : Z; st_Reason : string }.

Inductive Errno := ECONNREFUSED | ECONNRESET | EHOSTUNREACH | ENETUNREACH | OtherErrno (n : Z).

(** [fmt.Errorf] with %w wraps an error, [errors.Join] lists some. *)
Inductive gerror :=
| StatusError (s : Status)
| ErrnoError (n : Errno)
| TextError (msg : string)
| Wrapped (prefix : string) (e : gerror)
| Joined (es : list gerror).

(** [errors.As]: the first error of the tree, depth first, that fits. *)
Fixpoint errors_As {A} (fits : gerror → option A) (e : gerror) : option A :=
  match fits e with
  | Some a => Some a
  | None =>
      match e with
      | Wrapped _ e => errors_As fits e
      | Joined es => (fix first (es : list gerror) := match es with
                      | [] => None
                      | e :: es => match errors_As fits e with Some a => Some a | None => first es end
                      end) es
      | _ => None
      end
  end.

Definition as_status (e : gerror) : option Status :=
  errors_As (λ e, match e with StatusError s => Some s | _ => None end) e.

Definition as_errno (e : gerror) : option Errno :=
  errors_As (λ e, match e with ErrnoError n => Some n | _ => None end) e.

(** [errors.Join] of two errors, without those that are nil. *)
Definition errors_Join (a : option gerror) (b : gerror) : option gerror :=
  Some (Joined (match a with Some a => [a; b] | None => [b] end)).

(** The package k8s.io/apimachinery/pkg/api/errors: its tests look at the first
    status in the error. *)
Class K8sErrors := {
  status_ServerTimeout : Status → bool;
  status_ServiceUnavailable : Status → bool;
  status_TooManyRequests : Status → bool;
  status_Timeout : Status → bool
}.

(** ** Definitions of resources *)

Record CRDVersion := mkCRDVersion { crdv_Name : string; crdv_Served : bool }.
Record CRD := mkCRD { crd_Name : string; crd_Versions : list CRDVersion }.

(** The client, with the answers it gives at one time. *)
Record Clientset := mkClientset { cs_IsEnabled : bool; cs_GetCRD : string → CRD + gerror }.

(** helpers/types.go *)
Definition GatewayClassKind : string := "gatewayclasses".
Definition GatewayKind : string := "gateways".
Definition HTTPRouteKind : string := "httproutes".
Definition GRPCRouteKind : string := "grpcroutes".
Definition ReferenceGrantKind : string := "referencegrants".
Definition TLSRouteKind : string := "tlsroutes".
Definition ServiceImportKind : string := "serviceimports".
Definition BackendTLSPolicyKind : string := "backendtlspolicies".
Definition ListenerSetKind : string := "listenersets".

Definition RequiredGVKs : list GroupVersionKind :=
  GatewayV1GVK <$> [GatewayClassKind; GatewayKind; HTTPRouteKind; GRPCRouteKind; TLSRouteKind;
                    ReferenceGrantKind; BackendTLSPolicyKind].

Definition AllOptionalKinds : list GroupVersionKind :=
  [GatewayV1GVK ListenerSetKind; mkGVK "multicluster.x-k8s.io" "v1beta1" ServiceImportKind;
   GatewayV1GVK TCPRouteKind; GatewayV1GVK UDPRouteKind].

Definition crdName (gvk : GroupVersionKind) : string := gvk_Kind gvk +:+ "." +:+ gvk_Group gvk.

Definition checkCRD (clientset : Clientset) (gvk : GroupVersionKind) : option gerror :=
  if negb (cs_IsEnabled clientset) then None
  else match cs_GetCRD clientset (crdName gvk) with
       | inr err => Some (Wrapped ("get CRD " +:+ crdName gvk) err)
       | inl crd =>
           if existsb crdv_Served (crd_Versions crd) then None
           else Some (TextError ("CRD " +:+ crdName gvk +:+ " does not serve any API versions"))
       end.

Definition checkCRDs (clientset : Clientset) (requiredGVKs optionalGVKs : list GroupVersionKind)
  : list GroupVersionKind * option gerror :=
  (List.filter (λ gvk, bool_decide (checkCRD clientset gvk = None)) optionalGVKs,
   foldl (λ res gvk, match checkCRD clientset gvk with Some err => errors_Join res err | None => res end)
     None requiredGVKs).

(** The second check also asks for the version. *)
Definition checkRequiredCRDs (clientset : Clientset) : option gerror :=
  if negb (cs_IsEnabled clientset) then None
  else foldl (λ res gvk,
         match cs_GetCRD clientset (crdName gvk) with
         | inr err => errors_Join res err
         | inl crd =>
             if existsb (λ version, String.eqb (crdv_Name version) (gvk_Version gvk) && crdv_Served version)
                  (crd_Versions crd)
             then res
             else errors_Join res (TextError ("CRD " +:+ crd_Name crd +:+ " does not serve version " +:+ gvk_Version gvk))
         end) None RequiredGVKs.

Definition resources : gmap string string :=
  {[ "GatewayClass" := "gatewayclasses"; "Gateway" := "gateways"; "HTTPRoute" := "httproutes";
     "GRPCRoute" := "grpcroutes"; "TLSRoute" := "tlsroutes"; "TCPRoute" := "tcproutes";
     "UDPRoute" := "udproutes"; "ReferenceGrant" := "referencegrants";
     "BackendTLSPolicy" := "backendtlspolicies"; "ListenerSet" := "listenersets" ]}.

Definition crdNameForGVK (gvk : GroupVersionKind) : string + gerror :=
  if negb (String.eqb (gvk_Group gvk) "gateway.networking.k8s.io")
  then inr (TextError ("unsupported CRD group " +:+ gvk_Group gvk +:+ " for kind " +:+ gvk_Kind gvk))
  else match resources !! gvk_Kind gvk with
       | None => inr (TextError ("unknown Gateway API kind " +:+ gvk_Kind gvk))
       | Some resource => inl (resource +:+ "." +:+ gvk_Group gvk)
       end.

Section Discovery.
Context {k8s : K8sErrors}.

Definition isTransientError (err : option gerror) : bool :=
  match err with
  | None => false
  | Some err =>
      let has (p : Status → bool) := match as_status err with Some s => p s | None => false end in
      has status_ServerTimeout || has status_ServiceUnavailable || has status_TooManyRequests || has status_Timeout ||
      match as_errno err with
      | Some (ECONNREFUSED | ECONNRESET | EHOSTUNREACH | ENETUNREACH) => true
      | _ => false
      end
  end.

(** ** The retry loop *)

Record gatewayAPIPreconditions := mkPreconditions {
  pre_Enabled : bool; pre_InstalledKinds : list GroupVersionKind }.

(** What happens in one turn: the answers of the API server, how long asking
    takes, and how long the backoff is. *)
Record Turn := mkTurn { tn_client : Clientset; tn_asking : Z; tn_backoff : Z }.

Definition crdDiscoveryTimeout : Z := 30000000000.

Definition timedOut (err : gerror) : gerror := Wrapped "gateway API CRD discovery timed out: " err.
Definition DeadlineExceeded : gerror := TextError "context deadline exceeded".

(** The loop from the turn [i] on, at the time [now]: the context is done once its
    deadline has passed, and [bo.Wait] returns its error when that happens before
    the backoff is over.  None: there is no result after [fuel] turns. *)
Fixpoint discover_loop (fuel : nat) (turns : nat → Turn) (i : nat) (now deadline : Z)
  : option (gatewayAPIPreconditions + gerror) :=
  match fuel with
  | 0 => None
  | S fuel =>
      let t := turns i in
      let asked := (now + tn_asking t)%Z in
      match checkCRDs (tn_client t) RequiredGVKs AllOptionalKinds with
      | (installedKinds, None) => Some (inl (mkPreconditions true installedKinds))
      | (_, Some err) =>
          if (deadline <=? asked)%Z then Some (inr (timedOut err))
          else if negb (isTransientError (Some err)) then Some (inl (mkPreconditions false []))
          else if (deadline <=? asked + tn_backoff t)%Z then Some (inr (timedOut DeadlineExceeded))
          else discover_loop fuel turns (S i) (asked + tn_backoff t) deadline
      end
  end.

Definition discoverCRDsWithRetry (fuel : nat) (turns : nat → Turn) : option (gatewayAPIPreconditions + gerror) :=
  discover_loop fuel turns 0 0 crdDiscoveryTimeout.

Record gatewayApiConfig := mkGatewayApiConfig {
  cfg_EnableGatewayAPISecretsSync : bool;
  cfg_GatewayAPISecretsNamespace : string;
  cfg_EnableGatewayAPI : bool
}.

Definition validateExternalTrafficPolicy (cfg : gatewayApiConfig) : option gerror := None.

Definition newGatewayAPIPreconditions (fuel : nat) (cfg : gatewayApiConfig) (turns : nat → Turn)
  : option (gatewayAPIPreconditions + gerror) :=
  if negb (cfg_EnableGatewayAPI cfg) then Some (inl (mkPreconditions false []))
  else match validateExternalTrafficPolicy cfg with
       | Some err => Some (inr err)
       | None => discoverCRDsWithRetry fuel turns
       end.

(** ** The controllers *)

Inductive Reconciler := GatewayClassReconciler | GatewayReconciler | GRPCRouteReconciler | TLSRouteReconciler.

(** The manager of controller-runtime: the errors of its calls. *)
Record Manager := mkManager {
  mgr_setup : Reconciler → option gerror;
  mgr_instrument : option gerror;
  mgr_Add : option gerror
}.

Definition reconcilers : list Reconciler :=
  [GatewayClassReconciler; GatewayReconciler; GRPCRouteReconciler; TLSRouteReconciler].

Fixpoint setup (mgr : Manager) (i : Z) (l : list Reconciler) : option gerror :=
  match l with
  | [] => None
  | r :: l =>
      match mgr_setup mgr r with
      | Some err => Some (Wrapped ("failed to setup Gateway API reconciler index=" +:+ Itoa i +:+ ": ") err)
      | None => setup mgr (i + 1) l
      end
  end.

Definition registerReconcilers (mgr : option Manager) : list Reconciler + gerror :=
  match mgr with
  | None => inr (TextError "controller-runtime manager is nil")
  | Some mgr =>
      match setup mgr 0 reconcilers with
      | Some err => inr err
      | None =>
          match mgr_instrument mgr with
          | Some err => inr (Wrapped "failed to instrument GatewayClass informer: " err)
          | None =>
              match mgr_Add mgr with
              | Some err => inr (Wrapped "failed to add GatewayClass diagnostic monitor: " err)
              | None => inl reconcilers
              end
          end
      end
  end.

Record gatewayAPIParams := mkParams {
  pa_K8sClient : Clientset;
  pa_CtrlRuntimeManager : option Manager;
  pa_Config : gatewayApiConfig;
  pa_Preconditions : option gatewayAPIPreconditions
}.

Definition satisfied (params : gatewayAPIParams) : bool :=
  match pa_Preconditions params with Some p => pre_Enabled p | None => false end.

(** None: the controllers are skipped. *)
Definition initGatewayAPIController (params : gatewayAPIParams) : option (list Reconciler) + gerror :=
  if negb (cfg_EnableGatewayAPI (pa_Config params)) then inl None
  else if negb (satisfied params) then inl None
  else match checkRequiredCRDs (pa_K8sClient params) with
       | Some _ => inl None
       | None =>
           match registerReconcilers (pa_CtrlRuntimeManager params) with
           | inr err => inr (Wrapped "failed to create gateway controller: " err)
           | inl rs => inl (Some rs)
           end
       end.

(** The namespace the Secrets are copied to, if they are. *)
Definition registerSecretSync (params : gatewayAPIParams) : go (option string) :=
  if negb (satisfied params) then Ok None
  else match checkRequiredCRDs (pa_K8sClient params) with
       | Some _ => Ok None
       | None =>
           if negb (cfg_EnableGatewayAPI (pa_Config params)) || negb (cfg_EnableGatewayAPISecretsSync (pa_Config params))
           then Ok None
           else _ ← deref (pa_CtrlRuntimeManager params);
                Ok (Some (cfg_GatewayAPISecretsNamespace (pa_Config params)))
       end.

(** ** What is found out *)

(** A definition is there and serves a version, one that [want] accepts. *)
Definition serves (want : CRDVersion → bool) (c : Clientset) (gvk : GroupVersionKind) : Prop :=
  ∃ crd v, cs_GetCRD c (crdName gvk) = inl crd ∧ v ∈ crd_Versions crd ∧ crdv_Served v = true ∧ want v = true.

Definition any_version (v : CRDVersion) : bool := true.

Lemma existsb_served want l :
  existsb (λ v, want v && crdv_Served v) l = true ↔ ∃ v, v ∈ l ∧ crdv_Served v = true ∧ want v = true.
Proof using Type.
  rewrite existsb_exists. setoid_rewrite <-list_elem_of_In. setoid_rewrite andb_true_iff. naive_solver.
Qed.

Lemma checkCRD_spec c gvk :
  checkCRD c gvk = None ↔ cs_IsEnabled c = false ∨ serves any_version c gvk.
Proof using Type.
  unfold checkCRD, serves. destruct (cs_IsEnabled c); cbn; [|naive_solver].
  destruct (cs_GetCRD c (crdName gvk)) as [crd|err]; [|naive_solver].
  pose proof (existsb_served any_version (crd_Versions crd)) as H. cbn in H.
  destruct (existsb crdv_Served (crd_Versions crd)); split; try done.
  - intros _. right. destruct (proj1 H eq_refl) as (v & ? & ? & ?). by exists crd, v.
  - intros [?|(crd' & v & [= <-] & ? & ? & ?)]; [done|].
    assert (false = true) by (apply H; by exists v). done.
Qed.

(** Joining the errors of a loop: nil exactly if there is none. *)
Lemma joined_None {A} (f : A → option gerror) l res :
  foldl (λ res x, match f x with Some err => errors_Join res err | None => res end) res l = None ↔
  res = None ∧ ∀ x, x ∈ l → f x = None.
Proof using Type.
  revert res. induction l as [|x l IH]; intros res; cbn; [set_solver|]. rewrite IH.
  setoid_rewrite elem_of_cons. destruct (f x) eqn:E; cbn; naive_solver.
Qed.

Lemma checkCRDs_spec c required optional :
  ((checkCRDs c required optional).2 = None ↔
     ∀ gvk, gvk ∈ required → cs_IsEnabled c = false ∨ serves any_version c gvk) ∧
  ∀ gvk, gvk ∈ (checkCRDs c required optional).1 ↔
     gvk ∈ optional ∧ (cs_IsEnabled c = false ∨ serves any_version c gvk).
Proof using Type.
  split.
  - cbn. rewrite joined_None. setoid_rewrite checkCRD_spec. naive_solver.
  - intros gvk. cbn. rewrite list_elem_of_In, filter_In, <-list_elem_of_In, bool_decide_eq_true, checkCRD_spec.
    naive_solver.
Qed.

(** *** The loop *)

(** When the turn [n] begins. *)
Fixpoint elapsed (turns : nat → Turn) (n : nat) : Z :=
  match n with
  | 0 => 0
  | S n => elapsed turns n + tn_asking (turns n) + tn_backoff (turns n)
  end.

Definition answer (t : Turn) : list GroupVersionKind * option gerror :=
  checkCRDs (tn_client t) RequiredGVKs AllOptionalKinds.

(** What the result [r] says about the turn [i] in which the loop ended. *)
Definition truthful (turns : nat → Turn) (i : nat) (deadline : Z) (r : gatewayAPIPreconditions + gerror) : Prop :=
  (∀ j, (j < i)%nat → isTransientError (answer (turns j)).2 = true) ∧ (elapsed turns i < deadline)%Z ∧
  match r with
  | inl p =>
      if pre_Enabled p
      then (answer (turns i)).2 = None ∧ pre_InstalledKinds p = (answer (turns i)).1
      else ∃ err, (answer (turns i)).2 = Some err ∧ isTransientError (Some err) = false
  | inr _ => is_Some (answer (turns i)).2 ∧ (deadline <= elapsed turns (S i))%Z
  end.

(** Every turn takes at least [step]. *)
Definition paced (turns : nat → Turn) (step : Z) : Prop :=
  (0 < step)%Z ∧ ∀ i, (0 <= tn_asking (turns i))%Z ∧ (0 <= tn_backoff (turns i))%Z ∧
    (step <= tn_asking (turns i) + tn_backoff (turns i))%Z.

Lemma discover_loop_spec turns step deadline fuel i :
  paced turns step → (elapsed turns i < deadline)%Z →
  (deadline - elapsed turns i <= step * Z.of_nat fuel)%Z →
  (∀ j, (j < i)%nat → isTransientError (answer (turns j)).2 = true) →
  ∃ k r, discover_loop fuel turns i (elapsed turns i) deadline = Some r ∧ truthful turns k deadline r.
Proof using Type.
  intros [Hs Hp]. revert i. induction fuel as [|fuel IH]; intros i Hd Hf Hj; [lia|].
  cbn [discover_loop]. cbv zeta. fold (answer (turns i)). destruct (Hp i) as (Ha & Hb & Hab).
  destruct (answer (turns i)) as [kinds [err|]] eqn:Ea.
  2: { exists i. eexists. split; [done|]. split; [done|]. split; [done|]. by rewrite Ea. }
  destruct (Z.leb_spec deadline (elapsed turns i + tn_asking (turns i))).
  { exists i. eexists. split; [done|]. split; [done|]. split; [done|]. rewrite Ea. cbn [elapsed]. split; [by eexists|lia]. }
  destruct (isTransientError (Some err)) eqn:Et; cbn [negb].
  2: { exists i. eexists. split; [done|]. split; [done|]. split; [done|]. cbn [pre_Enabled]. rewrite Ea. by exists err. }
  destruct (Z.leb_spec deadline (elapsed turns i + tn_asking (turns i) + tn_backoff (turns i))).
  { exists i. eexists. split; [done|]. split; [done|]. split; [done|]. rewrite Ea. cbn [elapsed]. split; [by eexists|lia]. }
  apply (IH (S i)); cbn [elapsed]; [lia|lia|].
  intros j Hji. destruct (decide (j = i)) as [->|]; [by rewrite Ea|]. apply Hj. lia.
Qed.

(** C22: if every turn takes at least some time [step] ([paced]), the retry loop
    ends, after as many turns as fit into its timeout, and its result is true of the
    turn in which it ended: enabled if the client is disabled or every required
    definition is served (in some version), with the optional ones that are (with a
    disabled client, all of them, although nothing was asked); disabled if the API
    server said so with an error that is not transient; an error only once the time
    is up.  Every earlier turn failed transiently. *)
Theorem discovery_terminates turns step fuel :
  paced turns step → (crdDiscoveryTimeout <= step * Z.of_nat fuel)%Z →
  ∃ i r, discoverCRDsWithRetry fuel turns = Some r ∧ truthful turns i crdDiscoveryTimeout r ∧
    ∀ kinds, r = inl (mkPreconditions true kinds) →
      let c := tn_client (turns i) in
      (∀ gvk, gvk ∈ RequiredGVKs → cs_IsEnabled c = false ∨ serves any_version c gvk) ∧
      ∀ gvk, gvk ∈ kinds ↔ gvk ∈ AllOptionalKinds ∧ (cs_IsEnabled c = false ∨ serves any_version c gvk).
Proof using Type.
  intros Hp Hf. destruct (discover_loop_spec turns step crdDiscoveryTimeout fuel 0 Hp) as (i & r & E & Ht).
  - done.
  - cbn [elapsed]. lia.
  - lia.
  - exists i, r. split_and!; [done..|]. intros kinds -> c. destruct Ht as (_ & _ & Hn & Hk). cbn in Hk.
    destruct (checkCRDs_spec c RequiredGVKs AllOptionalKinds) as [H1 H2]. split; [by apply H1|].
    rewrite Hk. exact H2.
Qed.

(** *** Controllers and Secrets *)

Definition right_version (gvk : GroupVersionKind) (v : CRDVersion) : bool :=
  String.eqb (crdv_Name v) (gvk_Version gvk).

Lemma checkRequiredCRDs_spec c :
  checkRequiredCRDs c = None ↔
  cs_IsEnabled c = false ∨ ∀ gvk, gvk ∈ RequiredGVKs → serves (right_version gvk) c gvk.
Proof using Type.
  unfold checkRequiredCRDs. destruct (cs_IsEnabled c); cbn [negb]; [|naive_solver].
  set (f := λ gvk, match cs_GetCRD c (crdName gvk) with
    | inr err => Some err
    | inl crd => if existsb (λ v, right_version gvk v && crdv_Served v) (crd_Versions crd) then None
        else Some (TextError ("CRD " +:+ crd_Name crd +:+ " does not serve version " +:+ gvk_Version gvk))
    end).
  assert (Hf : ∀ gvk, f gvk = None ↔ serves (right_version gvk) c gvk).
  { intros gvk. unfold f, serves. destruct (cs_GetCRD c (crdName gvk)) as [crd|err]; [|naive_solver].
    pose proof (existsb_served (right_version gvk) (crd_Versions crd)) as H.
    destruct (existsb _ _); split; try done.
    - intros _. destruct (proj1 H eq_refl) as (v & ? & ? & ?). by exists crd, v.
    - intros (crd' & v & [= <-] & ? & ? & ?). assert (false = true) by (apply H; by exists v). done. }
  setoid_rewrite <-Hf. match goal with |- foldl ?g _ _ = None ↔ _ =>
    assert (Hg : ∀ l res, foldl g res l =
      foldl (λ res x, match f x with Some err => errors_Join res err | None => res end) res l) end.
  { induction l as [|gvk l IH]; intros res; cbn [foldl]; [done|]. rewrite IH. f_equal. unfold f.
    destruct (cs_GetCRD c (crdName gvk)) as [crd|err]; [|done]. unfold right_version. by destruct (existsb _ _). }
  rewrite Hg, joined_None. naive_solver.
Qed.

(** The Gateway API is on: wanted, found at the start, and its definitions serve
    the versions the controllers use. *)
Definition gateway_api_on (params : gatewayAPIParams) : Prop :=
  cfg_EnableGatewayAPI (pa_Config params) = true ∧ satisfied params = true ∧
  (cs_IsEnabled (pa_K8sClient params) = false ∨
   ∀ gvk, gvk ∈ RequiredGVKs → serves (right_version gvk) (pa_K8sClient params) gvk).

(** The controllers are registered, or fail, exactly if the Gateway API is on, and
    Secrets are synchronised exactly if it is on and that is configured: never one
    without the other. *)
Theorem controllers_and_secrets params mgr :
  pa_CtrlRuntimeManager params = Some mgr →
  (initGatewayAPIController params ≠ inl None ↔ gateway_api_on params) ∧
  ∃ sync, registerSecretSync params = Ok sync ∧
    (is_Some sync ↔ gateway_api_on params ∧ cfg_EnableGatewayAPISecretsSync (pa_Config params) = true).
Proof using Type.
  intros Hm. assert (Hon : gateway_api_on params ↔ cfg_EnableGatewayAPI (pa_Config params) = true ∧
    satisfied params = true ∧ checkRequiredCRDs (pa_K8sClient params) = None).
  { unfold gateway_api_on. by rewrite checkRequiredCRDs_spec. }
  setoid_rewrite Hon. unfold initGatewayAPIController, registerSecretSync. rewrite Hm.
  destruct (cfg_EnableGatewayAPI (pa_Config params)), (satisfied params),
    (checkRequiredCRDs (pa_K8sClient params)), (cfg_EnableGatewayAPISecretsSync (pa_Config params)),
    (registerReconcilers (Some mgr)); cbn [negb orb];
    (split; [naive_solver|eexists; split; [done|]; unfold is_Some; naive_solver]).
Qed.

End Discovery.

(** ** Examples *)

#[local] Instance reference_errors : K8sErrors := {|
  status_ServerTimeout := λ s, String.eqb (st_Reason s) "ServerTimeout";
  status_ServiceUnavailable := λ s, String.eqb (st_Reason s) "ServiceUnavailable";
  status_TooManyRequests := λ s, String.eqb (st_Reason s) "TooManyRequests";
  status_Timeout := λ s, String.eqb (st_Reason s) "Timeout"
|}.

Definition missing : gerror := StatusError (mkStatus 404 "NotFound").
Definition unavailable : gerror := StatusError (mkStatus 503 "ServiceUnavailable").

(** All definitions of the Gateway API, served as v1. *)
Definition installed : Clientset := mkClientset true (λ n, inl (mkCRD n [mkCRDVersion "v1" true])).

(** The API server is not ready for two turns, of a second each. *)
Definition starting (i : nat) : Turn :=
  mkTurn (if (i <? 2)%nat then mkClientset true (λ _, inr unavailable) else installed) 0 1000000000.

Lemma discovery_terminates_witness :
  discoverCRDsWithRetry 30 starting = Some (inl (mkPreconditions true AllOptionalKinds)) ∧
  ∃ i r, discoverCRDsWithRetry 30 starting = Some r ∧ truthful starting i crdDiscoveryTimeout r.
Proof.
  split; [reflexivity|].
  destruct (discovery_terminates starting 1000000000 30) as (i & r & E & Ht & _).
  - split; [lia|]. intros i. cbn. lia.
  - unfold crdDiscoveryTimeout. lia.
  - exists i, r. split; assumption.
Defined.

(** A definition that is missing hides that the API server did not answer for the
    next one: the two errors are joined, the first status is not transient, and
    the Gateway API is switched off at the first turn. *)
Definition partly_up : Clientset :=
  mkClientset true (λ n, if String.eqb n "gatewayclasses.gateway.networking.k8s.io" then inr missing else inr unavailable).

Lemma missing_hides_unavailable : ∀ asking backoff, (0 <= asking < crdDiscoveryTimeout)%Z →
  discoverCRDsWithRetry 1 (λ _, mkTurn partly_up asking backoff) = Some (inl (mkPreconditions false [])).
Proof.
  intros asking backoff Ha. unfold discoverCRDsWithRetry. cbn [discover_loop].
  replace (checkCRDs _ _ _) with (checkCRDs partly_up RequiredGVKs AllOptionalKinds) by done.
  destruct (checkCRDs partly_up RequiredGVKs AllOptionalKinds) as [kinds [err|]] eqn:E; [|by vm_compute in E].
  assert (Ht : isTransientError (Some err) = false) by (vm_compute in E; injection E as <- <-; reflexivity).
  cbn [tn_asking tn_client]. rewrite Ht. cbn [negb]. destruct (Z.leb_spec crdDiscoveryTimeout (0 + asking)); [lia|done].
Qed.

(** An optional definition whose check fails transiently counts as not installed. *)
Definition optional_down : Clientset :=
  mkClientset true (λ n, if String.eqb n "tcproutes.gateway.networking.k8s.io" then inr unavailable
                         else inl (mkCRD n [mkCRDVersion "v1" true])).

Lemma optional_down_skipped :
  discoverCRDsWithRetry 1 (λ _, mkTurn optional_down 0 1) =
  Some (inl (mkPreconditions true (List.filter (λ g, negb (String.eqb (gvk_Kind g) TCPRouteKind)) AllOptionalKinds))).
Proof. reflexivity. Qed.

(** A definition that is served in another version only passes the first check,
    and the controllers are skipped all the same. *)
Definition old_version : Clientset := mkClientset true (λ n, inl (mkCRD n [mkCRDVersion "v1beta1" true])).

Lemma old_version_skipped :
  discoverCRDsWithRetry 1 (λ _, mkTurn old_version 0 1) = Some (inl (mkPreconditions true AllOptionalKinds)) ∧
  initGatewayAPIController (mkParams old_version None (mkGatewayApiConfig true "ns" true)
    (Some (mkPreconditions true AllOptionalKinds))) = inl None.
Proof. split; reflexivity. Qed.

Lemma controllers_and_secrets_witness :
  gateway_api_on (mkParams installed (Some (mkManager (λ _, None) None None)) (mkGatewayApiConfig true "ns" true)
    (Some (mkPreconditions true []))).
Proof.
  apply (controllers_and_secrets (mkParams installed (Some (mkManager (λ _, None) None None))
    (mkGatewayApiConfig true "ns" true) (Some (mkPreconditions true []))) (mkManager (λ _, None) None None)).
  - reflexivity.
  - discriminate.
Defined.

End discovery.
