(* ===== verification/SchemeTypes.v ===== *)
(** * The types of the Gateway API in the scheme
    src/pkg/gateway_api/helpers/types.go (the concrete types of a kind),
    src/pkg/gateway_api/scheme/scheme.go (their registration) and [NewScheme] and
    [NewManager] of src/pkg/controller-runtime/cell.go.

    [runtime.Scheme] is part of k8s.io/apimachinery: [Class SchemeLib] has the
    calls the code makes, [Class SchemeLaws] what they promise, in terms of
    [knows], the Go types known in a group and version.  The registrations are in
    a Go map, so their order is open: the theorem says that the result does not
    depend on it. *)

From S2P Require Import Prelude GoStrings ApiTypes Helpers GatewayReconcile Discovery.
Import k8s gatewayv1 types gateway_reconcile discovery.

Module gateway_scheme.

(** ** Concrete types *)

(** A Go type, by its package (as it is imported) and name. *)
Record GoType := mkGoType { gt_package : string; gt_name : string }.

#[export] Instance GoType_eq_dec : EqDecision GoType.
Proof. solve_decision. Defined.

Definition GetConcreteObject (schemaType : GroupVersionKind) : go GoType :=
  let kind := gvk_Kind schemaType in
  if String.eqb kind GatewayClassKind then Ok (mkGoType "gatewayv1" "GatewayClass")
  else if String.eqb kind GatewayKind then Ok (mkGoType "gatewayv1" "Gateway")
  else if String.eqb kind TLSRouteKind then Ok (mkGoType "gatewayv1" "TLSRoute")
  else if String.eqb kind HTTPRouteKind then Ok (mkGoType "gatewayv1" "HTTPRoute")
  else if String.eqb kind GRPCRouteKind then Ok (mkGoType "gatewayv1" "GRPCRoute")
  else if String.eqb kind ReferenceGrantKind then Ok (mkGoType "gatewayv1" "ReferenceGrant")
  else if String.eqb kind BackendTLSPolicyKind then Ok (mkGoType "gatewayv1" "BackendTLSPolicy")
  else if String.eqb kind TCPRouteKind then Ok (mkGoType "gatewayv1" "TCPRoute")
  else if String.eqb kind UDPRouteKind then Ok (mkGoType "gatewayv1" "UDPRoute")
  else if String.eqb kind ListenerSetKind then Ok (mkGoType "gatewayv1" "ListenerSet")
  else if String.eqb kind ServiceImportKind then Ok (mkGoType "mcsapiv1beta1" "ServiceImport")
  else Panic (Explicit ("Tried to get a concrete type that is not implemented, " +:+ gvk_Kind schemaType)).

Definition GetConcreteListObject (schemaType : GroupVersionKind) : go GoType :=
  let kind := gvk_Kind schemaType in
  if String.eqb kind GatewayClassKind then Ok (mkGoType "gatewayv1" "GatewayClassList")
  else if String.eqb kind GatewayKind then Ok (mkGoType "gatewayv1" "GatewayList")
  else if String.eqb kind TLSRouteKind then Ok (mkGoType "gatewayv1" "TLSRouteList")
  else if String.eqb kind HTTPRouteKind then Ok (mkGoType "gatewayv1" "HTTPRouteList")
  else if String.eqb kind GRPCRouteKind then Ok (mkGoType "gatewayv1" "GRPCRouteList")
  else if String.eqb kind ReferenceGrantKind then Ok (mkGoType "gatewayv1" "ReferenceGrantList")
  else if String.eqb kind BackendTLSPolicyKind then Ok (mkGoType "gatewayv1" "BackendTLSPolicyList")
  else if String.eqb kind TCPRouteKind then Ok (mkGoType "gatewayv1" "TCPRouteList")
  else if String.eqb kind UDPRouteKind then Ok (mkGoType "gatewayv1" "UDPRouteList")
  else if String.eqb kind ListenerSetKind then Ok (mkGoType "gatewayv1" "ListenerSetList")
  else if String.eqb kind ServiceImportKind then Ok (mkGoType "mcsapiv1beta1" "ServiceImportList")
  else Panic (Explicit ("Tried to get a concrete list type that is not implemented, " +:+ gvk_Kind schemaType)).

(** ** The scheme *)

Record GroupVersion := mkGV { gv_Group : string; gv_Version : string }.

#[export] Instance GroupVersion_eq_dec : EqDecision GroupVersion.
Proof. solve_decision. Defined.

Definition gvk_GroupVersion (gvk : GroupVersionKind) : GroupVersion := mkGV (gvk_Group gvk) (gvk_Version gvk).

(** [runtime.Scheme] and the functions that add types to one: those of the
    package metav1 and of the version v1beta1 of the Gateway API. *)
Class SchemeLib := {
  Scheme : Type;
  knows : Scheme → GroupVersion → GoType → bool;
  AddKnownTypes : GroupVersion → list GoType → Scheme → go Scheme;
  AddToGroupVersion : GroupVersion → Scheme → go Scheme;
  v1beta1_Install : Scheme → Scheme + string;
  (** What the last two add. *)
  metav1_types : list GoType;
  v1beta1_types : list GoType
}.

Definition v1beta1_GroupVersion : GroupVersion := mkGV GroupName "v1beta1".

(** One type per name in a group and version: adding others panics. *)
Definition fits {lib : SchemeLib} (s : Scheme) (gv : GroupVersion) (ts : list GoType) : Prop :=
  ∀ t t', t ∈ ts → t' ∈ ts ∨ knows s gv t' = true → gt_name t' = gt_name t → t' = t.

(** The scheme [s'] knows what [s] knows, and the types [ts] in [gv]. *)
Definition adds {lib : SchemeLib} (gv : GroupVersion) (ts : list GoType) (s s' : Scheme) : Prop :=
  ∀ gv' t, knows s' gv' t = knows s gv' t || (bool_decide (gv' = gv) && bool_decide (t ∈ ts)).

Class SchemeLaws {lib : SchemeLib} : Prop := {
  AddKnownTypes_adds : ∀ gv ts s, fits s gv ts → yields (AddKnownTypes gv ts s) (adds gv ts s);
  AddToGroupVersion_adds : ∀ gv s, fits s gv metav1_types → yields (AddToGroupVersion gv s) (adds gv metav1_types s);
  v1beta1_Install_adds : ∀ s s', v1beta1_Install s = inl s' → adds v1beta1_GroupVersion v1beta1_types s s';
  (** The types of metav1 (options and events) have names of their own. *)
  metav1_names : ∀ t t', t ∈ metav1_types → t' ∈ metav1_types → gt_name t' = gt_name t → t' = t;
  metav1_apart : ∀ t, t ∈ metav1_types → HasSuffix (gt_name t) "Options" = true ∨ gt_name t = "WatchEvent"
}.

(** The keys of the map [addToSchema]: a kind with its version, or a version. *)
Inductive Stringer := S_GVK (gvk : GroupVersionKind) | S_GV (gv : GroupVersion).

#[export] Instance GVK_eq_dec : EqDecision GroupVersionKind.
Proof. solve_decision. Defined.
#[export] Instance Stringer_eq_dec : EqDecision Stringer.
Proof. solve_decision. Defined.
#[export] Instance Stringer_countable : Countable Stringer.
Proof.
  refine (inj_countable'
    (λ s, match s with
          | S_GVK g => (gvk_Group g, gvk_Version g, Some (gvk_Kind g))
          | S_GV g => (gv_Group g, gv_Version g, None)
          end)
    (λ t, match t with
          | (g, v, Some k) => S_GVK (mkGVK g v k)
          | (g, v, None) => S_GV (mkGV g v)
          end) _).
  by intros [[]|[]].
Defined.

Section AddToScheme.
Context {lib : SchemeLib} {range : MapRange}.

(** The function stored for a kind: a new scheme, or an error. *)
Definition addKind (gvk : GroupVersionKind) (s : Scheme) : go (Scheme + string) :=
  obj ← GetConcreteObject gvk;
  lst ← GetConcreteListObject gvk;
  s ← AddKnownTypes (gvk_GroupVersion gvk) [obj; lst] s;
  s ← AddToGroupVersion (gvk_GroupVersion gvk) s;
  Ok (inl s).

Definition addToSchema : gmap Stringer (Scheme → go (Scheme + string)) :=
  let required := foldl (λ m gvk, <[S_GVK gvk := addKind gvk]> m) ∅ RequiredGVKs in
  let optional := foldl (λ m gvk, <[S_GVK gvk := addKind gvk]> m) required AllOptionalKinds in
  <[S_GV v1beta1_GroupVersion := λ s, Ok (v1beta1_Install s)]> optional.

(** [GroupVersionKind.String] and [GroupVersion.String] of apimachinery. *)
Definition Stringer_String (k : Stringer) : string :=
  match k with
  | S_GVK g => gvk_Group g +:+ "/" +:+ gvk_Version g +:+ ", Kind=" +:+ gvk_Kind g
  | S_GV g => if String.eqb (gv_Group g) "" then gv_Version g else gv_Group g +:+ "/" +:+ gv_Version g
  end.

(** The loop over the map: the scheme is changed in place, so what was added
    before an error stays. *)
Fixpoint add_all (m : gmap Stringer (Scheme → go (Scheme + string))) (ks : list Stringer) (s : Scheme)
  : go (Scheme * option string) :=
  match ks with
  | [] => Ok (s, None)
  | k :: ks =>
      match m !! k with
      | None => add_all m ks s
      | Some f =>
          res ← f s;
          match res with
          | inl s => add_all m ks s
          | inr err => Ok (s, Some ("failed to add types from " +:+ Stringer_String k +:+ " to scheme: " +:+ err))
          end
      end
  end.

Definition AddToScheme (s : Scheme) : go (Scheme * option string) := add_all addToSchema (map_keys addToSchema) s.

End AddToScheme.

(** ** The manager *)

(** [NewScheme]: the types of the two API groups of the operator are added to the
    scheme of client-go, each from a map with one entry.  The error names the
    version, not what went wrong. *)
Definition NewScheme {S} (clientgo : S) (v1 v2alpha1 : GroupVersion * (S → S + string)) : S + GroupVersion :=
  match v1.2 clientgo with
  | inr _ => inr v1.1
  | inl s => match v2alpha1.2 s with inr _ => inr v2alpha1.1 | inl s => inl s end
  end.

(** [NewManager]: the manager of controller-runtime, which a job of its own
    starts; [create] is what [ctrlruntime.NewManager] returns. *)
Definition NewManager {M} (enabled : bool) (create : M + string) : M + string :=
  if negb enabled then inr "k8s client is not enabled"
  else match create with
       | inr err => inr ("failed to initial manager " +:+ err)
       | inl mgr => inl mgr
       end.

(** ** What is registered *)

Definition kinds : list GroupVersionKind := RequiredGVKs ++ AllOptionalKinds.

(** Every kind has a concrete type and the type of its lists, and types with the
    same name are the same. *)
Definition types_of (gvk : GroupVersionKind) : list GoType :=
  match GetConcreteObject gvk, GetConcreteListObject gvk with Ok obj, Ok lst => [obj; lst] | _, _ => [] end.

Lemma types_of_total gvk :
  gvk ∈ kinds → ∃ obj lst, GetConcreteObject gvk = Ok obj ∧ GetConcreteListObject gvk = Ok lst ∧
    gt_package lst = gt_package obj ∧ gt_name lst = gt_name obj +:+ "List".
Proof.
  intros H. assert (Forall (λ gvk, match GetConcreteObject gvk, GetConcreteListObject gvk with
    | Ok obj, Ok lst => gt_package lst = gt_package obj ∧ gt_name lst = gt_name obj +:+ "List"
    | _, _ => False end) kinds) as Hall by (repeat constructor).
  eapply Forall_forall in Hall; [|exact H].
  destruct (GetConcreteObject gvk) as [obj|]; [|done]. destruct (GetConcreteListObject gvk) as [lst|]; [|done].
  exists obj, lst. naive_solver.
Qed.

Lemma types_of_name gvk gvk' t t' :
  gvk ∈ kinds → gvk' ∈ kinds → t ∈ types_of gvk → t' ∈ types_of gvk' → gt_name t' = gt_name t → t' = t.
Proof.
  intros H1 H2 Ht Ht'. assert (Forall (λ t, Forall (λ t', gt_name t' = gt_name t → t' = t) (kinds ≫= types_of))
    (kinds ≫= types_of)) as Hall by (apply (bool_decide_eq_true_1 _); vm_compute; reflexivity).
  assert (t ∈ kinds ≫= types_of) as Hin by (apply list_elem_of_bind; by exists gvk).
  assert (t' ∈ kinds ≫= types_of) as Hin' by (apply list_elem_of_bind; by exists gvk').
  eapply Forall_forall in Hall; [|exact Hin]. eapply Forall_forall in Hall; [|exact Hin']. done.
Qed.

Lemma types_of_not_meta gvk t :
  gvk ∈ kinds → t ∈ types_of gvk → HasSuffix (gt_name t) "Options" = false ∧ gt_name t ≠ "WatchEvent".
Proof.
  intros H Ht. assert (Forall (λ t, HasSuffix (gt_name t) "Options" = false ∧ gt_name t ≠ "WatchEvent")
    (kinds ≫= types_of)) as Hall by (apply (bool_decide_eq_true_1 _); vm_compute; reflexivity).
  eapply Forall_forall in Hall; [exact Hall|]. apply list_elem_of_bind. by exists gvk.
Qed.

Section Registered.
Context {lib : SchemeLib} {laws : SchemeLaws} {range : MapRange}.

(** What [AddToScheme] adds. *)
Definition added (gv : GroupVersion) (t : GoType) : Prop :=
  (∃ gvk, gvk ∈ kinds ∧ gv = gvk_GroupVersion gvk ∧ (t ∈ types_of gvk ∨ t ∈ metav1_types)) ∨
  (gv = v1beta1_GroupVersion ∧ t ∈ v1beta1_types).

(** Nothing is known yet in the versions that are added. *)
Definition fresh (s : Scheme) : Prop := ∀ gvk t, gvk ∈ kinds → knows s (gvk_GroupVersion gvk) t = false.

(** What a scheme may know on the way. *)
Definition within (s s1 : Scheme) : Prop := ∀ gv t, knows s1 gv t = true → knows s gv t = true ∨ added gv t.

Lemma not_v1beta1 gvk : gvk ∈ kinds → gvk_GroupVersion gvk ≠ v1beta1_GroupVersion.
Proof using Type.
  intros H. assert (Forall (λ gvk, gvk_GroupVersion gvk ≠ v1beta1_GroupVersion) kinds) as Hall
    by (apply (bool_decide_eq_true_1 _); vm_compute; reflexivity).
  eapply Forall_forall in Hall; [exact Hall|done].
Qed.

(** A type known in the version of a kind is one of the added ones. *)
Lemma known_in_kind s s1 gvk t :
  fresh s → within s s1 → gvk ∈ kinds → knows s1 (gvk_GroupVersion gvk) t = true →
  (∃ gvk', gvk' ∈ kinds ∧ t ∈ types_of gvk') ∨ t ∈ metav1_types.
Proof using Type.
  intros Hf Hw Hk [H|[(gvk' & ? & _ & [?|?])|[H _]]]%Hw; [|by left; exists gvk'|by right|].
  - by rewrite (Hf gvk t Hk) in H.
  - by apply not_v1beta1 in H.
Qed.

Lemma fits_types s s1 gvk : fresh s → within s s1 → gvk ∈ kinds → fits s1 (gvk_GroupVersion gvk) (types_of gvk).
Proof using laws.
  intros Hf Hw Hk t t' Ht [Ht'|Ht'] En; [by eapply (types_of_name gvk gvk)|].
  destruct (known_in_kind s s1 gvk t' Hf Hw Hk Ht') as [(gvk' & Hk' & H')|Hm]; [by eapply (types_of_name gvk gvk')|].
  destruct (types_of_not_meta gvk t Hk Ht) as [H1 H2]. apply metav1_apart in Hm as [Hm|Hm]; congruence.
Qed.

Lemma fits_meta s s1 gvk : fresh s → within s s1 → gvk ∈ kinds → fits s1 (gvk_GroupVersion gvk) metav1_types.
Proof using laws.
  intros Hf Hw Hk t t' Ht [Ht'|Ht'] En; [by apply metav1_names|].
  destruct (known_in_kind s s1 gvk t' Hf Hw Hk Ht') as [(gvk' & Hk' & H')|Hm]; [|by apply metav1_names].
  destruct (types_of_not_meta gvk' t' Hk' H') as [H1 H2]. apply metav1_apart in Ht as [Ht|Ht]; congruence.
Qed.

Lemma adds_within s s1 s2 gv ts :
  within s s1 → adds gv ts s1 s2 → (∀ t, t ∈ ts → added gv t) → within s s2.
Proof using Type.
  intros Hw Ha Hts gv' t. rewrite Ha. intros [H|[->%bool_decide_eq_true H%bool_decide_eq_true]%andb_true_iff]%orb_true_iff;
    [by apply Hw|by right; apply Hts].
Qed.

Lemma adds_knows s1 s2 gv ts gv' t :
  adds gv ts s1 s2 → knows s1 gv' t = true ∨ (gv' = gv ∧ t ∈ ts) → knows s2 gv' t = true.
Proof using Type.
  intros Ha. rewrite Ha. intros [->|[-> H]]; [done|]. rewrite !bool_decide_true by done. by rewrite orb_true_r.
Qed.

(** One kind: its types and those of metav1 are added. *)
Lemma yields_addKind s s1 gvk :
  fresh s → within s s1 → gvk ∈ kinds →
  ∃ s2, addKind gvk s1 = Ok (inl s2) ∧ within s s2 ∧
    (∀ gv t, knows s1 gv t = true → knows s2 gv t = true) ∧
    (∀ t, t ∈ types_of gvk ∨ t ∈ metav1_types → knows s2 (gvk_GroupVersion gvk) t = true).
Proof using laws.
  intros Hf Hw Hk. destruct (types_of_total gvk Hk) as (obj & lst & Ho & Hl & _).
  assert (types_of gvk = [obj; lst]) as Et by (unfold types_of; by rewrite Ho, Hl).
  pose proof (fits_types s s1 gvk Hf Hw Hk) as F1. rewrite Et in F1.
  destruct (AddKnownTypes_adds _ _ _ F1) as (s2 & H2 & A2).
  assert (within s s2) as Hw2.
  { eapply adds_within; [done..|]. intros t Ht. left. exists gvk. rewrite Et. by auto. }
  destruct (AddToGroupVersion_adds _ _ (fits_meta s s2 gvk Hf Hw2 Hk)) as (s3 & H3 & A3).
  exists s3. split_and!.
  - unfold addKind. rewrite Ho, Hl. cbn [mbind go_mbind]. rewrite H2. cbn [mbind go_mbind]. by rewrite H3.
  - eapply adds_within; [done..|]. intros t Ht. left. exists gvk. by auto.
  - intros gv t H. eapply adds_knows; [done|]. left. eapply adds_knows; [done|]. by left.
  - intros t [Ht|Ht]; (eapply adds_knows; [done|]); [left|by right]. eapply adds_knows; [done|]. right. by rewrite <-Et.
Qed.

(** The entries of the map. *)
Lemma lookup_kinds l (m : gmap Stringer (Scheme → go (Scheme + string))) k :
  foldl (λ m gvk, <[S_GVK gvk := addKind gvk]> m) m l !! k =
  match k with
  | S_GVK gvk => if decide (gvk ∈ l) then Some (addKind gvk) else m !! k
  | S_GV _ => m !! k
  end.
Proof using Type.
  revert m. induction l as [|g l IH]; intros m; cbn [foldl].
  - destruct k; [|done]. rewrite decide_False; [done|apply not_elem_of_nil].
  - rewrite IH. destruct k as [gvk|gv]; [|by rewrite lookup_insert_ne].
    destruct (decide (gvk = g)) as [->|Hne].
    + rewrite (decide_True _ _ (list_elem_of_here _ _)). destruct (decide (g ∈ l)); [done|]. by rewrite lookup_insert_eq.
    + rewrite lookup_insert_ne by congruence. destruct (decide (gvk ∈ l)) as [Hin|Hn].
      * by rewrite decide_True by (by right).
      * rewrite decide_False; [done|]. by intros [?|?]%elem_of_cons.
Qed.

Lemma lookup_addToSchema k :
  addToSchema !! k =
  match k with
  | S_GVK gvk => if decide (gvk ∈ kinds) then Some (addKind gvk) else None
  | S_GV gv => if decide (gv = v1beta1_GroupVersion) then Some (λ s, Ok (v1beta1_Install s)) else None
  end.
Proof using Type.
  unfold addToSchema. cbv zeta. destruct k as [gvk|gv].
  - rewrite lookup_insert_ne by done. rewrite !lookup_kinds, lookup_empty. unfold kinds.
    setoid_rewrite (decide_ext (gvk ∈ RequiredGVKs ++ AllOptionalKinds) (gvk ∈ AllOptionalKinds ∨ gvk ∈ RequiredGVKs)).
    + destruct (decide (gvk ∈ AllOptionalKinds)), (decide (gvk ∈ RequiredGVKs)); by case_decide; naive_solver.
    + rewrite elem_of_app. tauto.
  - destruct (decide (gv = v1beta1_GroupVersion)) as [->|Hne]; [by rewrite lookup_insert_eq|].
    rewrite lookup_insert_ne by congruence. by rewrite !lookup_kinds, lookup_empty.
Qed.

(** What the entry of a key adds. *)
Definition entry (k : Stringer) (gv : GroupVersion) (t : GoType) : Prop :=
  match k with
  | S_GVK gvk => gvk ∈ kinds ∧ gv = gvk_GroupVersion gvk ∧ (t ∈ types_of gvk ∨ t ∈ metav1_types)
  | S_GV g => g = v1beta1_GroupVersion ∧ gv = g ∧ t ∈ v1beta1_types
  end.

Lemma run_all s ks s1 :
  fresh s → (∀ v, ∃ v', v1beta1_Install v = inl v') → within s s1 →
  ∃ s2, add_all addToSchema ks s1 = Ok (s2, None) ∧ within s s2 ∧
    (∀ gv t, knows s1 gv t = true → knows s2 gv t = true) ∧
    (∀ k gv t, k ∈ ks → entry k gv t → knows s2 gv t = true).
Proof using laws.
  intros Hf Hi. revert s1. induction ks as [|k ks IH]; intros s1 Hw.
  { exists s1. split_and!; try done. intros k gv t Hk. by apply elem_of_nil in Hk. }
  cbn [add_all]. rewrite lookup_addToSchema.
  enough (∀ s2, within s s2 → (∀ gv t, knows s1 gv t = true → knows s2 gv t = true) →
    (∀ gv t, entry k gv t → knows s2 gv t = true) →
    ∃ s3, add_all addToSchema ks s2 = Ok (s3, None) ∧ within s s3 ∧
      (∀ gv t, knows s1 gv t = true → knows s3 gv t = true) ∧
      (∀ k' gv t, k' ∈ k :: ks → entry k' gv t → knows s3 gv t = true)) as Hnext.
  { destruct k as [gvk|gv]; case_decide as Hk.
    - destruct (yields_addKind s s1 gvk Hf Hw Hk) as (s2 & -> & Hw2 & Hm & He). cbn [mbind go_mbind].
      apply Hnext; [done..|]. intros gv t (_ & -> & Ht). by apply He.
    - apply Hnext; [done..|]. by intros gv t [? _].
    - subst gv. destruct (Hi s1) as [s2 E]. cbn [mbind go_mbind]. rewrite E. pose proof (v1beta1_Install_adds _ _ E) as A.
      apply Hnext.
      + eapply adds_within; [done..|]. intros t Ht. by right.
      + intros gv t H. eapply adds_knows; [done|]. by left.
      + intros gv t (_ & -> & Ht). eapply adds_knows; [done|]. by right.
    - apply Hnext; [done..|]. by intros g t [? _]. }
  intros s2 Hw2 Hm He. destruct (IH s2 Hw2) as (s3 & H3 & Hw3 & Hm3 & He3). exists s3. split_and!; [done..| |].
  - intros gv t H. by apply Hm3, Hm.
  - intros k' gv t [->|Hk']%elem_of_cons H; [by apply Hm3, He|by eapply He3].
Qed.

(** whatever the order in which Go ranges over the map of registrations,
    adding the Gateway API to a scheme that does not know it panics nowhere,
    returns no error if the legacy version installs, and leaves a scheme that
    knows exactly what it knew and, for every required and optional kind, the
    concrete type, the type of its lists and the options of its version, and the
    legacy types. *)
Theorem AddToScheme_complete s :
  fresh s → (∀ v, ∃ v', v1beta1_Install v = inl v') →
  ∃ s', AddToScheme s = Ok (s', None) ∧
    ∀ gv t, knows s' gv t = true ↔ knows s gv t = true ∨ added gv t.
Proof using laws.
  intros Hf Hi. destruct (run_all s (map_keys addToSchema) s Hf Hi) as (s' & E & Hw & Hm & He); [by left|].
  exists s'. split; [exact E|]. intros gv t. split; [by apply Hw|]. intros [H|[(gvk & Hk & Hg & Ht)|[-> Ht]]]; [by apply Hm| |].
  - apply (He (S_GVK gvk)); [|done]. apply elem_of_map_keys. rewrite lookup_addToSchema, decide_True by done. by eexists.
  - apply (He (S_GV v1beta1_GroupVersion)); [|done]. apply elem_of_map_keys. rewrite lookup_addToSchema, decide_True by done.
    by eexists.
Qed.

End Registered.

(** ** A concrete scheme *)

Definition reference_meta : list GoType := [mkGoType "metav1" "WatchEvent"; mkGoType "metav1" "ListOptions"].

Definition ref_add (gv : GroupVersion) (ts : list GoType) (s : list (GroupVersion * GoType)) : list (GroupVersion * GoType) :=
  ((λ t, (gv, t)) <$> ts) ++ s.

(** Adding another type under a name that is taken panics. *)
Definition ref_conflict (gv : GroupVersion) (ts : list GoType) (s : list (GroupVersion * GoType)) : bool :=
  existsb (λ t, existsb (λ p, bool_decide (p.1 = gv) && String.eqb (gt_name p.2) (gt_name t) && negb (bool_decide (p.2 = t)))
                  (ref_add gv ts s)) ts.

Definition ref_AddKnownTypes gv ts s : go (list (GroupVersion * GoType)) :=
  if ref_conflict gv ts s then Panic (Explicit "Double registration of different types") else Ok (ref_add gv ts s).

Definition reference_scheme : SchemeLib := {|
  Scheme := list (GroupVersion * GoType);
  knows := λ s gv t, bool_decide ((gv, t) ∈ s);
  AddKnownTypes := ref_AddKnownTypes;
  AddToGroupVersion := λ gv s, ref_AddKnownTypes gv reference_meta s;
  v1beta1_Install := λ s, inl (ref_add v1beta1_GroupVersion [mkGoType "gatewayv1beta1" "Gateway"] s);
  metav1_types := reference_meta;
  v1beta1_types := [mkGoType "gatewayv1beta1" "Gateway"]
|}.

Lemma ref_adds gv ts s : @adds reference_scheme gv ts s (ref_add gv ts s).
Proof.
  intros gv' t. cbn. apply eq_bool_prop_intro. rewrite orb_True, andb_True, !bool_decide_spec. unfold ref_add.
  rewrite elem_of_app, list_elem_of_fmap. naive_solver.
Qed.

Lemma ref_yields gv ts s :
  @fits reference_scheme s gv ts → yields (ref_AddKnownTypes gv ts s) (@adds reference_scheme gv ts s).
Proof.
  intros Hf. unfold ref_AddKnownTypes. destruct (ref_conflict gv ts s) eqn:E; [|eexists; split; [done|apply ref_adds]].
  unfold ref_conflict in E. apply referencegrants.existsb_elem in E as (t & Ht & (p & Hp & H)%referencegrants.existsb_elem).
  apply andb_true_iff in H as [[H1%bool_decide_eq_true H2%String.eqb_eq]%andb_true_iff H3%negb_true_iff].
  apply bool_decide_eq_false in H3. destruct H3. destruct p as [g u]. cbn in *. subst g.
  apply (Hf t u); [done| |done]. unfold ref_add in Hp. rewrite elem_of_app, list_elem_of_fmap in Hp.
  destruct Hp as [(v & [= ->] & Hv)|Hp]; [by left|right]. cbn. by rewrite bool_decide_true.
Qed.

#[export] Instance reference_scheme_laws : @SchemeLaws reference_scheme.
Proof.
  split.
  - intros gv ts s. apply ref_yields.
  - intros gv s. apply ref_yields.
  - intros s s' [= <-]. apply ref_adds.
  - assert (Forall (λ t, Forall (λ t', gt_name t' = gt_name t → t' = t) reference_meta) reference_meta) as H
      by (apply (bool_decide_eq_true_1 _); vm_compute; reflexivity).
    intros t t' Ht Ht'. eapply Forall_forall in H; [|exact Ht]. by eapply Forall_forall in H.
  - intros t [->| ->%list_elem_of_singleton]%elem_of_cons; [by right|by left].
Qed.

Lemma AddToScheme_complete_witness :
  ∃ s', @AddToScheme reference_scheme backward_range [] = Ok (s', None) ∧
    ∀ gv t, bool_decide ((gv, t) ∈ s') = true ↔ @knows reference_scheme [] gv t = true ∨ @added reference_scheme gv t.
Proof.
  apply (@AddToScheme_complete reference_scheme reference_scheme_laws backward_range []).
  - done.
  - intros v. by eexists.
Defined.

End gateway_scheme.
