(* ===== verification/GatewayClass.v ===== *)
(** * The GatewayClass reconciler

    [Module gatewayclass]: src/pkg/gateway_api/gatewayclass_reconcile.go,
    gatewayclass_status.go, and from gatewayclass.go the predicate and the handler
    that put GatewayClasses on the queue. *)

From S2P Require Import Prelude GoStrings ApiTypes Model Hostnames Helpers Translator FrontTranslators ApiServer Status GatewayListeners.
Import k8s gatewayv1 api status gateway_helpers.

(** The package sigs.k8s.io/gateway-api/pkg/features: the set of all features, in
    some order, and the four that are exempt here. *)
Class GatewayFeatures := {
  Feature : Type;
  Feature_eq_dec :: EqDecision Feature;
  feat_Name : Feature → string;
  AllFeatures : list Feature;
  HTTPRouteParentRefPortFeature : Feature;
  MeshConsumerRouteFeature : Feature;
  BackendTLSPolicyFeature : Feature;
  HTTPRouteCORS : Feature
}.

Module gatewayclass.

Definition gatewayClassAcceptedMessage : string := "Valid GatewayClass".
Definition gatewayClassNotAcceptedMessage : string := "Invalid GatewayClass".

(** A [client.Object] that an event may carry. *)
Inductive EventObject := GatewayClassObject (gwc : option GatewayClass) | OtherObject (meta : ObjectMeta).

Definition matchesControllerName (controllerName : string) (obj : option EventObject) : bool :=
  match obj with
  | Some (GatewayClassObject (Some gwc)) => String.eqb (gc_ControllerName gwc) controllerName
  | _ => false
  end.

(** The events of a watch; an update has the old and the new object. *)
Inductive Event (A : Type) := Create (o : A) | Delete (o : A) | Update (old new : A) | Generic (o : A).
Arguments Create {A}. Arguments Delete {A}. Arguments Update {A}. Arguments Generic {A}.

(** predicates/gatewayclass.go *)
Definition GatewayClassOwnedByController (controllerName : string) (e : Event GatewayClass) : bool :=
  match e with
  | Create o | Delete o | Generic o => GatewayClassMatchesControllerName controllerName o
  | Update old new =>
      GatewayClassMatchesControllerName controllerName old || GatewayClassMatchesControllerName controllerName new
  end.

(** Only the new object of an update counts. *)
Definition gatewayClassDebugPredicate (controllerName : string) (e : Event EventObject) : bool :=
  match e with
  | Create o | Delete o | Generic o => matchesControllerName controllerName (Some o)
  | Update _ new => matchesControllerName controllerName (Some new)
  end.

(** [gatewayClassQueueEventHandler]: the requests that an event adds to the queue.
    The objects of an update may be nil. *)
Definition event_meta (o : EventObject) : ObjectMeta :=
  match o with
  | GatewayClassObject (Some gwc) => gc_meta gwc
  | GatewayClassObject None => mkObjectMeta "" "" "" 0 ∅ ∅ 0 None
  | OtherObject m => m
  end.

Definition handle (controllerName : string) (e : Event (option EventObject)) : list NamespacedName :=
  let '(obj, accepted) :=
    match e with
    | Create o | Delete o | Generic o => (o, matchesControllerName controllerName o)
    | Update old new => (match new with None => old | _ => new end, matchesControllerName controllerName new)
    end in
  match obj with
  | None => []
  | Some o => if negb accepted then [] else [ObjectKey (event_meta o)]
  end.

Section Reconciler.
Context {client : Client} {clock : Clock} {features : GatewayFeatures}.

Definition gatewayClassAcceptedCondition (gwc : GatewayClass) (accepted : bool) : Condition :=
  if accepted
  then mkCondition ConditionAccepted ConditionTrue ReasonAccepted gatewayClassAcceptedMessage
         (om_Generation (gc_meta gwc)) now
  else mkCondition ConditionAccepted ConditionFalse ReasonInvalidParameters gatewayClassNotAcceptedMessage
         (om_Generation (gc_meta gwc)) now.

Definition setGatewayClassAccepted (gwc : GatewayClass) (accepted : bool) : GatewayClass :=
  with_gc_Status gwc (merge (gc_Conditions gwc) [gatewayClassAcceptedCondition gwc accepted])
    (gc_SupportedFeatures gwc).

Definition exemptFeatures : list Feature :=
  [HTTPRouteParentRefPortFeature; MeshConsumerRouteFeature; BackendTLSPolicyFeature; HTTPRouteCORS].

(** The names of the features that are left, sorted. *)
Definition getSupportedFeatures : list string :=
  let supportedFeatures := foldl (λ s f, List.filter (λ g, bool_decide (g ≠ f)) s) AllFeatures exemptFeatures in
  sort_strings (feat_Name <$> supportedFeatures).

Definition setGatewayClassSupportedFeatures (gwc : GatewayClass) : GatewayClass :=
  with_gc_Status gwc (gc_Conditions gwc) getSupportedFeatures.

Definition ensureStatus (gwc original : GatewayClass) : R unit :=
  write (cl_PatchStatus KGatewayClass gwc original).

Definition Reconcile (req : NamespacedName) : R unit :=
  found ← get_opt KGatewayClass req;
  match found with
  | None => mret tt
  | Some origin =>
      if bool_decide (is_Some (om_DeletionTimestamp (gc_meta origin))) then mret tt
      else if negb (matchesControllerName defaultControllerName (Some (GatewayClassObject (Some origin)))) then mret tt
      else ensureStatus (setGatewayClassSupportedFeatures (setGatewayClassAccepted origin true)) origin
  end.

(** ** Lemmas *)

Lemma supported_filter f :
  f ∈ foldl (λ s f, List.filter (λ g, bool_decide (g ≠ f)) s) AllFeatures exemptFeatures ↔
  f ∈ AllFeatures ∧ f ∉ exemptFeatures.
Proof.
  assert (H : ∀ l s, f ∈ foldl (λ s f, List.filter (λ g, bool_decide (g ≠ f)) s) s l ↔ f ∈ s ∧ f ∉ l).
  { induction l as [|x l IH]; intros s; cbn.
    - split; [|by intros [? _]]. intros ?. split; [done|apply not_elem_of_nil].
    - rewrite IH, not_elem_of_cons, list_elem_of_In, filter_In, <-list_elem_of_In, bool_decide_eq_true. tauto. }
  apply H.
Qed.

(** C34: a run of the GatewayClass reconciler changes nothing but the status of its
    class, and only if the class names this controller; if it returns without an
    error, the stored class is accepted at its generation and lists in order the
    names of exactly the features that are not exempt. *)
Theorem GatewayClass_Reconcile_accepts {laws : ClientLaws} req w w' r origin :
  cl_Get KGatewayClass req w = inl origin → om_DeletionTimestamp (gc_meta origin) = None →
  gc_ControllerName origin = defaultControllerName →
  Reconcile req w = Ok (w', r) →
  frame (only KGatewayClass req) w w' ∧
  (r = inl tt → ∃ gwc c, stored KGatewayClass w' req = Some gwc ∧ gc_ControllerName gwc = defaultControllerName ∧
     find_cond ConditionAccepted (gc_Conditions gwc) = Some c ∧ cond_Status c = ConditionTrue ∧
     cond_ObservedGeneration c = om_Generation (gc_meta origin) ∧
     StronglySorted (sorted_le str_ltb) (gc_SupportedFeatures gwc) ∧
     ∀ name, name ∈ gc_SupportedFeatures gwc ↔
       ∃ f, f ∈ AllFeatures ∧ (f ∉ exemptFeatures) ∧ feat_Name f = name).
Proof.
  intros Hget Hdel Hctrl. pose proof (Get_found _ _ _ _ Hget) as Hst.
  pose proof (stored_key _ _ _ _ Hst) as Hkey. cbn in Hkey.
  unfold Reconcile, get_opt. rewrite R_bind_eq, Hget. cbv beta iota.
  rewrite bool_decide_false by (rewrite Hdel; by intros []). cbn [matchesControllerName].
  rewrite Hctrl, String.eqb_refl. cbn [negb]. unfold ensureStatus, write.
  set (gwc := setGatewayClassSupportedFeatures _). destruct (cl_PatchStatus KGatewayClass gwc origin w) as [w1 e] eqn:Ep.
  pose proof (PatchStatus_frame _ _ _ _ _ _ Ep) as Hf.
  assert (Hk : key (k := KGatewayClass) gwc = req) by (exact Hkey). rewrite Hk in Hf.
  destruct e as [e|]; intros [= <- <-]; (split; [done|]); [done|]. intros _.
  pose proof (PatchStatus_done _ _ _ _ _ Ep) as Hd. rewrite Hk in Hd. rewrite (Hd Hst).
  destruct (find_merge_reports (gc_Conditions origin) (gatewayClassAcceptedCondition origin true)) as (c & Hc & Hr).
  destruct (reports_Status _ _ Hr) as (Es & _ & _ & Eg).
  do 2 eexists. split; [done|]. split; [exact Hctrl|]. split; [exact Hc|]. split; [by rewrite Es|].
  split; [by rewrite Eg|]. cbn [with_status with_gc_Status gc_SupportedFeatures gwc setGatewayClassSupportedFeatures].
  unfold getSupportedFeatures, sort_strings. split.
  - apply sort_stable_sorted; [apply str_ltb_asym|apply str_le_trans].
  - intros name. rewrite elem_of_sort_stable, list_elem_of_fmap. setoid_rewrite supported_filter. naive_solver.
Qed.

(** a GatewayClass of another controller is left alone. *)
Theorem GatewayClass_Reconcile_foreign req w w' r origin :
  cl_Get KGatewayClass req w = inl origin → gc_ControllerName origin ≠ defaultControllerName →
  Reconcile req w = Ok (w', r) → w' = w ∧ r = inl tt.
Proof.
  intros Hget Hne. unfold Reconcile, get_opt. rewrite R_bind_eq, Hget. cbv beta iota.
  case_bool_decide; [by intros [= <- <-]|]. cbn [matchesControllerName].
  rewrite (proj2 (String.eqb_neq _ _) Hne). by intros [= <- <-].
Qed.

End Reconciler.

End gatewayclass.
