(* ===== verification/IngressCell.v ===== *)
(** * Registration of the Ingress controller (src/pkg/ingress/cell.go)

    [Module ingress_cell]: the configuration of the Ingress controller, the
    reconciler that is made from it, and what is registered for the
    synchronisation of Secrets (with secretssync.go). *)

From S2P Require Import Prelude GoStrings ApiTypes IngressTranslator IngressReconcile.
Import k8s ingress_reconcile.

Module ingress_cell.

Record ingressConfig := mkIngressConfig {
  EnableIngressController : bool;
  EnforceIngressHTTPS : bool;
  EnableIngressProxyProtocol : bool;
  EnableIngressSecretsSync : bool;
  IngressSecretsNamespace : string;
  IngressLBAnnotationPrefixes : list string;
  IngressSharedLBServiceName : string;
  IngressDefaultLBMode : string;
  IngressDefaultSecretNamespace : string;
  IngressDefaultSecretName : string
}.

(** The configuration before the flags are read. *)
Definition defaultConfig : ingressConfig :=
  mkIngressConfig true true true true "dolphin-secrets"
    ["service.beta.kubernetes.io"; "service.kubernets.io"; "cloud.google.com"] "dolphin-ingress" "shared" "" "".

(** [operatorOption.IngressLBAnnotationsDefault] (src/option/config.go). *)
Definition IngressLBAnnotationsDefault : list string :=
  ["service.beta.kubernetes.io"; "service.kubernetes.io"; "cloud.google.com"].

(** The reconciler, if there is one, and the error of setting it up; the namespace
    and the idle timeout are those of the operator. *)
Definition registerReconciler (cfg : ingressConfig) (dolphinK8sNamespace : string) (proxyIdleTimeoutSeconds : Z)
    (setup : option string) : option ingressReconciler * option string :=
  if negb (EnableIngressController cfg) then (None, None)
  else
    let reconciler :=
      newIngressReconciler dolphinK8sNamespace (EnforceIngressHTTPS cfg) (EnableIngressProxyProtocol cfg)
        (IngressSecretsNamespace cfg) (IngressLBAnnotationPrefixes cfg) (IngressSharedLBServiceName cfg)
        (IngressDefaultLBMode cfg) (IngressSecretsNamespace cfg) (IngressDefaultSecretName cfg)
        proxyIdleTimeoutSeconds in
    match setup with
    | Some err => (None, Some ("failed to setup with manager " +:+ err))
    | None => (Some reconciler, None)
    end.

(** Secrets are enqueued for no Ingress and no IngressClass, and every Secret counts
    as used by an Ingress. *)
Definition EnqueueReferencedTLSSecrets (n : NamespacedName) : list NamespacedName := [].
Definition enqueueAllSecrets (n : NamespacedName) : list NamespacedName := [].
Definition IsReferencedByDolphinIngress (secret : NamespacedName) : bool := true.

Record SecretSyncRegistration := mkRegistration {
  reg_SecretsNamespace : string;
  reg_Enqueue : NamespacedName → list NamespacedName;
  reg_Check : NamespacedName → bool;
  (** The handler of IngressClasses. *)
  reg_AdditionalWatch : NamespacedName → list NamespacedName;
  reg_DefaultSecret : option NamespacedName
}.

Definition registerSecretSync (cfg : ingressConfig) : option SecretSyncRegistration :=
  if negb (EnableIngressController cfg) || negb (EnableIngressSecretsSync cfg) then None
  else Some (mkRegistration (IngressSecretsNamespace cfg) EnqueueReferencedTLSSecrets IsReferencedByDolphinIngress
         enqueueAllSecrets
         (if negb (String.eqb (IngressDefaultSecretName cfg) "") && negb (String.eqb (IngressDefaultSecretNamespace cfg) "")
          then Some (mkNamespacedName (IngressDefaultSecretNamespace cfg) (IngressDefaultSecretName cfg)) else None)).

(** The default certificate that listeners of a reconciler name. *)
Definition default_certificate (r : ingressReconciler) : NamespacedName :=
  mkNamespacedName (ingress.ro_defaultSecretNamespace (rc_options r)) (ingress.ro_defaultSecretName (rc_options r)).

(** The default certificate of TLS listeners and the default Secret that is
    synchronised come from one option each: they are the same only if the default
    Secret lives in the namespace that Secrets are copied to. *)
Theorem default_certificate_synchronised cfg ns idle r reg d :
  registerReconciler cfg ns idle None = (Some r, None) →
  registerSecretSync cfg = Some reg → reg_DefaultSecret reg = Some d →
  (default_certificate r = d ↔ IngressDefaultSecretNamespace cfg = IngressSecretsNamespace cfg).
Proof.
  unfold registerReconciler, registerSecretSync. destruct (EnableIngressController cfg); [|done]. cbn [negb orb].
  destruct (EnableIngressSecretsSync cfg); [|done]. cbn [negb]. intros [= <-] [= <-]. cbn [reg_DefaultSecret].
  destruct (_ && _); [|done]. intros [= <-]. unfold default_certificate. cbn. split; [by intros [= ->]|by intros ->].
Qed.

(** The prefixes of the operator are not those that the controller propagates. *)
Lemma prefixes_differ :
  "service.kubernetes.io" ∈ IngressLBAnnotationsDefault ∧
  "service.kubernetes.io" ∉ IngressLBAnnotationPrefixes defaultConfig.
Proof. split; [by right; left|]. cbn. rewrite !elem_of_cons, elem_of_nil. naive_solver. Qed.

Definition with_default : ingressConfig :=
  mkIngressConfig true true true true "dolphin-secrets" [] "dolphin-ingress" "shared" "certs" "tls".

Lemma default_certificate_synchronised_witness :
  ∃ r, registerReconciler with_default "dolphin" 60 None = (Some r, None) ∧
    default_certificate r ≠ mkNamespacedName "certs" "tls".
Proof.
  eexists. split; [reflexivity|]. intros E.
  apply (default_certificate_synchronised with_default "dolphin" 60 _ _ (mkNamespacedName "certs" "tls") eq_refl eq_refl eq_refl) in E.
  discriminate.
Defined.

End ingress_cell.
