(* ===== verification/IngressWatches.v ===== *)
(** * What makes the Ingress controller run (src/pkg/ingress/ingress.go)

    [Module ingress_watches]: the predicates and event handlers of the Ingress
    controller, and [requests], which Ingresses [SetupWithManager] has reconciled
    when an object changes.  The theorems compare this with what a run of
    [IngressReconcile] looks at. *)

From Stdlib Require Import Ascii.
From S2P Require Import Prelude GoStrings ApiTypes Model Envoy Translator FrontTranslators Annotations IngressIngestion.
From S2P Require Import IngressTranslator ApiServer IngressReconcile GatewayClass.
Import k8s api translation gatewayclass.

(** The group of an API version, "" for the core group. *)
Definition version_group (apiVersion : string) : string :=
  match SplitN2 apiVersion "/"%char with [group; _] => group | _ => "" end.

(** [handler.EnqueueRequestForOwner] of controller-runtime with [OnlyControllerOwner],
    which [Owns] uses: requests for the owner of an object in a namespace, if it has
    the group and the kind. *)
Class Owners := owner_requests : string → string → string → list OwnerReference → list NamespacedName.

Class OwnersLaws {owners : Owners} : Prop := {
  owner_requests_of : ∀ group kind ns refs n, n ∈ owner_requests group kind ns refs →
    ∃ ref, ref ∈ refs ∧ or_Controller ref = Some true ∧ or_Kind ref = kind ∧
      version_group (or_APIVersion ref) = group ∧ n = mkNamespacedName ns (or_Name ref)
}.

Module ingress_watches.
Import ingress_reconcile.

(** ** Predicates *)

Record matchesInstancePredicate := mkMatchesInstance { mip_namespace : string; mip_name : string }.

Definition matches_instance (r : matchesInstancePredicate) (e : Event NamespacedName) : bool :=
  let here n := String.eqb (nn_Namespace n) (mip_namespace r) && String.eqb (nn_Name n) (mip_name r) in
  match e with
  | Create o | Delete o | Generic o => here o
  | Update _ new => here new
  end.

Definition forSharedLBService (r : ingressReconciler) : matchesInstancePredicate :=
  mkMatchesInstance (rc_dolphinNamespace r) (rc_sharedLBServiceName r).
Definition forShaedDolphinEnvoyConfig (r : ingressReconciler) : matchesInstancePredicate :=
  mkMatchesInstance (rc_dolphinNamespace r) (rc_sharedLBServiceName r).
Definition forDolphinIngressClass : matchesInstancePredicate := mkMatchesInstance "" dolphinIngressClassName.

(** A value that does not parse counts as "not the default". *)
Definition default_marked (cls : IngressClassObject) : bool := default false (isIngressClassMarkedAsDefault cls).

Definition withDefaultIngressClassAnnotation (e : Event IngressClassObject) : bool :=
  match e with
  | Create o | Delete o | Generic o => default_marked o
  | Update old new =>
      (default_marked old || default_marked new) && negb (Bool.eqb (default_marked old) (default_marked new))
  end.

Section Watches.
Context {client : Client} {ann : Annotation} {owners : Owners} (r : ingressReconciler).

(** The test of an Ingress leaves the world alone and gives no error. *)
Definition managed (w : World) (ing : IngressObject) : go bool :=
  match isdolphinManagedIngress ing w with
  | Ok (_, inl b) => Ok b
  | Ok (_, inr _) => Ok false
  | Panic p => Panic p
  end.

Definition forDolphinManagedIngress (w : World) (e : Event IngressObject) : go bool :=
  match e with
  | Create o | Delete o | Generic o => managed w o
  | Update old new => b ← managed w old; if (b : bool) then Ok true else managed w new
  end.

(** ** Event handlers *)

Definition enqueSharedDolphinIngress (w : World) : go (list NamespacedName) :=
  match cl_List KIngress (λ _, true) w with
  | inr _ => Ok []
  | inl l => go_flat_map (λ ing,
      b ← managed w ing;
      Ok (if negb b then [] else if isEffectiveLoadbalancerModeDedicated r ing then []
          else [ingressKey (io_ing ing)])) l
  end.

Definition enqueueIngressesWithoutExplicitClass (w : World) : list NamespacedName :=
  match cl_List KIngress (λ _, true) w with
  | inr _ => []
  | inl l => (λ ing, ingressKey (io_ing ing)) <$> List.filter (λ ing, bool_decide (io_ClassName ing = None)) l
  end.

Definition enqPsedoIngress : list NamespacedName := [mkNamespacedName (rc_dolphinNamespace r) "pseudo-ingress"].

(** ** SetupWithManager *)

(** What changed; an owned object comes with its name and owners. *)
Inductive Changed :=
| ChangedIngress (e : Event IngressObject)
| ChangedService (e : Event NamespacedName) (refs : list OwnerReference)
| ChangedEndpoints (e : Event NamespacedName) (refs : list OwnerReference)
| ChangedDEC (e : Event NamespacedName) (refs : list OwnerReference)
| ChangedIngressClass (e : Event IngressClassObject).

Definition event_object {A} (e : Event A) : A :=
  match e with Create o | Delete o | Generic o | Update _ o => o end.

Definition event_map {A B} (f : A → B) (e : Event A) : Event B :=
  match e with
  | Create o => Create (f o) | Delete o => Delete (f o) | Generic o => Generic (f o)
  | Update old new => Update (f old) (f new)
  end.

Definition owned (e : Event NamespacedName) (refs : list OwnerReference) : list NamespacedName :=
  owner_requests "networking.k8s.io" "Ingress" (nn_Namespace (event_object e)) refs.

Definition classKey (cls : IngressClassObject) : NamespacedName := mkNamespacedName "" (ico_Name cls).

Definition requests (w : World) (c : Changed) : go (list NamespacedName) :=
  match c with
  | ChangedIngress e =>
      b ← forDolphinManagedIngress w e;
      Ok (if (b : bool) then [ingressKey (io_ing (event_object e))] else [])
  | ChangedService e refs =>
      shared ← (if matches_instance (forSharedLBService r) e then enqueSharedDolphinIngress w else Ok []);
      Ok (owned e refs ++ shared)
  | ChangedEndpoints e refs => Ok (owned e refs)
  | ChangedDEC e refs =>
      Ok (owned e refs ++ if matches_instance (forShaedDolphinEnvoyConfig r) e then enqPsedoIngress else [])
  | ChangedIngressClass e =>
      Ok (if matches_instance forDolphinIngressClass (event_map classKey e) && withDefaultIngressClassAnnotation e
          then enqueueIngressesWithoutExplicitClass w else [])
  end.

(** ** Which changes are seen *)

Context {laws : ClientLaws}.

(** The Ingresses that share the load balancer. *)
Definition shares (w : World) (n : NamespacedName) : Prop :=
  ∃ ing, stored KIngress w n = Some ing ∧ managed w ing = Ok true ∧
    isEffectiveLoadbalancerModeDedicated r ing = false.

Lemma managed_returns w ing : is_Some (ingressClassName ing) → returns (managed w ing).
Proof using Type.
  intros Hc. destruct (safe_managed (λ _, True) ing Hc w I) as (w' & res & E & _). unfold managed. rewrite E.
  destruct res; by eexists.
Qed.

Lemma enqueShared_spec w l reqs :
  cl_List KIngress (λ _, true) w = inl l → enqueSharedDolphinIngress w = Ok reqs → ∀ n, n ∈ reqs ↔ shares w n.
Proof using laws.
  intros Hl. unfold enqueSharedDolphinIngress. rewrite Hl. intros E n.
  rewrite (elem_of_go_flat_map _ _ _ n E). unfold shares. split.
  - intros (ing & zs & Hin & Hz & Hn). apply (List_spec KIngress _ _ _ ing Hl) in Hin as [Hs _].
    destruct (managed w ing) as [b|] eqn:Eb; [|done]. cbn in Hz. injection Hz as <-.
    destruct b; cbn [negb] in Hn; [|by apply elem_of_nil in Hn].
    destruct (isEffectiveLoadbalancerModeDedicated r ing) eqn:Ed; [by apply elem_of_nil in Hn|].
    apply list_elem_of_singleton in Hn as ->. by exists ing.
  - intros (ing & Hs & Eb & Ed). pose proof (stored_key KIngress _ _ _ Hs) as Hk.
    exists ing, [n]. rewrite Eb. cbn. rewrite Ed. split_and!; [|by rewrite <-Hk|by left].
    apply (List_spec KIngress _ _ _ ing Hl). by rewrite Hk.
Qed.

(** a change of the Service of the shared load balancer reconciles exactly the
    managed Ingresses that share it, in a world in which all Ingresses name a
    class: then the handler does not panic. *)
Theorem shared_service_watch w l e refs :
  cl_List KIngress (λ _, true) w = inl l → (∀ ing, ing ∈ l → is_Some (ingressClassName ing)) →
  matches_instance (forSharedLBService r) e = true → owned e refs = [] →
  ∃ reqs, requests w (ChangedService e refs) = Ok reqs ∧ ∀ n, n ∈ reqs ↔ shares w n.
Proof using laws.
  intros Hl Hc Hm Ho. cbn. rewrite Hm, Ho.
  assert (Hr : returns (enqueSharedDolphinIngress w)).
  { unfold enqueSharedDolphinIngress. rewrite Hl. apply go_flat_map_returns, Forall_forall. intros ing Hin.
    destruct (managed_returns w ing (Hc ing Hin)) as [b ->]. by eexists. }
  destruct Hr as [reqs E]. rewrite E. cbn. exists reqs. split; [done|]. by eapply enqueShared_spec.
Qed.

(** The Service and the Endpoints of a dedicated Ingress name their owner with the
    core group, so the controller, which owns Services of Ingresses of
    networking.k8s.io, is not called when they change or are deleted. *)
Theorem owned_service_ignored {olaws : OwnersLaws} resource service e :
  owned e (fs_OwnerReferences (ingress.getDedicatedService resource service)) = [] ∧
  owned e (fe_OwnerReferences (ingress.getDedicatedEndpoints resource)) = [].
Proof using Type.
  assert (H : owned e [ingress.ingressOwner resource] = []).
  { unfold owned. destruct (owner_requests _ _ _ _) as [|n l] eqn:E; [done|].
    destruct (owner_requests_of "networking.k8s.io" "Ingress" (nn_Namespace (event_object e))
      [ingress.ingressOwner resource] n) as (ref & Hr & _ & _ & Hg & _); [rewrite E; by left|].
    apply list_elem_of_singleton in Hr as ->. done. }
  split; [|exact H]. unfold ingress.getDedicatedService. by destruct (ingress.serviceExposure service) as [[? ?] ?].
Qed.

(** The watch of the IngressClass is there for Ingresses without a class, once
    dolphin becomes or stops being the default: it enqueues exactly those, and the
    run for one of them panics, unless it is being deleted or has the annotation. *)
Theorem default_class_watch_panics {infra : Infra} {pb : Proto} {range : MapRange} hops label w l old new :
  cl_List KIngress (λ _, true) w = inl l → classKey new = mkNamespacedName "" dolphinIngressClassName →
  default_marked old ≠ default_marked new →
  ∃ reqs, requests w (ChangedIngressClass (Update old new)) = Ok reqs ∧
    (∀ n, n ∈ reqs ↔ ∃ ing, stored KIngress w n = Some ing ∧ io_ClassName ing = None) ∧
    ∀ n ing, cl_Get KIngress n w = inl ing → ingressClassName ing = None → io_Deleted ing = false →
      Reconcile hops label r n w = Panic NilDeref.
Proof using laws.
  intros Hl Hk Hd. cbn [requests event_map matches_instance]. rewrite Hk. cbn [nn_Namespace nn_Name mip_namespace mip_name forDolphinIngressClass].
  rewrite !String.eqb_refl. cbn [andb]. unfold withDefaultIngressClassAnnotation.
  replace ((default_marked old || default_marked new) && negb (Bool.eqb (default_marked old) (default_marked new)))
    with true by (destruct (default_marked old), (default_marked new); done).
  eexists. split; [done|]. split.
  - intros n. unfold enqueueIngressesWithoutExplicitClass. rewrite Hl, list_elem_of_fmap. split.
    + intros (ing & -> & [Hin Hc]%list_elem_of_In%filter_In). apply list_elem_of_In in Hin.
      apply (List_spec KIngress _ _ _ ing Hl) in Hin as [Hs _]. exists ing. split; [done|]. by apply bool_decide_eq_true in Hc.
    + intros (ing & Hs & Hc). pose proof (stored_key KIngress _ _ _ Hs) as Hkey. exists ing. split; [by rewrite <-Hkey|].
      apply list_elem_of_In, filter_In. split; [|by apply bool_decide_eq_true].
      apply list_elem_of_In, (List_spec KIngress _ _ _ ing Hl). by rewrite Hkey.
  - intros n ing Hget Hcls Hdel. unfold Reconcile. rewrite R_bind_eq. unfold get_opt. rewrite Hget, Hdel.
    unfold isdolphinManagedIngress. by rewrite Hcls, !R_bind_eq.
Qed.

End Watches.

(** ** An example *)

#[local] Instance reference_owners : Owners := λ group kind ns refs,
  (λ ref, mkNamespacedName ns (or_Name ref)) <$>
  List.filter (λ ref, bool_decide (or_Controller ref = Some true) && String.eqb (or_Kind ref) kind &&
                      String.eqb (version_group (or_APIVersion ref)) group) refs.

#[local] Instance reference_owners_laws : OwnersLaws.
Proof.
  split. intros group kind ns refs n (ref & -> & [Hin Hf]%list_elem_of_In%filter_In)%list_elem_of_fmap.
  apply andb_true_iff in Hf as [[Hc Hk]%andb_true_iff Hg]. exists ref.
  split_and!; [by apply list_elem_of_In|by apply bool_decide_eq_true in Hc|by apply String.eqb_eq..|done].
Qed.

Definition sharing : ingressReconciler :=
  newIngressReconciler "dolphin" true false "secrets" [] "shared" "shared" "" "" 60.

Definition shared_world : RefWorld := [AnyObject KIngress (ex_object (Some "dolphin"))].

Definition shared_event : Event NamespacedName := Create (mkNamespacedName "dolphin" "shared").

(** The shared Service has changed: the Ingress is reconciled. *)
Lemma shared_service_watch_witness :
  ∃ reqs, @requests reference_client reference_annotation reference_owners sharing shared_world
            (ChangedService shared_event []) = Ok reqs ∧
    ∀ n, n ∈ reqs ↔ @shares reference_client reference_annotation sharing shared_world n.
Proof.
  apply (@shared_service_watch reference_client reference_annotation reference_owners sharing reference_client_laws
    shared_world [ex_object (Some "dolphin")] shared_event []).
  - reflexivity.
  - intros ing H. apply list_elem_of_singleton in H as ->. by eexists.
  - reflexivity.
  - reflexivity.
Defined.

Lemma shared_reconciled :
  @requests reference_client reference_annotation reference_owners sharing shared_world
    (ChangedService shared_event []) = Ok [ex_req].
Proof. reflexivity. Qed.

Lemma owned_service_ignored_witness :
  @owned reference_owners shared_event
    (fs_OwnerReferences (ingress.getDedicatedService (model.mkFQR "web" "default" "" "v1" "Ingress" "1") None)) = [].
Proof.
  exact (proj1 (@owned_service_ignored reference_owners reference_owners_laws
    (model.mkFQR "web" "default" "" "v1" "Ingress" "1") None shared_event)).
Defined.

Definition plain_class : IngressClassObject := mkIngressClassObject dolphinIngressClassName ∅.
Definition default_class : IngressClassObject :=
  mkIngressClassObject dolphinIngressClassName {[ AnnotationIsDefaultIngressClass := "true" ]}.

Definition classless_world : RefWorld := [AnyObject KIngress (ex_object None)].

Lemma default_class_watch_panics_witness :
  @Reconcile reference_client reference_infra reference_proto forward_range reference_annotation 0 "label" sharing ex_req
    classless_world = Panic NilDeref.
Proof.
  destruct (@default_class_watch_panics reference_client reference_annotation reference_owners sharing
    reference_client_laws reference_infra reference_proto forward_range 0 "label" classless_world [ex_object None]
    plain_class default_class) as (reqs & _ & _ & H).
  - reflexivity.
  - reflexivity.
  - discriminate.
  - apply (H ex_req (ex_object None)); reflexivity.
Defined.

End ingress_watches.
