(* ===== verification/Watches.v ===== *)
(** * Indexes and watches of the Gateway API controllers

    Which objects are put on the queue when another object changes.
    [Module indexers]: src/pkg/gateway_api/indexers, with the index functions of
    tlsroute.go and grpcroute.go, and which of them the controllers register under
    which name.  [Module watch_handlers]: src/pkg/gateway_api/watch-handlers and
    the predicates.  [Module gateway_watches]: the handlers of gateway.go,
    controller.go and secretsync.go.  [Module route_watches]: those of tlsroute.go
    and grpcroute.go.

    A list by an index evaluates the index functions on the stored objects; the
    cache of the client may lag behind that.  An index that is not registered is
    an error.  A set of requests is a [gset]: Go returns its elements in some
    order. *)

From S2P Require Import Prelude GoStrings ApiTypes Model Hostnames Helpers Translator FrontTranslators ApiServer Status RouteChecker GatewayListeners GatewayClass.
From Stdlib Require Import Ascii.
Import k8s gatewayv1 api types namespaces gateway_helpers gateway_listeners.

(** The constants of github.com/ccfish2/infra that name the kinds of
    DolphinEnvoyConfigs, which the index of GatewayClasses looks for. *)
Class EnvoyConfigNames := { DECGroup : string; DECKindDefinition : string }.

Module indexers.

(** *** By parent *)

Definition parent_name (ns : string) (parent : ParentReference) : NamespacedName :=
  mkNamespacedName (NamespaceDerefOr (pr_Namespace parent) ns) (pr_Name parent).

(** The loop that the index functions by parent share. *)
Definition index_parents {Rule} (wanted : ParentReference → bool) (r : Route Rule) : list string :=
  (λ parent, nn_String (parent_name (om_Namespace (rt_meta r)) parent)) <$>
    List.filter wanted (rt_ParentRefs r).

Definition IndexHTTPRouteByGateway (r : HTTPRoute) : list string := index_parents IsGateway r.
Definition IndexGRPCRouteByGateway (r : GRPCRoute) : list string := index_parents IsGateway r.
Definition IndexTLSRouteByGateway (r : TLSRoute) : list string := index_parents IsGateway r.
Definition IndexGRPCRouteByGammaService (r : GRPCRoute) : list string := index_parents IsGammaService r.
Definition IndexHTTPRouteByListenerSet (r : HTTPRoute) : list string := index_parents IsListenerSet r.
Definition getParentGatewayForGRPCRoute (r : GRPCRoute) : list string := index_parents IsGateway r.

Definition IndexListenerSetByGateway (ls : ListenerSet) : list string :=
  let gwNamespace := default (om_Namespace (lst_meta ls)) (pgr_Namespace (lst_ParentRef ls)) in
  [nn_String (mkNamespacedName gwNamespace (pgr_Name (lst_ParentRef ls)))].

(** *** By backend *)

Definition backend_name (ns : string) (be : BackendObjectReference) (name : string) : string :=
  nn_String (mkNamespacedName (NamespaceDerefOr (bor_Namespace be) ns) name).

(** The loops over the backends that are of some type. *)
Definition index_backends (wanted : BackendObjectReference → bool) (ns : string)
    (backends : list BackendObjectReference) : list string :=
  (λ be, backend_name ns be (bor_Name be)) <$> List.filter wanted backends.

Definition http_backends (r : HTTPRoute) : list BackendObjectReference :=
  rt_Rules r ≫= λ rule, (λ b, br_ref (hbr_BackendRef b)) <$> hrr_BackendRefs rule.
Definition grpc_backends (r : GRPCRoute) : list BackendObjectReference :=
  rt_Rules r ≫= λ rule, br_ref <$> grr_BackendRefs rule.
Definition tls_backends (r : TLSRoute) : list BackendObjectReference :=
  rt_Rules r ≫= λ rule, br_ref <$> l4_BackendRefs rule.

Definition IndexHTTPRouteByBackendServiceImport (r : HTTPRoute) : list string :=
  index_backends IsServiceImport (om_Namespace (rt_meta r)) (http_backends r).
Definition getBackendServiceImportForGRPCRoute (r : GRPCRoute) : list string :=
  index_backends IsServiceImport (om_Namespace (rt_meta r)) (grpc_backends r).
Definition getBackendServiceForGRPCRoute_plain (r : GRPCRoute) : list string :=
  index_backends IsService (om_Namespace (rt_meta r)) (grpc_backends r).
Definition tls_backendServiceIndex (r : TLSRoute) : list string :=
  index_backends IsService (om_Namespace (rt_meta r)) (tls_backends r).
Definition tls_backendServiceImportIndex (r : TLSRoute) : list string :=
  index_backends IsServiceImport (om_Namespace (rt_meta r)) (tls_backends r).
Definition tls_gatewayIndex (r : TLSRoute) : list string := index_parents IsGateway r.

Section World.
Context {client : Client} {errors : ApiErrorText} {scheme : Scheme} {names : EnvoyConfigNames}.

Definition getServiceImport (w : World) (n : NamespacedName) : ServiceImport + string :=
  match cl_Get KServiceImport n w with
  | inl i => inl i
  | inr e => inr (ErrorText KServiceImport n e)
  end.

(** The loop over the backends: one whose Service cannot be told is left out. *)
Definition index_services (w : World) (ns : string) (backends : list BackendObjectReference) : go (list string) :=
  go_flat_map (λ be,
    name ← GetBackendServiceName DerivedServiceAnnotation HasServiceImportSupport (getServiceImport w)
             (NamespaceDerefOr (bor_Namespace be) ns) be;
    Ok (match name with inl name => [backend_name ns be name] | inr _ => [] end)) backends.

Definition GenerateIndexerHTTPRouteByBackendService (w : World) (r : HTTPRoute) : go (list string) :=
  index_services w (om_Namespace (rt_meta r)) (http_backends r).
Definition GenerateIndexerGRPCRoutebyBackendService (w : World) (r : GRPCRoute) : go (list string) :=
  index_services w (om_Namespace (rt_meta r)) (grpc_backends r).
Definition GenerateIndexerTLSRoutebyBackendService (w : World) (r : TLSRoute) : go (list string) :=
  index_services w (om_Namespace (rt_meta r)) (tls_backends r).
Definition getBackendServiceForGRPCRoute (w : World) (r : GRPCRoute) : go (list string) :=
  index_services w (om_Namespace (rt_meta r)) (grpc_backends r).

(** *** Gateways and GatewayClasses *)

Definition GenerateIndexerGatewayByImplementation (controllerName : string) (w : World) (gw : Gateway) : list string :=
  match cl_Get KGatewayClass (mkNamespacedName "" (gw_GatewayClassName gw)) w with
  | inr _ => []
  | inl gwc => if String.eqb (gc_ControllerName gwc) controllerName then ["dolphin"] else []
  end.

Definition IndexGatewayClassByDolphinGatewayClassConfig (controllerName : string) (gwc : GatewayClass) : list string :=
  if negb (String.eqb (gc_ControllerName gwc) controllerName) then []
  else match gc_ParametersRef gwc with
  | None => []
  | Some ref =>
      if negb (String.eqb (pref_Group ref) DECGroup) || negb (String.eqb (pref_Kind ref) DECKindDefinition) then []
      else match pref_Namespace ref with
           | None => []
           | Some ns => [nn_String (mkNamespacedName ns (pref_Name ref))]
           end
  end.

(** ** Registration *)

(** Which optional kinds the controllers were set up with. *)
Record Setup := mkSetup { su_tlsRoute : bool; su_serviceImport : bool; su_listenerSet : bool }.

Definition backendServiceIndex : string := "backendServiceIndex".
Definition gatewayIndex : string := "gatewayIndex".
Definition backendServiceImportIndex : string := "backendServiceImportIndex".
Definition backendServiceHTTPRouteIndex : string := "backendServiceHTTPRouteIndex".
Definition backendServiceImportHTTPRouteIndex : string := "backendServiceImportHTTPRouteIndex".
Definition gatewayHTTPRouteIndex : string := "gatewayHTTPRouteIndex".
Definition implementationGatewayIndex : string := "implementationGatewayIndex".
Definition backendServiceTLSRouteIndex : string := "backendServiceTLSRouteIndex".
Definition gatewayTLSRouteIndex : string := "gatewayTLSRouteIndex".
Definition backendServiceGRPCRouteIndex : string := "backendServiceGRPCRouteIndex".
Definition gatewayGRPCRouteIndex : string := "gatewayGRPCRouteIndex".
(** indexnames.go; this one differs from the constant above in its first letter. *)
Definition BackendServiceHTTPRouteIndex : string := "BackendServiceHTTPRouteIndex".
Definition ImplementationGatewayIndex : string := "implementationGatewayIndex".
Definition ListenerSetGatewayIndex : string := "listenerSetGatewayIndex".
Definition HTTPRouteListenerSetIndex : string := "listenerSetHTTPRouteIndex".
Definition GatewayClassDolphinGatewayClassConfigsIndex : string := "gatewayClassDolphinGatewayClassConfigsIndex".
Definition BackendTLSPolicyConfigMapIndex : string := "backendTLSPolicyConfigMaps".

(** The indexes of a kind: [SetupWithManager] of the controllers. *)
Definition registered (su : Setup) (k : Kind) : list (string * (World → object k → go (list string))) :=
  match k with
  | KHTTPRoute =>
      [(backendServiceHTTPRouteIndex, GenerateIndexerHTTPRouteByBackendService);
       (gatewayHTTPRouteIndex, λ _ r, Ok (IndexHTTPRouteByGateway r));
       (HTTPRouteListenerSetIndex, λ _ r, Ok (IndexHTTPRouteByListenerSet r))] ++
      (if su_serviceImport su
       then [(backendServiceImportHTTPRouteIndex, λ _ r, Ok (IndexHTTPRouteByBackendServiceImport r))] else [])
  | KGateway =>
      [(implementationGatewayIndex, λ w gw, Ok (GenerateIndexerGatewayByImplementation defaultControllerName w gw))]
  | KTLSRoute =>
      (if su_tlsRoute su
       then [(backendServiceTLSRouteIndex, GenerateIndexerTLSRoutebyBackendService);
             (gatewayTLSRouteIndex, λ _ r, Ok (IndexTLSRouteByGateway r))] else []) ++
      [(backendServiceIndex, λ _ r, Ok (tls_backendServiceIndex r));
       (backendServiceImportIndex, λ _ r, Ok (tls_backendServiceImportIndex r));
       (gatewayIndex, λ _ r, Ok (tls_gatewayIndex r))]
  | KGRPCRoute =>
      [(backendServiceGRPCRouteIndex, GenerateIndexerGRPCRoutebyBackendService);
       (gatewayGRPCRouteIndex, λ _ r, Ok (IndexGRPCRouteByGateway r));
       (backendServiceImportIndex, λ _ r, Ok (getBackendServiceImportForGRPCRoute r));
       (backendServiceIndex, getBackendServiceForGRPCRoute);
       (gatewayIndex, λ _ r, Ok (getParentGatewayForGRPCRoute r))]
  | KListenerSet =>
      (if su_listenerSet su then [(ListenerSetGatewayIndex, λ _ ls, Ok (IndexListenerSetByGateway ls))] else [])
  | KGatewayClass =>
      [(GatewayClassDolphinGatewayClassConfigsIndex,
        λ _ gwc, Ok (IndexGatewayClassByDolphinGatewayClassConfig defaultControllerName gwc))]
  | _ => []
  end.

(** [List] with [fields.OneTermEqualSelector]. *)
Definition list_index (su : Setup) (k : Kind) (index value : string) (w : World) : go (list (object k) + ApiError) :=
  match List.find (λ e, String.eqb e.1 index) (registered su k) with
  | None => Ok (inr (OtherError ("Index with name " +:+ index +:+ " does not exist")))
  | Some (_, f) =>
      match cl_List k (λ _, true) w with
      | inr e => Ok (inr e)
      | inl l => items ← go_filter (λ o, keys ← f w o; Ok (bool_decide (value ∈ keys))) l; Ok (inl items)
      end
  end.

End World.

End indexers.

(** A set of reconcile requests. *)
Abbreviation Requests := (gset NamespacedName).

Module watch_handlers.
Import indexers.

(** predicates/gateway.go *)
Definition GatewayOwnedByController (hasMatchingControllerFn : Gateway → bool) (e : gatewayclass.Event Gateway) : bool :=
  match e with
  | gatewayclass.Create o | gatewayclass.Delete o | gatewayclass.Generic o => hasMatchingControllerFn o
  | gatewayclass.Update old new => hasMatchingControllerFn old || hasMatchingControllerFn new
  end.

Section Handlers.
Context {client : Client} {errors : ApiErrorText} {scheme : Scheme} {names : EnvoyConfigNames} (su : Setup).

Definition full_names (gws : list Gateway) : gset string :=
  list_to_set ((λ gw, nn_String (ObjectKey (gw_meta gw))) <$> gws).

Definition hasMatchingController (controllerName : string) (w : World) (gw : Gateway) : bool :=
  match cl_Get KGatewayClass (mkNamespacedName "" (gw_GatewayClassName gw)) w with
  | inr _ => false
  | inl gwc => String.eqb (gc_ControllerName gwc) controllerName
  end.

Definition resolve (w : World) (lsName lsNamespace : string) : option NamespacedName :=
  listenerset.ResolveListenerSetToGateway
    (λ n, match cl_Get KListenerSet n w with inl ls => Some ls | inr _ => None end) lsName lsNamespace.

Definition updateReconcileRequestsForParentRefs (w : World) (parentRefs : list ParentReference) (ns : string)
    (allGatewaysSet : gset string) (rrSet : Requests) : Requests :=
  foldl (λ rrSet parent,
    if IsGateway parent then
      let parentFullName := parent_name ns parent in
      if bool_decide (nn_String parentFullName ∈ allGatewaysSet) then {[ parentFullName ]} ∪ rrSet else rrSet
    else if IsListenerSet parent then
      match resolve w (pr_Name parent) (NamespaceDerefOr (pr_Namespace parent) ns) with
      | Some gwNN => if bool_decide (nn_String gwNN ∈ allGatewaysSet) then {[ gwNN ]} ∪ rrSet else rrSet
      | None => rrSet
      end
    else rrSet) rrSet parentRefs.

(** The controller name is looked up as a value of the index. *)
Definition getAllGatewaysSetForController (controllerName : string) (w : World) : go (gset string + ApiError) :=
  gws ← list_index su KGateway ImplementationGatewayIndex controllerName w;
  Ok (match gws with inl gws => inl (full_names gws) | inr e => inr e end).

(** A Gateway that cannot be fetched is the empty one, whose class has no name. *)
Definition empty_gateway : Gateway :=
  mkGateway (mkObjectMeta "" "" "" 0 ∅ ∅ 0 None) (mkGVK "" "" "") "" [] None None (mkGatewayStatus [] [] [] None).

Definition getGatewayReconcileRequestsForRoute {Rule} (controllerName : string) (w : World) (r : Route Rule)
  : list NamespacedName :=
  omap (λ parent,
    let gwNN :=
      if IsGateway parent then Some (parent_name (om_Namespace (rt_meta r)) parent)
      else if IsListenerSet parent then resolve w (pr_Name parent) "ListenerSet"
      else None in
    match gwNN with
    | None => None
    | Some gwNN =>
        let gw := match cl_Get KGateway gwNN w with inl gw => gw | inr _ => empty_gateway end in
        if negb (hasMatchingController controllerName w gw) then None else Some gwNN
    end) (rt_ParentRefs r).

Definition EnqueueRequestForOwningHTTPRoute (controllerName : string) (w : World) (r : HTTPRoute) : list NamespacedName :=
  getGatewayReconcileRequestsForRoute controllerName w r.
Definition EnqueueRequestForOwningTCPRoute (controllerName : string) (w : World) (r : TCPRoute) : list NamespacedName :=
  getGatewayReconcileRequestsForRoute controllerName w r.
Definition EnqueueRequestForOwningUDPRoute (controllerName : string) (w : World) (r : UDPRoute) : list NamespacedName :=
  getGatewayReconcileRequestsForRoute controllerName w r.

(** The routes that are listed are not kept. *)
Definition updateReconcileRequestsForBackendTLSPolicy (w : World) (allGatewaySet : gset string) (rrSet : Requests)
    (btlsp : BackendTLSPolicy) (ns : string) : go Requests :=
  let serviceRefs := (λ t, ns +:+ "/" +:+ ptr_Name t) <$> List.filter IsServiceTargetRef (btp_TargetRefs btlsp) in
  let httpRoutes : list HTTPRoute := [] in
  ok ← go_foldl (λ ok svcName,
         if ok : bool then
           hrList ← list_index su KHTTPRoute BackendServiceHTTPRouteIndex svcName w;
           Ok (match hrList with inl _ => true | inr _ => false end)
         else Ok false) true serviceRefs;
  Ok (if ok : bool
      then foldl (λ rr hr, updateReconcileRequestsForParentRefs w (rt_ParentRefs hr) (om_Namespace (rt_meta hr))
                             allGatewaySet rr) rrSet httpRoutes
      else rrSet).

Definition EnqueueRequestForBackendTLSPolicy (controllerName : string) (w : World) (btlsp : BackendTLSPolicy)
  : go Requests :=
  allGatewaysSet ← getAllGatewaysSetForController controllerName w;
  match allGatewaysSet with
  | inr _ => Ok ∅
  | inl all => updateReconcileRequestsForBackendTLSPolicy w all ∅ btlsp (om_Namespace (btp_meta btlsp))
  end.

Definition EnqueueRequestForOwningGatewayClass (w : World) (name : string) : list NamespacedName :=
  match cl_List KGateway (λ _, true) w with
  | inr _ => []
  | inl gws => (λ gw, ObjectKey (gw_meta gw)) <$>
                 List.filter (λ gw, String.eqb (gw_GatewayClassName gw) name) gws
  end.

Definition enqueueGatewayClassFromIndex (index : string) (w : World) (o : NamespacedName) : go (list NamespacedName) :=
  l ← list_index su KGatewayClass index (nn_String o) w;
  Ok (match l with
      | inr _ => []
      | inl l => (λ gwc, ObjectKey (gc_meta gwc)) <$> l
      end).

Definition EnqueueRequestForDolphinGatewayClassConfig : World → NamespacedName → go (list NamespacedName) :=
  enqueueGatewayClassFromIndex GatewayClassDolphinGatewayClassConfigsIndex.

End Handlers.

End watch_handlers.

Module gateway_watches.
Import indexers watch_handlers.

Section Handlers.
Context {client : Client} {errors : ApiErrorText} {scheme : Scheme} {names : EnvoyConfigNames}
  {range : MapRange} (su : Setup).

(** ** controller.go *)

Definition getGatewaysForSecret (w : World) (obj : NamespacedName) : list Gateway :=
  match cl_List KGateway (λ _, true) w with
  | inr _ => []
  | inl gws =>
      gws ≫= λ gw, gw_Listeners gw ≫= λ l,
        match l_TLS l with
        | None => []
        | Some tls =>
            (λ _, gw) <$> List.filter (λ cert,
              IsSecret cert && String.eqb (sor_Name cert) (nn_Name obj) &&
              String.eqb (NamespaceDerefOr (sor_Namespace cert) (om_Namespace (gw_meta gw))) (nn_Namespace obj))
              (tls_CertificateRefs tls)
        end
  end.

(** The requests of one listener; [inr] if the namespaces cannot be listed.  A
    policy without [from], or a Selector policy without a selector, is a nil
    dereference.  [MatchingLabels] compares the labels of the selector only. *)
Definition namespace_listener (w : World) (gw : Gateway) (ns : string) (listener : Listener)
  : go (list NamespacedName + ApiError) :=
  match l_AllowedRoutes listener ≫= ar_Namespaces with
  | None => Ok (inl [])
  | Some policy =>
      from ← deref (rn_From policy);
      if String.eqb from NamespacesFromAll then Ok (inl [ObjectKey (gw_meta gw)])
      else if String.eqb from NamespacesFromSame
      then Ok (inl (if String.eqb (om_Namespace (gw_meta gw)) ns then [ObjectKey (gw_meta gw)] else []))
      else if String.eqb from NamespacesFromSelector then
        selector ← deref (rn_Selector policy);
        Ok (match cl_List KNamespace (λ n, bool_decide (sel_MatchLabels selector ⊆ om_Labels (ns_meta n))) w with
            | inr e => inr e
            | inl nsList =>
                inl ((λ n, ObjectKey (ns_meta n)) <$> List.filter (λ n, String.eqb (om_Name (ns_meta n)) ns) nsList)
            end)
      else Ok (inl [])
  end.

Definition getGatewaysForNamespace (w : World) (ns : string) : go (list NamespacedName) :=
  match cl_List KGateway (λ _, true) w with
  | inr _ => Ok []
  | inl gws =>
      r ← go_foldl (λ acc '(gw, l),
            match acc with
            | None => Ok None
            | Some acc =>
                r ← namespace_listener w gw ns l;
                Ok (match r with inl reqs => Some (acc ++ reqs) | inr _ => None end)
            end) (Some []) (gws ≫= λ gw, (λ l, (gw, l)) <$> gw_Listeners gw);
      Ok (default [] r)
  end.

(** [onlyStatusChanged], for the types it looks at; the statuses of other objects
    never count. *)
Definition status_changed {S} `{!cmp.Untimed S} (old new : S) : bool := negb (cmp.Equal old new).

(** ** gateway.go *)

Definition usedInGateway (w : World) (obj : NamespacedName) : bool :=
  negb (Nat.eqb (length (getGatewaysForSecret w obj)) 0).

Definition enqueueRequestForTLSSecret (w : World) (obj : NamespacedName) : list NamespacedName :=
  (λ gw, ObjectKey (gw_meta gw)) <$> getGatewaysForSecret w obj.

Definition enqueueRequestForAllowedNamespace (w : World) (ns : string) : go (list NamespacedName) :=
  getGatewaysForNamespace w ns.

Definition enqueueAll (w : World) : list NamespacedName :=
  match cl_List KGateway (λ _, true) w with
  | inr _ => []
  | inl gws => (λ gw, ObjectKey (gw_meta gw)) <$> gws
  end.

Definition enqueueRequestForReferenceGrant (w : World) : list NamespacedName := enqueueAll w.

Definition enqueueRequestForOwningResource (meta : ObjectMeta) : list NamespacedName :=
  match om_Labels meta !! gateway_api.owningGatewayLabel with
  | None => []
  | Some key => [mkNamespacedName (om_Namespace meta) key]
  end.

(** [getGatewayReconcileRequestsForRoute] and [getReconcileRequestsForRoute] have
    the same body, up to logging. *)
Definition getGatewayReconcileRequestsForRoute {Rule} (w : World) (r : Route Rule) : list NamespacedName :=
  omap (λ parent,
    if negb (IsGateway parent) then None
    else
      let n := parent_name (om_Namespace (rt_meta r)) parent in
      match cl_Get KGateway n w with
      | inr _ => None
      | inl gw => if negb (hasMatchingController defaultControllerName w gw) then None else Some n
      end) (rt_ParentRefs r).

Definition getReconcileRequestsForRoute {Rule} (w : World) (r : Route Rule) : list NamespacedName :=
  getGatewayReconcileRequestsForRoute w r.
Definition enqueueRequestForOwningTLSRoute (w : World) (r : TLSRoute) : list NamespacedName :=
  getGatewayReconcileRequestsForRoute w r.
Definition enqueueRequestForOwningGRPCRoute (w : World) (r : GRPCRoute) : list NamespacedName :=
  getGatewayReconcileRequestsForRoute w r.
Definition enqueueRequestForOwningHTTPRoute (w : World) (r : HTTPRoute) : list NamespacedName :=
  getReconcileRequestsForRoute w r.

Definition updateReconcileRequestsForParentRefs (parentRefs : list ParentReference) (ns : string)
    (allGatewaysSet : gset string) (rrSet : Requests) : Requests :=
  foldl (λ rrSet parent,
    if negb (IsGateway parent) then rrSet
    else
      let parentFullName := parent_name ns parent in
      if bool_decide (nn_String parentFullName ∈ allGatewaysSet) then {[ parentFullName ]} ∪ rrSet else rrSet)
    rrSet parentRefs.

(** The parents of all routes of a list. *)
Definition add_routes {Rule} (allGatewaysSet : gset string) (rrSet : Requests) (routes : list (Route Rule)) : Requests :=
  foldl (λ rr r, updateReconcileRequestsForParentRefs (rt_ParentRefs r) (om_Namespace (rt_meta r)) allGatewaysSet rr)
    rrSet routes.

Definition enqueueRequestForBackendServiceImport (w : World) (o : NamespacedName) : go Requests :=
  hrList ← list_index su KHTTPRoute backendServiceImportHTTPRouteIndex (nn_String o) w;
  match hrList with
  | inr _ => Ok ∅
  | inl hrList =>
      gwList ← list_index su KGateway implementationGatewayIndex "Dolphin" w;
      Ok (match gwList with
          | inr _ => ∅
          | inl gwList => add_routes (full_names gwList) ∅ hrList
          end)
  end.

Definition enqueueRequestForBackendService (w : World) (o : NamespacedName) : go Requests :=
  hrList ← list_index su KHTTPRoute backendServiceHTTPRouteIndex (nn_String o) w;
  match hrList with
  | inr _ => Ok ∅
  | inl hrList =>
      tlsrList ← (if su_tlsRoute su then list_index su KTLSRoute backendServiceTLSRouteIndex (nn_String o) w
                  else Ok (inl []));
      match tlsrList with
      | inr _ => Ok ∅
      | inl tlsrList =>
          grpcRouteList ← list_index su KGRPCRoute backendServiceGRPCRouteIndex (nn_String o) w;
          match grpcRouteList with
          | inr _ => Ok ∅
          | inl grpcRouteList =>
              gwList ← list_index su KGateway implementationGatewayIndex "dolphin" w;
              Ok (match gwList with
                  | inr _ => ∅
                  | inl gwList =>
                      let all := full_names gwList in
                      add_routes all (add_routes all (add_routes all ∅ hrList) tlsrList) grpcRouteList
                  end)
          end
      end
  end.

(** *** Nodes *)

(** The first owner of each NodePort Service with the label of the Gateway.  An
    error of the list leaves the Services of the Gateway before. *)
Definition nodeport_step (w : World) (st : gset string * list ServiceObject) (gw : string)
  : go (gset string * list ServiceObject) :=
  gwName ← index (SplitN2 gw "/"%char) 1;
  let svcList :=
    match cl_List KService (λ s, bool_decide (fs_Labels (so_svc s) !! gateway_api.owningGatewayLabel = Some gwName)) w with
    | inl l => l
    | inr _ => st.2
    end in
  svcMap ← go_foldl (λ m svc,
    if String.eqb (fs_Type (so_svc svc)) ServiceTypeNodePort
    then owner ← index (fs_OwnerReferences (so_svc svc)) 0; Ok ({[ translation.or_UID owner ]} ∪ m)
    else Ok m) st.1 svcList;
  Ok (svcMap, svcList).

(** A Gateway that cannot be fetched has the empty UID. *)
Definition node_requests (w : World) (svcMap : gset string) (gateways : list string) : list NamespacedName :=
  omap (λ gw,
    match SplitN2 gw "/"%char with
    | [gwNamespace; gwName] =>
        let n := mkNamespacedName gwNamespace gwName in
        let uid := match cl_Get KGateway n w with inl gw => om_UID (gw_meta gw) | inr _ => "" end in
        if bool_decide (uid ∈ svcMap) then None else Some n
    | _ => None
    end) gateways.

Definition enqueueRequestForNodes (w : World) : go (list NamespacedName) :=
  match cl_List KNode (λ _, true) w with
  | inr _ => Ok []
  | inl _ =>
      match getAllDolphinGatewaysSet w with
      | inr _ => Ok []
      | inl gateways =>
          let keys := map_keys (gset_to_gmap tt gateways) in
          '(svcMap, _) ← go_foldl (nodeport_step w) (∅, []) keys;
          if existsb (λ gw, negb (Nat.eqb (length (SplitN2 gw "/"%char)) 2)) keys then Ok []
          else Ok (node_requests w svcMap keys)
      end
  end.

(** *** SetupWithManager *)

(** An object that the Gateway controller watches has changed. *)
Inductive Changed :=
| ChangedService (n : NamespacedName) | ChangedServiceImport (n : NamespacedName)
| ChangedSecret (n : NamespacedName) | ChangedNamespace (name : string)
| ChangedReferenceGrant | ChangedNode
| ChangedHTTPRoute (r : HTTPRoute) | ChangedGRPCRoute (r : GRPCRoute) | ChangedTLSRoute (r : TLSRoute)
| ChangedTCPRoute (r : TCPRoute) | ChangedUDPRoute (r : UDPRoute)
| ChangedBackendTLSPolicy (p : BackendTLSPolicy).

(** The Gateways that are put on the queue: each watch with its handler, the
    Secrets behind a predicate, the optional kinds if they are installed. *)
Definition watches (tcpRouteEnabled udpRouteEnabled : bool) (w : World) (c : Changed) : go (list NamespacedName) :=
  match c with
  | ChangedService n => rr ← enqueueRequestForBackendService w n; Ok (map_keys (gset_to_gmap tt rr))
  | ChangedServiceImport n =>
      if su_serviceImport su
      then rr ← enqueueRequestForBackendServiceImport w n; Ok (map_keys (gset_to_gmap tt rr)) else Ok []
  | ChangedSecret n => Ok (if usedInGateway w n then enqueueRequestForTLSSecret w n else [])
  | ChangedNamespace name => enqueueRequestForAllowedNamespace w name
  | ChangedReferenceGrant => Ok (enqueueRequestForReferenceGrant w)
  | ChangedNode => enqueueRequestForNodes w
  | ChangedHTTPRoute r => Ok (EnqueueRequestForOwningHTTPRoute defaultControllerName w r)
  | ChangedGRPCRoute r => Ok (enqueueRequestForOwningGRPCRoute w r)
  | ChangedTLSRoute r => Ok (if su_tlsRoute su then enqueueRequestForOwningTLSRoute w r else [])
  | ChangedTCPRoute r => Ok (if tcpRouteEnabled then EnqueueRequestForOwningTCPRoute "dolphin" w r else [])
  | ChangedUDPRoute r => Ok (if udpRouteEnabled then EnqueueRequestForOwningUDPRoute "dolphin" w r else [])
  | ChangedBackendTLSPolicy p =>
      rr ← EnqueueRequestForBackendTLSPolicy su "dolphin" w p; Ok (map_keys (gset_to_gmap tt rr))
  end.

(** ** secretsync.go *)

Definition tls_secrets (ns : string) (listeners : list Listener) : list NamespacedName :=
  listeners ≫= λ l,
    match l_TLS l with
    | None => []
    | Some tls =>
        (λ cert, mkNamespacedName (NamespaceDerefOr (sor_Namespace cert) ns) (sor_Name cert)) <$>
          List.filter IsSecret (tls_CertificateRefs tls)
    end.

Definition EnqueueTLSSecrets (gw : Gateway) : list NamespacedName :=
  tls_secrets (om_Namespace (gw_meta gw)) (gw_Listeners gw).

(** The package secretsync has the same handler again. *)
Definition secretsync_EnqueueTLSSecrets (gw : Gateway) : list NamespacedName :=
  gw_Listeners gw ≫= λ l,
    match l_TLS l with
    | None => []
    | Some tls =>
        (λ cert, mkNamespacedName (NamespaceDerefOr (sor_Namespace cert) (om_Namespace (gw_meta gw))) (sor_Name cert)) <$>
          List.filter IsSecret (tls_CertificateRefs tls)
    end.

Lemma secretsync_EnqueueTLSSecrets_same gw : secretsync_EnqueueTLSSecrets gw = EnqueueTLSSecrets gw.
Proof. done. Qed.

Definition EnqueueListenerSetTLSSecrets (controllerName : string) (w : World) (ls : ListenerSet) : list NamespacedName :=
  match cl_Get KGateway (listenerset.ListenerSetParentGateway ls) w with
  | inr _ => []
  | inl gw =>
      if negb (GatewayHasMatchingControllerFn controllerName w gw) then []
      else tls_secrets (om_Namespace (lst_meta ls)) (lst_Listeners ls)
  end.

Definition IsReferencedByDolphinGateway (w : World) (obj : NamespacedName) : bool :=
  existsb (hasMatchingController defaultControllerName w) (getGatewaysForSecret w obj).

(** References to ConfigMaps are skipped, all others are enqueued. *)
Definition EnqueueBackendTLSPolicyConfigMaps (btlsp : BackendTLSPolicy) : list NamespacedName :=
  (λ certRef, mkNamespacedName (om_Namespace (btp_meta btlsp)) (lor_Name certRef)) <$>
    List.filter (λ certRef, negb (IsConfigMap certRef)) (btp_CACertificateRefs btlsp).

Definition ConfigMapIsReferencedInGateway (controllerName : string) (w : World) (cfgMap : NamespacedName) : go bool :=
  l ← list_index su KBackendTLSPolicy BackendTLSPolicyConfigMapIndex (nn_String cfgMap) w;
  Ok (match l with
      | inr _ => false
      | inl l => existsb (λ p, existsb (λ a,
                   String.eqb (pas_ControllerName a) controllerName && conditions.IsAccepted (pas_Conditions a))
                   (btp_Ancestors p)) l
      end).

End Handlers.

End gateway_watches.

Module route_watches.
Import indexers.

Section Handlers.
Context {client : Client} {errors : ApiErrorText} {scheme : Scheme} {names : EnvoyConfigNames} (su : Setup).

(** ** tlsroute.go *)

Definition tls_enqueueFromIndex (index : string) (w : World) (o : NamespacedName) : go (list NamespacedName) :=
  l ← list_index su KTLSRoute index (nn_String o) w;
  Ok (match l with inr _ => [] | inl l => (λ r, ObjectKey (rt_meta r)) <$> l end).

Definition tls_enqueueRequestForGateway : World → NamespacedName → go (list NamespacedName) :=
  tls_enqueueFromIndex gatewayIndex.
Definition tls_enqueueRequestForBackendService : World → NamespacedName → go (list NamespacedName) :=
  tls_enqueueFromIndex backendServiceIndex.

Definition tls_enqueueAll (w : World) : list NamespacedName :=
  match cl_List KTLSRoute (λ _, true) w with
  | inr _ => []
  | inl l => (λ r, ObjectKey (rt_meta r)) <$> l
  end.

(** ** grpcroute.go *)

Definition grpc_enqueueFromIndex (index : string) (w : World) (o : NamespacedName) : go (list NamespacedName) :=
  l ← list_index su KGRPCRoute index (nn_String o) w;
  Ok (match l with inr _ => [] | inl l => (λ r, ObjectKey (rt_meta r)) <$> l end).

Definition grpc_enqueueRequestForGateway : World → NamespacedName → go (list NamespacedName) :=
  grpc_enqueueFromIndex gatewayIndex.
Definition grpc_enqueueRequestForBackendService : World → NamespacedName → go (list NamespacedName) :=
  grpc_enqueueFromIndex backendServiceIndex.

Definition grpc_enqueueAll (w : World) : list NamespacedName :=
  match cl_List KGRPCRoute (λ _, true) w with
  | inr _ => []
  | inl l => (λ r, ObjectKey (rt_meta r)) <$> l
  end.

End Handlers.

End route_watches.
