(* ===== verification/WatchesFacts.v ===== *)
(** * What the watches of the Gateway controller put on the queue

    [Module watches_facts]: when a backend Service or a Secret changes, exactly the
    Gateways that use it are reconciled; the watches of TCPRoutes, UDPRoutes and
    BackendTLSPolicies never reconcile one; the names on the way through the
    handler of Nodes. *)

From S2P Require Import Prelude GoStrings ApiTypes Model Hostnames Helpers Translator FrontTranslators ApiServer Status RouteChecker GatewayListeners GatewayClass Watches.
From Stdlib Require Import Ascii.
Import k8s gatewayv1 api types namespaces gateway_helpers gateway_listeners indexers watch_handlers gateway_watches.

Module watches_facts.

Section Facts.
Context {client : Client} {errors : ApiErrorText} {scheme : Scheme} {names : EnvoyConfigNames} {range : MapRange}.
Context (su : Setup).

(** ** Lists by an index *)

Lemma go_flat_map_Ok {A B} (f : A → go (list B)) l ys x :
  go_flat_map f l = Ok ys → x ∈ l → ∃ zs, f x = Ok zs.
Proof using Type.
  revert ys. induction l as [|y l IH]; intros ys H Hx; [by apply not_elem_of_nil in Hx|].
  cbn in H. apply bind_Ok in H as (zs & Ez & (zs' & Ez' & _)%bind_Ok).
  apply elem_of_cons in Hx as [->|Hx]; [eauto|by eapply IH].
Qed.

Lemma elem_of_go_filter {A} (f : A → go bool) l l' x :
  go_filter f l = Ok l' → x ∈ l' ↔ x ∈ l ∧ f x = Ok true.
Proof using Type.
  intros H. rewrite (elem_of_go_flat_map _ _ _ x H). split.
  - intros (y & zs & Hy & E & Hx). destruct (f y) as [[]|] eqn:Ef; [| |done]; injection E as <-.
    + apply list_elem_of_singleton in Hx as ->. done.
    + by apply not_elem_of_nil in Hx.
  - intros [Hx Ef]. exists x, [x]. rewrite Ef. split_and!; [done..|left].
Qed.

Lemma list_index_spec k index value w f items l x :
  List.find (λ e, String.eqb e.1 index) (registered su k) = Some (index, f) →
  cl_List k (λ _, true) w = inl l → list_index su k index value w = Ok (inl items) →
  x ∈ items ↔ x ∈ l ∧ ∃ keys, f w x = Ok keys ∧ value ∈ keys.
Proof using Type.
  intros Hf Hl. unfold list_index. rewrite Hf, Hl. intros (items' & H & [= ->])%bind_Ok.
  rewrite (elem_of_go_filter _ _ _ x H). split; intros [Hx Hk]; (split; [done|]).
  - destruct (f w x) as [keys|]; [|done]. injection Hk as Hk. apply bool_decide_eq_true in Hk. eauto.
  - destruct Hk as (keys & -> & Hv). cbn. by rewrite bool_decide_true.
Qed.

Lemma list_index_inr k index value w f l e :
  List.find (λ e, String.eqb e.1 index) (registered su k) = Some (index, f) →
  cl_List k (λ _, true) w = inl l → list_index su k index value w ≠ Ok (inr e).
Proof using Type. intros Hf Hl. unfold list_index. rewrite Hf, Hl. by intros (? & _ & ?)%bind_Ok. Qed.

(** The index functions returned on all objects. *)
Lemma list_index_returns k index value w f items l x :
  List.find (λ e, String.eqb e.1 index) (registered su k) = Some (index, f) →
  cl_List k (λ _, true) w = inl l → list_index su k index value w = Ok (inl items) →
  x ∈ l → ∃ keys, f w x = Ok keys.
Proof using Type.
  intros Hf Hl. unfold list_index. rewrite Hf, Hl. intros (items' & H & _)%bind_Ok Hx.
  destruct (go_flat_map_Ok _ _ _ _ H Hx) as (zs & Ez). apply bind_Ok in Ez as (b & Eb & _).
  apply bind_Ok in Eb as (keys & ? & _). eauto.
Qed.

(** A backend is the Service. *)
Definition uses_service (w : World) (ns : string) (backends : list BackendObjectReference) (o : NamespacedName) : Prop :=
  ∃ be name, be ∈ backends ∧
    GetBackendServiceName DerivedServiceAnnotation HasServiceImportSupport (getServiceImport w)
      (NamespaceDerefOr (bor_Namespace be) ns) be = Ok (inl name) ∧
    nn_String o = backend_name ns be name.

Lemma elem_of_index_services w ns backends keys o :
  index_services w ns backends = Ok keys → nn_String o ∈ keys ↔ uses_service w ns backends o.
Proof using Type.
  intros H. rewrite (elem_of_go_flat_map _ _ _ _ H). unfold uses_service. split.
  - intros (be & zs & Hbe & E & Hz). apply bind_Ok in E as ([name|] & E & [= <-]); [|by apply not_elem_of_nil in Hz].
    apply list_elem_of_singleton in Hz. eauto.
  - intros (be & name & Hbe & E & Ho). exists be, [backend_name ns be name]. rewrite E. split_and!; [done..|].
    rewrite Ho. left.
Qed.

(** ** Routes and their parents *)

Lemma exists_cons {A} (P : A → Prop) x l : (∃ y, y ∈ x :: l ∧ P y) ↔ P x ∨ ∃ y, y ∈ l ∧ P y.
Proof using Type.
  split.
  - intros (y & [->|Hy]%elem_of_cons & HP); [by left|right; eauto].
  - intros [HP|(y & Hy & HP)]; [exists x|exists y]; (split; [by constructor|done]).
Qed.

Lemma elem_of_parentRefs parents ns all (rr : Requests) n :
  n ∈ gateway_watches.updateReconcileRequestsForParentRefs parents ns all rr ↔
  n ∈ rr ∨ ∃ p, p ∈ parents ∧ IsGateway p = true ∧ n = parent_name ns p ∧ nn_String n ∈ all.
Proof using Type.
  unfold gateway_watches.updateReconcileRequestsForParentRefs. revert rr.
  induction parents as [|p parents IH]; intros rr; cbn [foldl].
  { split; [by left|]. intros [|(? & ?%not_elem_of_nil & _)]; done. }
  rewrite IH, exists_cons. destruct (IsGateway p) eqn:Eg; cbn [negb].
  - case_bool_decide as Hall.
    + rewrite elem_of_union, elem_of_singleton. split; [|tauto || naive_solver].
      intros [[->|?]|?]; tauto.
    + split; [tauto|]. intros [?|[(_ & -> & ?)|?]]; tauto.
  - split; [tauto|]. intros [?|[[? _]|?]]; [tauto|done|tauto].
Qed.

Lemma elem_of_add_routes {Rule} all (rr : Requests) (routes : list (Route Rule)) n :
  n ∈ add_routes all rr routes ↔
  n ∈ rr ∨ ∃ r p, r ∈ routes ∧ p ∈ rt_ParentRefs r ∧ IsGateway p = true ∧
    n = parent_name (om_Namespace (rt_meta r)) p ∧ nn_String n ∈ all.
Proof using Type.
  unfold add_routes. revert rr. induction routes as [|r routes IH]; intros rr; cbn [foldl].
  { split; [by left|]. intros [|(? & ? & ?%not_elem_of_nil & _)]; done. }
  rewrite IH, elem_of_parentRefs. split.
  - intros [[?|(p & ?)]|(r' & p & ? & ?)]; [by left|right; exists r, p; split; [left|done]|].
    right. exists r', p. split; [by right|done].
  - intros [?|(r' & p & [->|?]%elem_of_cons & ?)]; [by left; left|left; right; by exists p|right; by exists r', p].
Qed.

(** A route of a list uses the Service and has the Gateway for a parent. *)
Definition routed {Rule} (backends : Route Rule → list BackendObjectReference) (l : list (Route Rule)) (w : World)
    (o n : NamespacedName) : Prop :=
  ∃ r p, r ∈ l ∧ uses_service w (om_Namespace (rt_meta r)) (backends r) o ∧
    p ∈ rt_ParentRefs r ∧ IsGateway p = true ∧ n = parent_name (om_Namespace (rt_meta r)) p.

(** The Gateway exists and its class is one of the controller. *)
Definition of_controller (w : World) (gws : list Gateway) (n : NamespacedName) : Prop :=
  ∃ gw, gw ∈ gws ∧ hasMatchingController defaultControllerName w gw = true ∧
    nn_String (ObjectKey (gw_meta gw)) = nn_String n.

Lemma elem_of_all_gateways w gws gws' n :
  cl_List KGateway (λ _, true) w = inl gws →
  list_index su KGateway implementationGatewayIndex "dolphin" w = Ok (inl gws') →
  nn_String n ∈ full_names gws' ↔ of_controller w gws n.
Proof using Type.
  intros Hl Hi. unfold full_names, of_controller. rewrite elem_of_list_to_set, list_elem_of_fmap.
  setoid_rewrite (λ gw, list_index_spec KGateway implementationGatewayIndex "dolphin" w
    (λ w gw, Ok (GenerateIndexerGatewayByImplementation defaultControllerName w gw)) gws' gws gw eq_refl Hl Hi).
  unfold hasMatchingController, GenerateIndexerGatewayByImplementation. split.
  - intros (gw & Hn & Hgw & keys & [= <-] & Hk). exists gw. split_and!; [done| |done].
    destruct (cl_Get KGatewayClass _ w) as [gwc|]; [|by apply not_elem_of_nil in Hk].
    by destruct (String.eqb _ _); [|apply not_elem_of_nil in Hk].
  - intros (gw & Hgw & Hm & Hn). exists gw. split_and!; [done..|]. eexists. split; [done|].
    destruct (cl_Get KGatewayClass _ w) as [gwc|]; [|done]. rewrite Hm. left.
Qed.

Lemma routed_items {Rule} (backends : Route Rule → list BackendObjectReference) (items l : list (Route Rule)) w o n (P : Prop) :
  (∀ r, r ∈ items ↔ r ∈ l ∧ ∃ keys, index_services w (om_Namespace (rt_meta r)) (backends r) = Ok keys ∧ nn_String o ∈ keys) →
  (∀ r, r ∈ l → ∃ keys, index_services w (om_Namespace (rt_meta r)) (backends r) = Ok keys) →
  (∃ r p, r ∈ items ∧ p ∈ rt_ParentRefs r ∧ IsGateway p = true ∧
     n = parent_name (om_Namespace (rt_meta r)) p ∧ P) ↔ routed backends l w o n ∧ P.
Proof using Type.
  intros Hi Hr. unfold routed. split.
  - intros (r & p & (Hl & keys & E & Ho)%Hi & ? & ? & ? & ?). split; [|done]. exists r, p. split_and!; try done.
    by eapply elem_of_index_services.
  - intros ((r & p & Hl & Hu & ? & ? & ?) & ?). exists r, p. split_and!; try done. apply Hi. split; [done|].
    destruct (Hr r Hl) as (keys & E). exists keys. split; [done|]. by eapply elem_of_index_services.
Qed.

(** C13: when a Service changes, the Gateway controller reconciles exactly the
    Gateways of its classes that have an HTTPRoute or GRPCRoute attached with that
    Service for a backend: no such Gateway is missed, and no other one is
    reconciled.  TLSRoutes count only where their watch is set up
    ([su_tlsRoute]). *)
Theorem service_watch_complete w o hs ts gs gws rr n :
  cl_List KHTTPRoute (λ _, true) w = inl hs → cl_List KTLSRoute (λ _, true) w = inl ts →
  cl_List KGRPCRoute (λ _, true) w = inl gs → cl_List KGateway (λ _, true) w = inl gws →
  enqueueRequestForBackendService su w o = Ok rr →
  n ∈ rr ↔ of_controller w gws n ∧
    (routed http_backends hs w o n ∨ (su_tlsRoute su = true ∧ routed tls_backends ts w o n) ∨
     routed grpc_backends gs w o n).
Proof using Type.
  intros Hh Ht Hg Hgw H. unfold enqueueRequestForBackendService in H.
  apply bind_Ok in H as (hr & Eh & H). destruct hr as [hr|e].
  2: { by eapply (list_index_inr KHTTPRoute) in Eh. }
  apply bind_Ok in H as (tr & Et & H).
  assert (Htr : ∃ tr', tr = inl tr' ∧ ∀ all, (∃ r p, r ∈ tr' ∧ p ∈ rt_ParentRefs r ∧ IsGateway p = true ∧
      n = parent_name (om_Namespace (rt_meta r)) p ∧ nn_String n ∈ (all : gset string)) ↔
    (su_tlsRoute su = true ∧ routed tls_backends ts w o n) ∧ nn_String n ∈ all).
  { destruct (su_tlsRoute su) eqn:Es.
    - assert (Hf : List.find (λ e, String.eqb e.1 backendServiceTLSRouteIndex) (registered su KTLSRoute) =
        Some (backendServiceTLSRouteIndex, GenerateIndexerTLSRoutebyBackendService)) by (cbn; by rewrite Es).
      destruct tr as [tr|e].
      + exists tr. split; [done|]. intros all. rewrite (routed_items tls_backends tr ts w o n); [tauto| |].
        * intros r. by apply (list_index_spec KTLSRoute _ _ _ _ _ _ _ Hf).
        * intros r. by apply (list_index_returns KTLSRoute _ _ _ _ _ _ _ Hf Ht Et).
      + by eapply (list_index_inr KTLSRoute) in Et.
    - injection Et as <-. exists []. split; [done|]. intros all. split; [by intros (? & ? & ?%not_elem_of_nil & _)|].
      by intros [[? _] _]. }
  destruct Htr as (tr' & -> & Htr). apply bind_Ok in H as (gr & Eg & H). destruct gr as [gr|e].
  2: { by eapply (list_index_inr KGRPCRoute) in Eg. }
  apply bind_Ok in H as (gwl & Egw & H). destruct gwl as [gwl|e].
  2: { by eapply (list_index_inr KGateway) in Egw. }
  injection H as <-. rewrite !elem_of_add_routes, Htr, elem_of_empty.
  rewrite (routed_items http_backends hr hs w o n), (routed_items grpc_backends gr gs w o n).
  - rewrite (elem_of_all_gateways w gws gwl n Hgw Egw). tauto.
  - intros r. by apply (list_index_spec KGRPCRoute backendServiceGRPCRouteIndex _ _ GenerateIndexerGRPCRoutebyBackendService _ _ _ eq_refl Hg).
  - intros r. by apply (list_index_returns KGRPCRoute backendServiceGRPCRouteIndex _ _ GenerateIndexerGRPCRoutebyBackendService _ _ _ eq_refl Hg Eg).
  - intros r. by apply (list_index_spec KHTTPRoute backendServiceHTTPRouteIndex _ _ GenerateIndexerHTTPRouteByBackendService _ _ _ eq_refl Hh).
  - intros r. by apply (list_index_returns KHTTPRoute backendServiceHTTPRouteIndex _ _ GenerateIndexerHTTPRouteByBackendService _ _ _ eq_refl Hh Eh).
Qed.

(** ** Secrets *)

Lemma elem_of_bind_list {A B} (f : A → list B) l y : y ∈ (l ≫= f) ↔ ∃ x, y ∈ f x ∧ x ∈ l.
Proof using Type. apply list_elem_of_bind. Qed.

Lemma elem_of_filterb {A} (p : A → bool) l x : x ∈ List.filter p l ↔ x ∈ l ∧ p x = true.
Proof using Type. by rewrite list_elem_of_In, filter_In, <-list_elem_of_In. Qed.

Lemma elem_of_gateways_for_secret w gws s gw :
  cl_List KGateway (λ _, true) w = inl gws →
  gw ∈ getGatewaysForSecret w s ↔ gw ∈ gws ∧ s ∈ EnqueueTLSSecrets gw.
Proof using Type.
  intros Hl. unfold getGatewaysForSecret, EnqueueTLSSecrets, tls_secrets. rewrite Hl, elem_of_bind_list.
  setoid_rewrite elem_of_bind_list. split.
  - intros (gw' & (l & Hgw & Hin) & Hgws). destruct (l_TLS l) as [tls|] eqn:Et; [|by apply not_elem_of_nil in Hgw].
    apply list_elem_of_fmap in Hgw as (cert & -> & (Hc & Hp)%elem_of_filterb). split; [done|].
    rewrite !andb_true_iff, !String.eqb_eq in Hp. destruct Hp as [[Hs Hn] Hns].
    exists l. rewrite Et. split; [|done]. apply list_elem_of_fmap. exists cert. split.
    + rewrite Hn, Hns. by destruct s.
    + apply elem_of_filterb. by split.
  - intros (Hgws & l & Hs & Hin). destruct (l_TLS l) as [tls|] eqn:Et; [|by apply not_elem_of_nil in Hs].
    apply list_elem_of_fmap in Hs as (cert & -> & (Hc & Hp)%elem_of_filterb).
    exists gw. split; [|done]. exists l. split; [|done]. rewrite Et. apply list_elem_of_fmap. exists cert. split; [done|].
    apply elem_of_filterb. split; [done|]. cbn. by rewrite Hp, !String.eqb_refl.
Qed.

(** C33: a change of a Secret reconciles exactly the Gateways whose Secrets are
    synchronised from it: the watch of Secrets and the list of the Secrets of a
    Gateway are inverse to each other. *)
Theorem secret_watch_inverse tcp udp w s gws :
  cl_List KGateway (λ _, true) w = inl gws →
  ∃ l, watches su tcp udp w (ChangedSecret s) = Ok l ∧
    ∀ n, n ∈ l ↔ ∃ gw, gw ∈ gws ∧ n = ObjectKey (gw_meta gw) ∧ s ∈ EnqueueTLSSecrets gw.
Proof using Type.
  intros Hl. eexists. split; [done|]. intros n. unfold usedInGateway, enqueueRequestForTLSSecret.
  transitivity (n ∈ (λ gw, ObjectKey (gw_meta gw)) <$> getGatewaysForSecret w s).
  { destruct (getGatewaysForSecret w s); [|done]. cbn. by rewrite elem_of_nil. }
  rewrite list_elem_of_fmap. setoid_rewrite (λ gw, elem_of_gateways_for_secret w gws s gw Hl). naive_solver.
Qed.

(** ** Watches that find nothing *)

Lemma foreign_requests {Rule} ctrl w (r : Route Rule) :
  (∀ n gwc, cl_Get KGatewayClass n w = inl gwc → gc_ControllerName gwc ≠ ctrl) →
  watch_handlers.getGatewayReconcileRequestsForRoute ctrl w r = [].
Proof using Type.
  intros H. unfold watch_handlers.getGatewayReconcileRequestsForRoute.
  assert (Hf : ∀ gw, hasMatchingController ctrl w gw = false).
  { intros gw. unfold hasMatchingController. destruct (cl_Get KGatewayClass _ w) eqn:E; [|done].
    apply String.eqb_neq. by eapply H. }
  apply elem_of_nil_inv. intros n (p & _ & E)%list_elem_of_omap.
  destruct (if IsGateway p then _ else _); [|done]. by rewrite Hf in E.
Qed.

Lemma unregistered_index v w : list_index su KHTTPRoute BackendServiceHTTPRouteIndex v w =
  Ok (inr (OtherError ("Index with name " +:+ BackendServiceHTTPRouteIndex +:+ " does not exist"))).
Proof using Type. unfold list_index. cbn [registered]. by destruct (su_serviceImport su). Qed.

Lemma policy_requests ctrl w p : EnqueueRequestForBackendTLSPolicy su ctrl w p = Ok ∅.
Proof using Type.
  unfold EnqueueRequestForBackendTLSPolicy, getAllGatewaysSetForController.
  assert (Hg : ∃ gws, list_index su KGateway ImplementationGatewayIndex ctrl w = Ok gws).
  { unfold list_index. cbn [registered List.find fst]. rewrite String.eqb_refl.
    destruct (cl_List KGateway (λ _, true) w) as [gws|e]; [|eauto]. unfold go_filter.
    erewrite go_flat_map_pure by (intros x _; reflexivity). by eexists. }
  destruct Hg as (gws & ->). cbn [mbind go_mbind]. destruct gws as [gws|e]; [|done].
  unfold updateReconcileRequestsForBackendTLSPolicy.
  generalize ((λ t, om_Namespace (btp_meta p) +:+ "/" +:+ ptr_Name t) <$> List.filter IsServiceTargetRef (btp_TargetRefs p)).
  intros refs. assert (Hok : ∀ b, ∃ b', go_foldl (λ (ok : bool) svcName,
    if ok then hrList ← list_index su KHTTPRoute BackendServiceHTTPRouteIndex svcName w;
      Ok (match hrList with inl _ => true | inr _ => false end) else Ok false) b refs = Ok b').
  { induction refs as [|x refs IH]; intros b; [by exists b|]. cbn [go_foldl]. destruct b; [|apply IH].
    rewrite unregistered_index. apply IH. }
  destruct (Hok true) as (b' & Eb). cbv zeta. rewrite Eb. cbn. by destruct b'.
Qed.

(** changes of TCPRoutes, UDPRoutes and BackendTLSPolicies never reconcile a
    Gateway: the first two look for a controller that is called dolphin, which no
    GatewayClass names, and for a policy the routes that are listed are dropped. *)
Theorem dead_watches tcp udp w tcpr udpr p :
  (∀ n gwc, cl_Get KGatewayClass n w = inl gwc → gc_ControllerName gwc ≠ "dolphin") →
  watches su tcp udp w (ChangedTCPRoute tcpr) = Ok [] ∧ watches su tcp udp w (ChangedUDPRoute udpr) = Ok [] ∧
  watches su tcp udp w (ChangedBackendTLSPolicy p) = Ok [].
Proof using Type.
  intros H. unfold watches, EnqueueRequestForOwningTCPRoute, EnqueueRequestForOwningUDPRoute.
  rewrite !foreign_requests by done. rewrite policy_requests. cbn [mbind go_mbind].
  split_and!; [by destruct tcp|by destruct udp|]. f_equal. apply elem_of_nil_inv. intros n Hn.
  apply elem_of_map_keys in Hn as [u Hu]. by apply lookup_gset_to_gmap_Some in Hu as [?%not_elem_of_empty _].
Qed.

(** ** Nodes *)

Definition no_slash (s : string) : Prop := CutChar "/"%char s = None.

Lemma SplitN2_String n : no_slash (nn_Namespace n) → SplitN2 (nn_String n) "/"%char = [nn_Namespace n; nn_Name n].
Proof using Type.
  unfold no_slash, SplitN2, nn_String. destruct n as [ns name]. cbn [nn_Namespace nn_Name].
  assert (H : CutChar "/"%char ns = None → CutChar "/"%char (ns +:+ "/" +:+ name) = Some (ns, name)).
  { induction ns as [|d ns IH]; [done|]. change (String d ns +:+ ?s) with (String d (ns +:+ s)). cbn [CutChar].
    destruct (Ascii.eqb "/"%char d); [done|]. destruct (CutChar "/"%char ns) as [[]|]; [done|]. intros _. by rewrite IH. }
  intros E. by rewrite (H E).
Qed.

(** The UID of the Gateway of a name, empty if there is none. *)
Definition uid_of (w : World) (n : NamespacedName) : string :=
  match cl_Get KGateway n w with inl gw => om_UID (gw_meta gw) | inr _ => "" end.

Lemma node_requests_names w svcMap ns :
  Forall (λ n, no_slash (nn_Namespace n)) ns →
  node_requests w svcMap (nn_String <$> ns) = List.filter (λ n, negb (bool_decide (uid_of w n ∈ svcMap))) ns.
Proof using Type.
  intros H. unfold node_requests. induction H as [|n ns Hn _ IH]; [done|]. cbn [fmap list_fmap omap list_omap List.filter].
  rewrite SplitN2_String by done. fold (uid_of w n). destruct n as [nsp name]. unfold uid_of at 1.
  cbn [nn_Namespace nn_Name]. fold (uid_of w (mkNamespacedName nsp name)).
  case_bool_decide; cbn [negb]; [exact IH|]. f_equal. exact IH.
Qed.

Lemma existsb_names ns :
  Forall (λ n, no_slash (nn_Namespace n)) ns →
  existsb (λ gw, negb (Nat.eqb (length (SplitN2 gw "/"%char)) 2)) (nn_String <$> ns) = false.
Proof using Type. induction 1 as [|n ns Hn _ IH]; [done|]. cbn. by rewrite SplitN2_String. Qed.

(** The Services with the label of a Gateway of this name. *)
Definition labelled_services (w : World) (name : string) : list ServiceObject + ApiError :=
  cl_List KService
    (λ s, bool_decide (fs_Labels (so_svc s) !! "io.dolphin.gateway/owning-gateway" = Some name)) w.

(** The UID is that of the first owner of a NodePort Service among them. *)
Definition nodeport_uid (svcs : list ServiceObject) (uid : string) : Prop :=
  ∃ svc o, svc ∈ svcs ∧ fs_Type (so_svc svc) = "NodePort" ∧
    head (fs_OwnerReferences (so_svc svc)) = Some o ∧ translation.or_UID o = uid.

(** The list of these Services answers, and the NodePort Services have owners. *)
Definition services_owned (w : World) (name : string) (svcs : list ServiceObject) : Prop :=
  labelled_services w name = inl svcs ∧
  ∀ svc, svc ∈ svcs → fs_Type (so_svc svc) = "NodePort" → fs_OwnerReferences (so_svc svc) ≠ [].

Lemma nodeport_services m0 svcs :
  (∀ svc, svc ∈ svcs → fs_Type (so_svc svc) = "NodePort" → fs_OwnerReferences (so_svc svc) ≠ []) →
  ∃ m, go_foldl (λ m svc,
      if String.eqb (fs_Type (so_svc svc)) ServiceTypeNodePort
      then owner ← index (fs_OwnerReferences (so_svc svc)) 0; Ok ({[ translation.or_UID owner ]} ∪ m)
      else Ok m) m0 svcs = Ok m ∧
    ∀ u, u ∈ m ↔ u ∈ (m0 : gset string) ∨ nodeport_uid svcs u.
Proof using Type.
  unfold nodeport_uid. revert m0. induction svcs as [|svc svcs IH]; intros m0 Ho.
  { exists m0. split; [done|]. intros u. split; [by left|]. intros [?|(? & ? & ?%elem_of_nil & _)]; done. }
  assert (Ho' : ∀ svc', svc' ∈ svcs → fs_Type (so_svc svc') = "NodePort" → fs_OwnerReferences (so_svc svc') ≠ [])
    by (intros svc' ?; apply Ho; by right).
  cbn [go_foldl]. unfold ServiceTypeNodePort in *. destruct (String.eqb_spec (fs_Type (so_svc svc)) "NodePort") as [E|E].
  - specialize (Ho svc ltac:(left) E). destruct (fs_OwnerReferences (so_svc svc)) as [|o os] eqn:Eo; [done|].
    cbn [index lookup list_lookup mbind go_mbind].
    destruct (IH ({[translation.or_UID o]} ∪ m0) Ho') as (m & -> & Hm). exists m. split; [done|]. intros u.
    rewrite Hm, elem_of_union, elem_of_singleton. setoid_rewrite elem_of_cons. split.
    + intros [[->|?]|(svc' & o' & ? & ?)]; [|by left|right; exists svc', o'; naive_solver].
      right. exists svc, o. rewrite Eo. naive_solver.
    + intros [?|(svc' & o' & [->|?] & H1 & H2 & H3)]; [naive_solver| |naive_solver].
      rewrite Eo in H2. cbn in H2. naive_solver.
  - cbn [mbind go_mbind]. destruct (IH m0 Ho') as (m & -> & Hm). exists m. split; [done|]. intros u. rewrite Hm.
    setoid_rewrite elem_of_cons. naive_solver.
Qed.

Lemma nodeport_step_spec w n svcs m0 l0 :
  no_slash (nn_Namespace n) → services_owned w (nn_Name n) svcs →
  ∃ m, nodeport_step w (m0, l0) (nn_String n) = Ok (m, svcs) ∧ ∀ u, u ∈ m ↔ u ∈ m0 ∨ nodeport_uid svcs u.
Proof using Type.
  intros Hn [Hl Ho]. unfold nodeport_step. rewrite SplitN2_String by done. cbn [index lookup list_lookup mbind go_mbind].
  change (cl_List KService _ w) with (labelled_services w (nn_Name n)). rewrite Hl.
  destruct (nodeport_services m0 svcs Ho) as (m & E & Hm). cbn [fst snd]. rewrite E. by exists m.
Qed.

Lemma nodeport_fold w ns m0 l0 :
  Forall (λ n, no_slash (nn_Namespace n) ∧ ∃ svcs, services_owned w (nn_Name n) svcs) ns →
  ∃ m l, go_foldl (nodeport_step w) (m0, l0) (nn_String <$> ns) = Ok (m, l) ∧
    ∀ u, u ∈ m ↔ u ∈ m0 ∨ ∃ n svcs, n ∈ ns ∧ labelled_services w (nn_Name n) = inl svcs ∧ nodeport_uid svcs u.
Proof using Type.
  intros H. revert m0 l0. induction H as [|n ns (Hn & svcs & Hs) _ IH]; intros m0 l0.
  { exists m0, l0. split; [done|]. intros u. split; [by left|]. intros [?|(? & ? & ?%elem_of_nil & _)]; done. }
  destruct (nodeport_step_spec w n svcs m0 l0 Hn Hs) as (m1 & E1 & H1). destruct Hs as [Hl _].
  cbn [fmap list_fmap go_foldl]. rewrite E1. cbn [mbind go_mbind].
  destruct (IH m1 svcs) as (m & l & E & Hm). exists m, l. split; [exact E|]. intros u. rewrite Hm, H1.
  setoid_rewrite elem_of_cons. split.
  - intros [[?|?]|(n' & svcs' & ? & ?)]; [by left| |]; right; [exists n, svcs|exists n', svcs']; naive_solver.
  - intros [?|(n' & svcs' & [->|?] & H2 & ?)]; [naive_solver| |right; naive_solver].
    rewrite Hl in H2. naive_solver.
Qed.

(** Keys that are names of objects of a list. *)
Lemma named_keys {A} (name : A → NamespacedName) (l : list A) (keys : list string) :
  (∀ k, k ∈ keys → ∃ x, x ∈ l ∧ k = nn_String (name x)) →
  ∃ ns : list NamespacedName, keys = nn_String <$> ns ∧ ∀ n, n ∈ ns → ∃ x, x ∈ l ∧ n = name x.
Proof using Type.
  induction keys as [|k keys IH]; intros H; [exists []; split; [done|]; by intros ? ?%elem_of_nil|].
  destruct IH as (ns & -> & Hns); [intros; apply H; by right|]. destruct (H k ltac:(left)) as (x & Hx & ->).
  exists (name x :: ns). split; [done|]. intros n [->|?]%elem_of_cons; eauto.
Qed.

Lemma nn_String_inj n n' :
  no_slash (nn_Namespace n) → no_slash (nn_Namespace n') → nn_String n = nn_String n' → n = n'.
Proof using Type.
  intros H H' E. apply SplitN2_String in H, H'. rewrite E, H' in H. destruct n, n'. cbn in H. congruence.
Qed.

(** C39: when a Node changes, the Gateway controller reconciles exactly the
    Gateways whose UID is not that of the first owner of a NodePort Service with
    the label of some Gateway: their names come unchanged through the set of
    strings that the handler goes through (a namespace has no slash), and the
    handler does not panic if those NodePort Services have owners. *)
Theorem node_watch_spec w nodes gws :
  cl_List KNode (λ _, true) w = inl nodes → cl_List KGateway (λ _, true) w = inl gws →
  (∀ gw, gw ∈ gws → no_slash (om_Namespace (gw_meta gw)) ∧ ∃ svcs, services_owned w (om_Name (gw_meta gw)) svcs) →
  ∃ rr, enqueueRequestForNodes w = Ok rr ∧ ∀ n, n ∈ rr ↔
    (∃ gw, gw ∈ gws ∧ n = mkNamespacedName (om_Namespace (gw_meta gw)) (om_Name (gw_meta gw))) ∧
    ¬ ∃ gw svcs, gw ∈ gws ∧ labelled_services w (om_Name (gw_meta gw)) = inl svcs ∧ nodeport_uid svcs (uid_of w n).
Proof using Type.
  intros Hnodes Hgws Hok. unfold enqueueRequestForNodes, getAllDolphinGatewaysSet. rewrite Hnodes, Hgws. cbv zeta.
  set (keys := map_keys _).
  assert (Hkeys : ∀ k, k ∈ keys ↔ ∃ gw, gw ∈ gws ∧ k = nn_String (ObjectKey (gw_meta gw))).
  { intros k. unfold keys. rewrite elem_of_map_keys. split.
    - intros [u [Hk%elem_of_list_to_set _]%lookup_gset_to_gmap_Some]. apply list_elem_of_fmap in Hk as (gw & -> & ?). eauto.
    - intros (gw & Hgw & ->). exists tt. apply lookup_gset_to_gmap_Some. split; [|done].
      apply elem_of_list_to_set, list_elem_of_fmap. eauto. }
  destruct (named_keys (λ gw, ObjectKey (gw_meta gw)) gws keys) as (ns & Ens & Hns); [intros k; apply Hkeys|].
  assert (Hall : Forall (λ n, no_slash (nn_Namespace n) ∧ ∃ svcs, services_owned w (nn_Name n) svcs) ns).
  { apply Forall_forall. intros n (gw & Hgw & ->)%Hns. by apply Hok. }
  assert (Hnsl : Forall (λ n, no_slash (nn_Namespace n)) ns) by (eapply Forall_impl; [exact Hall|by intros ? []]).
  assert (Hin : ∀ n, n ∈ ns ↔ ∃ gw, gw ∈ gws ∧ n = ObjectKey (gw_meta gw)).
  { intros n. split; [apply Hns|]. intros (gw & Hgw & ->).
    assert (Hk : nn_String (ObjectKey (gw_meta gw)) ∈ keys) by (apply Hkeys; eauto).
    rewrite Ens in Hk. apply list_elem_of_fmap in Hk as (n & E & Hn). apply nn_String_inj in E as ->; [done|by apply Hok|].
    rewrite Forall_forall in Hnsl. by apply Hnsl. }
  rewrite Ens. destruct (nodeport_fold w ns ∅ [] Hall) as (m & l & -> & Hm). cbn [mbind go_mbind].
  rewrite existsb_names by done. rewrite node_requests_names by done. eexists. split; [done|]. intros n.
  rewrite list_elem_of_In, List.filter_In, <-list_elem_of_In, Hin, negb_true_iff, bool_decide_eq_false, Hm.
  change (ObjectKey (gw_meta ?g)) with (mkNamespacedName (om_Namespace (gw_meta g)) (om_Name (gw_meta g))).
  f_equiv. f_equiv. split.
  - intros [?%elem_of_empty|(n' & svcs & (gw & Hgw & ->)%Hin & ? & ?)]; [done|]. by exists gw, svcs.
  - intros (gw & svcs & Hgw & ? & ?). right. exists (ObjectKey (gw_meta gw)), svcs. split_and!; [|done..].
    apply Hin. eauto.
Qed.

End Facts.

End watches_facts.
