(* ===== verification/GatewaySetup.v ===== *)
(** * Setting up the Gateway controller (src/pkg/gateway_api/gateway.go)
    [SetupWithManager]: which optional kinds are enabled, the field indexes that
    are registered, in order, and the types that are watched.  [IndexField] and
    [Complete] of controller-runtime are arguments: what they return.

    The list of installed kinds comes from the discovery of [Discovery], and what
    is watched must be in the scheme of [SchemeTypes]; the theorems put the three
    together. *)

From S2P Require Import Prelude GoStrings ApiTypes Helpers ApiServer RouteChecker GatewayReconcile Discovery SchemeTypes Watches.
Import k8s gatewayv1 api types gateway_reconcile discovery indexers.

Module gateway_setup.

(** ** The enabled kinds *)

Record Enabled := mkEnabled {
  tlsRouteEnabled : bool;
  tcpRouteEnabled : bool;
  udpRouteEnabled : bool;
  serviceImportEnabled : bool;
  listenerSetEnabled : bool
}.

Definition enable (e : Enabled) (gvk : GroupVersionKind) : Enabled :=
  let kind := gvk_Kind gvk in
  if String.eqb kind TLSRouteKind
  then mkEnabled true (tcpRouteEnabled e) (udpRouteEnabled e) (serviceImportEnabled e) (listenerSetEnabled e)
  else if String.eqb kind TCPRouteKind
  then mkEnabled (tlsRouteEnabled e) true (udpRouteEnabled e) (serviceImportEnabled e) (listenerSetEnabled e)
  else if String.eqb kind UDPRouteKind
  then mkEnabled (tlsRouteEnabled e) (tcpRouteEnabled e) true (serviceImportEnabled e) (listenerSetEnabled e)
  else if String.eqb kind ServiceImportKind
  then mkEnabled (tlsRouteEnabled e) (tcpRouteEnabled e) (udpRouteEnabled e) true (listenerSetEnabled e)
  else if String.eqb kind ListenerSetKind
  then mkEnabled (tlsRouteEnabled e) (tcpRouteEnabled e) (udpRouteEnabled e) (serviceImportEnabled e) true
  else e.

Definition enabledKinds (installedCRDs : list GroupVersionKind) : Enabled :=
  foldl enable (mkEnabled false false false false false) installedCRDs.

(** The flags the handlers are given. *)
Definition setup_of (e : Enabled) : Setup :=
  mkSetup (tlsRouteEnabled e) (serviceImportEnabled e) (listenerSetEnabled e).

(** ** Indexes *)

Section Indexes.
Context {range : MapRange}.

(** The names of a map from names to index functions, as Go ranges over it. *)
Definition ranged (names : list string) : list string := map_keys (list_to_map ((λ n, (n, tt)) <$> names) : gmap string unit).

(** The calls of [registerFieldIndex]: the kind, the name of the index and what the
    error says. *)
Definition fieldIndexes (e : Enabled) : list (Kind * string * string) :=
  ((λ n, (KHTTPRoute, n, "failed to setup HTTPRoutes field indexer ")) <$>
     ranged [backendServiceHTTPRouteIndex; gatewayHTTPRouteIndex]) ++
  (if serviceImportEnabled e
   then [(KHTTPRoute, backendServiceImportHTTPRouteIndex, "failed to setup HTTPRoute by ServiceImport field indexer ")]
   else []) ++
  [(KGateway, implementationGatewayIndex, "failed to setup Gateways field indexer ")] ++
  (if tlsRouteEnabled e
   then (λ n, (KTLSRoute, n, "failed to setup field indexer ")) <$>
          ranged [backendServiceTLSRouteIndex; gatewayTLSRouteIndex]
   else []) ++
  ((λ n, (KGRPCRoute, n, "failed to setup TLSRoutes field indexer ")) <$>
     ranged [backendServiceGRPCRouteIndex; gatewayGRPCRouteIndex]) ++
  (if listenerSetEnabled e then [(KListenerSet, ListenerSetGatewayIndex, "failed to setup field indexer ")] else []) ++
  [(KHTTPRoute, HTTPRouteListenerSetIndex, "failed to setup field indexer ")].

(** The indexes are registered one by one, up to the first error. *)
Fixpoint registerFieldIndexes (IndexField : Kind → string → option string) (l : list (Kind * string * string))
  : list (Kind * string) * option string :=
  match l with
  | [] => ([], None)
  | (k, n, prefix) :: l =>
      match IndexField k n with
      | Some err => ([(k, n)], Some (prefix +:+ routechecker.quote n +:+ ": " +:+ err))
      | None => let '(calls, res) := registerFieldIndexes IndexField l in ((k, n) :: calls, res)
      end
  end.

(** ** Watches *)

(** The types the controller is registered for: its own, those it watches, those
    it owns. *)
Definition watched_types (e : Enabled) : list gateway_scheme.GoType :=
  gateway_scheme.mkGoType "gatewayv1" "Gateway" ::
  ((λ p, gateway_scheme.mkGoType p.1 p.2) <$>
    [("corev1", "Service"); ("gatewayv1", "HTTPRoute"); ("gatewayv1", "GRPCRoute"); ("corev1", "Secret");
     ("corev1", "Namespace"); ("gatewayv1", "ReferenceGrant"); ("gatewayv1", "BackendTLSPolicy"); ("corev1", "Node");
     ("dolphinv1", "DolphinEnvoyConfig"); ("corev1", "Service"); ("discoveryv1", "EndpointSlice")]) ++
  (if tlsRouteEnabled e then [gateway_scheme.mkGoType "gatewayv1" "TLSRoute"] else []) ++
  (if tcpRouteEnabled e then [gateway_scheme.mkGoType "gatewayv1" "TCPRoute"] else []) ++
  (if udpRouteEnabled e then [gateway_scheme.mkGoType "gatewayv1" "UDPRoute"] else []) ++
  (if serviceImportEnabled e then [gateway_scheme.mkGoType "mcsapiv1alpha1" "ServiceImport"] else []).

(** The calls of [IndexField] that are made, and the error; [Complete] is the error
    of registering the controller for the types it watches. *)
Definition SetupWithManager (IndexField : Kind → string → option string)
    (Complete : list gateway_scheme.GoType → option string) (installedCRDs : list GroupVersionKind)
  : list (Kind * string) * option string :=
  let e := enabledKinds installedCRDs in
  match registerFieldIndexes IndexField (fieldIndexes e) with
  | (calls, Some err) => (calls, Some err)
  | (calls, None) =>
      match Complete (watched_types e) with
      | Some err => (calls, Some ("failed to complete Gateway controller: " +:+ err))
      | None => (calls, None)
      end
  end.

(** *** The other controllers *)

(** gatewayclass.go: an index from a map with one entry. *)
Definition gatewayclass_indexes : list (Kind * string) :=
  (λ n, (KGatewayClass, n)) <$> ranged [GatewayClassDolphinGatewayClassConfigsIndex].

(** tlsroute.go and grpcroute.go. *)
Definition tlsroute_indexes : list (Kind * string) :=
  [(KTLSRoute, backendServiceIndex); (KTLSRoute, backendServiceImportIndex); (KTLSRoute, gatewayIndex)].
Definition grpcroute_indexes : list (Kind * string) :=
  [(KGRPCRoute, backendServiceImportIndex); (KGRPCRoute, backendServiceIndex); (KGRPCRoute, gatewayIndex)].

(** The indexes that the controllers register, in the order in which
    [registerReconcilers] sets them up. *)
Definition allIndexes (e : Enabled) : list (Kind * string) :=
  gatewayclass_indexes ++ (fieldIndexes e).*1 ++ grpcroute_indexes ++ tlsroute_indexes.

End Indexes.

(** ** Lemmas *)

Definition installed (kind : string) (l : list GroupVersionKind) : bool := existsb (λ g, String.eqb (gvk_Kind g) kind) l.

(** The flags say which kinds are in the list. *)
Lemma enabledKinds_spec l :
  enabledKinds l = mkEnabled (installed TLSRouteKind l) (installed TCPRouteKind l) (installed UDPRouteKind l)
    (installed ServiceImportKind l) (installed ListenerSetKind l).
Proof.
  unfold enabledKinds, installed.
  enough (∀ e, foldl enable e l = mkEnabled
    (tlsRouteEnabled e || existsb (λ g, String.eqb (gvk_Kind g) TLSRouteKind) l)
    (tcpRouteEnabled e || existsb (λ g, String.eqb (gvk_Kind g) TCPRouteKind) l)
    (udpRouteEnabled e || existsb (λ g, String.eqb (gvk_Kind g) UDPRouteKind) l)
    (serviceImportEnabled e || existsb (λ g, String.eqb (gvk_Kind g) ServiceImportKind) l)
    (listenerSetEnabled e || existsb (λ g, String.eqb (gvk_Kind g) ListenerSetKind) l)) as H by apply H.
  induction l as [|g l IH]; intros [a b c d f]; cbn [foldl existsb]; [by rewrite !orb_false_r|].
  rewrite IH. unfold enable. cbv zeta.
  repeat match goal with |- context [String.eqb (gvk_Kind g) ?k] =>
    destruct (String.eqb_spec (gvk_Kind g) k) as [E|_]; [rewrite ?E; cbn; by rewrite ?orb_true_r|] end.
  done.
Qed.

Section Facts.
Context {range : MapRange} {kerrors : K8sErrors}.

Lemma registerFieldIndexes_spec IndexField l :
  ((registerFieldIndexes IndexField l).2 = None ↔ ∀ k n p, (k, n, p) ∈ l → IndexField k n = None) ∧
  ((registerFieldIndexes IndexField l).2 = None → (registerFieldIndexes IndexField l).1 = l.*1).
Proof using Type.
  induction l as [|[[k n] p] l [IH1 IH2]]; cbn [registerFieldIndexes].
  { split; [|done]. split; [|done]. intros _ k n p H. by apply elem_of_nil in H. }
  destruct (IndexField k n) eqn:E.
  - split; [|done]. split; [done|]. intros H. specialize (H k n p (list_elem_of_here _ _)). congruence.
  - destruct (registerFieldIndexes IndexField l) as [calls res]. cbn in *. split.
    + rewrite IH1. setoid_rewrite elem_of_cons. naive_solver.
    + intros H. by rewrite IH2.
Qed.

Lemma elem_of_ranged names n : n ∈ ranged names ↔ n ∈ names.
Proof using Type.
  unfold ranged. rewrite elem_of_map_keys. split.
  - intros [u H%elem_of_list_to_map_2]. apply list_elem_of_fmap in H as (m & [= -> ->] & Hm). done.
  - intros H. apply not_eq_None_Some. rewrite <-not_elem_of_list_to_map. intros Hn. apply Hn.
    rewrite <-list_fmap_compose. apply list_elem_of_fmap. by exists n.
Qed.

Lemma ranged_perm names : NoDup names → ranged names ≡ₚ names.
Proof using Type.
  intros H. apply NoDup_Permutation; [apply NoDup_map_keys|done|]. intros n. apply elem_of_ranged.
Qed.

(** Which indexes are registered. *)
Lemma elem_of_fieldIndexes e k n :
  (k, n) ∈ (fieldIndexes e).*1 ↔
  match k with
  | KHTTPRoute => n ∈ [backendServiceHTTPRouteIndex; gatewayHTTPRouteIndex; HTTPRouteListenerSetIndex] ∨
      (serviceImportEnabled e = true ∧ n = backendServiceImportHTTPRouteIndex)
  | KGateway => n = implementationGatewayIndex
  | KTLSRoute => tlsRouteEnabled e = true ∧ n ∈ [backendServiceTLSRouteIndex; gatewayTLSRouteIndex]
  | KGRPCRoute => n ∈ [backendServiceGRPCRouteIndex; gatewayGRPCRouteIndex]
  | KListenerSet => listenerSetEnabled e = true ∧ n = ListenerSetGatewayIndex
  | _ => False
  end.
Proof using Type.
  unfold fieldIndexes. rewrite !fmap_app, !elem_of_app.
  assert (Hr : ∀ (k' : Kind) (p : string) names,
    (k, n) ∈ ((λ m : string, (k', m, p)) <$> ranged names).*1 ↔ k = k' ∧ n ∈ names).
  { intros k' p names. rewrite <-list_fmap_compose, list_elem_of_fmap. cbn. setoid_rewrite elem_of_ranged. naive_solver. }
  assert (Hone : ∀ k' n' (p : string), (k, n) ∈ ([(k', n', p)] : list (Kind * string * string)).*1 ↔ k = k' ∧ n = n').
  { intros k' n' p. cbn. rewrite list_elem_of_singleton. naive_solver. }
  assert (Hif : ∀ (b : bool) (l : list (Kind * string * string)), (k, n) ∈ (if b then l else []).*1 ↔ b = true ∧ (k, n) ∈ l.*1).
  { intros [] l; [naive_solver|]. cbn. rewrite elem_of_nil. naive_solver. }
  rewrite !Hif, !Hr, !Hone. split.
  - intros [[-> H]|[[Hs [-> ->]]|[[-> ->]|[[Ht [-> H]]|[[-> H]|[[Hl [-> ->]]|[-> ->]]]]]]]; set_solver.
  - pose proof (eq_refl k). destruct k; rewrite ?elem_of_cons, ?elem_of_nil; tauto.
Qed.

(** *** Discovery *)

Lemma discover_loop_kinds fuel turns i now deadline pre :
  discover_loop fuel turns i now deadline = Some (inl pre) → pre_InstalledKinds pre ⊆ AllOptionalKinds.
Proof using Type.
  revert i now. induction fuel as [|fuel IH]; intros i now; [done|]. cbn [discover_loop]. cbv zeta.
  destruct (checkCRDs (tn_client (turns i)) RequiredGVKs AllOptionalKinds) as [kinds [err|]] eqn:E.
  - repeat case_match; try done; [|by apply IH]. intros [= <-]. apply list_subseteq_nil.
  - intros [= <-] g Hg. destruct (checkCRDs_spec (tn_client (turns i)) RequiredGVKs AllOptionalKinds) as [_ H].
    rewrite E in H. by apply H in Hg as [? _].
Qed.

Lemma discovered_kinds fuel cfg turns pre :
  newGatewayAPIPreconditions fuel cfg turns = Some (inl pre) → pre_InstalledKinds pre ⊆ AllOptionalKinds.
Proof using Type.
  unfold newGatewayAPIPreconditions. destruct (cfg_EnableGatewayAPI cfg); cbn [negb].
  - apply discover_loop_kinds.
  - intros [= <-]. apply list_subseteq_nil.
Qed.

Lemma installed_subseteq kind l l' : l ⊆ l' → installed kind l' = false → installed kind l = false.
Proof using Type.
  intros Hl H. destruct (installed kind l) eqn:E; [|done]. unfold installed in *.
  apply referencegrants.existsb_elem in E as (g & Hg & Eg). rewrite <-H. symmetry.
  apply referencegrants.existsb_elem. exists g. auto.
Qed.

Lemma discovered_no_tls fuel cfg turns pre :
  newGatewayAPIPreconditions fuel cfg turns = Some (inl pre) →
  tlsRouteEnabled (enabledKinds (pre_InstalledKinds pre)) = false.
Proof using Type.
  intros H%discovered_kinds. rewrite enabledKinds_spec. cbn. by eapply installed_subseteq.
Qed.

End Facts.

(** ** Theorems *)

Section Theorems.
Context {client : Client} {errors : ApiErrorText} {scheme : Scheme} {names : EnvoyConfigNames} {range : MapRange}
  {kerrors : K8sErrors}.

(** Setting up the controller ends without an error exactly if every index is
    registered and the controller completed; the indexes are then those that the
    lists of the handlers use. *)
Theorem SetupWithManager_spec IndexField Complete l :
  let e := enabledKinds l in
  let res := SetupWithManager IndexField Complete l in
  (res.2 = None ↔ (∀ k n, (k, n) ∈ (fieldIndexes e).*1 → IndexField k n = None) ∧ Complete (watched_types e) = None) ∧
  (res.2 = None → ∀ k n, (k, n) ∈ res.1 → n ∈ (registered (setup_of e) k).*1).
Proof using Type.
  cbv zeta. unfold SetupWithManager. cbv zeta. set (e := enabledKinds l).
  destruct (registerFieldIndexes_spec IndexField (fieldIndexes e)) as [H1 H2].
  assert ((∀ k n, (k, n) ∈ (fieldIndexes e).*1 → IndexField k n = None) ↔
          ∀ k n p, (k, n, p) ∈ fieldIndexes e → IndexField k n = None) as Hall.
  { split; intros H k n.
    - intros p Hp. apply H. apply list_elem_of_fmap. by exists (k, n, p).
    - intros ([[k' n'] p] & [= <- <-] & Hp)%list_elem_of_fmap. by eapply H. }
  rewrite Hall, <-H1. destruct (registerFieldIndexes IndexField (fieldIndexes e)) as [calls [err|]]; cbn in *.
  - split; [split; [done|by intros [? _]]|done].
  - split; [destruct (Complete _); cbn; naive_solver|]. intros _ k n Hin.
    assert ((k, n) ∈ (fieldIndexes e).*1) as Hf.
    { rewrite <-(H2 eq_refl). by destruct (Complete _). }
    clear -Hf. apply elem_of_fieldIndexes in Hf. destruct k; cbn; try done; destruct e as [[] ? ? [] []]; cbn in *;
      set_solver.
Qed.

(** The four controllers together register every index that is looked up by name,
    and no index twice, which the cache would refuse. *)
Theorem allIndexes_exact e :
  NoDup (allIndexes e) ∧ ∀ k n, (k, n) ∈ allIndexes e ↔ n ∈ (registered (setup_of e) k).*1.
Proof using Type.
  split.
  - unfold allIndexes, gatewayclass_indexes, fieldIndexes.
    destruct e as [[] tcp udp [] []]; cbn [tlsRouteEnabled serviceImportEnabled listenerSetEnabled];
      (rewrite !ranged_perm by (apply (bool_decide_eq_true_1 _); vm_compute; reflexivity));
      apply (bool_decide_eq_true_1 _); vm_compute; reflexivity.
  - intros k n. unfold allIndexes. rewrite !elem_of_app, elem_of_fieldIndexes.
    assert ((k, n) ∈ gatewayclass_indexes ↔ k = KGatewayClass ∧ n = GatewayClassDolphinGatewayClassConfigsIndex) as ->.
    { unfold gatewayclass_indexes. rewrite list_elem_of_fmap. setoid_rewrite elem_of_ranged. set_solver. }
    unfold grpcroute_indexes, tlsroute_indexes, setup_of.
    destruct e as [tls ? ? si ls]; destruct k; cbn; try (clear; set_solver); destruct tls, si, ls; clear; set_solver.
Qed.

(** C14: the Gateway controller never watches TLSRoutes.  The kinds that discovery
    reports as installed are the optional ones, and TLSRoute is a required one: so
    whatever the API server answers, the flag for TLSRoutes stays off, no index of
    TLSRoutes is registered by the controller, and no change of a TLSRoute puts a
    Gateway on the queue. *)
Theorem TLSRoutes_unwatched fuel cfg turns pre IndexField Complete tcp udp w r :
  newGatewayAPIPreconditions fuel cfg turns = Some (inl pre) →
  let e := enabledKinds (pre_InstalledKinds pre) in
  gateway_scheme.mkGoType "gatewayv1" "TLSRoute" ∉ watched_types e ∧
  (∀ n, (KTLSRoute, n) ∉ (SetupWithManager IndexField Complete (pre_InstalledKinds pre)).1) ∧
  gateway_watches.watches (setup_of e) tcp udp w (gateway_watches.ChangedTLSRoute r) = Ok [].
Proof using Type.
  intros H%discovered_no_tls e. fold e in H. split_and!.
  - unfold watched_types. rewrite H. destruct (tcpRouteEnabled e), (udpRouteEnabled e), (serviceImportEnabled e); set_solver.
  - intros n Hn. assert ((KTLSRoute, n) ∈ (fieldIndexes e).*1) as [Hf _]%elem_of_fieldIndexes; [|congruence].
    revert Hn. unfold SetupWithManager. cbv zeta. fold e. generalize (fieldIndexes e). intros l.
    enough (∀ c, c ∈ (registerFieldIndexes IndexField l).1 → c ∈ l.*1) as Hsub.
    { destruct (registerFieldIndexes IndexField l) as [calls [err|]]; [apply Hsub|]. destruct (Complete _); apply Hsub. }
    clear. induction l as [|[[k m] p] l IH]; intros c; cbn [registerFieldIndexes]; [done|].
    destruct (IndexField k m); [set_solver|]. destruct (registerFieldIndexes IndexField l) as [calls res]. set_solver.
  - unfold gateway_watches.watches. cbn. by rewrite H.
Qed.

(** The watch of ServiceImports is one of a type that the scheme is not given: the
    controller watches the version v1alpha1, the scheme learns v1beta1. *)
Theorem ServiceImport_unknown {lib : gateway_scheme.SchemeLib} {laws : gateway_scheme.SchemeLaws} l s :
  installed ServiceImportKind l = true → gateway_scheme.fresh s →
  (∀ v, ∃ v', gateway_scheme.v1beta1_Install v = inl v') →
  let t := gateway_scheme.mkGoType "mcsapiv1alpha1" "ServiceImport" in
  let gv := gateway_scheme.mkGV "multicluster.x-k8s.io" "v1alpha1" in
  t ∈ watched_types (enabledKinds l) ∧
  ∃ s', gateway_scheme.AddToScheme s = Ok (s', None) ∧
    gateway_scheme.knows s' gv t = gateway_scheme.knows s gv t.
Proof using Type.
  intros Hi Hf Hv t gv. split.
  - rewrite enabledKinds_spec. unfold watched_types. cbn [serviceImportEnabled]. rewrite Hi, !elem_of_cons, !elem_of_app. set_solver.
  - destruct (gateway_scheme.run_all s (map_keys gateway_scheme.addToSchema) s Hf Hv) as (s' & E & Hw & Hm & _); [by left|].
    exists s'. split; [exact E|]. specialize (Hw gv t). specialize (Hm gv t).
    destruct (gateway_scheme.knows s gv t); [by apply Hm|].
    destruct (gateway_scheme.knows s' gv t); [|done].
    destruct (Hw eq_refl) as [?|[(gvk & Hk & Hg & _)|[? _]]]; [done| |done].
    assert (Forall (λ gvk, gateway_scheme.gvk_GroupVersion gvk ≠ gv) gateway_scheme.kinds) as Hall
      by (repeat (constructor; [done|]); constructor).
    eapply Forall_forall in Hall; [|exact Hk]. by destruct Hall.
Qed.

End Theorems.

End gateway_setup.
