(* ===== verification/IngressSettled.v ===== *)
(** * The Ingress reconciler settles
    A reconcile run that succeeds leaves nothing to do: the next run that
    succeeds writes every object back as it is stored.  The proof goes through an
    equivalence of worlds (the same objects are stored), a coarser one (the same
    Ingresses up to their statuses), on which the shared configuration depends,
    and computations that are [quiet] in a world: those that leave it as it is.
    No definition here models code; the operations are those of
    [IngressReconcile]. *)

From S2P Require Import Prelude GoStrings ApiTypes Model Hostnames Envoy Translator TranslatorFacts.
From S2P Require Import FrontTranslators Annotations IngressIngestion IngressTranslator ApiServer.
From S2P Require Import IngressReconcile WatchesFacts.
Import k8s.
Import api.
Import translation.
Import ingress_reconcile.

Module ingress_settled.

(** ** Worlds with the same objects *)

Section Worlds.
Context {client : Client}.

#[export] Instance world_equiv : Equiv World := λ w w', ∀ k n, stored k w n = stored k w' n.

#[export] Instance world_equivalence : Equivalence (≡@{World}).
Proof. split; [done| |]; [by intros w w' H k n|]. intros w1 w2 w3 H1 H2 k n. by rewrite (H1 k n). Qed.

#[export] Instance stored_proper k : Proper ((≡) ==> (=) ==> (=)) (stored k).
Proof. by intros w w' H n ? <-. Qed.

(** An Ingress without its status. *)
Definition spec_of (o : IngressObject) : IngressObject := set_Status o None.

Definition same_specs : relation World := λ w w',
  ∀ n, spec_of <$> stored KIngress w n = spec_of <$> stored KIngress w' n.

#[export] Instance same_specs_equivalence : Equivalence same_specs.
Proof. split; [done| |]; [by intros w w' H n|]. intros w1 w2 w3 H1 H2 n. by rewrite (H1 n). Qed.

#[export] Instance same_specs_equiv : subrelation (≡) same_specs.
Proof. intros w w' H n. by rewrite (H KIngress n). Qed.

Lemma same_specs_frame (F : Kind → NamespacedName → Prop) w w' :
  (∀ n, ¬ F KIngress n) → frame F w w' → same_specs w w'.
Proof. intros HF Hf n. by rewrite (Hf KIngress n (HF n)). Qed.

(** ** Quiet computations *)

(** From a world with the objects of [w], a run that succeeds ends in one, with a
    result in [Q]. *)
Definition quiet {A} (w : World) (Q : A → Prop) (m : R A) : Prop :=
  ∀ w1 w2 a, w1 ≡ w → m w1 = Ok (w2, inl a) → w2 ≡ w ∧ Q a.

Lemma quiet_ret {A} w (Q : A → Prop) a : Q a → quiet w Q (mret a : R A).
Proof. by intros HQ w1 w2 b Hw [= <- <-]. Qed.

Lemma quiet_fail {A} w (Q : A → Prop) e : quiet w Q (fail e : R A).
Proof. by intros w1 w2 b Hw. Qed.

Lemma quiet_bind {A B} w (P : A → Prop) (Q : B → Prop) (m : R A) (f : A → R B) :
  quiet w P m → (∀ a, P a → quiet w Q (f a)) → quiet w Q (m ≫= f).
Proof.
  intros Hm Hf w1 w2 b Hw (a & w' & H1 & H2)%R_bind_inl. destruct (Hm _ _ _ Hw H1) as [Hw' HP].
  by eapply Hf.
Qed.

Lemma quiet_then {A B} w (Q : B → Prop) (m : R A) (f : A → R B) :
  quiet w (λ _, True) m → (∀ a, quiet w Q (f a)) → quiet w Q (m ≫= f).
Proof. intros Hm Hf. by eapply quiet_bind. Qed.

(** An error that is taken as a value and then fails the computation. *)
Lemma quiet_attempt {A B} w (Q : B → Prop) (m : R A) (f : A + error → R B) :
  quiet w (λ _, True) m → (∀ a, quiet w Q (f (inl a))) →
  (∀ e w1 w2, m w1 = Ok (w2, inr e) → f (inr e) = fail e) → quiet w Q (attempt m ≫= f).
Proof.
  intros Hm Hf He w1 w2 b Hw. rewrite R_bind_eq. unfold attempt.
  destruct (m w1) as [[w' [a|e]]|] eqn:E; [| |done].
  - destruct (Hm _ _ _ Hw E) as [Hw' _]. by apply Hf.
  - by rewrite (He _ _ _ E).
Qed.

Lemma quiet_fold {A} w (f : unit → A → R unit) l :
  (∀ i, i ∈ l → quiet w (λ _, True) (f tt i)) → quiet w (λ _, True) (R_fold f tt l).
Proof.
  induction l as [|x l IH]; intros Hf; [by apply quiet_ret|]. cbn [R_fold].
  apply quiet_then; [by apply Hf; left|]. intros []. apply IH. intros i Hi. apply Hf. by right.
Qed.

End Worlds.

Section Writes.
Context {client : Client} {laws : ClientLaws} {range : MapRange}.

Lemma get_opt_inl w w' k n o : get_opt k n w = Ok (w', inl o) → w' = w ∧ o = stored k w n.
Proof using laws.
  unfold get_opt. destruct (cl_Get k n w) as [o'|[]] eqn:E; intros [= <- <-]; (split; [done|]).
  - by rewrite (Get_found _ _ _ _ E).
  - by rewrite (Get_NotFound _ _ _ E).
Qed.

Lemma quiet_get_opt w k n : quiet w (λ o, o = stored k w n) (get_opt k n).
Proof using laws. intros w1 w2 o Hw [-> ->]%get_opt_inl. by rewrite (Hw k n). Qed.

(** A write that stores what is there already. *)
Lemma equiv_only k n w w' : frame (only k n) w w' → stored k w' n = stored k w n → w' ≡ w.
Proof.
  intros Hf Hs k' n'. destruct (decide (k' = k)) as [->|Hk]; [|by apply Hf; intros [? _]].
  destruct (decide (n' = n)) as [->|Hn]; [done|]. by apply Hf; intros [_ ?].
Qed.

Definition fixed (w : World) (k : Kind) (desired : object k) (f : object k → object k) : Prop :=
  ∃ cur, stored k w (key desired) = Some cur ∧ f cur = cur.

Lemma quiet_CreateOrUpdate w k (o : object k) f :
  fixed w k o f → quiet w (λ _, True) (write (cl_CreateOrUpdate k o f)).
Proof using laws.
  intros (cur & Hc & Hf) w1 w2 [] Hw [Hs HF]%write_CreateOrUpdate. split; [|done].
  transitivity w1; [|done]. apply (equiv_only k (key o)); [done|]. rewrite Hs, (Hw k (key o)), Hc. cbn. by rewrite Hf.
Qed.

Lemma quiet_UpdateStatus w k (o cur : object k) :
  stored k w (key o) = Some cur → with_status cur o = cur → quiet w (λ _, True) (write (cl_UpdateStatus k o)).
Proof using laws.
  intros Hc Hf w1 w2 [] Hw H%write_inl. split; [|done]. transitivity w1; [|done].
  apply (equiv_only k (key o)); [by eapply UpdateStatus_frame|].
  rewrite (UpdateStatus_done _ _ _ _ H), (Hw k (key o)), Hc. cbn. by rewrite Hf.
Qed.

Lemma quiet_tryDeleting w k n : stored k w n = None → quiet w (λ _, True) (tryDeletingResource k n).
Proof using laws.
  intros Hn. eapply quiet_bind; [apply quiet_get_opt|]. intros o ->. rewrite Hn. by apply quiet_ret.
Qed.

Lemma quiet_cleanupDedicated w req :
  stored KService w (dedicatedName req) = None → stored KEndpoints w (dedicatedName req) = None →
  stored KDEC w (dedicatedDECName req) = None → quiet w (λ _, True) (tryCleanupDedicatedResources req).
Proof using laws.
  intros H1 H2 H3. apply quiet_fold. intros i _.
  destruct (dedicatedResources req !! i) as [[k n]|] eqn:E; [|by apply quiet_ret].
  apply quiet_tryDeleting. unfold dedicatedResources in E.
  repeat (apply lookup_insert_Some in E as [[_ [= <- <-]]|[_ E]]; [done|]).
  by apply lookup_singleton_Some in E as [_ [= <- <-]].
Qed.

(** A write of a desired object, whose mutation forgets what it mutates, leaves
    it fixed. *)
Lemma write_fixed k (o : object k) f w w' :
  (∀ cur, f (f cur) = f cur) → write (cl_CreateOrUpdate k o f) w = Ok (w', inl tt) → fixed w' k o f.
Proof using laws. intros Hf [Hs _]%write_CreateOrUpdate. eexists. split; [exact Hs|apply Hf]. Qed.

Lemma fixed_stored w w' k (o : object k) f :
  stored k w' (key o) = stored k w (key o) → fixed w k o f → fixed w' k o f.
Proof. intros E (cur & Hc & Hf). exists cur. by rewrite E. Qed.

End Writes.

Lemma mutateDEC_idem d cur : mutateDEC d (mutateDEC d cur) = mutateDEC d cur.
Proof. unfold mutateDEC. cbn. by rewrite !mergeMap_nil. Qed.

Lemma mutateService_idem d cur : mutateService d (mutateService d cur) = mutateService d cur.
Proof. unfold mutateService. cbn. by rewrite !mergeMap_nil. Qed.

Lemma mutateEndpoints_idem d cur : mutateEndpoints d (mutateEndpoints d cur) = mutateEndpoints d cur.
Proof. unfold mutateEndpoints. cbn. by rewrite !mergeMap_nil. Qed.

(** ** The shared configuration depends on the specs of the Ingresses *)

Section Shared.
Context {client : Client} {laws : ClientLaws}.
Context {infra : Infra} {pb : Proto} {range : MapRange} {ann : Annotation}.
Context (hops : Z) (label : string) (r : ingressReconciler).

Definition explicit_class (o : IngressObject) : Prop := ∃ c, ingressClassName o = Some c ∧ c ≠ "".

(** Every stored Ingress is admitted, has only Services for backends and names a
    class; its namespace has no slash. *)
Definition ingresses_ok (w : World) : Prop :=
  ∀ n o, stored KIngress w n = Some o →
    ingress_ingestion.service_ingress (io_ing o) ∧ explicit_class o ∧
    watches_facts.no_slash (nn_Namespace n).

Lemma ingresses_ok_specs w w' : same_specs w w' → ingresses_ok w → ingresses_ok w'.
Proof.
  intros Hw Hok n o Ho. specialize (Hw n). rewrite Ho in Hw.
  destruct (stored KIngress w n) as [o'|] eqn:E; [|done]. destruct (Hok _ _ E) as (H1 & H2 & H3).
  destruct o, o'. cbn in Hw. injection Hw as -> _ -> _. done.
Qed.

Definition managed_by_class (o : IngressObject) : bool :=
  bool_decide (ingressClassName o = Some dolphinIngressClassName).

Lemma managed_run o w : explicit_class o → isdolphinManagedIngress o w = Ok (w, inl (managed_by_class o)).
Proof.
  intros (c & Hc & Hne). unfold isdolphinManagedIngress, managed_by_class. rewrite Hc, R_bind_eq. cbn [lift deref].
  rewrite (proj2 (String.eqb_neq _ _) Hne).
  destruct (String.eqb_spec c dolphinIngressClassName) as [->|H]; [by rewrite bool_decide_true|].
  rewrite bool_decide_false; [done|]. by intros [= ->].
Qed.

Lemma addShared_run m o w w1 x :
  explicit_class o → addSharedIngress r m o w = Ok (w1, x) →
  w1 = w ∧ ∀ w', addSharedIngress r m (spec_of o) w' = Ok (w', x).
Proof.
  intros Hc. unfold addSharedIngress. rewrite R_bind_eq, managed_run by done.
  assert (Hr : ∀ w', isdolphinManagedIngress (spec_of o) w' = Ok (w', inl (managed_by_class o))).
  { intros w'. by rewrite managed_run. }
  intros H. enough (Hx : ∀ w', w1 = w ∧ addSharedIngress r m (spec_of o) w' = Ok (w', x)).
  { split; [apply (Hx w)|intros w'; apply Hx]. }
  intros w'. unfold addSharedIngress. rewrite R_bind_eq, Hr. revert H. cbn [io_ing io_Deleted spec_of set_Status].
  change (isEffectiveLoadbalancerModeDedicated r (spec_of o)) with (isEffectiveLoadbalancerModeDedicated r o).
  destruct (_ || _ || _); [by intros [= <- <-]|].
  destruct (getSharedListenerPorts r) as [[? ip] sp].
  destruct (annotations.GetAnnotationTLSPassthroughEnabled _); rewrite !R_bind_eq; unfold lift.
  - destruct (ingress_ingestion.IngressPassthrough _); [by intros [= <- <-]|done].
  - destruct (ingress_ingestion.Ingress _ _ _ _ _ _ _); [by intros [= <- <-]|done].
Qed.

Lemma addShared_fold m l w w1 x :
  Forall explicit_class l → R_fold (addSharedIngress r) m l w = Ok (w1, x) →
  w1 = w ∧ ∀ w', R_fold (addSharedIngress r) m (spec_of <$> l) w' = Ok (w', x).
Proof.
  intros Hl. revert m w. induction Hl as [|o l Ho _ IH]; intros m w; [by intros [= <- <-]|].
  cbn [R_fold]. rewrite R_bind_eq. destruct (addSharedIngress r m o w) as [[w2 [m2|e]]|] eqn:E; [| |done].
  - apply addShared_run in E as [-> E]; [|done]. intros [-> H]%IH. split; [done|]. intros w'.
    change (spec_of <$> o :: l) with (spec_of o :: (spec_of <$> l)). cbn [R_fold]. by rewrite R_bind_eq, E.
  - intros [= <- <-]. apply addShared_run in E as [-> E]; [|done]. split; [done|]. intros w'.
    change (spec_of <$> o :: l) with (spec_of o :: (spec_of <$> l)). cbn [R_fold]. by rewrite R_bind_eq, E.
Qed.

(** Sorting and dropping the statuses commute. *)
Lemma sort_specs l : spec_of <$> sort_stable ingress_less l = sort_stable ingress_less (spec_of <$> l).
Proof.
  assert (Hins : ∀ o k, spec_of <$> insert_stable ingress_less o k =
                        insert_stable ingress_less (spec_of o) (spec_of <$> k)).
  { intros o k. induction k as [|y k IH]; [done|]. cbn. change (ingress_less (spec_of y) (spec_of o)) with (ingress_less y o).
    destruct (ingress_less y o); [|done]. cbn. by rewrite <-IH. }
  induction l as [|o l IH]; [done|]. cbn. rewrite Hins. unfold sort_stable in IH. by rewrite IH.
Qed.

Lemma listed_spec w l x :
  cl_List KIngress (λ _, true) w = inl l →
  x ∈ spec_of <$> l ↔ spec_of <$> stored KIngress w (key (k:=KIngress) x) = Some x.
Proof using laws.
  intros Hl. rewrite list_elem_of_fmap. split.
  - intros (o & -> & Ho). apply (List_spec _ _ _ _ _ Hl) in Ho as [Ho _]. change (key (k:=KIngress) (spec_of o)) with (key (k:=KIngress) o). by rewrite Ho.
  - destruct (stored KIngress w _) as [o|] eqn:E; [|done]. intros [= Hx]. exists o. split; [done|].
    apply (List_spec _ _ _ _ _ Hl). split; [|done]. rewrite <-Hx in E. exact E.
Qed.

Lemma listed_perm w w' l l' :
  same_specs w w' → cl_List KIngress (λ _, true) w = inl l → cl_List KIngress (λ _, true) w' = inl l' →
  spec_of <$> l ≡ₚ spec_of <$> l'.
Proof using laws.
  assert (Hnd : ∀ (k : list IngressObject), NoDup (key (k:=KIngress) <$> k) → NoDup (spec_of <$> k)).
  { intros k Hk. apply (NoDup_fmap_1 (key (k:=KIngress))). rewrite <-list_fmap_compose. exact Hk. }
  intros Hw Hl Hl'. apply NoDup_Permutation; [by eapply Hnd, List_NoDup|by eapply Hnd, List_NoDup|].
  intros x. rewrite (listed_spec w l), (listed_spec w' l') by done. by rewrite (Hw (key (k:=KIngress) x)).
Qed.

(** Two builds from the same specs give the same configuration. *)
Lemma buildShared_same w w' wa wb d d' :
  ingresses_ok w → same_specs w w' →
  buildSharedResources hops label r w = Ok (wa, inl d) →
  buildSharedResources hops label r w' = Ok (wb, inl d') → d = d'.
Proof using laws.
  intros Hok Hw (l & w1 & H1 & H2)%R_bind_inl (l' & w1' & H1' & H2')%R_bind_inl.
  unfold read in H1, H1'. destruct (cl_List _ _ w) as [l0|] eqn:El; [|done]. injection H1 as <- ->.
  destruct (cl_List _ _ w') as [l0'|] eqn:El'; [|done]. injection H1' as <- ->.
  apply R_bind_inl in H2 as (m & w2 & H2 & H3), H2' as (m' & w2' & H2' & H3').
  assert (Hcls : ∀ v k, ingresses_ok v → cl_List KIngress (λ _, true) v = inl k →
                  Forall explicit_class (sort_stable ingress_less k)).
  { intros v k Hv Hk. apply Forall_forall. intros o Ho%elem_of_sort_stable.
    apply (List_spec _ _ _ _ _ Hk) in Ho as [Ho _]. by apply Hv in Ho as (_ & ? & _). }
  pose proof (ingresses_ok_specs _ _ Hw Hok) as Hok'.
  apply addShared_fold in H2 as [_ H2], H2' as [_ H2']; [|by apply (Hcls w')|by apply (Hcls w)].
  assert (spec_of <$> sort_stable ingress_less l = spec_of <$> sort_stable ingress_less l') as Es.
  { rewrite !sort_specs. apply sort_stable_unique; [intros ? ?; apply str_ltb_asym|intros ? ? ?; apply str_le_trans| |].
    - by eapply listed_perm.
    - intros x y Hx Hy Hxy Hyx. rewrite (listed_spec w l) in Hx, Hy by done.
      destruct (stored KIngress w (key (k:=KIngress) x)) as [ox|] eqn:Ex; [|done].
      destruct (stored KIngress w (key (k:=KIngress) y)) as [oy|] eqn:Ey; [|done].
      assert (key (k:=KIngress) x = key (k:=KIngress) y) as Ek.
      { apply watches_facts.nn_String_inj; [by eapply Hok|by eapply Hok|]. by apply str_le_antisym. }
      rewrite Ek in Ex. congruence. }
  specialize (H2 w). rewrite Es, H2' in H2. injection H2 as ->.
  apply R_bind_inl in H3 as (dec & w3 & H3 & [= _ <-]), H3' as (dec' & w3' & H3' & [= _ <-]).
  unfold lift in H3, H3'. destruct (translation.Translate _ _ _ _); [|done]. by injection H3 as _ <-; injection H3' as _ <-.
Qed.

End Shared.

(** ** What a successful run leaves *)

Section Settled.
Context {client : Client} {laws : ClientLaws}.
Context {infra : Infra} {pb : Proto} {range : MapRange} {ann : Annotation}.
Context (hops : Z) (label : string) (r : ingressReconciler).

Abbreviation buildShared := (buildSharedResources hops label r).
Abbreviation buildDedicated := (buildDedicatedResources hops label r).

Lemma buildShared_equiv w w' x : buildShared w = Ok (w', x) → w' ≡ w.
Proof. intros H k n. apply (framed_buildShared hops label r (λ _ _, False) _ _ _ H). intros []. Qed.

(** *** The shared configuration *)

Definition shared_settled (w : World) : Prop :=
  ∀ v u d, same_specs w v → buildShared v = Ok (u, inl d) → fixed w KDEC d (mutateDEC d).

Lemma shared_after w w1 :
  ingresses_ok w → tryCleanupSharedResources hops label r w = Ok (w1, inl tt) →
  shared_settled w1 ∧ frame (only KDEC (shared_key r)) w w1.
Proof using laws.
  intros Hok H.
  assert (Hf : frame (only KDEC (shared_key r)) w w1).
  { eapply framed_cleanupShared; [|exact H]. done. }
  split; [|done]. apply R_bind_inl in H as (d & wx & H1 & H2). intros v u d' Hv Hd'.
  assert (d' = d) as ->.
  { symmetry. eapply (buildShared_same hops label r w v); [done| |done..].
    etransitivity; [|exact Hv]. eapply same_specs_frame; [|exact Hf]. by intros n [? _]. }
  eapply write_fixed; [apply mutateDEC_idem|exact H2].
Qed.

Lemma shared_settled_stored w w' :
  same_specs w w' → stored KDEC w' (shared_key r) = stored KDEC w (shared_key r) →
  shared_settled w → shared_settled w'.
Proof.
  intros Hw Hs Hset v u d Hv Hd. pose proof (buildShared_key _ _ _ _ _ _ Hd) as Hk.
  eapply fixed_stored; [by rewrite Hk|]. eapply Hset; [|exact Hd]. by transitivity w'.
Qed.

Lemma quiet_shared w : shared_settled w → quiet w (λ _, True) (tryCleanupSharedResources hops label r).
Proof using laws.
  intros Hset w1 w2 [] Hw (d & wx & H1 & H2)%R_bind_inl.
  eapply quiet_CreateOrUpdate; [|by etransitivity; [eapply buildShared_equiv|]|exact H2].
  eapply Hset; [|exact H1]. by apply same_specs_equiv.
Qed.

(** *** The dedicated objects *)

Lemma buildDedicated_spec o s w : buildDedicated (set_Status o s) w = buildDedicated o w.
Proof using laws.
  assert (Hs : ∀ refs, cl_SetControllerReference KIngress (set_Status o s) refs = cl_SetControllerReference KIngress o refs).
  { intros refs. by rewrite <-(SetControllerReference_status KIngress o (set_Status o s)). }
  unfold buildDedicatedResources. rewrite !R_bind_eq. cbn [io_ing set_Status].
  destruct (ingress.dedicatedModel _ _) as [m|]; [|done]. cbn [lift]. rewrite !R_bind_eq.
  destruct (ingress.TranslateDedicated _ _ _ _) as [[[[decp svc] ep]|e]|]; [|done..]. cbn [lift]. rewrite !R_bind_eq.
  destruct decp as [dec|]; [|done]. cbn [lift deref]. by rewrite Hs.
Qed.

Definition dedicated_settled (o : IngressObject) (w : World) : Prop :=
  ∀ dec svc ep, (∀ v, buildDedicated o v = Ok (v, inl (dec, svc, ep))) →
    fixed w KDEC dec (mutateDEC dec) ∧ fixed w KService svc (mutateService svc) ∧
    fixed w KEndpoints ep (mutateEndpoints ep).

Lemma dedicated_after o w w1 :
  ingress_ingestion.service_ingress (io_ing o) →
  createOrUpdateDedicatedResources hops label r o w = Ok (w1, inl tt) → dedicated_settled o w1.
Proof using laws.
  intros Hv H dec svc ep Hb. apply R_bind_inl in H as (t & w0 & H0 & H). rewrite Hb in H0. injection H0 as <- <-.
  apply R_bind_inl in H as ([] & w2 & H1 & H). apply R_bind_inl in H as ([] & w3 & H2 & H3).
  pose proof (write_CreateOrUpdate _ _ _ _ _ H2) as [_ F2]. pose proof (write_CreateOrUpdate _ _ _ _ _ H3) as [_ F3].
  split_and!.
  - eapply fixed_stored, write_fixed; [|apply mutateDEC_idem|exact H1].
    rewrite (F3 KDEC), (F2 KDEC); [done|by intros [? _]..].
  - eapply fixed_stored, write_fixed; [|apply mutateService_idem|exact H2]. by apply (F3 KService); intros [? _].
  - eapply write_fixed; [apply mutateEndpoints_idem|exact H3].
Qed.

Lemma dedicated_settled_stored o w w' :
  ingress_ingestion.service_ingress (io_ing o) → dedicated_settled o w →
  stored KDEC w' (dedicatedDECName (ingressKey (io_ing o))) = stored KDEC w (dedicatedDECName (ingressKey (io_ing o))) →
  stored KService w' (dedicatedName (ingressKey (io_ing o))) = stored KService w (dedicatedName (ingressKey (io_ing o))) →
  stored KEndpoints w' (dedicatedName (ingressKey (io_ing o))) = stored KEndpoints w (dedicatedName (ingressKey (io_ing o))) →
  dedicated_settled o w'.
Proof.
  intros Hv Hset E1 E2 E3 dec svc ep Hb. destruct (buildDedicated_outcome hops label r o Hv) as (res & Hrun & Hkeys).
  specialize (Hrun w) as Hw. rewrite Hb in Hw. injection Hw as <-. destruct (Hkeys _ _ _ eq_refl) as [K1 K2 K3].
  destruct (Hset _ _ _ Hb) as (H1 & H2 & H3).
  split_and!; (eapply fixed_stored; [|done]); [by rewrite K1|by rewrite K2|by rewrite K3].
Qed.

Lemma quiet_dedicated o s w :
  ingress_ingestion.service_ingress (io_ing o) → dedicated_settled o w →
  quiet w (λ _, True) (createOrUpdateDedicatedResources hops label r (set_Status o s)).
Proof using laws.
  intros Hv Hset. destruct (buildDedicated_outcome hops label r o Hv) as (res & Hrun & _).
  eapply (quiet_bind _ (λ t, res = inl t)).
  { intros w1 w2 t Hw. rewrite buildDedicated_spec, Hrun. by intros [= <- ->]. }
  intros [[dec svc] ep] ->. destruct (Hset dec svc ep Hrun) as (H1 & H2 & H3).
  apply quiet_then; [by apply quiet_CreateOrUpdate|]. intros _.
  apply quiet_then; [by apply quiet_CreateOrUpdate|]. intros _. by apply quiet_CreateOrUpdate.
Qed.

(** *** The status *)

(** The Service whose addresses an Ingress reports. *)
Definition lb_service (o : IngressObject) : NamespacedName :=
  if isEffectiveLoadbalancerModeDedicated r o then dedicatedName (ingressKey (io_ing o))
  else mkNamespacedName (rc_dolphinNamespace r) (rc_sharedLBServiceName r).

Definition status_settled (o : IngressObject) (w : World) : Prop :=
  ∀ s, stored KService w (lb_service o) = Some s →
    io_Status <$> stored KIngress w (ingressKey (io_ing o)) =
      Some (convertToNetworkV1IngressLoadBalancerIngress (so_Status s)).

Lemma status_after o w w1 :
  is_Some (stored KIngress w (ingressKey (io_ing o))) →
  updateIngressLoadbalancerStatus r o w = Ok (w1, inl tt) →
  status_settled o w1 ∧ frame (only KIngress (ingressKey (io_ing o))) w w1 ∧ same_specs w w1.
Proof using laws.
  intros [o' Ho'] (svc & w0 & H0 & H)%R_bind_inl. fold (lb_service o) in H0.
  apply (get_opt_inl _ _ KService) in H0 as [-> Hsvc].
  destruct svc as [s|].
  - apply write_inl in H. pose proof (UpdateStatus_frame _ _ _ _ _ H) as Hf.
    change (key (k:=KIngress) (set_Status o _)) with (ingressKey (io_ing o)) in Hf.
    apply UpdateStatus_done in H. change (key (k:=KIngress) (set_Status o _)) with (ingressKey (io_ing o)) in H.
    split_and!; [|done|].
    + intros s' Hs'. rewrite (Hf KService), <-Hsvc in Hs' by (by intros [? _]). injection Hs' as <-.
      by rewrite H, Ho'.
    + intros n. destruct (decide (n = ingressKey (io_ing o))) as [->|Hn]; [by rewrite H, Ho'|].
      rewrite Hf; [done|]. by intros [_ ?].
  - injection H as <-. split_and!; [|apply frame_refl|done]. intros s Hs. congruence.
Qed.

Lemma quiet_status o w :
  stored KIngress w (ingressKey (io_ing o)) = Some o → status_settled o w →
  quiet w (λ _, True) (updateIngressLoadbalancerStatus r o).
Proof using laws.
  intros Ho Hset. eapply quiet_bind; [apply (quiet_get_opt w KService)|]. intros svc Hsvc. fold (lb_service o) in Hsvc.
  destruct svc as [s|]; [|by apply quiet_ret]. specialize (Hset s (eq_sym Hsvc)). rewrite Ho in Hset.
  injection Hset as Hset. eapply quiet_UpdateStatus; [exact Ho|]. cbn. rewrite <-Hset. by destruct o.
Qed.

(** *** A managed Ingress *)

(** No namespace is being deleted: creating an object is not refused for that. *)
Definition namespaces_alive : Prop :=
  ∀ k (o : object k) f w, (cl_CreateOrUpdate k o f w).2 ≠ Some (Forbidden true).

Lemma write_alive k (o : object k) f w w' e :
  namespaces_alive → write (cl_CreateOrUpdate k o f) w = Ok (w', inr e) → isNamespaceTerminating e = false.
Proof.
  intros Ha. specialize (Ha k o f w). unfold write. destruct (cl_CreateOrUpdate k o f w) as [w1 [e'|]]; [|done].
  intros [= <- <-]. by destruct e' as [|[]|].
Qed.

Lemma dedicated_alive o w w' e :
  namespaces_alive →
  createOrUpdateDedicatedResources hops label r o w = Ok (w', inr e) → isNamespaceTerminating e = false.
Proof.
  intros Ha. unfold createOrUpdateDedicatedResources, buildDedicatedResources. rewrite !R_bind_eq.
  destruct (ingress.dedicatedModel _ _) as [m|]; [|done]. cbn [lift]. rewrite !R_bind_eq.
  destruct (ingress.TranslateDedicated _ _ _ _) as [[[[decp svc] ep]|e']|]; [|by intros [= <- <-]|done].
  cbn [lift]. rewrite !R_bind_eq. destruct decp as [dec|]; [|done]. cbn [lift deref]. cbv beta iota.
  destruct (cl_SetControllerReference _ _ _); [|by intros [= <- <-]]. cbn [mret R_mret]. cbv beta iota.
  rewrite R_bind_eq. destruct (createOrUpdateDolphinEnvoyConfig _ _) as [[w1 [[]|e1]]|] eqn:E1; [| |done].
  2: { intros [= <- <-]. by eapply write_alive. }
  rewrite R_bind_eq. destruct (createOrUpdateService _ _) as [[w2 [[]|e2]]|] eqn:E2; [| |done].
  2: { intros [= <- <-]. by eapply write_alive. }
  intros E3. by eapply write_alive.
Qed.

(** The objects are as the Ingress wants them, in either mode. *)
Record settled (o : IngressObject) (w : World) : Prop := {
  settled_shared : shared_settled w;
  settled_mode :
    if isEffectiveLoadbalancerModeDedicated r o then dedicated_settled o w
    else stored KService w (dedicatedName (ingressKey (io_ing o))) = None ∧
         stored KEndpoints w (dedicatedName (ingressKey (io_ing o))) = None ∧
         stored KDEC w (dedicatedDECName (ingressKey (io_ing o))) = None;
  settled_status : status_settled o w
}.

(** What [Reconcile] does for a managed Ingress. *)
Definition reconcileManaged (o : IngressObject) : R unit :=
  go_on ← reconcileMode hops label r (ingressKey (io_ing o)) o;
  if (go_on : bool) then updateIngressLoadbalancerStatus r o else mret tt.

Context (alive : namespaces_alive).

Lemma mode_keeps_Ingresses o w w1 x :
  ingress_ingestion.service_ingress (io_ing o) →
  reconcileMode hops label r (ingressKey (io_ing o)) o w = Ok (w1, x) →
  ∀ n, stored KIngress w1 n = stored KIngress w n.
Proof using laws.
  intros Hv Hrun n.
  assert (framed (λ k _, k ≠ KIngress) (reconcileMode hops label r (ingressKey (io_ing o)) o)) as Hf.
  { unfold reconcileMode. destruct (isEffectiveLoadbalancerModeDedicated r o).
    - apply framed_bind; [by apply framed_attempt, framed_dedicated|]. intros [u|e].
      + apply framed_bind; [by apply framed_cleanupShared|]. intros _. apply framed_ret.
      + case_match; [apply framed_ret|apply framed_fail].
    - apply framed_bind; [by apply framed_cleanupShared|]. intros _.
      apply framed_bind; [by apply framed_cleanupDedicated|]. intros _. apply framed_ret. }
  apply (Hf _ _ _ Hrun). by intros [].
Qed.

Lemma mode_dedicated o w w1 go_on :
  ingresses_ok w → ingress_ingestion.service_ingress (io_ing o) →
  dedicatedDECName (ingressKey (io_ing o)) ≠ shared_key r → isEffectiveLoadbalancerModeDedicated r o = true →
  reconcileMode hops label r (ingressKey (io_ing o)) o w = Ok (w1, inl go_on) →
  go_on = true ∧ shared_settled w1 ∧ dedicated_settled o w1.
Proof using laws alive.
  intros Hok Hv Hne Hmode. unfold reconcileMode. rewrite Hmode, R_bind_eq. unfold attempt.
  destruct (createOrUpdateDedicatedResources hops label r o w) as [[w0 [[]|e]]|] eqn:E; [| |done].
  2: { by rewrite (dedicated_alive _ _ _ _ alive E). }
  intros ([] & w2 & H2 & [= <- <-])%R_bind_inl.
  assert (same_specs w w0) as Hs.
  { eapply (same_specs_frame (λ k _, k ≠ KIngress)); [by intros n []|]. by eapply framed_dedicated; [..|exact E]. }
  apply shared_after in H2 as [H2 F2]; [|by eapply ingresses_ok_specs]. split_and!; [done..|].
  apply (dedicated_settled_stored o w0); [done|by eapply dedicated_after|..]; apply F2; intros [? ?]; congruence.
Qed.

(** The shared configuration is built, the dedicated objects are deleted: this
    happens in shared mode, and for Ingresses of another class. *)
Lemma cleanup_after req w w0 w1 :
  ingresses_ok w → dedicatedDECName req ≠ shared_key r →
  tryCleanupSharedResources hops label r w = Ok (w0, inl tt) →
  tryCleanupDedicatedResources req w0 = Ok (w1, inl tt) →
  shared_settled w1 ∧ (∀ n, stored KIngress w1 n = stored KIngress w n) ∧
  stored KService w1 (dedicatedName req) = None ∧ stored KEndpoints w1 (dedicatedName req) = None ∧
  stored KDEC w1 (dedicatedDECName req) = None.
Proof using laws.
  intros Hok Hne H0 H2. apply shared_after in H0 as [H0 F0]; [|done].
  assert (frame (λ k n, k ≠ KIngress ∧ (k, n) ≠ (KDEC, shared_key r)) w0 w1) as F2.
  { eapply framed_cleanupDedicated; [..|exact H2]; (split; [done|congruence]). }
  destruct (cleanupDedicated_gone _ _ _ H2) as (? & ? & ?). split_and!; [| |done..].
  - eapply shared_settled_stored; [|by apply F2; intros [_ []]|done].
    eapply same_specs_frame; [|exact F2]. by intros n [[] _].
  - intros n. rewrite F2 by (by intros [[] _]). by apply F0; intros [? _].
Qed.

(** A run for a managed Ingress settles its objects. *)
Lemma managed_after o w w1 :
  ingresses_ok w → stored KIngress w (ingressKey (io_ing o)) = Some o →
  dedicatedDECName (ingressKey (io_ing o)) ≠ shared_key r →
  reconcileManaged o w = Ok (w1, inl tt) → settled o w1 ∧ same_specs w w1.
Proof using laws alive.
  intros Hok Ho Hne (go_on & w0 & H0 & H)%R_bind_inl. destruct (Hok _ _ Ho) as (Hv & _ & _).
  pose proof (mode_keeps_Ingresses _ _ _ _ Hv H0) as Hing.
  assert (go_on = true ∧ shared_settled w0 ∧
    if isEffectiveLoadbalancerModeDedicated r o then dedicated_settled o w0
    else stored KService w0 (dedicatedName (ingressKey (io_ing o))) = None ∧
         stored KEndpoints w0 (dedicatedName (ingressKey (io_ing o))) = None ∧
         stored KDEC w0 (dedicatedDECName (ingressKey (io_ing o))) = None) as (-> & Hsh & Hm).
  { destruct (isEffectiveLoadbalancerModeDedicated r o) eqn:Em; [by eapply mode_dedicated|].
    unfold reconcileMode in H0. rewrite Em in H0.
    apply R_bind_inl in H0 as ([] & v & H1 & ([] & v' & H2 & [= <- <-])%R_bind_inl).
    by apply (cleanup_after _ w v) in H2 as (? & _ & ?). }
  apply status_after in H as (Hst & Hf & Hspec); [|by rewrite Hing, Ho].
  assert (same_specs w w0) as Hs0 by (intros n; by rewrite Hing).
  assert (∀ k n, k ≠ KIngress → stored k w1 n = stored k w0 n) as Hk by (intros k n Hk; by apply Hf; intros [? _]).
  split; [|by transitivity w0]. split; [|destruct (isEffectiveLoadbalancerModeDedicated r o)|done].
  - eapply shared_settled_stored; [exact Hspec|by apply Hk|done].
  - by apply (dedicated_settled_stored o w0); [..|apply Hk|apply Hk|apply Hk].
  - by rewrite !Hk.
Qed.

Lemma quiet_managed o s w :
  ingress_ingestion.service_ingress (io_ing o) → settled o w →
  stored KIngress w (ingressKey (io_ing o)) = Some (set_Status o s) →
  quiet w (λ _, True) (reconcileManaged (set_Status o s)).
Proof using laws alive.
  intros Hv [Hsh Hm Hst] Ho. eapply (quiet_bind _ (λ b, b = true)); [|intros ? ->; by apply quiet_status].
  unfold reconcileMode. cbn [io_ing set_Status].
  change (isEffectiveLoadbalancerModeDedicated r (set_Status o s)) with (isEffectiveLoadbalancerModeDedicated r o).
  destruct (isEffectiveLoadbalancerModeDedicated r o).
  - apply quiet_attempt; [by apply quiet_dedicated| |].
    + intros _. apply quiet_then; [by apply quiet_shared|]. intros _. by apply quiet_ret.
    + intros e w1 w2 E. by rewrite (dedicated_alive _ _ _ _ alive E).
  - destruct Hm as (? & ? & ?). apply quiet_then; [by apply quiet_shared|]. intros _.
    apply quiet_then; [by apply quiet_cleanupDedicated|]. intros _. by apply quiet_ret.
Qed.

(** The same Ingress, but for its status. *)
Lemma stored_spec w w1 n o :
  same_specs w w1 → stored KIngress w n = Some o → ∃ s, stored KIngress w1 n = Some (set_Status o s).
Proof.
  intros Hs Ho. specialize (Hs n). rewrite Ho in Hs. destruct (stored KIngress w1 n) as [o'|]; [|done].
  destruct o, o'. cbn in Hs. injection Hs as -> -> -> ->. by eexists.
Qed.

Lemma attempted_status o w w1 x :
  attempt (tryCleanupIngressStatus o) w = Ok (w1, inl x) →
  same_specs w w1 ∧ frame (only KIngress (ingressKey (io_ing o))) w w1.
Proof using laws.
  unfold attempt, tryCleanupIngressStatus, write.
  destruct (cl_UpdateStatus KIngress _ w) as [w' e] eqn:E. intros H. assert (w1 = w') as -> by (destruct e; congruence).
  pose proof (UpdateStatus_frame _ _ _ _ _ E) as Hf. split; [|done]. intros n.
  destruct (decide (n = ingressKey (io_ing o))) as [->|Hn].
  - destruct (UpdateStatus_kept _ _ _ _ _ E) as [s Hs]. cbn in Hs. rewrite Hs.
    by destruct (stored KIngress w _).
  - rewrite Hf; [done|]. by intros [_ ?].
Qed.

(** What [Reconcile] does for an Ingress of another class. *)
Definition reconcileUnmanaged (req : NamespacedName) (o : IngressObject) : R unit :=
  _ ← tryCleanupSharedResources hops label r;
  _ ← tryCleanupDedicatedResources req;
  _ ← attempt (tryCleanupIngressStatus o);
  mret tt.

Lemma unmanaged_after req o w w1 :
  ingresses_ok w → dedicatedDECName req ≠ shared_key r → reconcileUnmanaged req o w = Ok (w1, inl tt) →
  same_specs w w1 ∧ shared_settled w1 ∧ stored KService w1 (dedicatedName req) = None ∧
  stored KEndpoints w1 (dedicatedName req) = None ∧ stored KDEC w1 (dedicatedDECName req) = None.
Proof using laws.
  intros Hok Hne ([] & v & H1 & ([] & v1 & H2 & (x & v2 & H3 & [= <-])%R_bind_inl)%R_bind_inl)%R_bind_inl.
  destruct (cleanup_after req w v v1) as (Hsh & Hing & N1 & N2 & N3); [done..|].
  apply attempted_status in H3 as [Hs Hf].
  assert (∀ k n, k ≠ KIngress → stored k v2 n = stored k v1 n) as Hk by (intros k n Hk; by apply Hf; intros [? _]).
  rewrite !Hk by done. split_and!; [|by eapply shared_settled_stored; [exact Hs|apply Hk|]|done..].
  etransitivity; [|exact Hs]. intros n. by rewrite Hing.
Qed.

Lemma unmanaged_quiet req o w w1 :
  shared_settled w → stored KService w (dedicatedName req) = None →
  stored KEndpoints w (dedicatedName req) = None → stored KDEC w (dedicatedDECName req) = None →
  reconcileUnmanaged req o w = Ok (w1, inl tt) → frame (only KIngress (ingressKey (io_ing o))) w w1.
Proof using laws.
  intros Hsh N1 N2 N3 ([] & v & H1 & ([] & v1 & H2 & (x & v2 & H3 & [= <-])%R_bind_inl)%R_bind_inl)%R_bind_inl.
  destruct (quiet_shared w Hsh _ _ _ (reflexivity w) H1) as [Hv _].
  destruct (quiet_cleanupDedicated w req N1 N2 N3 _ _ _ Hv H2) as [Hv1 _].
  apply attempted_status in H3 as [_ Hf]. intros k n Hn. by rewrite (Hf k n Hn).
Qed.



(** ** Theorem *)

(** A run, by what is stored for the request. *)
Lemma Reconcile_cases req w w1 :
  ingresses_ok w → Reconcile hops label r req w = Ok (w1, inl tt) →
  match stored KIngress w req with
  | None => tryCleanupSharedResources hops label r w = Ok (w1, inl tt)
  | Some o => req = ingressKey (io_ing o) ∧
      if io_Deleted o then w1 = w
      else if managed_by_class o then reconcileManaged o w = Ok (w1, inl tt)
      else reconcileUnmanaged req o w = Ok (w1, inl tt)
  end.
Proof using laws.
  intros Hok (found & w0 & Hg & H)%R_bind_inl. apply (get_opt_inl _ _ KIngress) in Hg as [-> ->].
  destruct (stored KIngress w req) as [o|] eqn:E; [|done]. pose proof (stored_key _ _ _ _ E) as Hk. cbn in Hk.
  split; [done|]. destruct (io_Deleted o); [by injection H|]. rewrite R_bind_eq, managed_run in H by (by eapply Hok).
  cbn zeta iota beta in H. destruct (managed_by_class o); cbn [negb] in H; [|done]. by rewrite <-Hk in H.
Qed.

(** What the first run leaves for the second, by what is stored for the request. *)
Definition left_behind (req : NamespacedName) (w w1 : World) : Prop :=
  match stored KIngress w req with
  | None => shared_settled w1
  | Some o =>
      if io_Deleted o then True
      else if managed_by_class o then settled o w1
      else shared_settled w1 ∧ stored KService w1 (dedicatedName req) = None ∧
           stored KEndpoints w1 (dedicatedName req) = None ∧ stored KDEC w1 (dedicatedDECName req) = None
  end.

Lemma first_run req w w1 :
  ingresses_ok w → dedicatedDECName req ≠ shared_key r →
  Reconcile hops label r req w = Ok (w1, inl tt) → same_specs w w1 ∧ left_behind req w w1.
Proof using laws alive.
  intros Hok Hne H%(Reconcile_cases _ _ _ Hok). unfold left_behind.
  destruct (stored KIngress w req) as [o|] eqn:E.
  - destruct H as [-> H]. destruct (io_Deleted o); [by subst w1|]. destruct (managed_by_class o).
    + by apply managed_after in H as [? ?].
    + by apply unmanaged_after in H.
  - apply shared_after in H as [? Hf]; [|done]. split; [|done].
    eapply same_specs_frame; [|exact Hf]. by intros n [? _].
Qed.

Lemma second_run req w w1 w2 :
  ingresses_ok w → same_specs w w1 → left_behind req w w1 →
  Reconcile hops label r req w1 = Ok (w2, inl tt) →
  frame (only KIngress req) w1 w2 ∧
  ∀ o, stored KIngress w req = Some o → managed_by_class o = true → w2 ≡ w1.
Proof using laws alive.
  intros Hok Hs Hl H%(Reconcile_cases _ _ _ (ingresses_ok_specs _ _ Hs Hok)). unfold left_behind in Hl.
  destruct (stored KIngress w req) as [o|] eqn:E.
  - destruct (stored_spec _ _ _ _ Hs E) as [s Ho]. rewrite Ho in H. destruct H as [-> H]. cbn [io_ing set_Status] in *.
    change (io_Deleted (set_Status o s)) with (io_Deleted o) in H.
    change (managed_by_class (set_Status o s)) with (managed_by_class o) in H.
    destruct (io_Deleted o); [by subst w2|]. destruct (managed_by_class o) eqn:Em.
    + destruct (quiet_managed o s w1 (proj1 (Hok _ _ E)) Hl Ho _ _ _ (reflexivity w1) H) as [Hq _].
      split; [|done]. intros k n _. apply Hq.
    + destruct Hl as (? & ? & ? & ?). split; [by eapply unmanaged_quiet in H|]. intros o' [= <-]. by rewrite Em.
  - specialize (Hs req). rewrite E in Hs. destruct (stored KIngress w1 req); [done|].
    destruct (quiet_shared w1 Hl _ _ _ (reflexivity w1) H) as [Hq _]. split; [|done]. intros k n _. apply Hq.
Qed.

(** C7: reconciling settles.  When no namespace is being deleted and the stored
    Ingresses are admitted, name a class and have only Services for backends, a
    second run that succeeds, right
    after one that did, leaves every object as it is: the Service, the Endpoints
    and both configurations, and the Ingress with its status if it is managed. *)
Theorem Reconcile_settles req w w1 w2 :
  ingresses_ok w → dedicatedDECName req ≠ shared_key r →
  Reconcile hops label r req w = Ok (w1, inl tt) → Reconcile hops label r req w1 = Ok (w2, inl tt) →
  (∀ k n, (k, n) ≠ (KIngress, req) → stored k w2 n = stored k w1 n) ∧
  (∀ o, stored KIngress w req = Some o → ingressClassName o = Some dolphinIngressClassName →
     stored KIngress w2 req = stored KIngress w1 req).
Proof using laws alive.
  intros Hok Hne [Hs Hl]%first_run H2; [|done..]. destruct (second_run req w w1 w2) as [Hf Hm]; [done..|]. split.
  - intros k n Hn. apply Hf. intros [-> ->]. done.
  - intros o Ho Hc. by apply (Hm o Ho (bool_decide_eq_true_2 _ Hc)).
Qed.

End Settled.

(** ** An example *)

Lemma reference_alive : @namespaces_alive reference_client.
Proof. intros k o f w. cbn. unfold ref_CreateOrUpdate. cbv zeta. by destruct (decide _). Qed.

Lemma ex_ingresses_ok : @ingresses_ok reference_client (ex_world (Some "dolphin")).
Proof.
  intros n o Ho. apply ref_stored_elem in Ho as [Ho <-]. vm_compute in Ho. apply list_elem_of_singleton in Ho as ->.
  split_and!; [exact ingress_ingestion.ex_ingress_valid|by exists "dolphin"|done].
Qed.

Definition ex_again : RefWorld :=
  match ex_run (ex_after (Some "dolphin")) with Ok (w, _) => w | Panic _ => [] end.

Lemma Reconcile_settles_witness :
  (∀ k n, (k, n) ≠ (KIngress, ex_req) → ref_stored k ex_again n = ref_stored k (ex_after (Some "dolphin")) n) ∧
  ref_stored KIngress ex_again ex_req = ref_stored KIngress (ex_after (Some "dolphin")) ex_req.
Proof.
  destruct (@Reconcile_settles reference_client reference_client_laws reference_infra reference_proto
    forward_range reference_annotation 0%Z "label" ex_reconciler reference_alive ex_req
    (ex_world (Some "dolphin")) (ex_after (Some "dolphin")) ex_again ex_ingresses_ok) as [H1 H2].
  - done.
  - vm_compute. reflexivity.
  - vm_compute. reflexivity.
  - split; [exact H1|]. apply (H2 (ex_object (Some "dolphin"))); vm_compute; reflexivity.
Defined.

End ingress_settled.
