(* ===== verification/GatewaySample.v ===== *)
(** * A concrete Gateway

    [Module gateway_sample]: a world with a Gateway, its class, an HTTPRoute and a
    backend Service, in which the theorems about the Gateway controllers are put
    to use.  The parts that stand for code outside the repository are small
    concrete functions. *)

From S2P Require Import Prelude GoStrings ApiTypes Model Hostnames Helpers Ingestion Envoy Translator TranslatorFacts FrontTranslators ApiServer Status RouteChecker RouteCheckerFacts RouteInputs RouteControllers RouteReconcile GatewayListeners GatewayListenersFacts ListenerStatus ListenerStatusFacts RouteStatus RouteStatusFacts PolicyStatus PolicyStatusFacts GatewayReconcile GatewayReconcileFacts GatewayTotal GatewayClass Watches WatchesFacts Discovery GatewaySetup.
Import k8s gatewayv1 api types namespaces status gateway_helpers gateway_listeners listener_status listener_status_facts route_status route_status_facts gateway_reconcile gateway_reconcile_facts gateway_total indexers watch_handlers gateway_watches watches_facts.

Module gateway_sample.

#[local] Existing Instance reference_client.
#[local] Existing Instance sample.plain_errors.
#[local] Existing Instance sample.plain_scheme.
#[local] Existing Instance sample.no_selectors.
#[local] Existing Instance sample.fixed_clock.
#[local] Existing Instance certs.toy_pem.
#[local] Existing Instance reference_infra.
#[local] Existing Instance reference_proto.
#[local] Existing Instance forward_range.

#[local] Instance compiles : Regexp := {| regexp_Compile s := if String.eqb s "(" then Some "missing )" else None |}.
#[local] Instance plain_json : EnvoyConfigJson :=
  {| json_BackendServices l := inl "backends"; json_Resources l := inl "resources"; json_Services l := inl "services" |}.
#[local] Instance config_names : GatewayClassConfigNames :=
  {| DGCCGroup := "dolphin.io"; DGCCKindDefinition := "DolphinGatewayClassConfig" |}.
#[local] Instance envoy_names : EnvoyConfigNames :=
  {| DECGroup := "dolphin.io"; DECKindDefinition := "DolphinEnvoyConfig" |}.

(** ** The objects *)

Definition class : GatewayClass := mkGatewayClass (sample.meta "dolphin") defaultControllerName None [] [].

Definition from_all : AllowedRoutes := mkAllowedRoutes (Some (mkRouteNamespaces (Some NamespacesFromAll) None)) None.

Definition web : Listener := mkListener "web" None 80 "HTTP" None (Some from_all).

Definition certificate : SecretObjectReference := mkSecretObjectReference None None "cert" None.

Definition secure : Listener :=
  mkListener "secure" None 443 "HTTPS" (Some (mkListenerTLSConfig None [certificate])) (Some from_all).

Definition gateway (name : string) : Gateway :=
  mkGateway (sample.meta name) (GatewayV1GVK "Gateway") "dolphin" [web; secure] None None (mkGatewayStatus [] [] [] None).

Definition parent (name : string) : ParentReference := mkParentReference None None None name None None.

Definition rule : HTTPRouteRule := mkHTTPRouteRule [] [] [mkHTTPBackendRef (sample.backend "svc" (Some 8080%Z)) []].

Definition route (name : string) : HTTPRoute := mkRoute (sample.meta "route") [parent name] ["example.com"] [rule] [].

(** The Service that a first run has created, with the address it got. *)
Definition front (name : string) : ServiceObject :=
  mkServiceObject
    (mkFrontService (helper.Shorten ("dolphin-gateway-" +:+ name)) "default"
       {[ gateway_api.owningGatewayLabel := helper.Shorten name ]} ∅ [] "LoadBalancer" [])
    None (Some [mkLBI "192.0.2.1" "" None []]).

Definition secret : Secret :=
  mkSecret (sample.meta "cert") (<[TLSCertKey := certs.toy_block]> {[ TLSPrivateKeyKey := certs.toy_block ]}).

Definition world (name : string) : RefWorld :=
  add_object KGateway (gateway name) (add_object KGatewayClass class (add_object KHTTPRoute (route name)
    (add_object KService sample.service (add_object KService (front name) (add_object KSecret secret []))))).

Definition reconciler : gatewayReconciler := newGatewayReconciler "secrets" 60 [].

Definition request (name : string) : NamespacedName := mkNamespacedName "default" name.

(** The run of the reconciler. *)
Definition run (name : string) : go (RefWorld * (unit + error)) :=
  gateway_reconcile.Reconcile 0 "label" reconciler (request name) (world name).

Definition after (name : string) : RefWorld :=
  match run name with Ok (w', _) => w' | Panic _ => [] end.

(** ** Runs *)

Lemma run_gw :
  gateway_reconcile.Reconcile 0 "label" reconciler (request "gw") (world "gw") = Ok (after "gw", inl tt).
Proof. vm_compute. reflexivity. Qed.

Lemma Gateway_Reconcile_success_witness :
  stored_true ConditionAccepted (after "gw") (gateway "gw") ∧ stored_true ConditionProgrammed (after "gw") (gateway "gw").
Proof.
  destruct (Gateway_Reconcile_success (client := reference_client) (laws := reference_client_laws) 0 "label" reconciler
    (request "gw") (gateway "gw") class (world "gw") (after "gw")) as (HA & HP & _).
  - reflexivity.
  - reflexivity.
  - reflexivity.
  - reflexivity.
  - exact run_gw.
  - split; assumption.
Defined.

(** Every object of the sample world satisfies its schema. *)
Lemma world_admitted : admitted (client := reference_client) (world "gw").
Proof.
  assert (Hgw : gateway_ok (gateway "gw")).
  { intros l ar ns Hl Ea En. cbn in Hl. rewrite !elem_of_cons in Hl.
    destruct Hl as [-> | [-> | Hl%elem_of_nil]]; [..|done]; injection Ea as <-; injection En as <-; by eexists. }
  split.
  - intros n gw. cbn [cl_Get reference_client]. destruct (ref_stored _ _ _) eqn:E; [|done]. intros [= <-].
    apply ref_stored_elem in E as [E _]. change (of_kind KGateway (world "gw")) with [gateway "gw"] in E.
    by apply list_elem_of_singleton in E as ->.
  - intros l [= <-]. change (ref_List KHTTPRoute (λ _, true) (world "gw")) with [route "gw"].
    by repeat constructor.
  - intros l [= <-]. change (ref_List KGRPCRoute (λ _, true) (world "gw")) with (@nil GRPCRoute). constructor.
Qed.

Lemma world_complete : references_complete (client := reference_client) (world "gw").
Proof.
  split.
  - intros n gwc. cbn [cl_Get reference_client]. destruct (ref_stored _ _ _) eqn:E; [|done]. intros [= <-].
    apply ref_stored_elem in E as [E _]. change (of_kind KGatewayClass (world "gw")) with [class] in E.
    by apply list_elem_of_singleton in E as ->.
  - intros l [= <-]. change (ref_List KHTTPRoute (λ _, true) (world "gw")) with [route "gw"].
    by repeat constructor.
  - intros l [= <-]. change (ref_List KGRPCRoute (λ _, true) (world "gw")) with (@nil GRPCRoute). constructor.
Qed.

Lemma Gateway_Reconcile_total_witness :
  ∃ w' res, gateway_reconcile.Reconcile 0 "label" reconciler (request "gw") (world "gw") = Ok (w', res).
Proof.
  apply (Gateway_Reconcile_total (client := reference_client)); [exact world_admitted|exact world_complete].
Defined.

(** The same world with a class that refers to a configuration and names no
    namespace: the whole run panics. *)
Definition unnamespaced_world : RefWorld :=
  add_object KGateway (gateway "gw") (add_object KGatewayClass
    (mkGatewayClass (sample.meta "dolphin") defaultControllerName
       (Some (mkParametersReference "dolphin.io" "DolphinGatewayClassConfig" "config" None)) [] [])
    (add_object KHTTPRoute (route "gw") (add_object KService sample.service []))).

Example unnamespaced_class_stops_the_run :
  gateway_reconcile.Reconcile 0 "label" reconciler (request "gw") unnamespaced_world = Panic NilDeref.
Proof. vm_compute. reflexivity. Qed.

(** The HTTPRoute's backend is left alone. *)
Lemma Gateway_Reconcile_frame_witness :
  stored KService (after "gw") (request "svc") = stored KService (world "gw") (request "svc").
Proof.
  refine (Gateway_Reconcile_frame (client := reference_client) (laws := reference_client_laws) 0 "label" reconciler
    (request "gw") (world "gw") (after "gw") (inl tt) _ KService (request "svc") _).
  - exact run_gw.
  - intros (name & [E|E]); cbn in E.
    + discriminate.
    + revert E. unfold helper.Shorten. destruct (63 <? len _); discriminate.
Defined.

(** A model without listeners has nothing to translate. *)
Definition scheduled : Gateway := setGatewayAccepted (gateway "gw") true "Gateway successfully scheduled".

Definition failed_run : go (RefWorld * (unit + error)) :=
  program 0 "label" reconciler (gateway "gw") scheduled (model.mkModel [] [] [] []) None (world "gw").

Definition after_failure : RefWorld := match failed_run with Ok (w', _) => w' | Panic _ => [] end.

Lemma run_failed :
  program 0 "label" reconciler (gateway "gw") scheduled (model.mkModel [] [] [] []) None (world "gw") =
  Ok (after_failure, inr (Msg "model source can't be empty")).
Proof. vm_compute. reflexivity. Qed.

Lemma failed_program_reports_accepted_witness : stored_true ConditionAccepted after_failure (gateway "gw").
Proof.
  apply (failed_program_reports_accepted (client := reference_client) (laws := reference_client_laws) 0 "label"
    (gateway "gw") (gateway "gw") eq_refl) with (r := reconciler) (copy := scheduled) (m := model.mkModel [] [] [] [])
    (cfg := None) (w := world "gw") (res := inr (Msg "model source can't be empty")).
  - intros new w Hk Hw. cbn. unfold ref_UpdateStatus. cbn [key]. unfold unchanged in Hw. cbn [stored reference_client] in Hw.
    by rewrite Hk, Hw.
  - reflexivity.
  - apply setGatewayAccepted_true. reflexivity.
  - reflexivity.
  - exact run_failed.
Defined.

(** ** A long name *)

Definition long_name : string := "a-gateway-with-a-name-that-does-not-fit-into-a-label".

Definition long_source : model.FullyQualifiedResource :=
  model.mkFQR long_name "default" "gateway.networking.k8s.io" "v1" "Gateway" "uid".

Definition long_model : model.Model :=
  model.mkModel [model.mkHTTPListener "web" [long_source] "" 80 "*" None [] None None false] [] [] [].

Definition long_translation : translation.DolphinEnvoyConfig * FrontService * FrontEndpoints :=
  match gateway_api.Translate 0 "label" (gateway_api.mkTranslator "secrets" 60 true false) (Some long_model) [None] with
  | Ok (inl (Some d, svc, ep)) => (d, svc, ep)
  | _ => (translation.mkDEC "" "" ∅ [] [] [] [], gateway_api.getService long_source [] ∅ ∅ None,
          gateway_api.getEndpoints long_source)
  end.

Lemma long_translated :
  gateway_api.Translate 0 "label" (gateway_api.mkTranslator "secrets" 60 true false) (Some long_model) [None] =
  Ok (inl (Some long_translation.1.1, long_translation.1.2, long_translation.2)).
Proof. vm_compute. reflexivity. Qed.

Definition long_world : RefWorld := add_object KDEC (mkDECObject long_translation.1.1 ∅) [].

Definition after_delete : RefWorld :=
  match deleteEnvoyConfigs (gateway long_name) long_world with Ok (w', _) => w' | Panic _ => [] end.

Lemma long_deleted : deleteEnvoyConfigs (gateway long_name) long_world = Ok (after_delete, inl tt).
Proof. vm_compute. reflexivity. Qed.

Lemma long_names_keep_configuration_witness :
  stored KDEC after_delete (dec_key long_translation.1.1) = stored KDEC long_world (dec_key long_translation.1.1).
Proof.
  refine (proj1 (long_names_keep_configuration (client := reference_client) (laws := reference_client_laws) 0 "label"
    _ _ _ _ _ _ (gateway long_name) long_world after_delete (inl tt) long_translated _ long_deleted)).
  apply Nat.ltb_lt. vm_compute. reflexivity.
Defined.

(** The configuration is still there. *)
Example long_configuration_left : is_Some (ref_stored KDEC after_delete (dec_key long_translation.1.1)).
Proof. vm_compute. by eexists. Qed.

(** ** Listeners and routes *)

Definition params : listenerValidationParams := mkListenerValidationParams "default" "ListenerSet" 1 [].

Lemma validateListener_sound_witness :
  usable_certificate (world "gw") "default" (GatewayV1GVK "ListenerSet") [] certificate.
Proof.
  destruct (validateListener_sound (client := reference_client) (world "gw") secure params) as (_ & _ & H).
  - vm_compute. reflexivity.
  - apply (H (mkListenerTLSConfig None [certificate]) eq_refl). left.
Defined.

Definition routes : Routes := mkRoutes [route "gw"] [] [] [] [].

Definition with_listeners : Gateway :=
  match setListenerStatus (world "gw") (gateway "gw") routes ∅ with Ok (inl gw') => gw' | _ => gateway "gw" end.

Lemma listeners_set : setListenerStatus (world "gw") (gateway "gw") routes ∅ = Ok (inl with_listeners).
Proof. vm_compute. reflexivity. Qed.

Lemma setListenerStatus_complete_witness :
  (lstat_Name <$> gs_Listeners (gw_Status with_listeners)) ≡ₚ ["web"; "secure"].
Proof.
  refine (proj1 (proj2 (setListenerStatus_complete (client := reference_client) (world "gw") (gateway "gw") with_listeners
    routes ∅ [] eq_refl _ _ listeners_set))).
  - apply (bool_decide_unpack _). vm_compute. exact I.
  - constructor.
Defined.

Definition manager : RoutesStsMgr := NewRouteStatusManager defaultControllerName.

Definition reported_route : HTTPRoute :=
  match http_status manager (world "gw") [] (route "gw") with Ok r => r | Panic _ => route "gw" end.

Lemma route_reported : http_status manager (world "gw") [] (route "gw") = Ok reported_route.
Proof. vm_compute. reflexivity. Qed.

Lemma http_status_spec_witness :
  route_reconcile.has_cond (rt_Parents reported_route) (parent "gw") ConditionAccepted (λ c, cond_Status c = ConditionTrue).
Proof.
  refine (proj2 (proj1 (http_status_spec (client := reference_client) manager (world "gw") [] (route "gw") reported_route
    route_reported) (parent "gw") _)).
  split; [left|reflexivity].
Defined.

(** Two listeners conflict if they have the same port. *)
Definition same_port (a b : Listener) : option string :=
  if Z.eqb (l_Port a) (l_Port b) then Some "port" else None.

Definition contexts : list ingestion.ListenerWithContext := mergeListeners (world "gw") (gateway "gw") [].

Lemma unreported_compatible_witness :
  ForallOrdPairs (gateway_listeners_facts.compatible same_port)
    (gateway_listeners_facts.unreported (across same_port contexts).1 contexts).
Proof.
  apply gateway_listeners_facts.unreported_compatible.
  intros a b r. unfold same_port. destruct (Z.eqb _ _); [intros [= <-]|]; discriminate.
Defined.

Definition set_named (name : string) (time : Z) : ListenerSet :=
  mkListenerSet (mkObjectMeta name "default" "" 1 ∅ ∅ time None) "ListenerSet"
    (mkParentGatewayReference None "gw") [] (mkListenerSetStatus [] []).

Lemma sortListenerSets_precedence_witness :
  sortListenerSets [set_named "c" 5; set_named "b" 5; set_named "a" 9] =
    [set_named "b" 5; set_named "c" 5; set_named "a" 9].
Proof.
  refine (proj1 (gateway_listeners_facts.sortListenerSets_precedence _ _ _ _ _)).
  - apply (bool_decide_unpack _). vm_compute. exact I.
  - apply Permutation_swap.
  - repeat constructor.
Defined.

Definition selector_gateway : Gateway :=
  mkGateway (sample.meta "gw") (GatewayV1GVK "Gateway") "dolphin"
    [mkListener "web" None 80 "HTTP" None
       (Some (mkAllowedRoutes (Some (mkRouteNamespaces (Some NamespacesFromSelector) None)) None))]
    None None (mkGatewayStatus [] [] [] None).

Lemma selector_listeners_take_no_HTTPRoute_witness :
  filterHTTPRoutesByGateway (world "gw") selector_gateway [] [route "gw"] = [].
Proof.
  apply (gateway_listeners_facts.selector_listeners_take_no_HTTPRoute (client := reference_client)).
  intros l ->%list_elem_of_singleton. do 2 eexists. split_and!; reflexivity.
Defined.

(** ** GatewayClasses *)

#[local] Instance few_features : GatewayFeatures :=
  {| Feature := string; feat_Name := id; AllFeatures := ["TLS"; "CORS"; "HTTP"];
     HTTPRouteParentRefPortFeature := "Port"; MeshConsumerRouteFeature := "Mesh";
     BackendTLSPolicyFeature := "Policy"; HTTPRouteCORS := "CORS" |}.

Definition foreign_class : GatewayClass := mkGatewayClass (sample.meta "other") "example.com/other" None [] [].

Definition classes : RefWorld := add_object KGatewayClass foreign_class (world "gw").

Definition class_key : NamespacedName := mkNamespacedName "" "dolphin".

Definition after_class : RefWorld :=
  match gatewayclass.Reconcile class_key classes with Ok (w', _) => w' | Panic _ => [] end.

Lemma class_reconciled : gatewayclass.Reconcile class_key classes = Ok (after_class, inl tt).
Proof. vm_compute. reflexivity. Qed.

Lemma GatewayClass_Reconcile_accepts_witness : frame (only KGatewayClass class_key) classes after_class.
Proof.
  refine (proj1 (gatewayclass.GatewayClass_Reconcile_accepts (client := reference_client) (laws := reference_client_laws)
    class_key classes after_class (inl tt) class _ _ _ class_reconciled)); reflexivity.
Defined.

Lemma GatewayClass_Reconcile_foreign_witness :
  gatewayclass.Reconcile (mkNamespacedName "" "other") classes = Ok (classes, inl tt) ∧ classes = classes.
Proof.
  split; [reflexivity|].
  refine (proj1 (gatewayclass.GatewayClass_Reconcile_foreign (client := reference_client) (mkNamespacedName "" "other")
    classes classes (inl tt) foreign_class _ _ _)); [reflexivity|discriminate|reflexivity].
Defined.

(** ** Watches *)

Definition setup : Setup := mkSetup true false false.

Definition svc_requests : Requests :=
  match enqueueRequestForBackendService setup (world "gw") (request "svc") with Ok rr => rr | Panic _ => ∅ end.

Lemma svc_enqueued : enqueueRequestForBackendService setup (world "gw") (request "svc") = Ok svc_requests.
Proof.
  assert (H : match enqueueRequestForBackendService setup (world "gw") (request "svc") with
              | Ok _ => true | Panic _ => false end = true) by (vm_compute; reflexivity).
  unfold svc_requests. by destruct (enqueueRequestForBackendService _ _ _).
Qed.

Lemma sample_routed : routed http_backends [route "gw"] (world "gw") (request "svc") (request "gw").
Proof.
  exists (route "gw"), (parent "gw"). split_and!; [left| |left|reflexivity|reflexivity].
  exists (br_ref (sample.backend "svc" (Some 8080%Z))), "svc". split_and!; [left|reflexivity|reflexivity].
Qed.

Lemma sample_of_controller : of_controller (world "gw") [gateway "gw"] (request "gw").
Proof. exists (gateway "gw"). split_and!; [left|reflexivity|reflexivity]. Qed.

Lemma service_watch_complete_witness : request "gw" ∈ svc_requests.
Proof.
  refine (proj2 (service_watch_complete (client := reference_client) setup (world "gw") (request "svc") [route "gw"] [] []
    [gateway "gw"] svc_requests (request "gw") _ _ _ _ svc_enqueued) _).
  - vm_compute. reflexivity.
  - vm_compute. reflexivity.
  - vm_compute. reflexivity.
  - vm_compute. reflexivity.
  - split; [exact sample_of_controller|left; exact sample_routed].
Defined.

Lemma secret_watch_inverse_witness :
  ∃ l, watches setup false false (world "gw") (ChangedSecret (request "cert")) = Ok l ∧
    ∀ n, n ∈ l ↔ ∃ gw, gw ∈ [gateway "gw"] ∧ n = ObjectKey (gw_meta gw) ∧ request "cert" ∈ EnqueueTLSSecrets gw.
Proof.
  apply (secret_watch_inverse (client := reference_client) setup false false (world "gw") (request "cert") [gateway "gw"]).
  vm_compute. reflexivity.
Defined.

Example secret_enqueues_gateway :
  watches setup false false (world "gw") (ChangedSecret (request "cert")) = Ok [request "gw"].
Proof. vm_compute. reflexivity. Qed.

Definition tcproute : TCPRoute := mkRoute (sample.meta "tcp") [parent "gw"] [] [] [].

Lemma dead_watches_witness : watches setup true true (world "gw") (ChangedTCPRoute tcproute) = Ok [].
Proof.
  refine (proj1 (dead_watches (client := reference_client) setup true true (world "gw") tcproute tcproute
    (policy_sample.older) _)).
  intros n gwc H. assert (gwc = class) as ->; [|discriminate].
  apply (Get_found (client := reference_client)) in H. apply ref_stored_elem in H as [H _].
  assert (E : of_kind KGatewayClass (world "gw") = [class]) by (vm_compute; reflexivity).
  rewrite E in H. by apply list_elem_of_singleton in H.
Defined.

(** Two Gateways, of which one owns a NodePort Service. *)
Definition node_gateway (name : string) : Gateway :=
  mkGateway (mkObjectMeta name "default" ("uid-" +:+ name) 1 ∅ ∅ 0 None) (GatewayV1GVK "Gateway") "dolphin" [web] None None
    (mkGatewayStatus [] [] [] None).

Definition nodeport_service : ServiceObject :=
  mkServiceObject
    (mkFrontService "dolphin-gateway-np" "default" {[ gateway_api.owningGatewayLabel := "np" ]} ∅
       [translation.mkOwnerReference "v1" "Gateway" "np" "uid-np" None] "NodePort" []) None None.

Definition node_world : RefWorld :=
  add_object KGateway (node_gateway "plain") (add_object KGateway (node_gateway "np")
    (add_object KService nodeport_service (add_object KService (front "plain") []))).

Example node_world_requests : enqueueRequestForNodes node_world = Ok [request "plain"].
Proof. vm_compute. reflexivity. Qed.

Lemma node_watch_spec_witness :
  ∃ rr, enqueueRequestForNodes node_world = Ok rr ∧ ∀ n, n ∈ rr ↔
    (∃ gw, gw ∈ ref_List KGateway (λ _, true) node_world ∧
       n = mkNamespacedName (om_Namespace (gw_meta gw)) (om_Name (gw_meta gw))) ∧
    ¬ ∃ gw svcs, gw ∈ ref_List KGateway (λ _, true) node_world ∧
       labelled_services node_world (om_Name (gw_meta gw)) = inl svcs ∧ nodeport_uid svcs (uid_of node_world n).
Proof.
  apply (node_watch_spec (client := reference_client) node_world []); [reflexivity..|].
  assert (E : ref_List KGateway (λ _, true) node_world = [node_gateway "plain"; node_gateway "np"] ∨
    ref_List KGateway (λ _, true) node_world = [node_gateway "np"; node_gateway "plain"])
    by (vm_compute; auto).
  intros gw Hgw.
  assert (gw = node_gateway "plain" ∨ gw = node_gateway "np") as [->| ->].
  { destruct E as [E|E]; rewrite E, !elem_of_cons, elem_of_nil in Hgw; tauto. }
  - split; [reflexivity|]. exists [front "plain"]. split; [vm_compute; reflexivity|].
    intros svc ->%list_elem_of_singleton. discriminate.
  - split; [reflexivity|]. exists [nodeport_service]. split; [vm_compute; reflexivity|].
    intros svc ->%list_elem_of_singleton. discriminate.
Defined.

(** All definitions are installed, and a TLSRoute of the Gateway changes. *)
Definition tlsroute : TLSRoute := mkRoute (sample.meta "tls") [parent "gw"] [] [] [].

Lemma TLSRoutes_unwatched_witness :
  let e := gateway_setup.enabledKinds discovery.AllOptionalKinds in
  discovery.newGatewayAPIPreconditions (k8s := discovery.reference_errors) 30
    (discovery.mkGatewayApiConfig true "ns" true) discovery.starting =
    Some (inl (discovery.mkPreconditions true discovery.AllOptionalKinds)) ∧
  watches (gateway_setup.setup_of e) true true (world "gw") (ChangedTLSRoute tlsroute) = Ok [].
Proof.
  cbv zeta. split; [reflexivity|].
  refine (proj2 (proj2 (gateway_setup.TLSRoutes_unwatched (client := reference_client) (kerrors := discovery.reference_errors) 30
    (discovery.mkGatewayApiConfig true "ns" true) discovery.starting
    (discovery.mkPreconditions true discovery.AllOptionalKinds) (λ _ _, None) (λ _, None) true true (world "gw") tlsroute _))).
  reflexivity.
Defined.

(** With the flag set, the change would have put the Gateway on the queue. *)
Example tlsroute_would_enqueue :
  watches (mkSetup true false false) true true (world "gw") (ChangedTLSRoute tlsroute) = Ok [request "gw"].
Proof. vm_compute. reflexivity. Qed.

End gateway_sample.
