(* ===== verification/Operator.v ===== *)
(** * Starting and stopping the operator (src/cmd/root.go)

    [registerOperatorHooks] starts [runOperator] in a goroutine, which waits for
    the leader election and then starts the controllers; the stop hook stops them,
    cancels the election and waits for the goroutine.  [Module operator] is the
    interleaving of the two as a step relation, with the package variables they
    share.  The theorems, by induction on the steps, say when the operator stops,
    and which interleavings make it panic or leave the controllers running. *)

From S2P Require Import Prelude GoStrings.
From stdpp Require Import relations.

Module operator.

(** Where the goroutine is.  [runOperator] without leader election: [G_entry],
    [G_store], [G_done]; with it: [G_entry], [G_ctx] (isLeader is stored, the
    context not yet made), [G_elect] (in [RunOrDie]), [G_leading], [G_done]. *)
Inductive Goroutine := G_none | G_entry | G_store | G_ctx | G_elect | G_leading | G_done.

(** Where the life cycle of the operator is: in the stop hook, [H_cleanup] and
    [H_cancel] are the two halves of [doCleanup], [H_wait] is [wg.Wait()]. *)
Inductive Hook := H_init | H_started | H_cleanup | H_cancel | H_wait | H_stopped | H_failed | H_panicked | H_exited.

Record State := mkState {
  o_go : Goroutine;
  o_hook : Hook;
  o_isLeader : bool;
  (** [leaderElectionCtxCancel]: nil, or whether it has been called. *)
  o_cancel : option bool;
  (** [OnStartedLeading] runs in a goroutine of its own: it is due. *)
  o_callback : bool;
  (** The controllers of [LeaderLifecycle] are running. *)
  o_leading : bool;
  (** The lease was acquired. *)
  o_acquired : bool;
  (** The errors [shutdowner.Shutdown] was called with. *)
  o_shutdown : list string
}.

Definition initial : State := mkState G_none H_init false None false false false [].

Definition startError : string := "start failed".
Definition leaderElectionLost : string := "leader election lost".

Section Steps.
(** [operatorOption.Config.DisableLeaderElection]. *)
Context (disabled : bool).

(** [lc.Start]: all controllers start, or some start hook fails; the hook
    [legacyOnLeader.onStart], which stores isLeader, may or may not have run. *)
Inductive Start : State → State → Prop :=
| Start_ok s : Start s (mkState (o_go s) (o_hook s) true (o_cancel s) (o_callback s) true (o_acquired s) (o_shutdown s))
| Start_err s ran :
    Start s (mkState (o_go s) (o_hook s) (o_isLeader s || ran) (o_cancel s) (o_callback s) (o_leading s) (o_acquired s)
               (o_shutdown s ++ [startError])).

Definition set_go (s : State) (g : Goroutine) : State :=
  mkState g (o_hook s) (o_isLeader s) (o_cancel s) (o_callback s) (o_leading s) (o_acquired s) (o_shutdown s).
Definition set_hook (s : State) (h : Hook) : State :=
  mkState (o_go s) h (o_isLeader s) (o_cancel s) (o_callback s) (o_leading s) (o_acquired s) (o_shutdown s).
Definition set_isLeader (s : State) (b : bool) : State :=
  mkState (o_go s) (o_hook s) b (o_cancel s) (o_callback s) (o_leading s) (o_acquired s) (o_shutdown s).
Definition set_cancel (s : State) (c : option bool) : State :=
  mkState (o_go s) (o_hook s) (o_isLeader s) c (o_callback s) (o_leading s) (o_acquired s) (o_shutdown s).
Definition set_callback (s : State) (b : bool) : State :=
  mkState (o_go s) (o_hook s) (o_isLeader s) (o_cancel s) b (o_leading s) (o_acquired s) (o_shutdown s).
Definition set_leading (s : State) (b : bool) : State :=
  mkState (o_go s) (o_hook s) (o_isLeader s) (o_cancel s) (o_callback s) b (o_acquired s) (o_shutdown s).
Definition set_acquired (s : State) : State :=
  mkState (o_go s) (o_hook s) (o_isLeader s) (o_cancel s) (o_callback s) (o_leading s) true (o_shutdown s).
Definition add_shutdown (s : State) (e : string) : State :=
  mkState (o_go s) (o_hook s) (o_isLeader s) (o_cancel s) (o_callback s) (o_leading s) (o_acquired s) (o_shutdown s ++ [e]).

(** The process is alive. *)
Definition alive (s : State) : Prop := o_hook s ≠ H_panicked ∧ o_hook s ≠ H_exited.

Inductive step : State → State → Prop :=
(** The hooks of [registerOperatorHooks]. *)
| step_OnStart s : o_hook s = H_init → step s (set_go (set_hook s H_started) G_entry)
| step_OnStop s : o_hook s = H_started → step s (set_hook (set_leading s false) H_cleanup)
| step_OnStop_err s : o_hook s = H_started → step s (set_hook s H_failed)
| step_cleanup s : o_hook s = H_cleanup → step s (set_hook (set_isLeader s false) H_cancel)
| step_cancel s b : o_hook s = H_cancel → o_cancel s = Some b → step s (set_hook (set_cancel s (Some true)) H_wait)
| step_cancel_nil s : o_hook s = H_cancel → o_cancel s = None → step s (set_hook s H_panicked)
| step_wait s : o_hook s = H_wait → o_go s = G_done → step s (set_hook s H_stopped)
(** [runOperator] without leader election. *)
| step_run_disabled s s' : alive s → o_go s = G_entry → disabled = true → Start s s' → step s (set_go s' G_store)
| step_store s : alive s → o_go s = G_store → step s (set_go (set_isLeader s true) G_done)
(** [runOperator] with leader election. *)
| step_run s : alive s → o_go s = G_entry → disabled = false → step s (set_go (set_isLeader s false) G_ctx)
| step_ctx s : alive s → o_go s = G_ctx → step s (set_go (set_cancel s (Some false)) G_elect)
| step_fatal s : alive s → o_go s = G_elect → step s (set_hook s H_exited)
| step_acquire s : alive s → o_go s = G_elect → step s (set_go (set_callback (set_acquired s) true) G_leading)
| step_OnStartedLeading s s' : alive s → o_callback s = true → Start s s' → step s (set_callback s' false)
| step_OnStoppedLeading s : alive s → o_go s = G_leading ∨ (o_go s = G_elect ∧ o_cancel s = Some true) →
    step s (set_go (add_shutdown s leaderElectionLost) G_done).

Definition reachable (s : State) : Prop := rtc step initial s.

(** ** Invariants *)

(** An invariant holds in every reachable state. *)
Lemma reachable_ind (I : State → Prop) :
  I initial → (∀ s s', I s → step s s' → I s') → ∀ s, reachable s → I s.
Proof using Type. intros H0 Hs s. apply (rtc_ind_r I initial); eauto. Qed.

End Steps.

#[local] Instance Goroutine_eq_dec : EqDecision Goroutine.
Proof. solve_decision. Defined.

#[local] Hint Constructors step Start : core.

(** Without leader election there is never a function to cancel it. *)
Definition inv_disabled (s : State) : Prop :=
  o_cancel s = None ∧ o_callback s = false ∧ o_go s ≠ G_ctx ∧ o_go s ≠ G_elect ∧ o_go s ≠ G_leading ∧
  o_hook s ≠ H_wait ∧ o_hook s ≠ H_stopped.

Lemma disabled_invariant s : reachable true s → inv_disabled s.
Proof.
  apply reachable_ind; [by split_and!|]. clear s. intros s s' (Hc & Hb & H1 & H2 & H3 & H4 & H5) Hs.
  destruct Hs as [| | | | | | |? ? ? ? ? HS| | | | | |? ? ? ? HS|? ? [?|[? ?]]]; try destruct HS; unfold inv_disabled; cbn;
    try congruence; split_and!; congruence.
Qed.

(** With it, the function is there once the election begins, and only the leader
    leads. *)
Record inv_enabled (s : State) : Prop := {
  ie_cancel : o_cancel s = None → o_go s = G_none ∨ o_go s = G_entry ∨ o_go s = G_ctx;
  ie_none : o_go s = G_none ↔ o_hook s = H_init;
  ie_early : o_go s = G_none ∨ o_go s = G_entry ∨ o_go s = G_ctx → o_cancel s = None;
  ie_wait : o_hook s = H_wait ∨ o_hook s = H_stopped → o_cancel s = Some true;
  ie_stopped : o_hook s = H_stopped → o_go s = G_done;
  ie_store : o_go s ≠ G_store;
  ie_callback : o_callback s = true → o_acquired s = true;
  ie_leader : o_isLeader s = true → o_acquired s = true;
  ie_leading : o_leading s = true → o_acquired s = true
}.

Lemma enabled_invariant s : reachable false s → inv_enabled s.
Proof.
  apply reachable_ind; [by split; cbn; naive_solver|]. clear s. intros s s' [I1 I2 I3 I4 I9 I5 I6 I7 I8] Hs.
  destruct Hs as [| | | | | | |? ? ? ? ? HS| | | | | |? ? ? ? HS|? ? [?|[? ?]]]; try destruct HS; split;
    destruct s; cbn in *; subst; try discriminate; try intuition congruence.
Qed.

(** ** Stopping *)

(** One step of a run that is written out. *)
Ltac take rule := eapply rtc_l; [by eapply rule|].

(** C21: with leader election, stopping the operator panics only if the stop hook
    overtakes the goroutine before it has made the context of the election.  Whenever
    the stop hook waits for the goroutine, or has finished, the election has been
    cancelled; a hook that waits can finish in at most two steps and without the
    lease being acquired for it; and once it has finished, the goroutine is done.
    The operator takes itself for the leader, and runs its controllers, only after it
    has acquired the lease. *)
Theorem operator_stops s :
  reachable false s →
  (∀ s', step false s s' → o_hook s ≠ H_panicked → o_hook s' = H_panicked → o_go s = G_entry ∨ o_go s = G_ctx) ∧
  (o_hook s = H_wait ∨ o_hook s = H_stopped → o_cancel s = Some true) ∧
  (o_hook s = H_wait →
     ∃ n s', n ≤ 2 ∧ nsteps (step false) n s s' ∧ o_hook s' = H_stopped ∧ o_acquired s' = o_acquired s) ∧
  (o_hook s = H_stopped → o_go s = G_done) ∧
  (o_isLeader s = true ∨ o_leading s = true → o_acquired s = true).
Proof.
  intros [I1 I2 I3 I4 I9 I5 I6 I7 I8]%enabled_invariant. split_and!; [|done| |done|by intros [?|?]; auto].
  - intros s' Hs Hn Hp. destruct Hs as [| | | | | | |? ? ? ? ? HS| | | | | |? ? ? ? HS|]; try destruct HS; cbn in *;
      try congruence. destruct I1 as [Hg|]; auto. apply I2 in Hg. congruence.
  - intros Hw. assert (Hc : o_cancel s = Some true) by auto.
    assert (Hgo : o_go s = G_elect ∨ o_go s = G_leading ∨ o_go s = G_done).
    { destruct (o_go s); auto; exfalso; first [by apply I5|rewrite I3 in Hc by auto; done]. }
    assert (Ha : alive s) by (split; congruence).
    destruct (decide (o_go s = G_done)) as [Hd|Hd].
    { exists 1, (set_hook s H_stopped). split_and!; [lia|apply nsteps_once; by constructor|done..]. }
    set (s1 := set_go (add_shutdown s leaderElectionLost) G_done).
    exists 2, (set_hook s1 H_stopped). split_and!; [lia| |done..].
    eapply nsteps_l; [apply (step_OnStoppedLeading false s); [done|naive_solver]|].
    apply nsteps_once. by constructor.
Qed.

(** Without leader election the operator never stops: the stop hook calls a
    function that nobody has set, and panics. *)
Theorem disabled_never_stops :
  (∀ s, reachable true s → o_hook s ≠ H_wait ∧ o_hook s ≠ H_stopped) ∧
  (∀ s s', reachable true s → o_hook s = H_cancel → step true s s' → o_hook s' = H_cancel ∨ o_hook s' = H_panicked) ∧
  ∃ s, reachable true s ∧ o_hook s = H_panicked ∧ o_leading s = false.
Proof.
  split_and!.
  - intros s H%disabled_invariant. apply H.
  - intros s s' (Hc & Hb & H1 & H2 & H3 & H4 & H5)%disabled_invariant Hh Hs.
    destruct Hs as [| | | | | | |? ? ? ? ? HS| | | | | |? ? ? ? HS|? ? [?|[? ?]]]; try destruct HS; cbn; auto; congruence.
  - eexists. split_and!.
    + take step_OnStart. eapply rtc_l; [eapply step_run_disabled; [done..|apply Start_ok]|].
      take step_store. take step_OnStop. take step_cleanup. take step_cancel_nil. apply rtc_refl.
    + done.
    + done.
Qed.

(** The callback of the election runs in its own goroutine: when it comes late, it
    starts the controllers after they were stopped, and the operator has stopped
    with its controllers running and takes itself for the leader. *)
Theorem leading_after_stop :
  ∃ s, reachable false s ∧ o_hook s = H_stopped ∧ o_leading s = true ∧ o_isLeader s = true.
Proof.
  eexists. split_and!.
  - take step_OnStart. take step_run. take step_ctx. take step_acquire. take step_OnStop. take step_cleanup.
    take step_cancel. eapply rtc_l; [eapply step_OnStoppedLeading; [done|by left]|]. take step_wait.
    eapply rtc_l; [eapply step_OnStartedLeading; [done..|apply Start_ok]|]. apply rtc_refl.
  - done.
  - done.
  - done.
Qed.

(** The hook waits while the election is still under way. *)
Definition electing : State := mkState G_elect H_wait false (Some true) false false false [].

Lemma reachable_electing : reachable false electing.
Proof.
  take step_OnStart. take step_run. take step_ctx. take step_OnStop. take step_cleanup. take step_cancel. apply rtc_refl.
Qed.

Lemma operator_stops_witness :
  ∃ n s', n ≤ 2 ∧ nsteps (step false) n electing s' ∧ o_hook s' = H_stopped ∧ o_acquired s' = false.
Proof. apply (operator_stops electing); [exact reachable_electing|reflexivity]. Defined.

End operator.
