(* ===== verification/EndpointGC.v ===== *)
(** * The garbage collector of endpoints (src/endpointgc)

    [Module endpointgc]: what the collector deletes, in one run of [doGC], from the
    DolphinEndpoints it finds, and how it is registered, started and stopped.  The
    clients it calls are parameters. *)

From S2P Require Import Prelude GoStrings ApiTypes.
Import k8s.

Module endpointgc.

(** The parts of a DolphinEndpoint that are read: name, UID and the kinds of its
    owners. *)
Record DolphinEndpoint := mkDEP { dep_key : NamespacedName; dep_UID : string; dep_OwnerKinds : list string }.

(** [resource.Resource]: its [Store] lists the objects, or fails. *)
Record Resource (A : Type) := mkResource { rs_Store : list A + string }.
Arguments mkResource {A}. Arguments rs_Store {A}.

(** A resource is an interface, nil if nothing was set. *)
Record GC := mkGC {
  gc_once : bool;
  gc_interval : Z;
  gc_dolphinendpoints : option (Resource DolphinEndpoint);
  gc_dolphinnodes : option (Resource NamespacedName);
  gc_pods : option (Resource NamespacedName);
  (** [mgr] is set. *)
  gc_mgr : bool
}.

Record SharedConfig := mkSharedConfig { sc_Interval : Z; sc_DisableDolphinEndpointCRD : bool }.

Record params := mkParams {
  p_ClientsetEnabled : bool;
  p_DolphinEndpoints : option (Resource DolphinEndpoint);
  p_DolphinNodes : option (Resource NamespacedName);
  p_SharedCfg : SharedConfig
}.

(** The collector that is put into the life cycle: its Nodes and Pods are not set. *)
Definition registerGC (p : params) : option GC :=
  if negb (p_ClientsetEnabled p) then None
  else
    let once := Z.eqb (sc_Interval (p_SharedCfg p)) 0 || sc_DisableDolphinEndpointCRD (p_SharedCfg p) in
    Some (mkGC once (sc_Interval (p_SharedCfg p)) (p_DolphinEndpoints p) None None false).

Definition checkFoDolphinEndpointCRD (g : GC) : bool := true.

(** A method on a value: [mgr] and [interval] are set on a copy, whose controller
    runs [doGC] in intervals.  None: no controller is started. *)
Definition Start (g : GC) : option GC :=
  if gc_once g then
    if negb (checkFoDolphinEndpointCRD g) then None
    else Some (mkGC (gc_once g) 0 (gc_dolphinendpoints g) (gc_dolphinnodes g) (gc_pods g) true)
  else Some (mkGC (gc_once g) (gc_interval g) (gc_dolphinendpoints g) (gc_dolphinnodes g) (gc_pods g) true).

(** Whether [Stop] removes the controller. *)
Definition Stop (g : GC) : bool := gc_mgr g.

(** The kinds of the owners are looked at, but nothing is checked. *)
Definition checkIfDepShouldBedeleted (g : GC) (dep : DolphinEndpoint) : go bool :=
  if gc_once g then Ok true
  else
    pods ← deref (gc_pods g);
    match rs_Store pods with
    | inr _ => Ok false
    | inl _ =>
        nodes ← deref (gc_dolphinnodes g);
        match rs_Store nodes with
        | inr _ => Ok false
        | inl _ => Ok true
        end
    end.

Section Run.
(** The clientset: deletes the endpoint of a name if it has the UID. *)
Context {W : Type} (Delete : NamespacedName → string → W → W * option string).

Definition deleteDEP (dep : DolphinEndpoint) (w : W) : W * option string := Delete (dep_key dep) (dep_UID dep) w.

Fixpoint gc_loop (g : GC) (l : list DolphinEndpoint) (w : W) : go (W * option string) :=
  match l with
  | [] => Ok (w, None)
  | dep :: l =>
      b ← checkIfDepShouldBedeleted g dep;
      if negb b then gc_loop g l w
      else match deleteDEP dep w with
           | (w, Some err) => Ok (w, Some err)
           | (w, None) => gc_loop g l w
           end
  end.

Definition doGC (g : GC) (w : W) : go (W * option string) :=
  endpoints ← deref (gc_dolphinendpoints g);
  match rs_Store endpoints with
  | inr err => Ok (w, Some err)
  | inl l => gc_loop g l w
  end.

(** ** What a run does *)

(** All endpoints, one after the other. *)
Fixpoint delete_all (l : list DolphinEndpoint) (w : W) : W * option string :=
  match l with
  | [] => (w, None)
  | dep :: l => match deleteDEP dep w with (w, Some err) => (w, Some err) | (w, None) => delete_all l w end
  end.

(** The collector that is registered never looks at an endpoint: one that runs
    once deletes them all, in use or not, and one that runs in intervals panics at
    the first endpoint, since the Pods it wants to look at were never set.  It is
    never stopped either: [Start] keeps its controller in a copy. *)
Theorem gc_deletes_all_or_panics p g e l w :
  registerGC p = Some g → p_DolphinEndpoints p = Some e → rs_Store e = inl l →
  let once := Z.eqb (sc_Interval (p_SharedCfg p)) 0 || sc_DisableDolphinEndpointCRD (p_SharedCfg p) in
  (once = true → doGC g w = Ok (delete_all l w)) ∧
  (once = false → l ≠ [] → doGC g w = Panic NilDeref) ∧
  is_Some (Start g) ∧ Stop g = false.
Proof using Type.
  unfold registerGC. destruct (p_ClientsetEnabled p); [|done]. cbn [negb]. intros [= <-] He Hl. cbv zeta.
  unfold doGC. cbn [gc_dolphinendpoints]. rewrite He. cbn. rewrite Hl.
  destruct (Z.eqb _ _ || _) eqn:E; split_and!; try done; intros _.
  - clear Hl. revert w. induction l as [|dep l IH]; intros w; [done|]. cbn.
    destruct (deleteDEP dep w) as [w' [err|]]; [done|]. apply IH.
  - destruct l as [|dep l]; [done|]. done.
Qed.

End Run.

Definition some_endpoint : DolphinEndpoint := mkDEP (mkNamespacedName "ns" "ep") "1" ["Pod"].

Lemma gc_deletes_all_or_panics_witness :
  doGC (λ n _ w, (List.filter (λ d, negb (bool_decide (dep_key d = n))) w, None))
    (mkGC true 0 (Some (mkResource (inl [some_endpoint]))) None None false) [some_endpoint] = Ok ([], None).
Proof.
  destruct (gc_deletes_all_or_panics (λ n _ w, (List.filter (λ d, negb (bool_decide (dep_key d = n))) w, None))
    (mkParams true (Some (mkResource (inl [some_endpoint]))) None (mkSharedConfig 0 false))
    _ (mkResource (inl [some_endpoint])) [some_endpoint] [some_endpoint] eq_refl eq_refl eq_refl) as [H _].
  exact (H eq_refl).
Defined.

End endpointgc.
