(* ===== verification/Spire.v ===== *)
(** * The SPIRE client (src/auth/spire/client.go)

    [Module spire]: the identities that the operator registers with a SPIRE server,
    and how the address of the server is resolved.  The server is a parameter, as
    are the calls of the Kubernetes client. *)

From S2P Require Import Prelude GoStrings.
From Stdlib Require Import Ascii.

(** [strings.Contains]. *)
Fixpoint Contains (s t : string) : bool :=
  HasPrefix s t || match s with "" => false | String _ s' => Contains s' t end.

(** The entry API of the SPIRE server, over its state. *)
Record SPIFFEID := mkSPIFFEID { sid_TrustDomain : string; sid_Path : string }.
Record Selector := mkSelector { sel_Type : string; sel_Value : string }.
Record Entry := mkEntry {
  ent_Id : string; ent_SpiffeId : SPIFFEID; ent_ParentId : SPIFFEID; ent_Selectors : list Selector }.
Record Filter := mkFilter {
  fi_BySpiffeId : option SPIFFEID; fi_ByParentId : SPIFFEID; fi_BySelectors : list Selector }.

Class EntryServer := {
  Server : Type;
  ListEntries : Filter → Server → list Entry + string;
  BatchCreateEntry : list Entry → Server → Server * option string;
  BatchUpdateEntry : list Entry → Server → Server * option string;
  BatchDeleteEntry : list string → Server → Server * option string
}.

Module spire.

Definition defaultParentID : string := "/dolphin-operator".
Definition pathPrfix : string := "identity".
Definition defaultSelectors : list Selector := [mkSelector "dolphin" "mutual-auth"].

Record ClientConfig := mkClientConfig {
  MutualAuthEnabled : bool;
  SpireAgentSocketPath : string;
  SpireClientEnabled : bool;
  SpireServerAddress : string;
  SpiffeTrustDomain : string
}.

(** [entry] is nil until the client is connected. *)
Record Client := mkClient { c_cfg : ClientConfig; c_entry : bool }.

Definition toPath (id : string) : string := pathPrfix +:+ "/" +:+ id.

(** The provider that is returned; [onStart] is a method on a value, so that the
    connection it makes is set in the copy of the hook ([connected]). *)
Definition NewClient (cliCfg cfg : ClientConfig) (k8sEnabled : bool) : option Client :=
  if negb (SpireClientEnabled cliCfg) then None
  else if negb k8sEnabled then None
  else Some (mkClient cfg false).

Definition connected (c : Client) : Client := mkClient (c_cfg c) true.

Section Entries.
Context {server : EntryServer}.

Definition parentID (c : Client) : SPIFFEID := mkSPIFFEID (SpiffeTrustDomain (c_cfg c)) defaultParentID.
Definition identityID (c : Client) (id : string) : SPIFFEID :=
  mkSPIFFEID (SpiffeTrustDomain (c_cfg c)) (toPath id).

Definition listEntries (c : Client) (id : string) (s : Server) : go (list Entry + string) :=
  if c_entry c then Ok (ListEntries (mkFilter (Some (identityID c id)) (parentID c) defaultSelectors) s)
  else Panic NilDeref.

Definition List_ (c : Client) (s : Server) : go (list string + string) :=
  if c_entry c then
    Ok (match ListEntries (mkFilter None (parentID c) defaultSelectors) s with
        | inr err => inr err
        | inl entries => inl (ent_Id <$> entries)
        end)
  else Panic NilDeref.

Definition notInitialized : string := "entry client is not initialized".

Definition desiredEntry (c : Client) (id : string) : Entry :=
  mkEntry "" (identityID c id) (parentID c) defaultSelectors.

(** Only an error that says "not found" is returned; after any other one the
    entries are nil. *)
Definition Upsert (c : Client) (id : string) (s : Server) : go (Server * option string) :=
  if negb (c_entry c) then Ok (s, Some notInitialized)
  else
    entries ← listEntries c id s;
    match entries with
    | inr err =>
        if Contains err "not found" then Ok (s, Some err)
        else Ok (BatchCreateEntry [desiredEntry c id] s)
    | inl [] => Ok (BatchCreateEntry [desiredEntry c id] s)
    | inl _ => Ok (BatchUpdateEntry [desiredEntry c id] s)
    end.

Definition Delete (c : Client) (id : string) (s : Server) : go (Server * option string) :=
  if negb (c_entry c) then Ok (s, Some notInitialized)
  else if Nat.eqb (len id) 0 then Ok (s, None)
  else
    entries ← listEntries c id s;
    match entries with
    | inr err => if Contains err "not found" then Ok (s, None) else Ok (s, Some err)
    | inl [] => Ok (s, None)
    | inl l => Ok (BatchDeleteEntry (ent_Id <$> l) s)
    end.

End Entries.

(** ** The address of the server *)

(** [net.SplitHostPort]: the port is behind the last colon; a host with colons is
    in brackets. *)
Definition SplitHostPort (hostport : string) : option (string * string) :=
  let parts := SplitChar ":" hostport in
  let before := Join (removelast parts) ":" in
  let port := List.last parts "" in
  if Nat.ltb (length parts) 2 then None
  else if HasPrefix hostport "[" then
    match CutChar "]" hostport with
    | None => None
    | Some (h, t) =>
        if negb (String.eqb before (h +:+ "]")) then None
        else if ContainsChar (str_drop 1 hostport) "[" || ContainsChar t "]" then None
        else Some (str_drop 1 h, port)
    end
  else if ContainsChar before ":" then None
  else if ContainsChar hostport "[" || ContainsChar hostport "]" then None
  else Some (before, port).

Example SplitHostPort_ok :
  SplitHostPort "spire-server:8081" = Some ("spire-server", "8081") ∧ SplitHostPort "[::1]:80" = Some ("::1", "80") ∧
  SplitHostPort "server:spire:svcc" = None ∧ SplitHostPort "server" = None.
Proof. by split_and!. Qed.

(** [getService namespace name]: the cluster IP of a Service, or an error. *)
Definition resolvedK8sService (getService : string → string → string + string) (address : string)
  : string + string :=
  match SplitChar ":" address with
  | name :: namespace :: third :: _ =>
      if negb (HasPrefix third "svcc") then inl address
      else match getService namespace name with
           | inr err => inr err
           | inl clusterIP =>
               match SplitHostPort address with
               | None => inr "too many colons in address"
               | Some (_, port) => inl (JoinHostPort clusterIP port)
               end
           end
  | _ => inl address
  end.

(** [connect]: the address that is dialled. *)
Definition target (getService : string → string → string + string) (cfg : ClientConfig) : string :=
  match resolvedK8sService getService (SpireServerAddress cfg) with
  | inl t => t
  | inr _ => SpireServerAddress cfg
  end.

(** ** What the client does *)

(** The provider that [NewClient] returns is never connected: it can only refuse
    identities, or panic when they are listed, whatever the hook has connected. *)
Theorem provider_never_connected {server : EntryServer} cliCfg cfg k8sEnabled c id s :
  NewClient cliCfg cfg k8sEnabled = Some c →
  Upsert c id s = Ok (s, Some notInitialized) ∧ Delete c id s = Ok (s, Some notInitialized) ∧
  List_ c s = Panic NilDeref.
Proof. unfold NewClient. destruct (SpireClientEnabled cliCfg), k8sEnabled; try done. by intros [= <-]. Qed.

(** The address of a Service is never resolved: one that names a Service has two
    colons, which the split into host and port refuses, and the address is dialled
    as it was configured. *)
Theorem address_never_resolved getService cfg :
  HasPrefix (SpireServerAddress cfg) "[" = false → target getService cfg = SpireServerAddress cfg.
Proof.
  intros Hb. unfold target, resolvedK8sService, SplitHostPort. rewrite Hb.
  destruct (SplitChar ":" (SpireServerAddress cfg)) as [|a [|b [|c l]]] eqn:E; try done.
  destruct (HasPrefix c "svcc"); [|done]. cbn [negb]. destruct (getService b a); [|done].
  assert (Hc : ContainsChar (Join (removelast (a :: b :: c :: l)) ":") ":" = true).
  { change (removelast (a :: b :: c :: l)) with (a :: b :: removelast (c :: l)).
    destruct (removelast (c :: l)); cbn [Join]; rewrite ContainsChar_app; apply orb_true_iff; by right. }
  by rewrite Hc.
Qed.

(** ** Examples *)

Definition config : ClientConfig := mkClientConfig true "/run/agent.sock" true "server:spire:svcc" "spiffe.dolphin".

#[local] Instance empty_server : EntryServer := {|
  Server := list Entry;
  ListEntries := λ _ s, inl s;
  BatchCreateEntry := λ l s, (s ++ l, None);
  BatchUpdateEntry := λ l s, (s, None);
  BatchDeleteEntry := λ _ _, ([], None)
|}.

Lemma provider_never_connected_witness : Upsert (mkClient config false) "id" [] = Ok ([], Some notInitialized).
Proof. exact (proj1 (provider_never_connected config config true (mkClient config false) "id" [] eq_refl)). Defined.

Lemma address_never_resolved_witness :
  resolvedK8sService (λ _ _, inl "10.0.0.1") "server:spire:svcc" = inr "too many colons in address" ∧
  target (λ _ _, inl "10.0.0.1") config = "server:spire:svcc".
Proof. split; [reflexivity|]. exact (address_never_resolved (λ _ _, inl "10.0.0.1") config eq_refl). Defined.

End spire.
