(* ===== verification/LogController.v ===== *)
(** * The log controller (src/scalable/logcontroller/microsvclog/cell.go)

    [Module microsvclog]: a goroutine that wakes up in intervals and starts an
    upload for the log file of every application, at most ten at a time.  The
    goroutine, the uploads and the stop hook run concurrently: their interleavings
    are a step relation, over the semaphore, a channel with ten slots, that
    limits the uploads.

    [filepath.Join] and the formatting of dates are those of the Go standard
    library.  The answers of the file system, of the API server and of S3 are
    arguments. *)

From S2P Require Import Prelude GoStrings.
From stdpp Require Import relations.
From Stdlib Require Import Ascii.

Module filepath.

(** One element of a path after those in [stack], the last one first. *)
Definition clean_step (rooted : bool) (stack : list string) (elem : string) : list string :=
  if String.eqb elem "" || String.eqb elem "." then stack
  else if String.eqb elem ".." then
    match stack with
    | [] => if rooted then [] else [".."]
    | top :: below => if String.eqb top ".." then ".." :: stack else below
    end
  else elem :: stack.

Definition Clean (path : string) : string :=
  let rooted := HasPrefix path "/" in
  let body := GoStrings.Join (rev (foldl (clean_step rooted) [] (SplitChar "/"%char path))) "/" in
  if rooted then "/" +:+ body else if String.eqb body "" then "." else body.

Definition Join (elems : list string) : string :=
  match List.filter (λ e, negb (String.eqb e "")) elems with
  | [] => ""
  | elems => Clean (GoStrings.Join elems "/")
  end.

Example Join_ok :
  Join ["/var/log/"; "web"; "web-20240102.log"] = "/var/log/web/web-20240102.log" ∧
  Join [""; "web"; "web-20240102.log"] = "web/web-20240102.log" ∧ Join ["logs"; "../x"; "f"] = "x/f" ∧
  Join ["/"; ".."; "a"] = "/a" ∧ Join [""; ""] = "" ∧ Join ["a"; ".."] = ".".
Proof. by split_and!. Qed.

End filepath.

Module microsvclog.

(** ** Configuration *)

Record LogConfig := mkLogConfig {
  LogRootPath : string;
  AppNames : list string;
  S3Bucket : string;
  AWSRegion : string;
  UploadInMinutesInterval : Z;
  EnableScalableLogis : bool
}.

Definition minute : Z := 60000000000.

(** The data of the ConfigMap dolphin/dolphin-config, or the error of reading it;
    [unmarshal] is json.Unmarshal of a list of strings.  A key that is missing
    reads as the empty string. *)
Definition loadCfg (unmarshal : string → list string + string) (cm : gmap string string + string)
  : option LogConfig :=
  match cm with
  | inr _ => None
  | inl data =>
      let get k := default "" (data !! k) in
      match unmarshal (get "Apps") with
      | inr _ => None
      | inl apps => Some (mkLogConfig (get "LogRootPath") apps (get "S3Bucket") (get "AWSRegion") minute false)
      end
  end.

(** [newS3Client] is the result of NewS3Client for a region; the client of a nil
    configuration or of an error is nil. *)
Definition generateS3Client {S3} (newS3Client : string → S3 + string) (cfg : option LogConfig) : option S3 :=
  match cfg with
  | None => None
  | Some cfg => match newS3Client (AWSRegion cfg) with inl c => Some c | inr _ => None end
  end.

(** What registration leaves: no hook, or one for the configuration. *)
Definition registerLogController {S3} (cfg : option LogConfig) (s3cli : option S3) : option LogConfig :=
  match cfg, s3cli with
  | Some cfg, Some _ => if negb (Z.eqb (UploadInMinutesInterval cfg) 0) then Some cfg else None
  | _, _ => None
  end.

(** The start hook: an error, or whether the goroutine is started.  [readDir] and
    [glob] are the errors of os.ReadDir and filepath.Glob; what they find is only
    logged. *)
Definition OnStart (readDir glob : string → option string) (cfg : LogConfig) : bool + string :=
  if negb (EnableScalableLogis cfg) then inl false
  else match readDir (LogRootPath cfg) with
       | Some err => inr ("initializing log controller failed to stat log root path " +:+ LogRootPath cfg +:+ ": " +:+ err)
       | None =>
           match glob (filepath.Join [LogRootPath cfg; "*"]) with
           | Some err => inr ("initializing log controller failed to get files in log root path: " +:+ err)
           | None => inl true
           end
       end.

(** ** Files *)

Record Date := mkDate { d_year : Z; d_month : Z; d_day : Z }.

(** %02d. *)
Definition two (n : Z) : string := if (0 <=? n)%Z && (n <? 10)%Z then "0" +:+ Itoa n else Itoa n.

Definition datestamp (d : Date) : string := Itoa (d_year d) +:+ two (d_month d) +:+ two (d_day d).

Definition logfile (cfg : LogConfig) (d : Date) (app : string) : string :=
  filepath.Join [LogRootPath cfg; app; app +:+ "-" +:+ datestamp d +:+ ".log"].

Example logfile_ok :
  logfile (mkLogConfig "/var/log" ["web"] "b" "r" minute true) (mkDate 2024 1 12) "web" =
  "/var/log/web/web-20240112.log".
Proof. done. Qed.

(** ** Uploading *)

Inductive S3Call := BucketExists (bucket : string) | MakeBucket (bucket : string) | PutFile (bucket key path : string).

(** The calls that an upload makes, and its error: [ctxErr] is the error of the
    context, [openErr] that of opening the file; what is written to the file has
    no influence. *)
Definition uploadToS3 (ctxErr openErr : option string) (bucketExists : string → bool + string) (cfg : LogConfig)
  : list S3Call * option string :=
  match ctxErr with
  | Some err => ([], Some err)
  | None =>
      match openErr with
      | Some err => ([], Some err)
      | None =>
          match bucketExists (S3Bucket cfg) with
          | inr err => ([BucketExists (S3Bucket cfg)], Some err)
          | inl found =>
              ([BucketExists (S3Bucket cfg)] ++ (if negb found then [MakeBucket (S3Bucket cfg)] else []), None)
          end
      end
  end.

(** awss3/s3.go: [BucketExists] of [s3client]. *)
Definition s3client_BucketExists (bucket : string) : bool + string := inl true.

(** ** The goroutine and its uploads *)

Definition slots : nat := 10.

(** An upload is at work, or done and about to release its slot. *)
Inductive Phase := Uploading | Releasing.

Record State := mkState {
  (** The select statement is reached when no file is left. *)
  s_files : list string;
  (** The elements in the channel [sem]. *)
  s_sem : nat;
  s_uploads : list (string * Phase);
  (** The context is cancelled. *)
  s_done : bool;
  (** The goroutine has returned. *)
  s_returned : bool;
  (** Files that were skipped since the queue was full. *)
  s_skipped : list string
}.

Definition started : State := mkState [] 0 [] false false [].

Section Steps.
Context (cfg : LogConfig).

Inductive step : State → State → Prop :=
(** case <-ticker.C: also with a cancelled context, since select may take any case
    that is ready. *)
| step_tick sem ups done skipped d :
    step (mkState [] sem ups done false skipped) (mkState (logfile cfg d <$> AppNames cfg) sem ups done false skipped)
(** case <-ctx.Done(). *)
| step_return sem ups skipped :
    step (mkState [] sem ups true false skipped) (mkState [] sem ups true true skipped)
(** The file does not exist. *)
| step_missing f files sem ups done skipped :
    step (mkState (f :: files) sem ups done false skipped) (mkState files sem ups done false skipped)
(** case sem <- struct{}{}. *)
| step_upload f files sem ups done skipped :
    sem < slots →
    step (mkState (f :: files) sem ups done false skipped) (mkState files (S sem) (ups ++ [(f, Uploading)]) done false skipped)
(** default. *)
| step_full f files sem ups done skipped :
    slots ≤ sem →
    step (mkState (f :: files) sem ups done false skipped) (mkState files sem ups done false (skipped ++ [f]))
(** An upload returns, with an error or not. *)
| step_uploaded files sem ups1 ups2 f done returned skipped :
    step (mkState files sem (ups1 ++ (f, Uploading) :: ups2) done returned skipped)
         (mkState files sem (ups1 ++ (f, Releasing) :: ups2) done returned skipped)
(** <-sem, which blocks on an empty channel. *)
| step_release files sem ups1 ups2 f done returned skipped :
    step (mkState files (S sem) (ups1 ++ (f, Releasing) :: ups2) done returned skipped)
         (mkState files sem (ups1 ++ ups2) done returned skipped)
(** The stop hook or a signal cancels the context. *)
| step_OnStop files sem ups done returned skipped :
    step (mkState files sem ups done returned skipped) (mkState files sem ups true returned skipped).

Definition reachable (s : State) : Prop := rtc step started s.

(** ** The semaphore *)

(** The file of the day of an application. *)
Definition of_app (f : string) : Prop := ∃ d app, app ∈ AppNames cfg ∧ f = logfile cfg d app.

Record inv (s : State) : Prop := {
  inv_sem : s_sem s = length (s_uploads s);
  inv_slots : s_sem s ≤ slots;
  inv_files : Forall of_app (s_files s ++ (fst <$> s_uploads s))
}.

Lemma inv_started : inv started.
Proof using Type. split; cbn; [done|lia|constructor]. Qed.

Lemma inv_step s s' : inv s → step s s' → inv s'.
Proof using Type.
  intros [H1 H2 H3] Hs. destruct Hs; cbn in *; split; cbn;
    rewrite ?fmap_app, ?Forall_app, ?Forall_cons in *; cbn in *; rewrite ?Forall_cons in *;
    rewrite ?Forall_app, ?length_app in *; cbn in *; try lia; try done; try (split_and!; naive_solver).
  split; [|naive_solver]. apply Forall_fmap, Forall_forall. intros app Happ. by exists d, app.
Qed.

Lemma reachable_inv s : reachable s → inv s.
Proof using Type. apply (rtc_ind_r inv started); [exact inv_started|]. intros. by eapply inv_step. Qed.

(** Every upload finishes and releases its slot. *)
Lemma uploads_finish files ups done returned skipped :
  rtc step (mkState files (length ups) ups done returned skipped) (mkState files 0 [] done returned skipped).
Proof using Type.
  induction ups as [|[f ph] ups IH]; [done|]. cbn [length].
  assert (Hr : rtc step (mkState files (S (length ups)) ((f, Releasing) :: ups) done returned skipped)
                        (mkState files 0 [] done returned skipped)).
  { eapply rtc_l; [apply (step_release files (length ups) [] ups f)|exact IH]. }
  destruct ph; [|exact Hr]. eapply rtc_l; [|exact Hr]. apply (step_uploaded files _ [] ups f).
Qed.

(** The goroutine works through its files without waiting for an upload. *)
Lemma files_finish files ups done skipped :
  inv (mkState files (length ups) ups done false skipped) →
  ∃ ups' skipped', rtc step (mkState files (length ups) ups done false skipped)
                     (mkState [] (length ups') ups' done false skipped').
Proof using Type.
  revert ups skipped. induction files as [|f files IH]; intros ups skipped Hi; [by exists ups, skipped|].
  destruct (decide (length ups < slots)) as [Hl|Hl].
  - destruct (IH (ups ++ [(f, Uploading)]) skipped) as (ups' & skipped' & Hr).
    { eapply inv_step; [exact Hi|]. rewrite length_app. cbn. rewrite Nat.add_1_r. by apply step_upload. }
    exists ups', skipped'. eapply rtc_l; [by apply step_upload|]. rewrite length_app in Hr. cbn in Hr.
    by rewrite Nat.add_1_r in Hr.
  - destruct (IH ups (skipped ++ [f])) as (ups' & skipped' & Hr).
    { eapply inv_step; [exact Hi|]. apply step_full. lia. }
    exists ups', skipped'. eapply rtc_l; [|exact Hr]. apply step_full. lia.
Qed.

(** C40: whatever the interleaving, at most ten uploads run at a time, one for each
    element of the channel, each for the log file of an application that is
    configured; and the controller can always be stopped: from every state that is
    reached, the goroutine can return and all uploads finish. *)
Theorem uploads_bounded s :
  reachable s →
  length (s_uploads s) ≤ slots ∧ s_sem s = length (s_uploads s) ∧ Forall of_app (fst <$> s_uploads s) ∧
  ∃ s', rtc step s s' ∧ s_returned s' = true ∧ s_uploads s' = [] ∧ s_sem s' = 0.
Proof using Type.
  intros Hr. destruct (reachable_inv s Hr) as [H1 H2 H3]. destruct s as [files sem ups done returned skipped].
  cbn in *. subst sem. apply Forall_app in H3 as [Hf Hu]. split_and!; [done..|].
  destruct returned.
  - eexists. split; [apply uploads_finish|done].
  - destruct (files_finish files ups true skipped) as (ups' & skipped' & Hfin).
    { split; [done..|]. by apply Forall_app. }
    exists (mkState [] 0 [] true true skipped'). split; [|done]. eapply rtc_l; [apply step_OnStop|].
    etrans; [exact Hfin|]. eapply rtc_l; [apply step_return|]. apply uploads_finish.
Qed.

End Steps.

(** ** What the controller does not do *)

(** The configuration that is loaded never enables the controller: the field that
    the start hook asks for is not read from the ConfigMap. *)
Theorem loaded_never_starts {S3} unmarshal cm (newS3Client : string → S3 + string) readDir glob cfg :
  registerLogController (loadCfg unmarshal cm) (generateS3Client newS3Client (loadCfg unmarshal cm)) = Some cfg →
  OnStart readDir glob cfg = inl false.
Proof.
  unfold loadCfg, registerLogController. destruct cm as [data|]; [|done]. cbv zeta.
  destruct (unmarshal _) as [apps|]; [|done]. destruct (generateS3Client _ _); [|done].
  intros [= <-]. done.
Qed.

(** An upload that succeeds has not put a file into the bucket, and with the client
    of the repository it makes no bucket either. *)
Theorem upload_puts_nothing ctxErr openErr bucketExists cfg calls :
  uploadToS3 ctxErr openErr bucketExists cfg = (calls, None) →
  (∀ b k p, PutFile b k p ∉ calls) ∧
  (bucketExists = s3client_BucketExists → calls = [BucketExists (S3Bucket cfg)]).
Proof.
  unfold uploadToS3. destruct ctxErr; [done|]. destruct openErr; [done|].
  destruct (bucketExists (S3Bucket cfg)) as [b|] eqn:E; [|done]. intros [= <-]. split.
  - intros b' k p. destruct b; cbn; rewrite ?elem_of_cons, elem_of_nil; naive_solver.
  - intros ->. injection E as <-. done.
Qed.

(** Two ticks, of which the first upload is not over: two uploads of one file. *)
Theorem same_file_twice cfg d app :
  app ∈ AppNames cfg → length (AppNames cfg) = 1 →
  ∃ s, reachable cfg s ∧ s_uploads s = [(logfile cfg d app, Uploading); (logfile cfg d app, Uploading)].
Proof.
  intros Happ Hl. destruct (AppNames cfg) as [|a [|? ?]] eqn:E; try done.
  apply list_elem_of_singleton in Happ as ->. eexists. split.
  - eapply rtc_l; [apply (step_tick cfg _ _ _ _ d)|]. rewrite E. cbn.
    eapply rtc_l; [apply step_upload; unfold slots; lia|].
    eapply rtc_l; [apply (step_tick cfg _ _ _ _ d)|]. rewrite E. cbn.
    eapply rtc_l; [apply step_upload; unfold slots; lia|]. apply rtc_refl.
  - done.
Qed.

(** ** An example *)

Definition one_app : LogConfig := mkLogConfig "/var/log" ["web"] "bucket" "region" minute true.
Definition web_log : string := "/var/log/web/web-20240112.log".

Lemma uploads_bounded_witness :
  ∃ s', rtc (step one_app) (mkState [] 1 [(web_log, Uploading)] false false []) s' ∧ s_returned s' = true ∧
    s_uploads s' = [] ∧ s_sem s' = 0.
Proof.
  apply (uploads_bounded one_app). eapply rtc_l; [apply (step_tick _ _ _ _ _ (mkDate 2024 1 12))|]. cbn.
  eapply rtc_l; [apply step_upload; unfold slots; lia|]. apply rtc_refl.
Defined.

Lemma loaded_never_starts_witness :
  OnStart (λ _, None) (λ _, None) (mkLogConfig "" ["web"] "" "" minute false) = inl false.
Proof.
  refine (loaded_never_starts (S3 := unit) (λ _, inl ["web"]) (inl ∅) (λ _, inl tt) (λ _, None) (λ _, None) _ _). vm_compute. reflexivity.
Defined.

Lemma upload_puts_nothing_witness :
  ∀ b k p, PutFile b k p ∉ [BucketExists "bucket"].
Proof. apply (upload_puts_nothing None None s3client_BucketExists one_app). reflexivity. Defined.

Lemma same_file_twice_witness :
  ∃ s, reachable one_app s ∧ s_uploads s = [(web_log, Uploading); (web_log, Uploading)].
Proof. apply (same_file_twice one_app (mkDate 2024 1 12) "web"); [by left|reflexivity]. Defined.

End microsvclog.
