(* ===== verification/Upload.v ===== *)
(** * Uploading a directory (src/scalable/logcontroller/awss3/s3.go)
    [Module awss3]: [getnerateUploadTask] starts a goroutine that walks a
    directory and sends a task for every file over an unbuffered channel;
    [PutDirectory] receives the tasks and uploads them one by one.  The two run
    concurrently: their interleavings are a step relation.

    [filepath.Walk] is that of the Go standard library; what it finds in the file
    system is an argument. *)

From S2P Require Import Prelude GoStrings LogController.
From stdpp Require Import relations.

Module awss3.

(** ** The file system *)

(** What [os.Lstat] and the reading of directories find: [Gone] is an entry whose
    [Lstat] fails, [readable] is false where reading the directory does. *)
Inductive node :=
| File
| Symlink
| Dir (readable : bool) (entries : list (string * node))
| Gone.

Record uploadTask := mkTask { t_key : string; t_path : string }.

(** What the goroutine does next: it sends, or it panics. *)
Inductive event := Send (t : uploadTask) | Crash (p : go_panic).

Section Walk.
Context (keyPrefix rootPath : string).

Definition task (path : string) : uploadTask :=
  mkTask (filepath.Join [keyPrefix; TrimPrefix path rootPath]) path.

(** The function that is called for every entry.  It ignores the error it is given,
    and calls a method of [info], which is nil for an entry that is gone. *)
Definition visit (path : string) (info : node) : list event :=
  match info with
  | Gone => [Crash NilDeref]
  | Dir _ _ => []
  | Symlink => []
  | File => [Send (task path)]
  end.

Definition entry_less {A} (a b : string * A) : bool := str_ltb a.1 b.1.

(** [filepath.Walk]: a directory, then its entries by name; one that cannot be read
    is skipped, since the function returns nil for its error. *)
Fixpoint walk (path : string) (info : node) : list event :=
  visit path info ++
  match info with
  | Dir true entries =>
      concat (snd <$> sort_stable entry_less
        (List.map (λ '(name, child), (name, walk (filepath.Join [path; name]) child)) entries))
  | _ => []
  end.

End Walk.

(** What the goroutine does for the directory at a path of the file system. *)
Definition getnerateUploadTask (lstat : string → node) (keyPrefix rootPath : string) : list event :=
  let rootPath := filepath.Clean rootPath +:+ "/" in
  walk keyPrefix rootPath rootPath (lstat rootPath).

(** ** Goroutine and loop *)

Inductive Consumer := Ranging | Returned (err : option string) | Died (p : go_panic).

Record State := mkState {
  (** What the goroutine has left to do; the channel is closed at the end. *)
  s_producer : list event;
  s_consumer : Consumer;
  (** The files for which [PutFile] was called, the last one last. *)
  s_put : list uploadTask
}.

Section PutDirectory.
Context (put : uploadTask → go (option string)).

(** The panic of a goroutine ends the program, also after the loop has returned. *)
Inductive step : State → State → Prop :=
| step_uploaded t es up : put t = Ok None → step (mkState (Send t :: es) Ranging up) (mkState es Ranging (up ++ [t]))
| step_failed t es up err : put t = Ok (Some err) →
    step (mkState (Send t :: es) Ranging up) (mkState es (Returned (Some err)) (up ++ [t]))
| step_put_panics t es up p : put t = Panic p →
    step (mkState (Send t :: es) Ranging up) (mkState es (Died p) (up ++ [t]))
| step_closed up : step (mkState [] Ranging up) (mkState [] (Returned None) up)
| step_crash p es c up : (∀ q, c ≠ Died q) → step (mkState (Crash p :: es) c up) (mkState es (Died p) up).

End PutDirectory.

(** [PutFile] is not implemented. *)
Definition PutFile (t : uploadTask) : go (option string) := Panic (Explicit "unimplemented").

Definition PutDirectory (lstat : string → node) (key path : string) : State → Prop :=
  rtc (step PutFile) (mkState (getnerateUploadTask lstat key path) Ranging []).

(** ** Which files are sent *)

(** A file below a node, by the names on the way through readable directories. *)
Inductive file_at : node → list string → Prop :=
| file_here : file_at File []
| file_below entries name child names :
    (name, child) ∈ entries → file_at child names → file_at (Dir true entries) (name :: names).

(** An entry that is gone, likewise. *)
Inductive gone_at : node → Prop :=
| gone_here : gone_at Gone
| gone_below entries name child : (name, child) ∈ entries → gone_at child → gone_at (Dir true entries).

Definition path_of (path : string) (names : list string) : string := foldl (λ p name, filepath.Join [p; name]) path names.

(** Induction on file trees. *)
Lemma node_ind' (P : node → Prop) :
  P File → P Symlink → P Gone →
  (∀ readable entries, Forall (λ e, P e.2) entries → P (Dir readable entries)) → ∀ n, P n.
Proof.
  intros HF HS HG HD. fix IH 1. intros [| |readable entries|]; [exact HF|exact HS| |exact HG].
  apply HD. induction entries as [|[name child] entries IHe]; constructor; [apply IH|exact IHe].
Qed.

Section Tasks.
Context (keyPrefix rootPath : string).
Abbreviation walk := (walk keyPrefix rootPath).
Abbreviation task := (task keyPrefix rootPath).

Lemma elem_of_below path entries e :
  e ∈ concat (snd <$> sort_stable entry_less
        (List.map (λ '(name, child), (name, walk (filepath.Join [path; name]) child)) entries)) ↔
  ∃ name child, (name, child) ∈ entries ∧ e ∈ walk (filepath.Join [path; name]) child.
Proof.
  rewrite list_elem_of_In, in_concat. setoid_rewrite <-list_elem_of_In. split.
  - intros (l & ([n l'] & -> & Hin%elem_of_sort_stable)%list_elem_of_fmap & He).
    apply list_elem_of_In, in_map_iff in Hin as ([name child] & [= <- <-] & Hin%list_elem_of_In). by exists name, child.
  - intros (name & child & Hin & He). exists (walk (filepath.Join [path; name]) child). split; [|done].
    apply list_elem_of_fmap. exists (name, walk (filepath.Join [path; name]) child). split; [done|].
    apply elem_of_sort_stable, list_elem_of_In, in_map_iff. exists (name, child). split; [done|by apply list_elem_of_In].
Qed.

Lemma walk_Send n path t :
  Send t ∈ walk path n ↔ ∃ names, file_at n names ∧ t = task (path_of path names).
Proof.
  revert path. induction n as [| | |readable entries IH] using node_ind'; intros path; cbn [awss3.walk visit app].
  - rewrite list_elem_of_singleton. split; [intros [= ->]; exists []; by split; [constructor|]|].
    intros (names & H & ->). by inversion H.
  - rewrite elem_of_nil. split; [done|]. intros (names & H & _). inversion H.
  - rewrite list_elem_of_singleton. split; [done|]. intros (names & H & _). inversion H.
  - destruct readable; [|rewrite elem_of_nil; split; [done|]; intros (names & H & _); inversion H].
    rewrite Forall_forall in IH. rewrite elem_of_below. split.
    + intros (name & child & Hin & Ht). apply (IH (name, child) Hin) in Ht as (names & H & ->).
      exists (name :: names). split; [by econstructor|done].
    + intros (names & H & ->). inversion H as [|? name child names' Hin Hc]; subst. exists name, child. split; [done|].
      apply (IH (name, child) Hin). by exists names'.
Qed.

Lemma walk_Crash n path p : Crash p ∈ walk path n ↔ p = NilDeref ∧ gone_at n.
Proof.
  revert path. induction n as [| | |readable entries IH] using node_ind'; intros path; cbn [awss3.walk visit app].
  - rewrite list_elem_of_singleton. split; [done|]. intros [_ H]. inversion H.
  - rewrite elem_of_nil. split; [done|]. intros [_ H]. inversion H.
  - rewrite list_elem_of_singleton. split; [intros [= ->]; by split; [|constructor]|by intros [-> _]].
  - destruct readable; [|rewrite elem_of_nil; split; [done|]; intros [_ H]; inversion H].
    rewrite Forall_forall in IH. rewrite elem_of_below. split.
    + intros (name & child & Hin & Ht). apply (IH (name, child) Hin) in Ht as [-> H]. split; [done|by econstructor].
    + intros [-> H]. inversion H as [|? name child Hin Hc]; subst. exists name, child. split; [done|].
      by apply (IH (name, child) Hin).
Qed.

End Tasks.

(** ** Every run *)

Section Runs.
Context (put : uploadTask → go (option string)) (tasks : list uploadTask).

Definition initial : State := mkState (Send <$> tasks) Ranging [].

(** The tasks that were taken from the channel come first, in order, and all of
    them but the last one were uploaded. *)
Definition outcome (s : State) : Prop :=
  ∃ rest, s_producer s = Send <$> rest ∧ tasks = s_put s ++ rest ∧
    match s_consumer s with
    | Ranging => Forall (λ t, put t = Ok None) (s_put s)
    | Returned None => rest = [] ∧ Forall (λ t, put t = Ok None) (s_put s)
    | Returned (Some err) => ∃ uploaded t, s_put s = uploaded ++ [t] ∧
        Forall (λ t, put t = Ok None) uploaded ∧ put t = Ok (Some err)
    | Died p => ∃ uploaded t, s_put s = uploaded ++ [t] ∧
        Forall (λ t, put t = Ok None) uploaded ∧ put t = Panic p
    end.

Lemma outcome_step s s' : step put s s' → outcome s → outcome s'.
Proof.
  intros Hs (rest & Hp & Ht & Hc).
  destruct Hs as [t es up E|t es up err E|t es up p E|up|p es c up Hd]; cbn in *.
  - destruct rest as [|t' rest]; [done|]. injection Hp as <- ->. exists rest. cbn. rewrite <-app_assoc. split_and!; try done.
    apply Forall_app. by split; [|constructor].
  - destruct rest as [|t' rest]; [done|]. injection Hp as <- ->. exists rest. cbn. rewrite <-app_assoc. split_and!; try done.
    by exists up, t.
  - destruct rest as [|t' rest]; [done|]. injection Hp as <- ->. exists rest. cbn. rewrite <-app_assoc. split_and!; try done.
    by exists up, t.
  - exists []. destruct rest; [done|]. done.
  - by destruct rest.
Qed.

Lemma outcome_reachable s : rtc (step put) initial s → outcome s.
Proof.
  intros H. assert (outcome initial) as H0.
  { exists tasks. split_and!; [done..|]. constructor. }
  induction H as [|s1 s2 s3 H1 _ IH]; [done|]. apply IH. by eapply outcome_step.
Qed.

(** The loop never waits for the goroutine for ever. *)
Lemma ranging_steps s : outcome s → s_consumer s = Ranging → ∃ s', step put s s'.
Proof.
  intros (rest & Hp & _ & _) Hc. destruct s as [es c up]. cbn in *. subst.
  destruct rest as [|t rest]; [eexists; constructor|]. cbn.
  destruct (put t) as [[err|]|p] eqn:E; eexists; by constructor.
Qed.

Lemma run_ends s : outcome s → ∃ s', rtc (step put) s s' ∧ s_consumer s' ≠ Ranging.
Proof.
  intros Ho. remember (length (s_producer s)) as n eqn:En. revert s Ho En. induction n as [|n IH]; intros s Ho En.
  - destruct s as [[|] c up]; [|done]. destruct c; [|by eexists..].
    exists (mkState [] (Returned None) up). split; [|done]. apply rtc_once. constructor.
  - destruct (s_consumer s) eqn:Ec; [|exists s; split; [done|congruence]..].
    destruct (ranging_steps s Ho Ec) as [s1 H1]. pose proof (outcome_step _ _ H1 Ho) as Ho1.
    destruct (IH s1 Ho1) as (s2 & H2 & Hc); [|exists s2; split; [by eapply rtc_l|done]].
    destruct H1; cbn in *; lia.
Qed.

(** Uploading is complete or stops at the first file that fails.  Every run ends,
    and in every reachable state the files handed to [PutFile] are the first ones
    that were found, in order, all uploaded but the last; the loop returns nil only
    after all of them, and after an error it returns while the goroutine stays
    blocked for ever if a file is left. *)
Theorem uploads_in_order :
  (∃ s, rtc (step put) initial s ∧ s_consumer s ≠ Ranging) ∧
  ∀ s, rtc (step put) initial s →
    outcome s ∧
    (s_consumer s = Returned None → s_put s = tasks) ∧
    (∀ err, s_consumer s = Returned (Some err) → ¬ ∃ s', step put s s').
Proof.
  split; [by apply run_ends, outcome_reachable|]. intros s H%outcome_reachable. split_and!; [done| |].
  - intros Hc. destruct H as (rest & _ & -> & H). rewrite Hc in H. destruct H as [-> _]. by rewrite app_nil_r.
  - intros err Hc [s' Hs]. destruct H as (rest & Hp & _ & _). destruct Hs; cbn in *; try done. by destruct rest.
Qed.

End Runs.

(** ** The code as it is *)

Lemma no_crash (es : list event) : (∀ p, Crash p ∉ es) → ∃ ts, es = Send <$> ts.
Proof.
  induction es as [|[t|p] es IH]; intros H; [by exists []| |].
  - destruct IH as [ts ->]; [set_solver|]. by exists (t :: ts).
  - by destruct (H p (list_elem_of_here _ _)).
Qed.

(** [PutDirectory] uploads nothing.  Where no entry disappears, it returns nil if
    there is no file and never an error, and panics if there is a file. *)
Theorem PutDirectory_spec lstat key path s :
  let root := filepath.Clean path +:+ "/" in
  ¬ gone_at (lstat root) → PutDirectory lstat key path s →
  match s_consumer s with
  | Ranging => True
  | Returned err => err = None ∧ ∀ names, ¬ file_at (lstat root) names
  | Died p => p = Explicit "unimplemented" ∧ ∃ names, file_at (lstat root) names
  end.
Proof.
  intros root Hg Hrun. unfold PutDirectory, getnerateUploadTask in Hrun. cbv zeta in Hrun. fold root in Hrun.
  destruct (no_crash (walk key root root (lstat root))) as [ts Ets].
  { intros p Hp. by apply walk_Crash in Hp as [_ ?]. }
  rewrite Ets in Hrun. apply outcome_reachable in Hrun as (rest & _ & Hts & Hc).
  assert (∀ uploaded t, s_put s = uploaded ++ [t] → ∃ names, file_at (lstat root) names) as Hfile.
  { intros uploaded t Hu. assert (Send t ∈ walk key root root (lstat root)) as H.
    { rewrite Ets, list_elem_of_fmap. exists t. split; [done|]. rewrite Hts, Hu. set_solver. }
    apply walk_Send in H as (names & H & _). by exists names. }
  destruct (s_consumer s) as [|[err|]|p].
  - done.
  - destruct Hc as (uploaded & t & _ & _ & H). done.
  - destruct Hc as [-> Hall]. split; [done|]. intros names Hn.
    assert (Send (task key root (path_of root names)) ∈ walk key root root (lstat root)) as H by (apply walk_Send; by exists names).
    rewrite Ets, list_elem_of_fmap in H. destruct H as (t & _ & Ht). rewrite Hts, app_nil_r in Ht.
    eapply Forall_forall in Hall; [|exact Ht]. done.
  - destruct Hc as (uploaded & t & Hu & _ & [= <-]). split; [done|by eapply Hfile].
Qed.

(** A path that does not exist takes the program down: the function given to
    [Walk] does not look at the error. *)
Theorem missing_directory_panics lstat key path :
  lstat (filepath.Clean path +:+ "/") = Gone → PutDirectory lstat key path (mkState [] (Died NilDeref) []).
Proof.
  intros H. unfold PutDirectory, getnerateUploadTask. cbv zeta. rewrite H. apply rtc_once. by constructor.
Qed.

(** ** An example *)

Definition ex_lstat (path : string) : node :=
  if String.eqb path "/var/log/" then
    Dir true [("web", Dir true [("b.log", File); ("a.log", File); ("latest", Symlink)]); ("lost", Dir false []); ("top.log", File)]
  else Gone.

Example ex_tasks :
  getnerateUploadTask ex_lstat "logs" "/var/log" =
  Send <$> [mkTask "logs/top.log" "/var/log/top.log"; mkTask "logs/web/a.log" "/var/log/web/a.log";
            mkTask "logs/web/b.log" "/var/log/web/b.log"].
Proof. vm_compute. reflexivity. Qed.

End awss3.
