(* ===== verification/Serving.v ===== *)
(** * The HTTP server of the operator (src/api)

    [Module operator_api]: the addresses the server listens on, its ports, its stop
    hook, and the answers of the health check.  The network (which address can be
    listened on, and at which port), the shutdown of a server and the version of
    the API server are arguments. *)

From S2P Require Import Prelude GoStrings.

Module operator_api.

(** A listener, by its port. *)
Record httpServer := mkHttpServer { hs_address : string; hs_listener : option Z }.

Record server := mkServer { sv_address : string; sv_httpSrvs : list httpServer }.

Definition newServer (operatorAPIServeAddr : string) : server := mkServer operatorAPIServeAddr [].

Definition operatorServeAddrDefault : string := "localhost:9233".

(** The addresses to listen on: the empty string stands for both loopbacks. *)
Definition addresses (address : string) : list string :=
  if String.eqb address "" then ["127.0.0.1:0"; "[::1]:0"] else [address].

Section Start.
(** net.Listen: the port, or an error. *)
Context (Listen : string → Z + string).

Definition listen_one (acc : list httpServer * list string) (address : string) : list httpServer * list string :=
  let '(srvs, errs) := acc in
  match Listen address with
  | inr err => (srvs ++ [mkHttpServer address None], errs ++ ["unable to listen on " +:+ address +:+ ": " +:+ err])
  | inl port => (srvs ++ [mkHttpServer address (Some port)], errs)
  end.

Definition closed (srv : httpServer) : bool := match hs_listener srv with None => true | Some _ => false end.

(** The condition of the code, which is about one and about two servers. *)
Definition none_listens (srvs : list httpServer) : bool :=
  match srvs with
  | [a] => closed a
  | [a; b] => closed a && closed b
  | _ => false
  end.

(** The server with its listeners, the errors [Start] returns (joined; none: nil)
    and whether the operator is shut down.  [analyzed] is the error of analysing
    the specification of the API. *)
Definition Start (analyzed : option string) (s : server) : server * list string * bool :=
  match analyzed with
  | Some err => (s, [err], false)
  | None =>
      let '(srvs, errs) := foldl listen_one ([], []) (addresses (sv_address s)) in
      let s := mkServer (sv_address s) srvs in
      if none_listens srvs then (s, errs, true) else (s, [], false)
  end.

End Start.

Definition Ports (s : server) : list Z := omap hs_listener (sv_httpSrvs s).

(** A server that ends for any other reason than having been closed shuts the
    operator down. *)
Definition served_ends (err : option string) : bool :=
  negb (bool_decide (err = Some "http: Server closed")).

(** The stop hook: the servers whose shutdown is called, and the first error. *)
Fixpoint stop_loop (Shutdown : httpServer → option string) (srvs : list httpServer)
  : list string * option string :=
  match srvs with
  | [] => ([], None)
  | srv :: srvs =>
      if closed srv then stop_loop Shutdown srvs
      else match Shutdown srv with
           | Some err => ([hs_address srv], Some err)
           | None => let '(l, r) := stop_loop Shutdown srvs in (hs_address srv :: l, r)
           end
  end.

Definition Stop (Shutdown : httpServer → option string) (s : server) : list string * option string :=
  stop_loop Shutdown (sv_httpSrvs s).

(** ** The health check *)

Inductive Responder := NotImplemented | InternalServerError (payload : string) | HealthOK (payload : string).

(** health.go: the handler of a client that is disabled is disabled. *)
Record healthhandler := mkHealthhandler { h_enabled : bool }.

Definition HealthHandlerCell (clientEnabled : bool) : healthhandler := mkHealthhandler clientEnabled.

Definition Handle (h : healthhandler) (serverVersion : option string) : Responder :=
  if negb (h_enabled h) then NotImplemented
  else match serverVersion with
       | Some err => InternalServerError err
       | None => HealthOK "ok"
       end.

(** ** What starts *)

Lemma listen_all Listen l srvs errs :
  let '(srvs', errs') := foldl (listen_one Listen) (srvs, errs) l in
  srvs' = srvs ++ ((λ a, mkHttpServer a (match Listen a with inl p => Some p | inr _ => None end)) <$> l) ∧
  length errs' = length errs + length (List.filter (λ a, match Listen a with inr _ => true | inl _ => false end) l).
Proof.
  revert srvs errs. induction l as [|a l IH]; intros srvs errs; cbn [foldl fmap list_fmap].
  - rewrite app_nil_r. cbn. by rewrite Nat.add_0_r.
  - unfold listen_one at 2. destruct (Listen a) as [p|e] eqn:E; specialize (IH (srvs ++ [mkHttpServer a match Listen a with inl p => Some p | inr _ => None end]));
      rewrite E in IH.
    + specialize (IH errs). destruct (foldl _ _ l) as [srvs' errs']. destruct IH as [-> ->]. cbn. rewrite E.
      split; [by rewrite <-app_assoc|lia].
    + specialize (IH (errs ++ ["unable to listen on " +:+ a +:+ ": " +:+ e])).
      destruct (foldl _ _ l) as [srvs' errs']. destruct IH as [-> ->]. cbn. rewrite E, length_app. cbn.
      split; [by rewrite <-app_assoc|lia].
Qed.

(** The port of an address, if it can be listened on. *)
Definition port_of (Listen : string → Z + string) (a : string) : option Z :=
  match Listen a with inl p => Some p | inr _ => None end.

(** Once the specification is read, the server serves exactly the addresses that
    can be listened on, one of the two loopbacks being enough.  If there is none, and
    only then, starting fails with one error for each address and the operator is
    shut down. *)
Theorem server_serves Listen s :
  let '(s', errs, down) := Start Listen None s in
  Ports s' = omap (port_of Listen) (addresses (sv_address s)) ∧
  (down = true ↔ Ports s' = []) ∧
  length errs = if down then length (addresses (sv_address s)) else 0.
Proof.
  unfold Start. pose proof (listen_all Listen (addresses (sv_address s)) [] []) as H.
  destruct (foldl _ _ _) as [srvs errs]. destruct H as [-> Hl]. cbn [app length] in *. unfold Ports, addresses in *.
  destruct (String.eqb (sv_address s) ""); cbn in *; unfold port_of in *.
  - destruct (Listen "127.0.0.1:0"), (Listen "[::1]:0"); cbn in *; naive_solver.
  - destruct (Listen (sv_address s)); cbn in *; naive_solver.
Qed.

(** Stopping calls the shutdown of every server that listens, unless one fails. *)
Theorem Stop_all Shutdown s :
  (∀ srv, Shutdown srv = None) →
  Stop Shutdown s = (hs_address <$> List.filter (λ srv, negb (closed srv)) (sv_httpSrvs s), None).
Proof.
  intros Hs. unfold Stop. induction (sv_httpSrvs s) as [|srv l IH]; [done|]. cbn.
  destruct (closed srv); cbn; [done|]. by rewrite Hs, IH.
Qed.

(** A machine without IPv6. *)
Definition only_v4 (a : string) : Z + string := if String.eqb a "[::1]:0" then inr "no such device" else inl 40001%Z.

Example only_v4_serves : Start only_v4 None (newServer "") =
  (mkServer "" [mkHttpServer "127.0.0.1:0" (Some 40001%Z); mkHttpServer "[::1]:0" None], [], false).
Proof. reflexivity. Qed.

Lemma Stop_all_witness :
  Stop (λ _, None) (mkServer "" [mkHttpServer "127.0.0.1:0" (Some 40001%Z); mkHttpServer "[::1]:0" None]) =
  (["127.0.0.1:0"], None).
Proof. apply (Stop_all (λ _, None) (mkServer "" [mkHttpServer "127.0.0.1:0" (Some 40001%Z); mkHttpServer "[::1]:0" None])). reflexivity. Defined.

End operator_api.
