(* ===== verification/OperatorOption.v ===== *)
(** * The configuration of the operator (src/option/config.go)

    [Module option]: [Populate] reads the options into the configuration that the
    other parts use, with the defaults it fills in.  The options come from viper, a
    library; floating point numbers are only passed on. *)

From S2P Require Import Prelude GoStrings.

(** The options that were set, by their type.  [GetStringMapStringE] is the
    function of infra that parses a map. *)
Class Viper := {
  Float64 : Type;
  GetBool : string → bool;
  GetInt : string → Z;
  GetInt64 : string → Z;
  GetUint32 : string → Z;
  GetDuration : string → Z;
  GetFloat64 : string → Float64;
  GetString : string → string;
  GetStringSlice : string → list string;
  GetStringMapStringE : string → gmap string string + string
}.

Module option.

(** ** The options *)

Definition key_EnableGatewayAPI : string := "enable-gateway-api".
Definition key_BGPAnnounceLBIP : string := "bgp-announce-lb-ip".
Definition key_BGPConfigPath : string := "bgp-config-path".
Definition key_SkipDNPStatusStartupClean : string := "skip-dnp-status-startup-clean".
Definition key_DNPStatusCleanupQPS : string := "dnp-status-cleanup-qps".
Definition key_DNPStatusCleanupBurst : string := "dnp-status-cleanup-burst".
Definition key_EnableMetrics : string := "enable-metrics".
Definition key_EndpointGCInterval : string := "dolphin-endpoint-gc-interval".
Definition key_NodesGCInterval : string := "nodes-gc-interval".
Definition key_SyncK8sServices : string := "synchronize-k8s-services".
Definition key_SyncK8sNodes : string := "synchronize-k8s-nodes".
Definition key_UnmanagedPodWatcherInterval : string := "unmanaged-pod-watcher-interval".
Definition key_IPAMAPIBurst : string := "limit-ipam-api-burst".
Definition key_IPAMAPIQPSLimit : string := "limit-ipam-api-qps".
Definition key_IPAMSubnetsIDs : string := "subnet-ids-filter".
Definition key_IPAMSubnetsTags : string := "subnet-tags-filter".
Definition key_IPAMInstanceTags : string := "instance-tags-filter".
Definition key_IPAMAutoCreateDolphinPodIPPools : string := "auto-create-dolphin-pod-ip-pools".
Definition key_ClusterPoolIPv4CIDR : string := "cluster-pool-ipv4-cidr".
Definition key_ClusterPoolIPv6CIDR : string := "cluster-pool-ipv6-cidr".
Definition key_NodeCIDRMaskSizeIPv4 : string := "cluster-pool-ipv4-mask-size".
Definition key_NodeCIDRMaskSizeIPv6 : string := "cluster-pool-ipv6-mask-size".
Definition key_ExcessIPReleaseDelay : string := "excess-ip-release-delay".
Definition key_AWSReleaseExcessIPs : string := "aws-release-excess-ips".
Definition key_AWSInstanceLimitMapping : string := "aws-instance-limit-mapping".
Definition key_AWSEnablePrefixDelegation : string := "aws-enable-prefix-delegation".
Definition key_ENITags : string := "eni-tags".
Definition key_ENIGarbageCollectionTags : string := "eni-gc-tags".
Definition key_ENIGarbageCollectionInterval : string := "eni-gc-interval".
Definition key_ParallelAllocWorkers : string := "parallel-alloc-workers".
Definition key_UpdateEC2AdapterLimitViaAPI : string := "update-ec2-adapter-limit-via-api".
Definition key_EC2APIEndpoint : string := "ec2-api-endpoint".
Definition key_AWSUsePrimaryAddress : string := "aws-use-primary-address".
Definition key_AzureSubscriptionID : string := "azure-subscription-id".
Definition key_AzureResourceGroup : string := "azure-resource-group".
Definition key_AzureUserAssignedIdentityID : string := "azure-user-assigned-identity-id".
Definition key_AzureUsePrimaryAddress : string := "azure-use-primary-address".
Definition key_LeaderElectionLeaseDuration : string := "leader-election-lease-duration".
Definition key_LeaderElectionRenewDeadline : string := "leader-election-renew-deadline".
Definition key_LeaderElectionRetryPeriod : string := "leader-election-retry-period".
Definition key_DisableLeaderElection : string := "disable-leader-election".
Definition key_LoadBalancerL7 : string := "loadbalancer-l7".
Definition key_ProxyIdleTimeoutSeconds : string := "proxy-idle-timeout-seconds".
Definition key_DolphinK8sNamespace : string := "dolphin-pod-namespace".
Definition key_DolphinPodLabels : string := "dolphin-pod-labels".
Definition key_RemoveDolphinNodeTaints : string := "remove-dolphin-node-taints".
Definition key_SetDolphinNodeTaints : string := "set-dolphin-node-taints".
Definition key_SetDolphinIsUpCondition : string := "set-dolphin-is-up-condition".
Definition key_IngressDefaultXffNumTrustedHops : string := "ingress-default-xff-num-trusted-hops".
Definition key_PodRestartSelector : string := "pod-restart-selector".
Definition key_EnableScalableLogis : string := "enable-Log-controller".

Definition DefaultProxyIdleTimeoutSeconds : Z := 60.

Section Config.
Context {vp : Viper}.

Record OperatorConfig := mkOperatorConfig {
  NodesGCInterval : Z;
  SkipDNPStatusStartupClean : bool;
  DNPStatusCleanupQPS : Float64;
  DNPStatusCleanupBurst : Z;
  EnableMetrics : bool;
  EndpointGCInterval : Z;
  SyncK8sServices : bool;
  SyncK8sNodes : bool;
  UnmanagedPodWatcherInterval : Z;
  LeaderElectionLeaseDuration : Z;
  LeaderElectionRenewDeadline : Z;
  LeaderElectionRetryPeriod : Z;
  DisableLeaderElection : bool;
  BGPAnnounceLBIP : bool;
  BGPConfigPath : string;
  IPAM : string;
  IPAMAPIBurst : Z;
  IPAMAPIQPSLimit : Float64;
  IPAMSubnetsIDs : list string;
  IPAMSubnetsTags : gmap string string;
  IPAMInstanceTags : gmap string string;
  ClusterPoolIPv4CIDR : list string;
  ClusterPoolIPv6CIDR : list string;
  NodeCIDRMaskSizeIPv4 : Z;
  NodeCIDRMaskSizeIPv6 : Z;
  IPAMAutoCreateDolphinPodIPPools : gmap string string;
  ENITags : gmap string string;
  ENIGarbageCollectionTags : gmap string string;
  ENIGarbageCollectionInterval : Z;
  ParallelAllocWorkers : Z;
  AWSInstanceLimitMapping : gmap string string;
  AWSReleaseExcessIPs : bool;
  AWSEnablePrefixDelegation : bool;
  AWSUsePrimaryAddress : bool;
  UpdateEC2AdapterLimitViaAPI : bool;
  ExcessIPReleaseDelay : Z;
  EC2APIEndpoint : string;
  AzureSubscriptionID : string;
  AzureResourceGroup : string;
  AzureUserAssignedIdentityID : string;
  AzureUsePrimaryAddress : bool;
  LoadBalancerL7 : string;
  EnableGatewayAPI : bool;
  ProxyIdleTimeoutSeconds : Z;
  DolphinK8sNamespace : string;
  DolphinPodLabels : string;
  RemoveDolphinNodeTaints : bool;
  SetDolphinNodeTaints : bool;
  SetDolphinIsUpCondition : bool;
  IngressProxyXffNumTrustedHops : Z;
  PodRestartSelector : string;
  EnableScalableLogis : bool;
  KubeProxyReplacement : bool
}.

(** The options that are maps. *)
Record Maps := mkMaps {
  m_IPAMSubnetsTags : gmap string string;
  m_IPAMInstanceTags : gmap string string;
  m_AWSInstanceLimitMapping : gmap string string;
  m_ENITags : gmap string string;
  m_ENIGarbageCollectionTags : gmap string string;
  m_IPAMAutoCreateDolphinPodIPPools : gmap string string
}.

(** log.Fatalf ends the process. *)
Definition parsed (key : string) : gmap string string + string :=
  match GetStringMapStringE key with
  | inl m => inl m
  | inr err => inr ("unable to parse " +:+ key +:+ ": " +:+ err)
  end.

Definition maps : Maps + string :=
  match parsed key_IPAMSubnetsTags with inr e => inr e | inl ipamsubnetstags =>
  match parsed key_IPAMInstanceTags with inr e => inr e | inl ipaminstancetags =>
  match parsed key_AWSInstanceLimitMapping with inr e => inr e | inl awsinstancelimitmapping =>
  match parsed key_ENITags with inr e => inr e | inl enitags =>
  match parsed key_ENIGarbageCollectionTags with inr e => inr e | inl enigarbagecollectiontags =>
  match parsed key_IPAMAutoCreateDolphinPodIPPools with inr e => inr e | inl ipamautocreatedolphinpodippools =>
  inl (mkMaps ipamsubnetstags ipaminstancetags awsinstancelimitmapping enitags enigarbagecollectiontags ipamautocreatedolphinpodippools)
  end end end end end end.

(** [k8sNamespace] is [option.Config.K8sNamespace] of infra. *)
Definition Populate (k8sNamespace : string) (c : OperatorConfig) : OperatorConfig + string :=
  let idle := GetInt key_ProxyIdleTimeoutSeconds in
  let namespace := GetString key_DolphinK8sNamespace in
  let bgp := GetBool key_BGPAnnounceLBIP in
  let subnets := GetStringSlice key_IPAMSubnetsIDs in
  match maps with
  | inr e => inr e
  | inl m => inl {|
      NodesGCInterval := GetDuration key_NodesGCInterval;
      SkipDNPStatusStartupClean := GetBool key_SkipDNPStatusStartupClean;
      DNPStatusCleanupQPS := GetFloat64 key_DNPStatusCleanupQPS;
      DNPStatusCleanupBurst := GetInt key_DNPStatusCleanupBurst;
      EnableMetrics := GetBool key_EnableMetrics;
      EndpointGCInterval := GetDuration key_EndpointGCInterval;
      SyncK8sServices := if bgp then true else GetBool key_SyncK8sServices;
      SyncK8sNodes := GetBool key_SyncK8sNodes;
      UnmanagedPodWatcherInterval := GetInt key_UnmanagedPodWatcherInterval;
      LeaderElectionLeaseDuration := GetDuration key_LeaderElectionLeaseDuration;
      LeaderElectionRenewDeadline := GetDuration key_LeaderElectionRenewDeadline;
      LeaderElectionRetryPeriod := GetDuration key_LeaderElectionRetryPeriod;
      DisableLeaderElection := GetBool key_DisableLeaderElection;
      BGPAnnounceLBIP := bgp;
      BGPConfigPath := GetString key_BGPConfigPath;
      IPAM := IPAM c;
      IPAMAPIBurst := GetInt key_IPAMAPIBurst;
      IPAMAPIQPSLimit := GetFloat64 key_IPAMAPIQPSLimit;
      IPAMSubnetsIDs := if Nat.eqb (length subnets) 0 then IPAMSubnetsIDs c else subnets;
      IPAMSubnetsTags := m_IPAMSubnetsTags m;
      IPAMInstanceTags := m_IPAMInstanceTags m;
      ClusterPoolIPv4CIDR := GetStringSlice key_ClusterPoolIPv4CIDR;
      ClusterPoolIPv6CIDR := GetStringSlice key_ClusterPoolIPv6CIDR;
      NodeCIDRMaskSizeIPv4 := GetInt key_NodeCIDRMaskSizeIPv4;
      NodeCIDRMaskSizeIPv6 := GetInt key_NodeCIDRMaskSizeIPv6;
      IPAMAutoCreateDolphinPodIPPools := m_IPAMAutoCreateDolphinPodIPPools m;
      ENITags := m_ENITags m;
      ENIGarbageCollectionTags := m_ENIGarbageCollectionTags m;
      ENIGarbageCollectionInterval := GetDuration key_ENIGarbageCollectionInterval;
      ParallelAllocWorkers := GetInt64 key_ParallelAllocWorkers;
      AWSInstanceLimitMapping := m_AWSInstanceLimitMapping m;
      AWSReleaseExcessIPs := GetBool key_AWSReleaseExcessIPs;
      AWSEnablePrefixDelegation := GetBool key_AWSEnablePrefixDelegation;
      AWSUsePrimaryAddress := GetBool key_AWSUsePrimaryAddress;
      UpdateEC2AdapterLimitViaAPI := GetBool key_UpdateEC2AdapterLimitViaAPI;
      ExcessIPReleaseDelay := GetInt key_ExcessIPReleaseDelay;
      EC2APIEndpoint := GetString key_EC2APIEndpoint;
      AzureSubscriptionID := GetString key_AzureSubscriptionID;
      AzureResourceGroup := GetString key_AzureResourceGroup;
      AzureUserAssignedIdentityID := GetString key_AzureUserAssignedIdentityID;
      AzureUsePrimaryAddress := GetBool key_AzureUsePrimaryAddress;
      LoadBalancerL7 := GetString key_LoadBalancerL7;
      EnableGatewayAPI := GetBool key_EnableGatewayAPI;
      ProxyIdleTimeoutSeconds := if Z.eqb idle 0 then DefaultProxyIdleTimeoutSeconds else idle;
      DolphinK8sNamespace := if String.eqb namespace "" then (if String.eqb k8sNamespace "" then "dolphin" else k8sNamespace) else namespace;
      DolphinPodLabels := GetString key_DolphinPodLabels;
      RemoveDolphinNodeTaints := GetBool key_RemoveDolphinNodeTaints;
      SetDolphinNodeTaints := GetBool key_SetDolphinNodeTaints;
      SetDolphinIsUpCondition := GetBool key_SetDolphinIsUpCondition;
      IngressProxyXffNumTrustedHops := GetUint32 key_IngressDefaultXffNumTrustedHops;
      PodRestartSelector := GetString key_PodRestartSelector;
      EnableScalableLogis := GetBool key_EnableScalableLogis;
      KubeProxyReplacement := KubeProxyReplacement c
    |}
  end.

(** ** What the other parts rely on *)

(** A configuration that is populated has an idle timeout and a namespace, and
    Services are synchronised when their addresses are announced; reading the
    options again changes nothing; the mode of address management and the
    replacement of kube-proxy are not options: they stay as they were. *)
Theorem Populate_spec ns c c' :
  Populate ns c = inl c' →
  ProxyIdleTimeoutSeconds c' ≠ 0%Z ∧ DolphinK8sNamespace c' ≠ "" ∧
  (BGPAnnounceLBIP c' = true → SyncK8sServices c' = true) ∧
  Populate ns c' = inl c' ∧
  IPAM c' = IPAM c ∧ KubeProxyReplacement c' = KubeProxyReplacement c.
Proof using Type.
  unfold Populate. cbv zeta. destruct maps as [m|]; [|done]. intros [= <-].
  cbn [ProxyIdleTimeoutSeconds DolphinK8sNamespace BGPAnnounceLBIP SyncK8sServices IPAM KubeProxyReplacement IPAMSubnetsIDs].
  split_and!; [..|done|done].
  - by destruct (Z.eqb_spec (GetInt key_ProxyIdleTimeoutSeconds) 0).
  - destruct (String.eqb_spec (GetString key_DolphinK8sNamespace) ""); [|done].
    by destruct (String.eqb_spec ns "").
  - by destruct (GetBool key_BGPAnnounceLBIP).
  - by destruct (Nat.eqb (length (GetStringSlice key_IPAMSubnetsIDs)) 0).
Qed.

End Config.

(** ** An example *)

(** Nothing is set but the announcement of addresses. *)
#[local] Instance announcing : Viper := {|
  Float64 := unit; GetBool := λ k, String.eqb k key_BGPAnnounceLBIP; GetInt := λ _, 0%Z; GetInt64 := λ _, 0%Z;
  GetUint32 := λ _, 0%Z; GetDuration := λ _, 0%Z; GetFloat64 := λ _, tt; GetString := λ _, ""; GetStringSlice := λ _, [];
  GetStringMapStringE := λ _, inl ∅
|}.

Definition initialConfig : OperatorConfig := {|
  NodesGCInterval := 0%Z;
  SkipDNPStatusStartupClean := false;
  DNPStatusCleanupQPS := tt;
  DNPStatusCleanupBurst := 0%Z;
  EnableMetrics := false;
  EndpointGCInterval := 0%Z;
  SyncK8sServices := false;
  SyncK8sNodes := false;
  UnmanagedPodWatcherInterval := 0%Z;
  LeaderElectionLeaseDuration := 0%Z;
  LeaderElectionRenewDeadline := 0%Z;
  LeaderElectionRetryPeriod := 0%Z;
  DisableLeaderElection := false;
  BGPAnnounceLBIP := false;
  BGPConfigPath := EmptyString;
  IPAM := EmptyString;
  IPAMAPIBurst := 0%Z;
  IPAMAPIQPSLimit := tt;
  IPAMSubnetsIDs := [];
  IPAMSubnetsTags := ∅;
  IPAMInstanceTags := ∅;
  ClusterPoolIPv4CIDR := [];
  ClusterPoolIPv6CIDR := [];
  NodeCIDRMaskSizeIPv4 := 0%Z;
  NodeCIDRMaskSizeIPv6 := 0%Z;
  IPAMAutoCreateDolphinPodIPPools := ∅;
  ENITags := ∅;
  ENIGarbageCollectionTags := ∅;
  ENIGarbageCollectionInterval := 0%Z;
  ParallelAllocWorkers := 0%Z;
  AWSInstanceLimitMapping := ∅;
  AWSReleaseExcessIPs := false;
  AWSEnablePrefixDelegation := false;
  AWSUsePrimaryAddress := false;
  UpdateEC2AdapterLimitViaAPI := false;
  ExcessIPReleaseDelay := 0%Z;
  EC2APIEndpoint := EmptyString;
  AzureSubscriptionID := EmptyString;
  AzureResourceGroup := EmptyString;
  AzureUserAssignedIdentityID := EmptyString;
  AzureUsePrimaryAddress := false;
  LoadBalancerL7 := EmptyString;
  EnableGatewayAPI := false;
  ProxyIdleTimeoutSeconds := 0%Z;
  DolphinK8sNamespace := EmptyString;
  DolphinPodLabels := EmptyString;
  RemoveDolphinNodeTaints := false;
  SetDolphinNodeTaints := false;
  SetDolphinIsUpCondition := false;
  IngressProxyXffNumTrustedHops := 0%Z;
  PodRestartSelector := EmptyString;
  EnableScalableLogis := false;
  KubeProxyReplacement := false
|}.

Definition populated : OperatorConfig := match Populate "" initialConfig with inl c => c | inr _ => initialConfig end.

Lemma Populate_spec_witness :
  ProxyIdleTimeoutSeconds populated ≠ 0%Z ∧ DolphinK8sNamespace populated ≠ "" ∧ SyncK8sServices populated = true.
Proof.
  destruct (Populate_spec "" initialConfig populated) as (H1 & H2 & H3 & _); [vm_compute; reflexivity|].
  split; [exact H1|]. split; [exact H2|]. apply H3. vm_compute. reflexivity.
Defined.

End option.
