(* ===== verification/IdentityWatcher.v ===== *)
(** * The identity watcher (src/auth/watcher.go)

    [Module auth]: the goroutine that passes changes of identities on to the
    provider, and the provider as an interface ([Provider], auth/identity), which
    the SPIRE client implements. *)

From S2P Require Import Prelude GoStrings Spire.

(** auth/identity: the provider, over its state. *)
Class Provider := {
  PState : Type;
  pv_Upsert : string → PState → go (PState * option string);
  pv_Delete : string → PState → go (PState * option string);
  pv_List : PState → go (list string + string)
}.

(** The client as a provider. *)
Definition spire_provider {server : EntryServer} (c : spire.Client) : Provider := {|
  PState := Server;
  pv_Upsert := spire.Upsert c;
  pv_Delete := spire.Delete c;
  pv_List := spire.List_ c
|}.

Module auth.

(** resource.Event: its kind and the name of its object; a Sync event has none. *)
Inductive Event := Sync | UpsertEvent (name : string) | DeleteEvent (name : string).

Section Watcher.
Context {provider : Provider}.

(** One turn of the loop: the error that [Done] is called with.  The error of a
    deletion is a variable of its own, so [Done] is called with nil. *)
Definition handle (e : Event) (s : PState) : go (PState * option string) :=
  match e with
  | Sync => Ok (s, None)
  | UpsertEvent name => pv_Upsert name s
  | DeleteEvent name =>
      '(s, err) ← pv_Delete name s;
      Ok (s, None)
  end.

(** The loop over the events, with the calls of [Done]. *)
Fixpoint run (events : list Event) (s : PState) : go (PState * list (option string)) :=
  match events with
  | [] => Ok (s, [])
  | e :: events =>
      '(s, done) ← handle e s;
      '(s, dones) ← run events s;
      Ok (s, done :: dones)
  end.

(** The watcher is not started unless it is enabled. *)
Definition registerIdentityWatcher (enabled : bool) (events : list Event) (s : PState)
  : go (PState * list (option string)) :=
  if negb enabled then Ok (s, []) else run events s.

(** ** Every event is done once *)

(** A provider whose methods return: every event is done, in order, and only an
    identity that could not be registered is reported, and so retried; a deletion
    that failed is lost. *)
Theorem run_done events s :
  (∀ name s, returns (pv_Upsert name s)) → (∀ name s, returns (pv_Delete name s)) →
  ∃ s' dones, run events s = Ok (s', dones) ∧ length dones = length events ∧
    ∀ i e err, events !! i = Some e → dones !! i = Some (Some err) → ∃ name, e = UpsertEvent name.
Proof using Type.
  intros Hu Hd. revert s. induction events as [|e events IH]; intros s; [by exists s, []|]. cbn [run].
  assert (∃ s1 d, handle e s = Ok (s1, d) ∧ (d = None ∨ ∃ name, e = UpsertEvent name)) as (s1 & d & -> & Hd1).
  { destruct e as [|name|name]; cbn.
    - by exists s, None; auto.
    - destruct (Hu name s) as [[s1 d] ->]. exists s1, d. eauto.
    - destruct (Hd name s) as [[s1 d] ->]. exists s1, None. auto. }
  cbn. destruct (IH s1) as (s' & dones & -> & Hl & Hi). cbn. exists s', (d :: dones). split; [done|].
  split; [cbn; by rewrite Hl|]. intros [|i] e' err He Hdn; cbn in *; [|by eapply Hi].
  injection He as <-. injection Hdn as ->. destruct Hd1 as [?|?]; [done|done].
Qed.

End Watcher.

(** ** With the SPIRE client *)

(** The watcher over the client of NewClient, which is never connected, changes
    nothing on the server: identities are reported as failed for ever, and removed
    identities are taken for removed. *)
Theorem watcher_never_registers {server : EntryServer} cliCfg cfg k8sEnabled c events (s : Server) :
  spire.NewClient cliCfg cfg k8sEnabled = Some c →
  run (provider := spire_provider c) events s =
  Ok (s, (λ e, match e with UpsertEvent _ => Some spire.notInitialized | _ => None end) <$> events).
Proof.
  unfold spire.NewClient. destruct (negb _); [done|]. destruct (negb _); [done|]. intros [= <-].
  induction events as [|e events IH]; [done|]. cbn [run]. destruct e; cbn -[run]; by rewrite IH.
Qed.

(** ** Examples *)

(** A provider that keeps the names, and refuses the empty one. *)
Definition names_provider : Provider := {|
  PState := list string;
  pv_Upsert := λ name s, if String.eqb name "" then Ok (s, Some "no name") else Ok (name :: s, None);
  pv_Delete := λ name s, Ok (List.filter (λ n, negb (String.eqb n name)) s, None);
  pv_List := λ s, Ok (inl s)
|}.

Lemma run_done_witness :
  ∃ s' dones, run (provider := names_provider) [UpsertEvent "a"; UpsertEvent ""; DeleteEvent "a"] [] = Ok (s', dones) ∧
    length dones = 3.
Proof.
  destruct (run_done (provider := names_provider) [UpsertEvent "a"; UpsertEvent ""; DeleteEvent "a"] [])
    as (s' & dones & E & Hl & _).
  - intros name s. cbn. destruct (String.eqb name ""); by eexists.
  - intros name s. by eexists.
  - exists s', dones. split; [exact E|exact Hl].
Defined.

Lemma watcher_never_registers_witness :
  run (provider := spire_provider (server := spire.empty_server) (spire.mkClient spire.config false))
    [UpsertEvent "1"; DeleteEvent "1"] [] = Ok ([], [Some spire.notInitialized; None]).
Proof.
  apply (watcher_never_registers (server := spire.empty_server) spire.config spire.config true _
    [UpsertEvent "1"; DeleteEvent "1"] []). reflexivity.
Defined.

End auth.
