(* ===== verification/Diagnostics.v ===== *)
(** * Diagnostics of the Gateway API controllers
    What the controllers log about themselves.  [Module phases]:
    gatewayPhaseTracker, gatewayDiagnosticClient and the counter of the reconcile
    runs of gateway_reconcile.go.  [Module cache_sync]: loggedGatewayClassSource of
    gatewayclass.go.  [Module class_monitor]: the monitor of GatewayClasses of
    cell.go.

    Times and durations are in nanoseconds; a function that reads the clock takes
    the time as an argument.  The log is a list of entries. *)

From S2P Require Import Prelude GoStrings.
From stdpp Require Import relations.

Module phases.

(** ** Phases of a reconcile run *)

Record gatewayPhaseTracker := mkTracker { pt_name : string; pt_start : Z }.

Inductive entry := PhaseStarted (phase : string) | PhaseFinished (phase : string) (duration : Z).

Definition finished (now : Z) (p : gatewayPhaseTracker) : list entry :=
  if String.eqb (pt_name p) "" then [] else [PhaseFinished (pt_name p) (now - pt_start p)].

Definition set (now : Z) (name : string) (p : gatewayPhaseTracker) : gatewayPhaseTracker * list entry :=
  (mkTracker name now, finished now p ++ [PhaseStarted name]).

Definition finish (now : Z) (p : gatewayPhaseTracker) : list entry := finished now p.

(** A run: the calls of [set], with their times, and the deferred [finish]. *)
Fixpoint run (p : gatewayPhaseTracker) (calls : list (Z * string)) (last : Z) : list entry :=
  match calls with
  | [] => finish last p
  | (now, name) :: calls => let '(p', log) := set now name p in log ++ run p' calls last
  end.

Definition tracked (calls : list (Z * string)) (last : Z) : list entry := run (mkTracker "" 0) calls last.

Definition finished_of (log : list entry) : list (string * Z) :=
  omap (λ e, match e with PhaseFinished n d => Some (n, d) | PhaseStarted _ => None end) log.

Definition total (l : list (string * Z)) : Z := foldr (λ e acc, (e.2 + acc)%Z) 0%Z l.

Lemma finished_run p now name calls last :
  pt_name p ≠ "" →
  finished_of (run p ((now, name) :: calls) last) =
  (pt_name p, now - pt_start p)%Z :: finished_of (run (mkTracker name now) calls last).
Proof. intros Hp. cbn [run set]. unfold finished. by rewrite (proj2 (String.eqb_neq _ _) Hp). Qed.

Lemma run_spec p calls last :
  pt_name p ≠ "" → Forall (λ c, c.2 ≠ "") calls →
  (finished_of (run p calls last)).*1 = pt_name p :: calls.*2 ∧
  total (finished_of (run p calls last)) = (last - pt_start p)%Z.
Proof.
  intros Hp Hc. revert p Hp. induction Hc as [|[now name] calls Hn _ IH]; intros p Hp.
  - cbn. unfold finish, finished. rewrite (proj2 (String.eqb_neq _ _) Hp). cbn. split; [done|lia].
  - rewrite finished_run by done. destruct (IH (mkTracker name now) Hn) as [H1 H2]. cbn [pt_name pt_start] in H1, H2.
    rewrite fmap_cons, H1. split; [done|]. cbn [total foldr snd]. fold (total (finished_of (run (mkTracker name now) calls last))).
    rewrite H2. lia.
Qed.

(** The phases cover the run: each phase that was set is reported as finished once,
    in order, and the durations add up to the time from the first phase to the
    end, whatever the clock does. *)
Theorem phases_cover t0 name calls last :
  name ≠ "" → Forall (λ c, c.2 ≠ "") calls →
  (finished_of (tracked ((t0, name) :: calls) last)).*1 = name :: calls.*2 ∧
  total (finished_of (tracked ((t0, name) :: calls) last)) = (last - t0)%Z.
Proof. intros Hn Hc. exact (run_spec (mkTracker name t0) calls last Hn Hc). Qed.

(** ** The client that logs *)

(** The phase that is logged with a call: that of the tracker in the context, if
    there is one and it has a name. *)
Definition phase_of (ctx : option gatewayPhaseTracker) : string :=
  match ctx with
  | Some p => if String.eqb (pt_name p) "" then "unknown" else pt_name p
  | None => "unknown"
  end.

Inductive call_entry {E : Type} :=
| GetStarting (phase key objectType : string)
| GetReturned (phase key objectType : string) (duration : Z) (err : option E) (ctxErr : option E)
| ListStarting (phase listType : string)
| ListReturned (phase listType : string) (duration : Z) (err : option E) (ctxErr : option E).
Arguments call_entry : clear implicits.

(** [Get] and [List] of gatewayDiagnosticClient around those of the client it wraps:
    [call] returns the error, and the object in the type [A]. *)
Definition Get {E A} (ctx : option gatewayPhaseTracker) (ctxErr : option E) (started returned : Z) (key objectType : string)
    (call : A * option E) : list (call_entry E) * (A * option E) :=
  let phase := phase_of ctx in
  ([GetStarting phase key objectType; GetReturned phase key objectType (returned - started) call.2 ctxErr], call).

Definition List {E A} (ctx : option gatewayPhaseTracker) (ctxErr : option E) (started returned : Z) (listType : string)
    (call : A * option E) : list (call_entry E) * (A * option E) :=
  let phase := phase_of ctx in
  ([ListStarting phase listType; ListReturned phase listType (returned - started) call.2 ctxErr], call).

(** ** Counting reconcile runs *)

(** The workers that are in [Reconcile], by an identity of their own, and the
    counter [activeGatewayReconciles].  Adding to the counter and entering are one
    step, as are leaving and subtracting: the subtraction is deferred, so it also
    happens when the run panics, before the panic goes on. *)
Record Workers := mkWorkers { wk_active : gset nat; wk_count : Z; wk_panicked : list nat }.

Inductive work : Workers → Workers → Prop :=
| work_enter i s : i ∉ wk_active s → work s (mkWorkers ({[i]} ∪ wk_active s) (wk_count s + 1) (wk_panicked s))
| work_return i s : i ∈ wk_active s → work s (mkWorkers (wk_active s ∖ {[i]}) (wk_count s - 1) (wk_panicked s))
| work_panic i s : i ∈ wk_active s → work s (mkWorkers (wk_active s ∖ {[i]}) (wk_count s - 1) (i :: wk_panicked s)).

(** The counter is the number of workers inside, so it is back at zero when all of
    them have left, however they left. *)
Theorem count_active s : rtc work (mkWorkers ∅ 0 []) s → wk_count s = Z.of_nat (size (wk_active s)).
Proof.
  assert (∀ s s', work s s' → wk_count s = Z.of_nat (size (wk_active s)) → wk_count s' = Z.of_nat (size (wk_active s'))) as Hstep.
  { intros s1 s2 Hw H. destruct Hw as [i s1 Hi|i s1 Hi|i s1 Hi]; cbn.
    - rewrite size_union by set_solver. rewrite size_singleton. lia.
    - pose proof (size_difference (wk_active s1) {[i]}) as E. rewrite size_singleton in E.
      assert (size (wk_active s1) ≠ 0) by (intros ?%size_empty_inv; set_solver). rewrite E by set_solver. lia.
    - pose proof (size_difference (wk_active s1) {[i]}) as E. rewrite size_singleton in E.
      assert (size (wk_active s1) ≠ 0) by (intros ?%size_empty_inv; set_solver). rewrite E by set_solver. lia. }
  intros H. assert (wk_count (mkWorkers ∅ 0 []) = Z.of_nat (size (wk_active (mkWorkers ∅ 0 [])))) as H0 by done.
  induction H as [|s1 s2 s3 H1 _ IH]; [done|]. by apply IH, (Hstep s1).
Qed.

End phases.

Module cache_sync.

(** ** loggedGatewayClassSource *)

(** [Start] and [WaitForSync] of the source that is wrapped return an error or
    nil. *)
Inductive entry :=
| StartBeginning (source : string)
| StartFailed (source : string) (duration : Z) (err : string)
| StartReturned (source : string) (duration : Z)
| SyncWaiting (source : string)
| SyncFailed (source : string) (duration : Z) (err : string)
| SyncComplete (source : string) (duration : Z)
| InformerState (informer : string) (synced : bool)
| StillUnsynced (source unsynced : string) (now : Z).

Definition Start (name : string) (started returned : Z) (source : option string) : list entry * option string :=
  match source with
  | Some err => ([StartBeginning name; StartFailed name (returned - started) err], Some err)
  | None => ([StartBeginning name; StartReturned name (returned - started)], None)
  end.

(** Besides the error, whether a monitor was started; it is told to end before
    [WaitForSync] returns. *)
Definition WaitForSync (name : string) (started returned : Z) (source : option string)
  : list entry * bool * option string :=
  let monitor := String.eqb name "GatewayClass" in
  match source with
  | Some err => ([SyncWaiting name; SyncFailed name (returned - started) err], monitor, Some err)
  | None => ([SyncWaiting name; SyncComplete name (returned - started)], monitor, None)
  end.

(** *** The monitor *)

Definition second : Z := 1000000000.

(** What the select statement takes: the channel [done], the context, or a tick. *)
Inductive Select := TakeDone | TakeCancelled | TakeTick (now : Z).

(** One turn of the loop: whether each informer has synced, or the error of getting
    it, and what the select statement takes. *)
Record Turn := mkTurn { tn_informers : list (string * (bool + string)); tn_select : Select }.

(** One informer: the states logged last, the entries, the list of those that have
    not synced. *)
Definition observe (acc : gmap string bool * list entry * list string) (obj : string * (bool + string))
  : gmap string bool * list entry * list string :=
  let '(lastStates, log, unsynced) := acc in
  let '(name, res) := obj in
  match res with
  | inr err => (lastStates, log, unsynced ++ [name +:+ " (get informer error: " +:+ err +:+ ")"])
  | inl synced =>
      let changed := negb (bool_decide (lastStates !! name = Some synced)) in
      (if changed then <[name := synced]> lastStates else lastStates,
       if changed then log ++ [InformerState name synced] else log,
       if negb synced then unsynced ++ [name] else unsynced)
  end.

(** The loop over its turns, until the select statement takes one of the channels
    that end it. *)
Fixpoint monitorSharedCacheSync (source : string) (lastStates : gmap string bool) (lastReported : Z) (turns : list Turn)
  : list entry * bool :=
  match turns with
  | [] => ([], false)
  | t :: turns =>
      let '(states, log, unsynced) := foldl observe (lastStates, [], []) (tn_informers t) in
      match tn_select t with
      | TakeDone | TakeCancelled => (log, true)
      | TakeTick now =>
          let report := (0 <? length unsynced)%nat && (10 * second <=? now - lastReported)%Z in
          let '(log', ended) := monitorSharedCacheSync source states (if report then now else lastReported) turns in
          (log ++ (if report then [StillUnsynced source (GoStrings.Join unsynced ", ") now] else []) ++ log', ended)
      end
  end.

(** *** What it logs *)

Definition warnings (log : list entry) : list Z :=
  omap (λ e, match e with StillUnsynced _ _ now => Some now | _ => None end) log.

(** The states logged of an informer. *)
Definition states_of (name : string) (log : list entry) : list bool :=
  omap (λ e, match e with InformerState n b => if String.eqb n name then Some b else None | _ => None end) log.

(** Each element is followed by one related to it, the first one to [x]. *)
Fixpoint chain {A} (R : A → A → Prop) (x : A) (l : list A) : Prop :=
  match l with [] => True | y :: l => R x y ∧ chain R y l end.

Lemma warnings_app l1 l2 : warnings (l1 ++ l2) = warnings l1 ++ warnings l2.
Proof. apply omap_app. Qed.
Lemma states_of_app name l1 l2 : states_of name (l1 ++ l2) = states_of name l1 ++ states_of name l2.
Proof. apply omap_app. Qed.

Lemma observe_log objs acc : ∃ log, (foldl observe acc objs).1.2 = acc.1.2 ++ log ∧ warnings log = [].
Proof.
  revert acc. induction objs as [|[name [synced|err]] objs IH]; intros [[st log] un]; cbn [foldl].
  - exists []. by rewrite app_nil_r.
  - cbn [observe]. destruct (IH (if negb (bool_decide (st !! name = Some synced)) then <[name := synced]> st else st,
      if negb (bool_decide (st !! name = Some synced)) then log ++ [InformerState name synced] else log,
      if negb synced then un ++ [name] else un)) as (log' & E & Hw). rewrite E. cbn.
    destruct (negb _); [|by exists log']. exists (InformerState name synced :: log'). by rewrite <-app_assoc.
  - cbn [observe]. apply (IH (st, log, un ++ [name +:+ " (get informer error: " +:+ err +:+ ")"])).
Qed.

(** Warnings are at least ten seconds apart, and the first one comes no earlier
    than ten seconds after the start. *)
Theorem warnings_spaced source states started turns :
  chain (λ a b, (10 * second <= b - a)%Z) started (warnings (monitorSharedCacheSync source states started turns).1).
Proof.
  revert states started. induction turns as [|[objs sel] turns IH]; intros states started; [done|].
  cbn [monitorSharedCacheSync tn_informers tn_select].
  destruct (observe_log objs (states, [], [])) as (log & E & Hw).
  destruct (foldl observe (states, [], []) objs) as [[st log'] un]. cbn in E. rewrite <-E in Hw. clear log E. rename log' into log.
  destruct sel as [| |now]; [cbn [fst]; by rewrite Hw..|].
  destruct ((0 <? length un)%nat && _) eqn:Er.
  - specialize (IH st now). destruct (monitorSharedCacheSync source st now turns) as [log' ended]. cbn [fst] in *.
    rewrite !warnings_app, Hw. cbn. apply andb_true_iff in Er as [_ Er%Z.leb_le]. done.
  - specialize (IH st started). destruct (monitorSharedCacheSync source st started turns) as [log' ended]. cbn [fst] in *.
    by rewrite !warnings_app, Hw.
Qed.

(** What was logged last of an informer is what the map has. *)
Definition follows (name : string) (st : gmap string bool) (l : list bool) : Prop :=
  match l with [] => True | b :: l => st !! name ≠ Some b ∧ chain (≠) b l end.

Definition last_state (name : string) (st : gmap string bool) (l : list bool) : option bool :=
  match last l with Some b => Some b | None => st !! name end.

Lemma chain_snoc {A} (R : A → A → Prop) x l y : chain R x l → R (default x (last l)) y → chain R x (l ++ [y]).
Proof.
  revert x. induction l as [|z l IH]; intros x; [done|]. cbn [chain app]. intros [H1 H2] HR. split; [done|].
  apply IH; [done|]. rewrite last_cons in HR. by destruct (last l).
Qed.

Lemma follows_snoc name st l b :
  follows name st l → last_state name st l ≠ Some b → follows name st (l ++ [b]).
Proof.
  destruct l as [|c l]; cbn [follows app]; [done|]. intros [H1 H2] Hl. split; [done|]. apply chain_snoc; [done|].
  unfold last_state in Hl. rewrite last_cons in Hl. destruct (last l); cbn in *; congruence.
Qed.

Lemma observe_states name objs st0 acc :
  follows name st0 (states_of name acc.1.2) → acc.1.1 !! name = last_state name st0 (states_of name acc.1.2) →
  follows name st0 (states_of name (foldl observe acc objs).1.2) ∧
  (foldl observe acc objs).1.1 !! name = last_state name st0 (states_of name (foldl observe acc objs).1.2).
Proof.
  revert acc. induction objs as [|[n res] objs IH]; intros [[st log] un] Hf Hl; [done|]. cbn [foldl]. cbn [fst snd] in Hf, Hl.
  destruct res as [synced|err]; cbn [observe]; [|by apply IH].
  destruct (bool_decide (st !! n = Some synced)) eqn:Eb; cbn [negb]; [by apply IH|]. apply bool_decide_eq_false in Eb.
  assert (states_of name (log ++ [InformerState n synced]) = states_of name log ++ (if String.eqb n name then [synced] else [])) as Hs.
  { rewrite states_of_app. f_equal. cbn. by destruct (String.eqb n name). }
  apply IH; cbn [fst snd]; rewrite Hs; destruct (String.eqb_spec n name) as [->|Hn]; rewrite ?app_nil_r; try done.
  - apply follows_snoc; [done|]. by rewrite <-Hl.
  - rewrite lookup_insert_eq. unfold last_state. by rewrite last_snoc.
  - by rewrite lookup_insert_ne.
Qed.

Lemma follows_app name st st' l l' :
  follows name st l → st' !! name = last_state name st l → follows name st' l' → follows name st (l ++ l').
Proof.
  intros Hf Hl. destruct l' as [|b l']; [by rewrite app_nil_r|]. intros [H1 H2].
  rewrite cons_middle, app_assoc. assert (follows name st (l ++ [b])) as Hb by (apply follows_snoc; congruence).
  assert (∀ c k, chain (≠) c (k ++ [b]) → chain (≠) c ((k ++ [b]) ++ l')) as Hc.
  { intros c k. revert c. induction k as [|z k IH]; intros c; cbn; [by intros [? _]|]. intros [? ?]. split; [done|by apply IH]. }
  destruct l as [|c l]; cbn in *; [split; [apply Hb|done]|]. destruct Hb as [? Hb]. split; [done|]. by apply Hc.
Qed.

(** An informer is logged when its state changes and only then: the states logged
    of it alternate. *)
Theorem states_alternate source name started turns :
  let l := states_of name (monitorSharedCacheSync source ∅ started turns).1 in
  match l with [] => True | b :: l => chain (≠) b l end.
Proof.
  cbv zeta. enough (∀ st, follows name st (states_of name (monitorSharedCacheSync source st started turns).1)) as H.
  { specialize (H ∅). unfold follows in H. destruct (states_of _ _); [done|]. by destruct H. }
  revert started. induction turns as [|[objs sel] turns IH]; intros started st; [done|].
  cbn [monitorSharedCacheSync tn_informers tn_select].
  destruct (observe_states name objs st (st, [], [])) as [Hf Hl]; [done..|].
  destruct (foldl observe (st, [], []) objs) as [[st' log] un]. cbn [fst snd] in Hf, Hl.
  destruct sel as [| |now]; [done..|]. set (report := (0 <? length un)%nat && _).
  specialize (IH (if report then now else started) st').
  destruct (monitorSharedCacheSync source st' (if report then now else started) turns) as [log' ended].
  cbn [fst] in *. rewrite !states_of_app. eapply follows_app; [done..|].
  by destruct report.
Qed.

End cache_sync.

Module class_monitor.

(** ** The monitor of the GatewayClass of the operator *)

(** What is logged of a GatewayClass that was read. *)
Record Snapshot := mkSnapshot { sn_Name : string; sn_UID : string; sn_ResourceVersion : string; sn_Conditions : list string }.

(** The error of a read, and whether it says that there is none. *)
Record ReadError := mkReadError { re_notFound : bool; re_text : string }.

Inductive entry :=
| MonitorStarted
| CycleStarted
| ReadStarting (source : string)
| ReadReturned (source : string) (err : option ReadError)
| ReadFailed (source : string) (notFound : bool) (err : string)
| ReadSucceeded (source : string) (s : Snapshot)
| MonitorCancelled
| MonitorExiting.

Definition logGatewayClassSnapshot (source : string) (res : Snapshot + ReadError) : list entry :=
  match res with
  | inr err => [ReadFailed source (re_notFound err) (re_text err)]
  | inl s => [ReadSucceeded source s]
  end.

Definition read_of (res : Snapshot + ReadError) : option ReadError := match res with inl _ => None | inr e => Some e end.

(** One cycle: the GatewayClass is read from the API server and from the cache,
    each within five seconds. *)
Definition check (api cache : Snapshot + ReadError) : list entry :=
  [CycleStarted; ReadStarting "apiReader"; ReadReturned "apiReader" (read_of api)] ++
  logGatewayClassSnapshot "apiReader" api ++
  [ReadStarting "sharedCache"; ReadReturned "sharedCache" (read_of cache)] ++
  logGatewayClassSnapshot "sharedCache" cache.

(** The monitor: a cycle at once and one at every tick, until the context is
    cancelled; the deferred function logs that it ends.  It returns nil. *)
Definition monitor (first : (Snapshot + ReadError) * (Snapshot + ReadError))
    (ticks : list ((Snapshot + ReadError) * (Snapshot + ReadError))) : list entry :=
  MonitorStarted :: check first.1 first.2 ++ concat ((λ t, check t.1 t.2) <$> ticks) ++ [MonitorCancelled; MonitorExiting].

(** The handler of instrumentGatewayClassInformer: the key of the object, or its
    type if it has none, and whether the cache has synced. *)
Inductive Delivered := DeliveredEvent (event object : string) (cacheSynced : bool).

Definition logEvent (event : string) (key : string + string) (objType : string) (synced : bool) : Delivered :=
  DeliveredEvent event (match key with inl key => key | inr _ => objType end) synced.

(** The snapshots of a source in the log. *)
Definition snapshots (source : string) (log : list entry) : list (Snapshot + (bool * string)) :=
  omap (λ e, match e with
             | ReadSucceeded src s => if String.eqb src source then Some (inl s) else None
             | ReadFailed src nf err => if String.eqb src source then Some (inr (nf, err)) else None
             | _ => None
             end) log.

Definition snapshot_of (res : Snapshot + ReadError) : Snapshot + (bool * string) :=
  match res with inl s => inl s | inr e => inr (re_notFound e, re_text e) end.

Lemma snapshots_app source l1 l2 : snapshots source (l1 ++ l2) = snapshots source l1 ++ snapshots source l2.
Proof. apply omap_app. Qed.

(** The log has what both sources answered, cycle by cycle: a lag of the cache
    behind the API server can be read off it. *)
Theorem monitor_complete first ticks :
  snapshots "apiReader" (monitor first ticks) = snapshot_of <$> (first :: ticks).*1 ∧
  snapshots "sharedCache" (monitor first ticks) = snapshot_of <$> (first :: ticks).*2.
Proof.
  assert (∀ a c, snapshots "apiReader" (check a c) = [snapshot_of a] ∧ snapshots "sharedCache" (check a c) = [snapshot_of c]) as Hc.
  { by intros [] []. }
  assert (∀ source l, snapshots source (MonitorStarted :: l) = snapshots source l) as H0 by done.
  assert (∀ source, snapshots source [MonitorCancelled; MonitorExiting] = []) as H1 by done.
  unfold monitor. rewrite !H0, !snapshots_app, !H1, !app_nil_r. destruct first as [a c]. cbn [fst snd fmap list_fmap].
  destruct (Hc a c) as [-> ->]. split; cbn [app]; f_equal; induction ticks as [|[x y] ticks IH]; try done;
    cbn [fmap list_fmap concat fst snd]; rewrite snapshots_app, IH, ?(proj1 (Hc x y)), ?(proj2 (Hc x y)); done.
Qed.

End class_monitor.
