(* ===== verification/OperatorParts.v ===== *)
(** * Smaller parts of the operator
    [Module identitygc]: the hooks of the collector of identities
    (src/identitygc).  [Module legacy]: the hooks of the leader (src/cmd/root.go)
    and the synchroniser of Nodes (src/cmd/dolphin_node.go).  [Module resources]:
    the index of endpoints (src/k8s/resource_ctors.go).

    The worker pool, the rate limiter and the controller manager of infra are only
    opened and closed here; the model records which of these calls were made. *)

From S2P Require Import Prelude GoStrings.

Module identitygc.

Record Config := mkConfig { Interval : Z; HeartbeatTimeout : Z; RateInterval : Z; RateLimit : Z }.

Definition minute : Z := 60000000000.
Definition defaultConfig : Config := mkConfig (15 * minute) (2 * 15 * minute) minute 2500.

Record SharedConfig := mkSharedConfig { IdentityAllocationMode : string; K8sNamespace : string }.

(** The modes, constants of infra. *)
Class Modes := { IdentityAllocationModeCRD : string; IdentityAllocationModeKVstore : string }.

Record heartbeatStore := mkHeartbeatStore { lastLifeSign : gmap string Z; firstRun : Z; timeout : Z }.

Definition newheartbeatStore (now timeout : Z) : heartbeatStore := mkHeartbeatStore ∅ now timeout.

(** What is open: the worker pool is made by the start hook, the rate limiter by
    registration; [gc_controllers] is whether controllers may still be running. *)
Record GC := mkGC {
  gc_allocationMode : string;
  gc_gcInterval : Z;
  gc_heartbeatTimeout : Z;
  gc_gcRateInterval : Z;
  gc_gcRateLimit : Z;
  gc_heartbeatStore : heartbeatStore;
  gc_pool : option bool;
  gc_limiter : bool;
  gc_controllers : bool
}.

(** No hooks are appended when there is no client. *)
Definition registerGC (enabled : bool) (now : Z) (cfg : Config) (shared : SharedConfig) : option GC :=
  if negb enabled then None
  else Some (mkGC (IdentityAllocationMode shared) (Interval cfg) (HeartbeatTimeout cfg) (RateInterval cfg) (RateLimit cfg)
               (newheartbeatStore now (HeartbeatTimeout cfg)) None true false).

Definition with_pool (gc : GC) (pool : option bool) : GC :=
  mkGC (gc_allocationMode gc) (gc_gcInterval gc) (gc_heartbeatTimeout gc) (gc_gcRateInterval gc) (gc_gcRateLimit gc)
    (gc_heartbeatStore gc) pool (gc_limiter gc) (gc_controllers gc).

Definition startCRDModeGC (gc : GC) : GC * option string := (gc, None).
Definition startKVStoreModeGC (gc : GC) : GC * option string := (gc, None).

Section Hooks.
Context {modes : Modes}.

Definition OnStart (gc : GC) : GC * option string :=
  let gc := with_pool gc (Some true) in
  if String.eqb (gc_allocationMode gc) IdentityAllocationModeCRD then startCRDModeGC gc
  else if String.eqb (gc_allocationMode gc) IdentityAllocationModeKVstore then startKVStoreModeGC gc
  else (gc, Some ("unknown identity allocation mode " +:+ gc_allocationMode gc)).

(** Closing a pool that was never made is a call on nil. *)
Definition OnStop (gc : GC) : go (GC * option string) :=
  let controllers := if String.eqb (gc_allocationMode gc) IdentityAllocationModeCRD then false else gc_controllers gc in
  _ ← deref (gc_pool gc);
  Ok (mkGC (gc_allocationMode gc) (gc_gcInterval gc) (gc_heartbeatTimeout gc) (gc_gcRateInterval gc) (gc_gcRateLimit gc)
        (gc_heartbeatStore gc) (Some false) false controllers, None).

Definition known_mode (m : string) : Prop := m = IdentityAllocationModeCRD ∨ m = IdentityAllocationModeKVstore.

(** Starting succeeds exactly for the two known modes; stopping after that closes
    what was opened.  A start that fails leaves the worker pool open, since the
    stop hook of a hook that failed is not run.  In no mode is anything started
    that collects identities. *)
Theorem gc_lifecycle now cfg shared gc :
  registerGC true now cfg shared = Some gc →
  let '(gc1, err) := OnStart gc in
  (err = None ↔ known_mode (IdentityAllocationMode shared)) ∧
  gc_pool gc1 = Some true ∧ gc_controllers gc1 = false ∧ gc_heartbeatStore gc1 = gc_heartbeatStore gc ∧
  ∃ gc2, OnStop gc1 = Ok (gc2, None) ∧ gc_pool gc2 = Some false ∧ gc_limiter gc2 = false ∧ gc_controllers gc2 = false.
Proof.
  intros [= <-]. unfold OnStart, known_mode. cbn.
  destruct (String.eqb_spec (IdentityAllocationMode shared) IdentityAllocationModeCRD) as [E|E];
    [|destruct (String.eqb_spec (IdentityAllocationMode shared) IdentityAllocationModeKVstore) as [E'|E']]; cbn;
    (split; [naive_solver|]); split_and!; try done; unfold OnStop; cbn; eexists; (split; [reflexivity|]); cbn;
    by destruct (String.eqb _ _).
Qed.

End Hooks.

End identitygc.

Module legacy.

(** The hooks that run on the leader: what [isLeader] holds, and whether the
    context of the leader was cancelled. *)
Record State := mkState { isLeader : bool; cancelled : bool }.

(** [Start] of the synchroniser of Nodes. *)
Definition dolphinNodeSynchronizer_Start : option string := None.

(** The start hook: the branches on the options have no statements. *)
Definition onStart (clientsetEnabled : bool) (s : State) : State * option string :=
  let s := mkState true (cancelled s) in
  if clientsetEnabled then
    match dolphinNodeSynchronizer_Start with
    | Some err => (s, Some err)
    | None => (s, None)
    end
  else (s, None).

Definition onStop (s : State) : State * option string := (mkState (isLeader s) true, None).

(** The start hook does not fail and makes the process the leader; stopping the
    leader does not take that back. *)
Theorem leader_stays enabled s :
  onStart enabled s = (mkState true (cancelled s), None) ∧ isLeader (onStop (onStart enabled s).1).1 = true.
Proof. by destruct enabled. Qed.

End legacy.

Module resources.

(** An object that is indexed: an endpoint with the checksum of its status, or
    something else. *)
Inductive Indexed := AnEndpoint (checksum : Z) | AnotherObject.

Definition identityIndexFunc (obj : Indexed) : list string + string :=
  match obj with
  | AnEndpoint checksum =>
      if negb (Z.eqb checksum 0) then inl [Itoa checksum] else inr "failed retrieving identity from the object"
  | AnotherObject => inr "failed retrieving identity from the object"
  end.

(** Two endpoints are under the same key exactly if their checksums are the same;
    an endpoint whose status has none yet is an error, which the store of client-go
    answers with a panic. *)
Theorem identityIndexFunc_spec a b :
  (a ≠ 0%Z → identityIndexFunc (AnEndpoint a) = identityIndexFunc (AnEndpoint b) ↔ a = b) ∧
  identityIndexFunc (AnEndpoint 0) = inr "failed retrieving identity from the object".
Proof.
  split; [|done]. intros Ha. unfold identityIndexFunc. rewrite (proj2 (Z.eqb_neq _ _) Ha). cbn [negb].
  destruct (Z.eqb_spec b 0) as [->|Hb]; cbn [negb]; [split; [done|congruence]|].
  split; [|by intros ->]. intros [= E]. by apply (inj pretty) in E.
Qed.

End resources.
